(* ===== verification/_CoqProject ===== *)
-Q . S2P
Prelude.v
GoRuntime.v
GoStrings.v
Api.v
FakeClient.v
Fixtures.v
Util.v
Service.v
Reconciler.v
GoOs.v
CsiTypes.v
CsiController.v
CsiNode.v
CsiNodeFiles.v
CsiNodePublish.v
CsiNodeSafety.v
CsiNodeRecovery.v
CsiNodeExamples.v
NodeVolumes.v
NodeVolumesExamples.v
Server.v
ServerRun.v
Interleaving.v
HandlerLogic.v
Concurrent.v
NoLostUpdate.v
ConcurrentExamples.v
StaleCache.v
CrashFree.v
Schema.v
StaleCacheExamples.v
Liveness.v
EndToEnd.v
EndToEndExamples.v
Controllers.v
Rbac.v
GoJson.v
Version.v
GoFlag.v
Driver.v
Dispatch.v
Process.v
Cmd.v
Plugin.v
Deployment.v
