(* ===== verification/Prelude.v ===== *)
(** * Verification of the Kubedoop listener-operator

    The repository holds two programs.  The operator (cmd/main.go) reconciles Listeners: for
    each it keeps a Service and publishes in the status how the Service is reached.  The CSI
    plugin (cmd/csiplugin/main.go) lets pods mount a Listener as a volume: provisioning
    copies the annotations of the claim to the volume, publishing creates the Listener when
    it is missing, labels the volume and the pod, records the addresses in PodListeners and
    writes them to a tmpfs.  The two meet in the cluster: the Listener the plugin creates is
    the one the operator reconciles, the label the plugin puts on the pod is the one the
    Service selects by, and the status the operator publishes is what the plugin writes.

    ** Files

    - [Prelude]: tactics, hint databases, lemmas on lists shared by the components.
    - [GoRuntime]: errors, panics and effects of Go.  [M S A] is a call over the state [S]
      that ends with a value, an error or a panic; the state reached is kept on errors.  Go
      maps are options ([None] is the nil map, which panics when written).
    - [GoStrings]: the functions of strings, strconv and path/filepath the code uses.
    - [GoOs]: the file system of the node: directories, files, links and mounts, with the
      kernel's path resolution, and MkdirAll, WriteFile, Symlink, Remove and RemoveAll.
    - [Api]: the Kubernetes objects as records and the API client as the class [Client], with
      the documented behaviour of the API server as the class [ApiServer]; controller-runtime,
      client-go and operator-go helpers as [ControllerUtil] and [OperatorGo] with their laws.
    - [FakeClient], [Fixtures]: an in-memory cluster that satisfies all these laws, and
      objects, for the witnesses.
    - [CsiTypes]: the messages of the CSI services.
    - [Util]: pkg/util (modules [Address], [Constant], [Net], [Log] for the four files).
    - [Service]: internal/controller/listener/service.go (modules [ServiceReconciler] and
      [ServiceAddress]).
    - [Reconciler]: internal/controller/listener/controller.go (module [ListenerReconciler]),
      and the two empty reconcilers of internal/controller.
    - [CsiController]: internal/csi/controller.go and constant.go (module [ControllerServer],
      and [Regexp] for the one pattern).
    - [CsiNode]: internal/csi/node.go (module [NodeServer]); its theorems are in
      [CsiNodeFiles] (the files), [CsiNodePublish] (publishing as a whole), [CsiNodeSafety]
      (panics, liveness, unpublishing) and [CsiNodeRecovery] (retries after a failure), their
      witnesses in [CsiNodeExamples]; [NodeVolumes], [NodeVolumesExamples]: the calls for many
      volumes of a node as a state machine.
    - [Server]: pkg/server/server.go (registration, the listener, Start, Stop, ForceStop, Wait) with
      the calls of Driver.Run as a concurrent program beside the remote calls; [ServerRun]: the
      states of one run of the driver; [Driver]: the construction of that server,
      internal/csi/driver.go and internal/csi/identity.go, over the class [Grpc]; [Dispatch]:
      the remote calls of the three registered services behind the log interceptor.
    - [Interleaving], [Concurrent]: the handlers call by call.  A handler is run against the
      answers it got so far ([replay]) until it needs the next one, so that several handlers
      and other clients interleave between calls; [NoLostUpdate] is what every interleaving
      keeps, [ConcurrentExamples] its witnesses.
    - [HandlerLogic]: a weakest-precondition calculus for handlers over recorded answers.
    - [StaleCache], [CrashFree], [Schema]: the interleaved handlers when their reads come from
      an informer cache: what their writes keep, that none panics, that every object they send
      is one of the schemas in config/crd/bases; [StaleCacheExamples] has the witnesses.
    - [Liveness]: the operator's loop on one Listener; [EndToEnd], [EndToEndExamples]: the
      plugin and the operator together, from the first mount to the published volume.
    - [Controllers]: the SetupWithManager functions, events and the work queue.
    - [Rbac]: the kubebuilder:rbac markers of the code and the roles of config/rbac and of the
      chart, against the calls the handlers can make.
    - [GoJson], [Version]: Go's JSON text of strings and internal/util/version.
    - [GoFlag], [Process]: Go's package flag, and processes that call libraries and exit.
    - [Cmd]: cmd/main.go (module [Operator]); [Plugin]: cmd/csiplugin/main.go (module
      [Plugin]), where the manager's goroutine and the driver are steps of one process.
    - [Deployment]: the arguments and the environment of the three containers in config and in
      the chart, run through the two programs.

    Definitions keep the names of the Go functions; helpers in lower case with underscores
    stand for a loop body or a closure of the function they are named in.  Log calls and
    contexts are left out.  A pointer or slice the code compares with nil is an option.

    ** What the theorems show

    - The operator's Service: [createService] converges in one step whatever the API server
      allocates ([createService_converges]), what it leaves conforms to the Listener and its
      class ([createService_settled]).
    - The status: a reconcile with nothing left to do has published what the specification
      [status_spec] says ([Reconcile_publishes]), and its other
      outcomes are proved too.
    - Provisioning: [CreateVolume] refines the function [provision] on the stored objects.
    - Publishing: [publication] is the abstract meaning of a published volume in the cluster,
      [layout] and [shows] that on the node; [NodePublishVolume] refines both, changes nothing
      else in the cluster.
      Unpublishing undoes it and never reports success on a mounted target; a publication that
      failed at any point can be undone and then repeated ([publish_recovers]).  Over any
      history of calls for any volumes no call touches another volume's files
      ([volumes_isolated]), and a node whose volumes are all unpublished is as it was
      ([node_left_clean]).
    - Between components: a volume context from [CreateVolume] never makes the node server
      panic; a published pod is selected by the Service the reconciler keeps.
    - The server: the wait group is exact and [closeListener] closes at most once in every
      interleaving; a cancelled driver shuts down when the pending calls return.  The plugin offers the calls its
      capabilities advertise ([capabilities_honest]) and fails with the status codes of
      [codes] only, but for the read of the volume ([rpc_error_codes]).
    - Interleavings: a handler that runs alone call by call does what its model says
      ([program_alone], a lemma), and handlers that run at the same time lose no update
      ([no_lost_update]).  With reads from a stale cache their writes still delete nothing and
      keep what others stored ([stale_writes_safe]), the node's calls still never panic
      ([concurrent_never_panics]), and objects of the schemas lead to objects of the schemas
      ([schema_preserved]).
    - Progress, for classes of type NodePort, or ClusterIP without a preference for IP addresses,
      with ports, hosts and Services as the theorems ask: a Listener is ready after at most two
      reconciles ([Listener_becomes_ready]), a
      change of a class reaches all its Listeners ([class_change_propagates]), a change of
      the endpoints reaches the Listener of the Service ([endpoint_change_propagates]), a volume
      that is mounted for the first time gets published ([volume_gets_published]).
    - The programs: the operator serves only when it is set up completely
      ([operator_starts_complete]) and as protected as its command line says
      ([operator_endpoints_protected], [command_line_roundtrip]); the plugin registers its
      three services before it listens ([Driver_Run_serves]), and its process exits with 0 only
      when everything it started is over, with 2 when a remote call panics ([plugin_process]); the version reads back ([version_roundtrip]).
    - The deployment: the programs have the rights for every call they can make
      ([programs_authorized]), and serve with the command lines they are given
      ([containers_serve]).
    - Defects found: [Reconcile_lb_panics], [Reconcile_nodeport_panics], [NodePublishVolume_panics],
      [publish_not_idempotent], [chart_metrics_unusable], [labelled_pv_not_enqueued].

    ** Assumptions and bounds

    Any call of the API client may fail; only theorems that promise progress assume
    [ReliableReads], and that objects that pass validation are accepted ([ReliableWrites],
    with [ReliableMounter] and [ReliableUnmount] for the mounter).  In the theorems on one handler
    reads see the current objects and no other client writes between its calls; [Concurrent] and [NoLostUpdate] drop this, with single calls atomic
    ([AtomicWrites]) and client-go's default number of retries ([DefaultRetries]; elsewhere
    [RetryOnConflict] is any finite number, [retried]).  In [StaleCache] a read is answered from
    any cluster there has been, and an update is accepted only of the object as it is stored, by
    its resource version.  [CrashFree] asks that the persistent volumes are bound, [Schema] that
    the stored objects have passed the validation of the API server.  System calls may fail too
    ([fs_faults]); [quiet] states that none is about to.  Path resolution follows at most 40
    links, as Linux does; the theorems on files assume clean absolute target paths without
    links and addresses and port names that can be file names, as Kubernetes validates them.
    Map iteration order is arbitrary ([MapRange]).  Integers are ports and sizes that are only copied and printed,
    so [Z] needs no wrap-around.  The server's calls need no fuel: termination is proved by
    the measure [cost], in which a pending remote call counts one step, its return; that a
    call returns is not proved, it depends on the API server and the system calls.  Operator-go's
    AnnotationListenerName is a parameter; [labelled_pv_not_enqueued] assumes the value that the
    end-to-end tests use.

    [reconcile_loop] and [work] take the number of reconciles they may use: the theorems show
    that two are enough.  Reading a JSON object takes its length as fuel, which bounds the
    number of its members.  What a library answers to a setup call, and the flags it registers,
    are parameters ([Environment], [LibraryFlags], [Build]); [ZapLevels] says that zap's level flag
    takes every positive number.  The volumes of [NodeVolumes] have targets of which none is
    inside another.  In [Rbac] reads go through an informer, and a star in a rule stands for
    everything; in [Deployment] the values of the chart hold no references to variables.

    ** Not modelled

    Logging (but for the interceptor), the internals of gRPC, controller-runtime and the other
    libraries above, types and deep copies of the API group (generated, or in operator-go),
    sidecars, probes and monitoring objects of the chart, roles for users and for leader
    election.  Of the Go files what no definition is mapped to is licence text, imports, comments,
    log calls and declarations without behaviour (embedded unimplemented servers, loggers).
    Time is not modelled: there are no back-off delays and no timeouts, and the theorems on
    progress count steps. *)
From stdpp Require Export base tactics option strings pretty fin_maps gmap list.

(** ** Tactics *)

(** Split every conjunction, existential and pair equation of the context. *)
Ltac destruct_all :=
  repeat match goal with
    | H : _ ∧ _ |- _ => destruct H
    | H : ∃ _, _ |- _ => destruct H
    | H : (_, _) = (_, _) |- _ => injection H as ??; subst
    | H : Some _ = Some _ |- _ => injection H as ?; subst
    end.

(** Case analysis on the [match] scrutinees and boolean tests of the goal. *)
Ltac split_goal :=
  repeat (case_match || case_decide || case_bool_decide); simplify_eq/=.

(** ** Hint databases *)

(** Facts about the effect monad and its state. *)
Create HintDb golang discriminated.
(** Facts about stored Kubernetes objects. *)
Create HintDb kube discriminated.
#[export] Hint Constants Opaque : golang kube.

(** ** Lists *)

(** The list a [for] loop builds that appends a converted element when a test holds. *)
Definition filter_map {A B} (f : A → option B) : list A → list B := omap f.

#[export] Instance filter_map_proper {A B} :
  Proper (pointwise_relation A (=) ==> (=) ==> (=)) (@filter_map A B).
Proof.
  intros f g Hfg l _ <-. unfold filter_map.
  induction l as [|x l IH]; csimpl; [done|]. by rewrite Hfg, IH.
Qed.

Section lists.
Context {A B : Type}.
Implicit Types (l : list A).

Lemma find_first_app (P : A → Prop) `{!∀ x, Decision (P x)} l1 x l2 :
  Forall (λ y, ¬ P y) l1 → P x → List.find (λ y, bool_decide (P y)) (l1 ++ x :: l2) = Some x.
Proof.
  induction 1 as [|y l1 Hy _ IH]; intros Hx; simpl.
  - by rewrite bool_decide_eq_true_2.
  - by rewrite bool_decide_eq_false_2, IH.
Qed.

Lemma find_Some_split (P : A → Prop) `{!∀ x, Decision (P x)} l x :
  List.find (λ y, bool_decide (P y)) l = Some x →
  P x ∧ ∃ l1 l2, l = l1 ++ x :: l2 ∧ Forall (λ y, ¬ P y) l1.
Proof.
  induction l as [|y l IH]; simpl; [done|].
  case_bool_decide as Hy.
  - intros [= ->]. split; [done|]. by exists [], l.
  - intros (Hx & l1 & l2 & -> & Hl1)%IH. split; [done|].
    exists (y :: l1), l2. by split; [|constructor].
Qed.

Lemma find_None (P : A → Prop) `{!∀ x, Decision (P x)} l :
  List.find (λ y, bool_decide (P y)) l = None ↔ Forall (λ y, ¬ P y) l.
Proof.
  induction l as [|y l IH]; simpl; [by split; [constructor|]|].
  case_bool_decide; rewrite Forall_cons_iff; naive_solver.
Qed.
(** The only element that satisfies the test is the one found. *)
Lemma find_unique (P : A → Prop) `{!∀ x, Decision (P x)} l x :
  x ∈ l → P x → (∀ y, y ∈ l → P y → y = x) → List.find (λ y, bool_decide (P y)) l = Some x.
Proof.
  induction l as [|y l IH]; [by intros ?%not_elem_of_nil|].
  intros Hin Hx Hu. simpl. case_bool_decide as Hy.
  - f_equal. apply Hu; [apply list_elem_of_here|done].
  - apply elem_of_cons in Hin as [->|Hin]; [done|].
    apply IH; [done..|]. intros z Hz. apply Hu. by apply list_elem_of_further.
Qed.

Lemma fmap_Forall2_eq (R : A → B → Prop) (f : A → B) l k :
  Forall2 R l k → (∀ x y, R x y → y ∈ k → f x = y) → f <$> l = k.
Proof.
  induction 1 as [|x y l k Hxy _ IH]; intros Hf; simpl; [done|]. f_equal.
  - apply Hf; [done|]. apply list_elem_of_here.
  - apply IH. intros x' y' Hr Hin. apply Hf; [done|]. by apply list_elem_of_further.
Qed.

(** Elements of a list are told apart by a key that has no duplicates. *)
Lemma NoDup_fmap_eq (f : A → B) l x y :
  NoDup (f <$> l) → x ∈ l → y ∈ l → f x = f y → x = y.
Proof.
  intros Hnd [i Hi]%list_elem_of_lookup [j Hj]%list_elem_of_lookup Hf.
  assert (i = j) as ->; [|congruence].
  eapply (NoDup_lookup _ i j (f x)); [done|by rewrite list_lookup_fmap, Hi|].
  by rewrite list_lookup_fmap, Hj, Hf.
Qed.
End lists.
