(* ===== verification/GoRuntime.v ===== *)
(** * The Go run time: errors, panics, effects and maps

    The Go functions of the repository return a value and an error, change state
    (the cluster, the file system) and may panic on a nil pointer.  This file gives
    the effect monad the models are written in. *)
From S2P Require Import Prelude.

(** ** Errors *)

(** The reason of an error of the Kubernetes API ([metav1.StatusReason]). *)
Inductive ApiReason :=
| NotFound
| AlreadyExists
| Conflict
| OtherReason (code : Z).

(** The gRPC status codes the CSI servers return ([google.golang.org/grpc/codes]). *)
Inductive Code :=
| InvalidArgument
| Internal
| Unavailable
| Unimplemented.

(** The operating-system errors of the file operations. *)
Inductive Errno :=
| ENOENT
| EEXIST
| ENOTDIR
| EISDIR
| EBUSY
| ELOOP
| ENOTEMPTY
| EINVAL
| EIO.

(** Errors and their texts.  A text is kept as the term that builds it: [err.Error()]
    is [ErrorOf err], so that no text of a library error has to be invented. *)
Inductive error :=
| ApiError (reason : ApiReason)                      (* an error of the API client *)
| StatusError (code : Code) (desc : message)         (* status.Error / status.Errorf *)
| New (text : message)                               (* errors.New / fmt.Errorf *)
| Wrap (text : message) (inner : error)              (* fmt.Errorf with %w *)
| PathError (path : string) (errno : Errno)          (* an error of package os *)
| MountError (text : string)                         (* an error of the mounter *)
| LibraryError (text : string)                       (* any other library error *)
with message :=
| Lit (s : string)                                   (* literal text and %s *)
| Quoted (s : string)                                (* %q *)
| ErrorOf (e : error)                                (* err.Error() and %v *)
| Cat (m1 m2 : message).

#[export] Instance ApiReason_eq_dec : EqDecision ApiReason.
Proof. solve_decision. Defined.
#[export] Instance Code_eq_dec : EqDecision Code.
Proof. solve_decision. Defined.
#[export] Instance Errno_eq_dec : EqDecision Errno.
Proof. solve_decision. Defined.

(** [apierrors.ReasonForError] looks through the [%w] wrappers. *)
Fixpoint reason_of (e : error) : option ApiReason :=
  match e with
  | ApiError r => Some r
  | Wrap _ e' => reason_of e'
  | _ => None
  end.

Definition IsNotFound (e : error) : bool := bool_decide (reason_of e = Some NotFound).
Definition IsAlreadyExists (e : error) : bool :=
  bool_decide (reason_of e = Some AlreadyExists).
Definition IsConflict (e : error) : bool := bool_decide (reason_of e = Some Conflict).

(** ** Results and effects *)

(** What a Go call ends with: its value, a non-nil error, or a run-time panic. *)
Inductive res (A : Type) : Type :=
| Ok (a : A)
| Fail (e : error)
| Panic.
Arguments Ok {A} a.
Arguments Fail {A} e.
Arguments Panic {A}.

(** A computation over the state [S]; the state reached is kept on errors too. *)
Definition M (S A : Type) : Type := S → S * res A.

#[export] Instance res_ret : MRet res := @Ok.
#[export] Instance res_bind : MBind res := λ A B f r,
  match r with
  | Ok a => f a
  | Fail e => Fail e
  | Panic => Panic
  end.

#[export] Instance M_ret {S} : MRet (M S) := λ A a s, (s, Ok a).
#[export] Instance M_bind {S} : MBind (M S) := λ A B f c s,
  match c s with
  | (s', Ok a) => f a s'
  | (s', Fail e) => (s', Fail e)
  | (s', Panic) => (s', Panic)
  end.

Definition fail {S A} (e : error) : M S A := λ s, (s, Fail e).
Definition lift {S A} (r : res A) : M S A := λ s, (s, r).

(** [*p]: a nil pointer panics. *)
Definition deref {A} (p : option A) : res A :=
  match p with Some a => Ok a | None => Panic end.

(** [v, err := c]: the error becomes a value the code tests. *)
Definition attempt {S A} (c : M S A) : M S (A + error) := λ s,
  match c s with
  | (s', Ok a) => (s', Ok (inl a))
  | (s', Fail e) => (s', Ok (inr e))
  | (s', Panic) => (s', Panic)
  end.

(** [if err != nil { return nil, f(err) }]. *)
Definition on_error {S A} (f : error → error) (c : M S A) : M S A := λ s,
  match c s with
  | (s', Fail e) => (s', Fail (f e))
  | r => r
  end.

(** The same for a function without effects. *)
Definition on_error_res {A} (f : error → error) (r : res A) : res A :=
  match r with Fail e => Fail (f e) | _ => r end.

(** [for _, x := range l { if err := f(x); err != nil { return err } }]. *)
Fixpoint for_each {S A} (f : A → M S ()) (l : list A) : M S () :=
  match l with
  | [] => mret ()
  | x :: l => f x ≫= λ _, for_each f l
  end.

(** The same loop collecting one value per element. *)
Fixpoint collect {S A B} (f : A → M S B) (l : list A) : M S (list B) :=
  match l with
  | [] => mret []
  | x :: l => y ← f x; ys ← collect f l; mret (y :: ys)
  end.

Fixpoint collect_res {A B} (f : A → res B) (l : list A) : res (list B) :=
  match l with
  | [] => Ok []
  | x :: l => y ← f x; ys ← collect_res f l; Ok (y :: ys)
  end.

(** ** Reasoning about runs *)

Section runs.
Context {S : Type}.

Lemma bind_Ok_inv {A B} (f : A → M S B) (c : M S A) s s' b :
  (c ≫= f) s = (s', Ok b) ↔ ∃ a s1, c s = (s1, Ok a) ∧ f a s1 = (s', Ok b).
Proof. unfold mbind, M_bind. destruct (c s) as [s1 []]; naive_solver. Qed.

(** Running on after a step whose result is known. *)
Lemma bind_step {A B} (f : A → M S B) (c : M S A) s s1 a :
  c s = (s1, Ok a) → (c ≫= f) s = f a s1.
Proof. unfold mbind, M_bind. by intros ->. Qed.

Lemma bind_fail {A B} (f : A → M S B) (c : M S A) s s1 e :
  c s = (s1, Fail e) → (c ≫= f) s = (s1, Fail e).
Proof. unfold mbind, M_bind. by intros ->. Qed.

Lemma bind_panic {A B} (f : A → M S B) (c : M S A) s s1 :
  c s = (s1, Panic) → (c ≫= f) s = (s1, Panic).
Proof. unfold mbind, M_bind. by intros ->. Qed.

Lemma ret_Ok_inv {A} (a b : A) (s s' : S) :
  (mret a : M S A) s = (s', Ok b) ↔ s' = s ∧ b = a.
Proof. unfold mret, M_ret. naive_solver. Qed.

Lemma lift_Ok_inv {A} (r : res A) (s s' : S) b :
  lift r s = (s', Ok b) ↔ s' = s ∧ r = Ok b.
Proof. unfold lift. naive_solver. Qed.

Lemma on_error_Ok {A} f (c : M S A) s s' b :
  on_error f c s = (s', Ok b) ↔ c s = (s', Ok b).
Proof. unfold on_error. destruct (c s) as [? []]; naive_solver. Qed.

Lemma attempt_Ok_inv {A} (c : M S A) s s' r :
  attempt c s = (s', Ok r) ↔
  match r with inl a => c s = (s', Ok a) | inr e => c s = (s', Fail e) end.
Proof. unfold attempt. destruct (c s) as [? []], r; naive_solver. Qed.

Lemma attempt_inv {A} (c : M S A) s s' r :
  attempt c s = (s', r) →
  match r with
  | Ok (inl a) => c s = (s', Ok a)
  | Ok (inr e) => c s = (s', Fail e)
  | Fail _ => False
  | Panic => c s = (s', Panic)
  end.
Proof. unfold attempt. destruct (c s) as [? []]; intros [= <- <-]; done. Qed.

Lemma bind_inv {A B} (f : A → M S B) (c : M S A) s s' r :
  (c ≫= f) s = (s', r) →
  (∃ a s1, c s = (s1, Ok a) ∧ f a s1 = (s', r)) ∨
  (∃ e, c s = (s', Fail e) ∧ r = Fail e) ∨ (c s = (s', Panic) ∧ r = Panic).
Proof. unfold mbind, M_bind. destruct (c s) as [s1 []]; naive_solver. Qed.

(** A loop over calls that do not change the state. *)
Lemma collect_reads {A B} (f : A → M S B) l s s' ys :
  (∀ x s1 y, f x s = (s1, Ok y) → s1 = s) →
  collect f l s = (s', Ok ys) → s' = s ∧ Forall2 (λ x y, f x s = (s, Ok y)) l ys.
Proof.
  intros Hf. revert ys. induction l as [|x l IH]; intros ys; simpl.
  - intros [-> ->]%ret_Ok_inv. by split.
  - intros (y & s1 & Hx & (ys' & s2 & Hc & [-> ->]%ret_Ok_inv)%bind_Ok_inv)%bind_Ok_inv.
    pose proof (Hf _ _ _ Hx) as ->. apply IH in Hc as [-> Hall].
    split; [done|]. by constructor.
Qed.

(** A run is known by its outcome: the state it reached need not be computed. *)
Lemma run_outcome {A} (c : M S A) s r : (c s).2 = r → c s = ((c s).1, r).
Proof. intros <-. apply surjective_pairing. Qed.

Lemma on_error_step {A} f (c : M S A) s s1 a :
  c s = (s1, Ok a) → on_error f c s = (s1, Ok a).
Proof. by rewrite on_error_Ok. Qed.

Lemma on_error_fail {A} f (c : M S A) s s1 e :
  c s = (s1, Fail e) → on_error f c s = (s1, Fail (f e)).
Proof. unfold on_error. by intros ->. Qed.

Lemma fail_Ok_inv {A} e (s s' : S) (b : A) : fail e s = (s', Ok b) ↔ False.
Proof. unfold fail. naive_solver. Qed.
End runs.

Lemma res_bind_Ok {A B} (f : A → res B) r b :
  (r ≫= f) = Ok b ↔ ∃ a, r = Ok a ∧ f a = Ok b.
Proof. unfold mbind, res_bind. destruct r; naive_solver. Qed.

Lemma collect_res_Ok {A B} (f : A → res B) l ys :
  collect_res f l = Ok ys ↔ Forall2 (λ x y, f x = Ok y) l ys.
Proof.
  split.
  - revert ys; induction l as [|x l IH]; simpl; intros ys.
    + intros [= <-]. constructor.
    + intros (y & Hy & (ys' & Hys & [= <-])%res_bind_Ok)%res_bind_Ok. constructor; auto.
  - induction 1 as [|x y l ys Hy _ IH]; simpl; [done|]. by rewrite Hy, IH.
Qed.

(** A loop whose body never returns an error panics as soon as one element does. *)
Lemma collect_total {S A B} (f : A → M S B) l s :
  (∀ x, x ∈ l → ∃ y, f x s = (s, Ok y)) → ∃ ys, collect f l s = (s, Ok ys).
Proof.
  induction l as [|x l IH]; intros Hf; [by exists []|]. simpl.
  destruct (Hf x) as [y Hy]; [apply list_elem_of_here|].
  destruct IH as [ys Hys]; [intros; apply Hf; by apply list_elem_of_further|].
  exists (y :: ys). by rewrite (bind_step _ _ _ _ _ Hy), (bind_step _ _ _ _ _ Hys).
Qed.

Lemma collect_res_Panic {A B} (f : A → res B) l x :
  (∀ y e, f y ≠ Fail e) → x ∈ l → f x = Panic → collect_res f l = Panic.
Proof.
  intros Hf Hin Hx. assert (∀ k e, collect_res f k ≠ Fail e) as Hk.
  { induction k as [|y k IH]; simpl; [done|]. intros e.
    specialize (Hf y). destruct (f y); simpl; try done; [|by destruct (Hf e0)].
    unfold mbind, res_bind. specialize (IH e). by destruct (collect_res f k). }
  induction l as [|y l IH]; [by apply not_elem_of_nil in Hin|]. simpl.
  apply elem_of_cons in Hin as [->|Hin]; [by rewrite Hx|].
  specialize (Hf y). destruct (f y) as [|e|]; simpl; [|by destruct (Hf e)|done].
  by rewrite IH.
Qed.

Lemma deref_Ok {A} (p : option A) a : deref p = Ok a ↔ p = Some a.
Proof. destruct p; naive_solver. Qed.

(** [run_inv H]: turn a successful run into the runs of its parts. *)
Ltac run_inv_step H :=
  first
    [ rewrite bind_Ok_inv in H;
      let a := fresh "r" in let s := fresh "s" in let H1 := fresh "Hrun" in
      destruct H as (a & s & H1 & H); run_inv_step H1
    | rewrite on_error_Ok in H; run_inv_step H
    | rewrite lift_Ok_inv in H; destruct H as [-> H]
    | rewrite ret_Ok_inv in H; destruct H as [-> ->]
    | rewrite fail_Ok_inv in H; destruct H
    | idtac ].
Ltac run_inv H := repeat (progress (run_inv_step H)).

(** ** Maps *)

(** A Go map with string keys.  [None] is the nil map: reading it gives nothing,
    writing to it panics. *)
Notation gomap V := (option (gmap string V)).

Definition map_entries {V} (m : gomap V) : gmap string V := default ∅ m.
Definition map_get {V} (m : gomap V) (k : string) : option V := map_entries m !! k.
Definition map_len {V} (m : gomap V) : nat := size (map_entries m).

(** [m[k] = v]. *)
Definition map_set {V} (m : gomap V) (k : string) (v : V) : res (gomap V) :=
  match m with Some m => Ok (Some (<[k := v]> m)) | None => Panic end.

(** [if m == nil { m = map[string]V{} }]. *)
Definition ensure_map {V} (m : gomap V) : gomap V :=
  match m with Some m => Some m | None => Some ∅ end.

(** [maps.Copy(dst, src)]: every key of [src] is written to [dst]. *)
Definition maps_Copy {V} (dst src : gomap V) : res (gomap V) :=
  match dst with
  | Some d => Ok (Some (map_entries src ∪ d))
  | None => if bool_decide (map_entries src = ∅) then Ok None else Panic
  end.

Lemma map_get_set {V} (m m' : gomap V) k v k' :
  map_set m k v = Ok m' → map_get m' k' = if decide (k = k') then Some v else map_get m k'.
Proof.
  destruct m; simpl; intros; simplify_eq. unfold map_get; simpl.
  by rewrite lookup_insert.
Qed.

Lemma maps_Copy_get {V} (dst src dst' : gomap V) k :
  maps_Copy dst src = Ok dst' →
  map_get dst' k = match map_get src k with Some v => Some v | None => map_get dst k end.
Proof.
  destruct dst as [d|]; simpl; intros H; [|case_bool_decide as He]; simplify_eq;
    unfold map_get in *; simpl.
  - rewrite lookup_union. by destruct (map_entries src !! k), (d !! k).
  - by rewrite He, lookup_empty.
Qed.

(** The iteration order of [range] over a map is unspecified: every model of such a
    loop takes an enumeration of the map. *)
Class MapRange := {
  map_range : ∀ V : Type, gmap string V → list (string * V);
  map_range_perm : ∀ V (m : gmap string V), map_range V m ≡ₚ map_to_list m;
}.
Arguments map_range {_ V} m.
Arguments map_range_perm {_ V} m.
