(* ===== verification/GoStrings.v ===== *)
(** * Go's [strings], [strconv] and [path/filepath]

    The string functions of Go's standard library that the repository calls, on byte
    strings, with the lemmas the components need. *)
From S2P Require Import Prelude.
From Stdlib Require Import Ascii.

(** ** Package strings *)

Definition slash : ascii := "/".

(** [strings.HasPrefix(s, p)]. *)
Definition HasPrefix (s p : string) : bool := String.prefix p s.

Fixpoint string_drop (n : nat) (s : string) : string :=
  match n, s with
  | S n, String _ s => string_drop n s
  | _, _ => s
  end.

(** [strings.TrimPrefix(s, p)]. *)
Definition TrimPrefix (s p : string) : string :=
  if HasPrefix s p then string_drop (String.length p) s else s.

(** [strings.SplitN(s, sep, 2)] for a non-empty [sep]: cut at the first occurrence. *)
Fixpoint cut (sep s : string) : option (string * string) :=
  if HasPrefix s sep then Some ("", string_drop (String.length sep) s)
  else match s with
       | "" => None
       | String c s' =>
         match cut sep s' with
         | Some (before, after) => Some (String c before, after)
         | None => None
         end
       end.
Definition SplitN2 (s sep : string) : list string :=
  match cut sep s with
  | Some (before, after) => [before; after]
  | None => [s]
  end.

(** [strings.ReplaceAll(s, old, new)] for a one-byte [old]. *)
Fixpoint ReplaceAll (s : string) (old : ascii) (new : string) : string :=
  match s with
  | "" => ""
  | String c s' =>
    if Ascii.eqb c old then new +:+ ReplaceAll s' old new
    else String c (ReplaceAll s' old new)
  end.

Definition to_lower_ascii (c : ascii) : ascii :=
  let n := nat_of_ascii c in
  if (65 <=? n)%nat && (n <=? 90)%nat then ascii_of_nat (n + 32) else c.

(** [strings.ToLower].  ASCII letters are mapped; so are the two letters outside ASCII
    whose lower case is an ASCII letter, U+0130 (bytes C4 B0, lower case [i]) and U+212A
    (bytes E2 84 AA, lower case [k]).  The other non-ASCII bytes are kept: the lower
    case of such a letter is never an ASCII byte, which is all that the repository's only
    use, a test for an ASCII prefix, looks at. *)
Fixpoint ToLower (s : string) : string :=
  match s with
  | "" => ""
  | String c s1 =>
    let one_byte := String (to_lower_ascii c) (ToLower s1) in
    match s1 with
    | "" => one_byte
    | String c1 s2 =>
      if Ascii.eqb c "196" && Ascii.eqb c1 "176" then String "i" (ToLower s2)
      else match s2 with
           | "" => one_byte
           | String c2 s3 =>
             if Ascii.eqb c "226" && Ascii.eqb c1 "132" && Ascii.eqb c2 "170"
             then String "k" (ToLower s3) else one_byte
           end
    end
  end.

(** [strconv.Itoa]. *)
Definition Itoa (n : Z) : string := pretty n.

(** ** Package path/filepath *)

(** The segments of [s] between the separators [c]: [n] separators give [n+1] segments. *)
Fixpoint split_on (c : ascii) (s : string) : list string :=
  match s with
  | "" => [""]
  | String a s' =>
    if Ascii.eqb a c then "" :: split_on c s'
    else match split_on c s' with
         | seg :: segs => String a seg :: segs
         | [] => [String a ""]
         end
  end.

(** [strings.Join(segs, "/")]. *)
Fixpoint join_slash (segs : list string) : string :=
  match segs with
  | [] => ""
  | [seg] => seg
  | seg :: segs => seg +:+ String slash (join_slash segs)
  end.

(** A lexical path: whether it is rooted, and its elements. *)
Definition path : Type := bool * list string.

(** One element of [filepath.Clean]'s scan; [acc] is the output so far, last first. *)
Definition clean_step (rooted : bool) (acc : list string) (seg : string) : list string :=
  if bool_decide (seg = "") || bool_decide (seg = ".") then acc
  else if bool_decide (seg = "..") then
    match acc with
    | [] => if rooted then [] else [".."]
    | top :: acc' => if bool_decide (top = "..") then ".." :: acc else acc'
    end
  else seg :: acc.

Definition clean_segs (rooted : bool) (segs : list string) : list string :=
  rev (fold_left (clean_step rooted) segs []).

Definition is_rooted (s : string) : bool := HasPrefix s "/".

(** The lexical path a path string denotes. *)
Definition path_of (s : string) : path :=
  (is_rooted s, clean_segs (is_rooted s) (split_on slash s)).

Definition print_path (p : path) : string :=
  if p.1 then String slash (join_slash p.2)
  else match p.2 with [] => "." | segs => join_slash segs end.

(** [filepath.Clean]. *)
Definition Clean (s : string) : string := print_path (path_of s).

(** [filepath.Join]: leading empty elements are dropped, the rest is joined and cleaned. *)
Fixpoint Join (elems : list string) : string :=
  match elems with
  | [] => ""
  | "" :: elems => Join elems
  | elems => Clean (join_slash elems)
  end.

(** A name that is one ordinary path element. *)
Definition plain (s : string) : Prop :=
  s ≠ "" ∧ s ≠ "." ∧ s ≠ ".." ∧ slash ∉ String.list_ascii_of_string s.
#[export] Instance plain_dec s : Decision (plain s).
Proof. unfold plain. apply _. Defined.

(** ** Lemmas on prefixes and cuts *)

Lemma string_app_cons c (s1 s2 : string) : String c s1 +:+ s2 = String c (s1 +:+ s2).
Proof. done. Qed.

Lemma string_app_nil_l (s : string) : "" +:+ s = s.
Proof. done. Qed.

Lemma string_app_nil_r (s : string) : s +:+ "" = s.
Proof. induction s as [|c s IH]; simpl; [done|]. by rewrite string_app_cons, IH. Qed.

Lemma string_app_assoc (s1 s2 s3 : string) : s1 +:+ (s2 +:+ s3) = (s1 +:+ s2) +:+ s3.
Proof. induction s1 as [|c s1 IH]; [done|]. by rewrite !string_app_cons, IH. Qed.

Lemma string_app_inj_l (s s1 s2 : string) : s +:+ s1 = s +:+ s2 → s1 = s2.
Proof. induction s as [|c s IH]; [done|]. rewrite !string_app_cons. naive_solver. Qed.

Lemma HasPrefix_spec s p : HasPrefix s p = true ↔ ∃ t, s = p +:+ t.
Proof.
  unfold HasPrefix. revert s; induction p as [|c p IH]; intros s; simpl.
  - destruct s; naive_solver.
  - destruct s as [|d s]; simpl; [naive_solver|].
    destruct (ascii_dec c d) as [->|Hne].
    + rewrite IH. split; intros [t Ht]; exists t; rewrite ?string_app_cons in *; congruence.
    + split; [done|]. intros [t Ht]. rewrite string_app_cons in Ht. congruence.
Qed.

Lemma string_drop_app p t : string_drop (String.length p) (p +:+ t) = t.
Proof. induction p as [|c p IH]; [by destruct t|]. by rewrite string_app_cons. Qed.

Lemma TrimPrefix_empty p : TrimPrefix "" p = "".
Proof. unfold TrimPrefix. destruct (HasPrefix "" p), p; done. Qed.
Lemma TrimPrefix_app p t : TrimPrefix (p +:+ t) p = t.
Proof.
  unfold TrimPrefix. replace (HasPrefix (p +:+ t) p) with true.
  - apply string_drop_app.
  - symmetry. apply HasPrefix_spec. eauto.
Qed.

Lemma cut_Some sep s before after : cut sep s = Some (before, after) → s = before +:+ (sep +:+ after).
Proof.
  revert before. induction s as [|c s IH]; intros before; cbn [cut];
    match goal with |- context [HasPrefix ?t sep] => destruct (HasPrefix t sep) eqn:Hp end.
  - apply HasPrefix_spec in Hp as [t Ht]. intros [= <- <-]. by destruct sep.
  - done.
  - apply HasPrefix_spec in Hp as [t Ht]. intros [= <- <-].
    rewrite Ht. by rewrite string_drop_app.
  - destruct (cut sep s) as [[b a]|]; intros [= <- <-].
    rewrite string_app_cons. f_equal. by apply IH.
Qed.

(** The cut is at the first occurrence: no occurrence starts inside [before]. *)
Lemma cut_first sep s before after :
  cut sep s = Some (before, after) →
  ∀ b1 b2, before = b1 +:+ b2 → b2 ≠ "" → HasPrefix (b2 +:+ (sep +:+ after)) sep = false.
Proof.
  revert before. induction s as [|c s IH]; intros before; cbn [cut];
    match goal with |- context [HasPrefix ?t sep] => destruct (HasPrefix t sep) eqn:Hp end;
    try done.
  1,2: intros [= <- <-] [|] [|] ?; done.
  destruct (cut sep s) as [[b a]|] eqn:Hc; intros [= <- <-] b1 b2 Hb Hne.
  destruct b1 as [|d b1].
  - rewrite string_app_nil_l in Hb; subst b2. rewrite string_app_cons.
    by rewrite <- (cut_Some _ _ _ _ Hc).
  - rewrite string_app_cons in Hb. injection Hb as -> Hb.
    eapply IH; eauto.
Qed.

Lemma cut_None sep s : cut sep s = None ↔ ∀ b a, s ≠ b +:+ (sep +:+ a).
Proof.
  split.
  - induction s as [|c s IH]; cbn [cut];
      match goal with |- context [HasPrefix ?t sep] => destruct (HasPrefix t sep) eqn:Hp end;
      try done; intros Hn b a Hs.
    + destruct b; [|done]. rewrite string_app_nil_l in Hs.
      rewrite (proj2 (HasPrefix_spec _ _)) in Hp; [done|eauto].
    + destruct (cut sep s) as [[]|] eqn:Hc; [done|].
      destruct b as [|d b].
      * rewrite (proj2 (HasPrefix_spec _ _)) in Hp; [done|eauto].
      * rewrite string_app_cons in Hs. injection Hs as -> Hs. by eapply IH.
  - intros Hno. destruct (cut sep s) as [[b a]|] eqn:Hc; [|done].
    by apply cut_Some, Hno in Hc.
Qed.

(** ** Lemmas on paths *)

Notation no_slash s := (slash ∉ String.list_ascii_of_string s).

Lemma split_on_nonempty c s : split_on c s ≠ [].
Proof. destruct s as [|a s]; simpl; [done|]. by destruct (Ascii.eqb a c), (split_on c s). Qed.

Lemma split_on_app c s1 s2 :
  split_on c (s1 +:+ String c s2) = split_on c s1 ++ split_on c s2.
Proof.
  induction s1 as [|a s1 IH]; rewrite ?string_app_nil_l, ?string_app_cons; simpl.
  - by rewrite Ascii.eqb_refl.
  - rewrite IH. destruct (Ascii.eqb a c); [done|].
    pose proof (split_on_nonempty c s1). by destruct (split_on c s1).
Qed.

Lemma split_on_plain s : no_slash s → split_on slash s = [s].
Proof.
  induction s as [|a s IH]; simpl; [done|].
  rewrite not_elem_of_cons. intros [Ha Hs].
  destruct (Ascii.eqb_spec a slash) as [->|_]; [done|]. by rewrite IH.
Qed.

Lemma split_on_no_slash s : Forall (λ seg, no_slash seg) (split_on slash s).
Proof.
  induction s as [|a s IH]; simpl; [by repeat constructor; set_solver|].
  destruct (Ascii.eqb_spec a slash) as [|Ha]; [by constructor; [set_solver|]|].
  destruct (split_on slash s) as [|seg segs].
  - constructor; [|done]. simpl. set_solver.
  - apply Forall_cons_iff in IH as [Hseg ?]. constructor; [|done].
    simpl. set_solver.
Qed.

Lemma split_join segs :
  Forall (λ seg, no_slash seg) segs → segs ≠ [] → split_on slash (join_slash segs) = segs.
Proof.
  induction 1 as [|seg segs Hseg Hsegs IH]; [done|]. intros _.
  destruct segs as [|seg' segs]; [by apply split_on_plain|].
  cbn [join_slash]. rewrite split_on_app, split_on_plain by done. simpl.
  f_equal. by apply IH.
Qed.

Lemma join_slash_app t names :
  names ≠ [] → join_slash (t :: names) = t +:+ String slash (join_slash names).
Proof. by destruct names. Qed.

(** The shape of a cleaned path: [..] elements first (none when it is rooted), then
    ordinary names. *)
Definition normal (rooted : bool) (segs : list string) : Prop :=
  ∃ n l, segs = replicate n ".." ++ l ∧ Forall plain l ∧ (rooted = true → n = 0).

(** The same for the reversed output of the scan. *)
Definition normal_rev (rooted : bool) (acc : list string) : Prop :=
  ∃ n l, acc = l ++ replicate n ".." ∧ Forall plain l ∧ (rooted = true → n = 0).

Lemma replicate_snoc {A} n (x : A) : replicate n x ++ [x] = x :: replicate n x.
Proof. by rewrite <- replicate_S_end, replicate_S. Qed.

Lemma clean_step_normal rooted acc seg :
  no_slash seg → normal_rev rooted acc → normal_rev rooted (clean_step rooted acc seg).
Proof.
  intros Hseg (n & l & -> & Hl & Hn). unfold clean_step.
  destruct (bool_decide_reflect (seg = "")), (bool_decide_reflect (seg = ".")); simpl;
    [by exists n, l..|].
  case_bool_decide as Hdd.
  - destruct l as [|top l]; simpl.
    + destruct n as [|n]; simpl.
      * destruct rooted; [by exists 0, []|]. by exists 1, [].
      * exists (S (S n)), []. repeat split; [done|]. by intros ?%Hn.
    + apply Forall_cons_iff in Hl as [(?&?&Hp&?) Hl]. rewrite bool_decide_eq_false_2 by done.
      by exists n, l.
  - exists n, (seg :: l). repeat split; [|done]. constructor; [|done]. done.
Qed.

Lemma clean_fold_normal rooted segs acc :
  Forall (λ seg, no_slash seg) segs → normal_rev rooted acc →
  normal_rev rooted (fold_left (clean_step rooted) segs acc).
Proof.
  intros Hsegs; revert acc; induction Hsegs as [|seg segs Hseg _ IH]; intros acc Hacc; [done|].
  simpl. by apply IH, clean_step_normal.
Qed.

Lemma rev_replicate {A} n (x : A) : rev (replicate n x) = replicate n x.
Proof.
  induction n as [|n IH]; simpl; [done|]. rewrite IH. by rewrite replicate_snoc.
Qed.

Lemma clean_segs_normal rooted segs :
  Forall (λ seg, no_slash seg) segs → normal rooted (clean_segs rooted segs).
Proof.
  intros Hsegs. unfold clean_segs.
  destruct (clean_fold_normal rooted segs [] Hsegs) as (n & l & -> & Hl & Hn); [by exists 0, []|].
  exists n, (rev l). rewrite rev_app_distr, rev_replicate.
  split; [done|]. split; [by apply Forall_rev|done].
Qed.

Lemma clean_fold_plain rooted segs acc :
  Forall plain segs → fold_left (clean_step rooted) segs acc = rev segs ++ acc.
Proof.
  intros Hsegs; revert acc. induction Hsegs as [|seg segs (?&?&?&?) _ IH]; intros acc; [done|].
  simpl. rewrite IH. unfold clean_step. repeat rewrite bool_decide_eq_false_2 by done.
  simpl. by rewrite <- app_assoc.
Qed.

Lemma clean_fold_dotdot n m :
  fold_left (clean_step false) (replicate n "..") (replicate m "..") = replicate (n + m) "..".
Proof.
  revert m; induction n as [|n IH]; intros m; [done|].
  simpl. replace (clean_step false (replicate m "..") "..") with (replicate (S m) "..").
  - rewrite IH. by rewrite Nat.add_succ_r.
  - by destruct m.
Qed.

Lemma clean_segs_app_plain rooted segs names :
  Forall plain names → clean_segs rooted (segs ++ names) = clean_segs rooted segs ++ names.
Proof.
  intros Hn. unfold clean_segs.
  rewrite fold_left_app, clean_fold_plain by done.
  by rewrite rev_app_distr, rev_involutive.
Qed.

Lemma clean_segs_id rooted segs : normal rooted segs → clean_segs rooted segs = segs.
Proof.
  intros (n & l & -> & Hl & Hn). rewrite clean_segs_app_plain by done. f_equal.
  destruct n as [|n]; [done|]. destruct rooted; [by discriminate Hn|].
  unfold clean_segs. change (@nil string) with (replicate 0 "..").
  rewrite clean_fold_dotdot, rev_replicate. by rewrite Nat.add_0_r.
Qed.

Lemma plain_no_slash s : plain s → no_slash s.
Proof. by intros (?&?&?&?). Qed.

Lemma normal_no_slash rooted segs : normal rooted segs → Forall (λ seg, no_slash seg) segs.
Proof.
  intros (n & l & -> & Hl & _). apply Forall_app_2.
  - apply Forall_replicate. set_solver.
  - eapply Forall_impl; [exact Hl|]. apply plain_no_slash.
Qed.

Lemma normal_nonempty rooted segs seg : normal rooted segs → seg ∈ segs → seg ≠ "".
Proof.
  intros (n & l & -> & Hl & _) [Hin|Hin]%elem_of_app.
  - apply elem_of_replicate in Hin as [-> _]. done.
  - by apply (proj1 (Forall_forall _ _) Hl) in Hin as (?&?&?&?).
Qed.

Lemma not_rooted_join segs :
  Forall (λ seg, no_slash seg) segs → (∀ seg, seg ∈ segs → seg ≠ "") →
  is_rooted (join_slash segs) = false.
Proof.
  intros Hno Hne. destruct segs as [|seg segs]; [done|].
  assert (∃ c s, seg = String c s ∧ c ≠ slash) as (c & s & -> & Hc).
  { apply Forall_cons_iff in Hno as [Hno _].
    destruct seg as [|c s]; [exfalso; apply (Hne ""); [set_solver|done]|].
    exists c, s. split; [done|]. simpl in Hno. set_solver. }
  assert (∃ s', join_slash (String c s :: segs) = String c s') as [s' ->].
  { destruct segs; simpl; [eauto|]. rewrite string_app_cons. eauto. }
  apply not_true_is_false. intros [t Ht]%HasPrefix_spec. by injection Ht as ->.
Qed.

Lemma print_relative segs : segs ≠ [] → print_path (false, segs) = join_slash segs.
Proof. by destruct segs. Qed.

(** A printed lexical path in normal form reads back as itself. *)
Lemma path_of_print p : normal p.1 p.2 → path_of (print_path p) = p.
Proof.
  destruct p as [rooted segs]; simpl. intros Hn.
  pose proof (normal_no_slash _ _ Hn) as Hno.
  destruct rooted; unfold path_of.
  - unfold print_path; simpl. replace (is_rooted _) with true by (by destruct (join_slash segs)).
    f_equal. destruct (decide (segs = [])) as [->|Hne]; [done|].
    rewrite split_join by done. simpl.
    unfold clean_segs. simpl. by apply (clean_segs_id true).
  - destruct (decide (segs = [])) as [->|Hne]; [done|].
    rewrite print_relative by done.
    rewrite not_rooted_join; [|done|by intros; eapply normal_nonempty].
    f_equal. rewrite split_join by done. by apply clean_segs_id.
Qed.

Lemma path_of_normal s : normal (path_of s).1 (path_of s).2.
Proof. apply clean_segs_normal, split_on_no_slash. Qed.

(** [filepath.Clean] is idempotent. *)
Lemma Clean_idem s : Clean (Clean s) = Clean s.
Proof. unfold Clean. rewrite path_of_print; [done|]. apply path_of_normal. Qed.

Lemma path_of_Clean s : path_of (Clean s) = path_of s.
Proof. apply path_of_print, path_of_normal. Qed.

Lemma is_rooted_app s t : s ≠ "" → is_rooted (s +:+ t) = is_rooted s.
Proof.
  destruct s as [|c s]; [done|]. intros _. apply eq_true_iff_eq.
  unfold is_rooted. rewrite !HasPrefix_spec.
  split; intros [u Hu]; [exists s|exists (s +:+ t)]; by injection Hu as ->.
Qed.

(** Joining plain names to a path appends them to its elements. *)
Lemma path_of_Join t names :
  t ≠ "" → Forall plain names →
  path_of (Join (t :: names)) = ((path_of t).1, (path_of t).2 ++ names).
Proof.
  intros Ht Hn. replace (Join (t :: names)) with (Clean (join_slash (t :: names)))
    by (by destruct t).
  rewrite path_of_Clean. unfold path_of.
  destruct (decide (names = [])) as [->|Hne]; cbn [fst snd]; [by rewrite app_nil_r|].
  rewrite join_slash_app by done.
  rewrite is_rooted_app by done. f_equal.
  rewrite split_on_app, split_join; [|eapply Forall_impl; [exact Hn|apply plain_no_slash]|done].
  by rewrite clean_segs_app_plain.
Qed.

(** ** Lemmas on lower case *)

Lemma Ascii_eqb_true a b : Ascii.eqb a b = true → a = b.
Proof. apply Ascii.eqb_eq. Qed.

(** The shapes of the first letter of a non-empty string. *)
Lemma ToLower_cases c s :
  (∃ s', c = "196"%char ∧ s = String "176" s' ∧ ToLower (String c s) = String "i" (ToLower s')) ∨
  (∃ s', c = "226"%char ∧ s = String "132" (String "170" s') ∧
         ToLower (String c s) = String "k" (ToLower s')) ∨
  ToLower (String c s) = String (to_lower_ascii c) (ToLower s).
Proof.
  destruct s as [|c1 s]; [by right; right|].
  destruct (Ascii.eqb c "196" && Ascii.eqb c1 "176") eqn:H1.
  { left. exists s. pose proof H1 as [->%Ascii_eqb_true ->%Ascii_eqb_true]%andb_true_iff.
    by repeat split. }
  right. destruct s as [|c2 s]; [right; cbn [ToLower]; by rewrite H1|].
  destruct (Ascii.eqb c "226" && Ascii.eqb c1 "132" && Ascii.eqb c2 "170") eqn:H2.
  - left. exists s.
    pose proof H2 as [[->%Ascii_eqb_true ->%Ascii_eqb_true]%andb_true_iff
                      ->%Ascii_eqb_true]%andb_true_iff. by repeat split.
  - right. cbn [ToLower]. by rewrite H1, H2.
Qed.

Lemma ToLower_cons c s :
  nat_of_ascii c < 128 → ToLower (String c s) = String (to_lower_ascii c) (ToLower s).
Proof.
  intros Hc. destruct (ToLower_cases c s) as [(s' & -> & _)|[(s' & -> & _)|Ha]];
    [vm_compute in Hc; lia..|done].
Qed.

(** Lower case of a string cut before an ASCII byte. *)
Lemma ToLower_app s c t :
  nat_of_ascii c < 128 →
  ToLower (s +:+ String c t) = ToLower s +:+ ToLower (String c t).
Proof.
  intros Hc. induction s as [s IH] using (well_founded_induction
    (Wf_nat.well_founded_ltof _ String.length)); unfold Wf_nat.ltof in IH.
  destruct s as [|a s]; [done|].
  destruct (ToLower_cases a s) as [(s' & -> & -> & ->)|[(s' & -> & -> & ->)|Ha]].
  - rewrite !string_app_cons. rewrite <- IH by (simpl; lia). done.
  - rewrite !string_app_cons. rewrite <- IH by (simpl; lia). done.
  - rewrite Ha, !string_app_cons. rewrite <- IH by (simpl; lia).
    destruct (ToLower_cases a (s +:+ String c t)) as [(s' & -> & Hs & H1)|[(s' & -> & Hs & H1)|H1]].
    + destruct s as [|a1 s]; [injection Hs as -> _; vm_compute in Hc; lia|].
      rewrite string_app_cons in Hs. injection Hs as -> _. done.
    + destruct s as [|a1 [|a2 s]]; [injection Hs as -> _; vm_compute in Hc; lia| |].
      * injection Hs as _ -> _. vm_compute in Hc; lia.
      * rewrite !string_app_cons in Hs. injection Hs as -> -> _. done.
    + done.
Qed.

(** A byte of the result that is no letter was already in the argument. *)
Lemma ToLower_split s t1 c t2 :
  ToLower s = t1 +:+ String c t2 → c ≠ "i"%char → c ≠ "k"%char →
  ∃ s1 d s2, s = s1 +:+ String d s2 ∧ to_lower_ascii d = c ∧ ToLower s2 = t2.
Proof.
  intros Hs Hi Hk. revert t1 Hs. induction s as [s IH] using (well_founded_induction
    (Wf_nat.well_founded_ltof _ String.length)); unfold Wf_nat.ltof in IH; intros t1 Hs.
  destruct s as [|a s]; [by destruct t1|].
  destruct (ToLower_cases a s) as [(s' & -> & -> & Ha)|[(s' & -> & -> & Ha)|Ha]];
    rewrite Ha in Hs; (destruct t1 as [|b t1]; [injection Hs as Hb Hs|injection Hs as _ Hs]).
  1,3: by subst.
  1,2: apply IH in Hs as (s1 & d & s2 & -> & Hd & Ht); [|simpl; lia].
  - by exists (String "196" (String "176" s1)), d, s2.
  - by exists (String "226" (String "132" (String "170" s1))), d, s2.
  - by exists "", a, s.
  - apply IH in Hs as (s1 & d & s2 & -> & Hd & Ht); [|simpl; lia].
    by exists (String a s1), d, s2.
Qed.

Lemma ToLower_head s c t :
  ToLower s = String c t → c ≠ "i"%char → c ≠ "k"%char →
  ∃ d s', s = String d s' ∧ to_lower_ascii d = c ∧ ToLower s' = t.
Proof.
  intros Hs Hi Hk. destruct s as [|a s]; [done|].
  destruct (ToLower_cases a s) as [(s' & -> & -> & Ha)|[(s' & -> & -> & Ha)|Ha]];
    rewrite Ha in Hs; injection Hs as Hc Hs; [by subst..|]. by exists a, s.
Qed.

(** Punctuation is its own lower case, and nothing else's. *)
Lemma to_lower_colon d : to_lower_ascii d = ":"%char → d = ":"%char.
Proof. destruct d as [[] [] [] [] [] [] [] []]; vm_compute; congruence. Qed.

Lemma to_lower_slash d : to_lower_ascii d = "/"%char → d = "/"%char.
Proof. destruct d as [[] [] [] [] [] [] [] []]; vm_compute; congruence. Qed.

Lemma string_length_app (s1 s2 : string) :
  String.length (s1 +:+ s2) = String.length s1 + String.length s2.
Proof. induction s1 as [|c s1 IH]; [done|]. rewrite string_app_cons. simpl. by rewrite IH. Qed.

Lemma string_app_inj_r (s s1 s2 : string) : s1 +:+ s = s2 +:+ s → s1 = s2.
Proof.
  revert s2; induction s1 as [|c1 s1 IH]; intros [|c2 s2] H; [done| | |].
  - apply (f_equal String.length) in H. rewrite !string_length_app in H. simpl in H. lia.
  - apply (f_equal String.length) in H. rewrite !string_length_app in H. simpl in H. lia.
  - rewrite !string_app_cons in H. injection H as -> H. f_equal. by apply IH.
Qed.

(** The bytes of a string. *)
Notation bytes s := (String.list_ascii_of_string s).

Lemma bytes_split c s : c ∈ bytes s ↔ ∃ a b, s = a +:+ String c b.
Proof.
  split.
  - induction s as [|d s IH]; simpl; [set_solver|].
    rewrite elem_of_cons. intros [->|(a & b & ->)%IH]; [by exists "", s|].
    by exists (String d a), b.
  - intros (a & b & ->). induction a as [|d a IH]; [set_solver|].
    rewrite string_app_cons. simpl. set_solver.
Qed.

(** The cut is where the separator's first byte first occurs. *)
Lemma cut_at_first c sep s1 s2 :
  c ∉ bytes s1 → cut (String c sep) (s1 +:+ (String c sep +:+ s2)) = Some (s1, s2).
Proof.
  intros Hc. induction s1 as [|a s1 IH].
  - rewrite string_app_nil_l, string_app_cons. cbn [cut].
    rewrite (proj2 (HasPrefix_spec _ (String c sep))) by (by exists s2).
    by rewrite <- string_app_cons, string_drop_app.
  - simpl in Hc. rewrite not_elem_of_cons in Hc. destruct Hc as [Ha Hc].
    rewrite string_app_cons. cbn [cut].
    destruct (HasPrefix _ _) eqn:Hp.
    + apply HasPrefix_spec in Hp as [t Ht]. rewrite string_app_cons in Ht. by injection Ht as ->.
    + by rewrite IH.
Qed.
