(* ===== verification/Api.v ===== *)
(** * Kubernetes objects and the API client

    The objects the operator reads and writes, with the fields its code touches (and the
    neighbouring ones it must leave alone), the [client.Client] interface it calls, and
    the helpers of controller-runtime, client-go and operator-go it relies on.  None of
    that code is in the repository: the objects are plain records, the calls are
    parameters ([Client], [ControllerUtil], [OperatorGo]) and their documented behaviour
    is the class of laws [ApiServer] together with the specification fields. *)
From S2P Require Import Prelude GoRuntime.

(** ** Object metadata *)

Record OwnerReference := {
  or_kind : string;
  or_name : string;
  or_uid : string;
  or_controller : bool;
}.

Record ObjectMeta := {
  meta_name : string;
  meta_namespace : string;
  meta_uid : string;
  meta_labels : gomap string;
  meta_annotations : gomap string;
  meta_owners : list OwnerReference;
}.

Definition with_labels (ls : gomap string) (m : ObjectMeta) : ObjectMeta :=
  {| meta_name := meta_name m; meta_namespace := meta_namespace m; meta_uid := meta_uid m;
     meta_labels := ls; meta_annotations := meta_annotations m; meta_owners := meta_owners m |}.

Definition with_owners (os : list OwnerReference) (m : ObjectMeta) : ObjectMeta :=
  {| meta_name := meta_name m; meta_namespace := meta_namespace m; meta_uid := meta_uid m;
     meta_labels := meta_labels m; meta_annotations := meta_annotations m; meta_owners := os |}.

(** [metav1.ObjectMeta{Name: n, Namespace: ns}]. *)
Definition new_meta (name ns : string) : ObjectMeta :=
  {| meta_name := name; meta_namespace := ns; meta_uid := ""; meta_labels := None;
     meta_annotations := None; meta_owners := [] |}.

(** ** Core objects *)

Record ContainerPort := {
  cp_name : string;
  cp_protocol : string;
  cp_containerPort : Z;
}.
Record Container := {
  container_name : string;
  container_ports : list ContainerPort;
}.
(** A pod volume: the claim name of its [PersistentVolumeClaim] source, if it has one, and
    whether it has an [Ephemeral] source. *)
Record PodVolume := {
  pv_volume_name : string;
  pv_claim_name : option string;
  pv_ephemeral : bool;
}.
Record Pod := {
  pod_meta : ObjectMeta;
  pod_nodeName : string;
  pod_containers : list Container;
  pod_volumes : list PodVolume;
}.

Record ClaimRef := { claim_name : string; claim_namespace : string }.
Record PersistentVolume := {
  pv_meta : ObjectMeta;
  pv_claimRef : option ClaimRef;
}.
Record PersistentVolumeClaim := { pvc_meta : ObjectMeta }.

Record NodeAddress := { na_type : string; na_address : string }.
Record Node := {
  node_meta : ObjectMeta;
  node_addresses : list NodeAddress;
}.

Record Endpoint := { endpoint_nodeName : option string }.
Record EndpointSlice := {
  es_meta : ObjectMeta;
  es_endpoints : list Endpoint;
}.

(** [intstr.IntOrString]. *)
Inductive IntOrString := FromInt32 (n : Z) | FromString (s : string).

Record ServicePort := {
  sp_name : string;
  sp_protocol : string;
  sp_port : Z;
  sp_targetPort : IntOrString;
  sp_nodePort : Z;
}.
Record ServiceSpec := {
  svc_ports : list ServicePort;
  svc_selector : gomap string;
  svc_type : string;
  svc_publishNotReady : bool;
  svc_externalTrafficPolicy : string;
  svc_healthCheckNodePort : Z;
  svc_allocateLBNodePorts : option bool;
  svc_loadBalancerClass : option string;
  (* allocated by the API server, not written by the operator *)
  svc_clusterIP : string;
  svc_clusterIPs : list string;
  svc_ipFamilies : list string;
  svc_ipFamilyPolicy : option string;
}.
Record LoadBalancerIngress := { lbi_hostname : string; lbi_ip : string }.
Record Service := {
  svc_meta : ObjectMeta;
  svc_spec : ServiceSpec;
  svc_ingress : list LoadBalancerIngress;   (* Status.LoadBalancer.Ingress *)
}.

(** ** The objects of the listeners API group (the CRDs under config/crd/bases) *)

Record PortSpec := {
  port_name : string;
  port_protocol : string;
  port_port : Z;
}.
Record ListenerSpec := {
  ls_className : string;
  ls_ports : list PortSpec;
  ls_publishNotReady : option bool;
  ls_extraPodSelectorLabels : gomap string;
}.
Record IngressAddressSpec := {
  ias_address : string;
  ias_addressType : string;
  ias_ports : gomap Z;
}.
Record ListenerStatus := {
  lst_serviceName : string;
  lst_ingressAddresses : list IngressAddressSpec;
  lst_nodePorts : gomap Z;
}.
Record Listener := {
  listener_meta : ObjectMeta;
  listener_spec : ListenerSpec;
  listener_status : ListenerStatus;
}.
Record ListenerClassSpec := {
  lcs_serviceType : option string;
  lcs_preferredAddressType : string;
  lcs_externalTrafficPolicy : string;
  lcs_serviceAnnotations : gomap string;
}.
Record ListenerClass := {
  lc_meta : ObjectMeta;
  lc_spec : ListenerClassSpec;
}.
Record PodListener := {
  pl_scope : string;
  pl_listenerIngresses : list IngressAddressSpec;
}.
Record PodListeners := {
  pls_meta : ObjectMeta;
  pls_listeners : gomap PodListener;        (* Spec.Listeners *)
}.

Definition with_status (st : ListenerStatus) (l : Listener) : Listener :=
  {| listener_meta := listener_meta l; listener_spec := listener_spec l; listener_status := st |}.
Definition with_pod_labels (ls : gomap string) (p : Pod) : Pod :=
  {| pod_meta := with_labels ls (pod_meta p); pod_nodeName := pod_nodeName p;
     pod_containers := pod_containers p; pod_volumes := pod_volumes p |}.
Definition with_pv_labels (ls : gomap string) (p : PersistentVolume) : PersistentVolume :=
  {| pv_meta := with_labels ls (pv_meta p); pv_claimRef := pv_claimRef p |}.
Definition with_listeners (m : gomap PodListener) (p : PodListeners) : PodListeners :=
  {| pls_meta := pls_meta p; pls_listeners := m |}.

(** The empty status of a Listener that was never reconciled. *)
Definition no_status : ListenerStatus :=
  {| lst_serviceName := ""; lst_ingressAddresses := []; lst_nodePorts := None |}.

#[export] Instance OwnerReference_eq_dec : EqDecision OwnerReference.
Proof. solve_decision. Defined.
#[export] Instance ObjectMeta_eq_dec : EqDecision ObjectMeta.
Proof. solve_decision. Defined.
#[export] Instance IntOrString_eq_dec : EqDecision IntOrString.
Proof. solve_decision. Defined.
#[export] Instance ServicePort_eq_dec : EqDecision ServicePort.
Proof. solve_decision. Defined.
#[export] Instance ServiceSpec_eq_dec : EqDecision ServiceSpec.
Proof. solve_decision. Defined.
#[export] Instance LoadBalancerIngress_eq_dec : EqDecision LoadBalancerIngress.
Proof. solve_decision. Defined.
#[export] Instance Service_eq_dec : EqDecision Service.
Proof. solve_decision. Defined.
#[export] Instance IngressAddressSpec_eq_dec : EqDecision IngressAddressSpec.
Proof. solve_decision. Defined.
#[export] Instance PodListener_eq_dec : EqDecision PodListener.
Proof. solve_decision. Defined.
#[export] Instance PortSpec_eq_dec : EqDecision PortSpec.
Proof. solve_decision. Defined.
#[export] Instance ListenerSpec_eq_dec : EqDecision ListenerSpec.
Proof. solve_decision. Defined.
#[export] Instance ListenerStatus_eq_dec : EqDecision ListenerStatus.
Proof. solve_decision. Defined.
#[export] Instance Listener_eq_dec : EqDecision Listener.
Proof. solve_decision. Defined.

(** ** Constants of k8s.io/api/core/v1 and of the listeners API *)

Definition ServiceTypeClusterIP : string := "ClusterIP".
Definition ServiceTypeNodePort : string := "NodePort".
Definition ServiceTypeLoadBalancer : string := "LoadBalancer".
Definition ExternalTrafficPolicyLocal : string := "Local".
Definition ExternalTrafficPolicyCluster : string := "Cluster".
Definition ProtocolTCP : string := "TCP".
Definition NodeExternalIP : string := "ExternalIP".
Definition NodeInternalIP : string := "InternalIP".
Definition NodeHostName : string := "Hostname".
Definition AddressTypeIP : string := "IP".
Definition AddressTypeHostname : string := "Hostname".
Definition AddressTypeHostnameConservative : string := "HostnameConservative".
Definition PodlistenerNodeScope : string := "Node".
Definition PodlistenerClusterScope : string := "Cluster".

(** ** Kinds and keys *)

Inductive Kind :=
| KPod | KPersistentVolume | KPersistentVolumeClaim | KNode | KService | KEndpointSlice
| KListener | KListenerClass | KPodListeners.

#[export] Instance Kind_eq_dec : EqDecision Kind.
Proof. solve_decision. Defined.

Definition Obj (k : Kind) : Type :=
  match k with
  | KPod => Pod
  | KPersistentVolume => PersistentVolume
  | KPersistentVolumeClaim => PersistentVolumeClaim
  | KNode => Node
  | KService => Service
  | KEndpointSlice => EndpointSlice
  | KListener => Listener
  | KListenerClass => ListenerClass
  | KPodListeners => PodListeners
  end.

Definition meta_of (k : Kind) : Obj k → ObjectMeta :=
  match k return Obj k → ObjectMeta with
  | KPod => pod_meta
  | KPersistentVolume => pv_meta
  | KPersistentVolumeClaim => pvc_meta
  | KNode => node_meta
  | KService => svc_meta
  | KEndpointSlice => es_meta
  | KListener => listener_meta
  | KListenerClass => lc_meta
  | KPodListeners => pls_meta
  end.

Record ObjectKey := Key { key_namespace : string; key_name : string }.
#[export] Instance ObjectKey_eq_dec : EqDecision ObjectKey.
Proof. solve_decision. Defined.
#[export] Instance ObjectKey_countable : Countable ObjectKey.
Proof.
  apply (inj_countable' (λ k, (key_namespace k, key_name k)) (λ p, Key p.1 p.2)).
  by intros [].
Defined.

(** [client.ObjectKeyFromObject]. *)
Definition key_of {k : Kind} (o : Obj k) : ObjectKey :=
  Key (meta_namespace (meta_of k o)) (meta_name (meta_of k o)).

(** ListenerClass is cluster scoped by its CRD, PersistentVolume and Node by Kubernetes. *)
Definition cluster_scoped (k : Kind) : bool :=
  match k with KPersistentVolume | KNode | KListenerClass => true | _ => false end.

(** The namespace of a key is ignored for a cluster-scoped kind. *)
Definition scoped (k : Kind) (key : ObjectKey) : ObjectKey :=
  if cluster_scoped k then Key "" (key_name key) else key.

Arguments key_of {k} o : simpl never.
Arguments scoped k key : simpl never.

Lemma scoped_namespaced k key : cluster_scoped k = false → scoped k key = key.
Proof. unfold scoped. by intros ->. Qed.

(** [client.InNamespace] and [client.MatchingLabels]. *)
Record ListOptions := {
  lo_namespace : option string;
  lo_labels : gmap string string;
}.
Definition list_all : ListOptions := {| lo_namespace := None; lo_labels := ∅ |}.

Definition selects (opts : ListOptions) (m : ObjectMeta) : Prop :=
  match lo_namespace opts with Some ns => meta_namespace m = ns | None => True end ∧
  lo_labels opts ⊆ map_entries (meta_labels m).
#[export] Instance selects_dec opts m : Decision (selects opts m).
Proof. unfold selects. destruct (lo_namespace opts); apply _. Defined.

(** ** The client *)

Class Client (W : Type) := {
  client_get (k : Kind) : ObjectKey → M W (Obj k);
  client_list (k : Kind) : ListOptions → M W (list (Obj k));
  (* the writes return the object as the server answered it *)
  client_create (k : Kind) : Obj k → M W (Obj k);
  client_update (k : Kind) : Obj k → M W (Obj k);
  (* Patch(obj, MergeFrom(original)): [original], then the modified object *)
  client_patch (k : Kind) : Obj k → Obj k → M W (Obj k);
  client_status_update : Listener → M W Listener;
}.

(** ** What the API server does to a written object *)

(** Creation assigns a UID and keeps the rest of the metadata. *)
Record meta_defaulted (m m' : ObjectMeta) : Prop := {
  md_name : meta_name m' = meta_name m;
  md_namespace : meta_namespace m' = meta_namespace m;
  md_uid : meta_uid m ≠ "" → meta_uid m' = meta_uid m;
  md_labels : meta_labels m' = meta_labels m;
  md_annotations : meta_annotations m' = meta_annotations m;
  md_owners : meta_owners m' = meta_owners m;
}.

(** A port keeps what the client wrote; an unset node port may be allocated, for the
    Service types that have node ports. *)
Record port_defaulted (type : string) (p p' : ServicePort) : Prop := {
  pd_name : sp_name p' = sp_name p;
  pd_protocol : sp_protocol p' = sp_protocol p;
  pd_port : sp_port p' = sp_port p;
  pd_targetPort : sp_targetPort p' = sp_targetPort p;
  pd_nodePort : sp_nodePort p' = sp_nodePort p ∨
    (sp_nodePort p = 0%Z ∧ (type = ServiceTypeNodePort ∨ type = ServiceTypeLoadBalancer));
}.

(** A written Service is stored with the allocations the server makes: cluster IPs, node
    ports, the health-check port of a local load balancer, the defaults of unset fields. *)
Record svc_defaulted (s s' : Service) : Prop := {
  sd_meta : meta_defaulted (svc_meta s) (svc_meta s');
  sd_ports : Forall2 (port_defaulted (svc_type (svc_spec s)))
               (svc_ports (svc_spec s)) (svc_ports (svc_spec s'));
  (* validation: port names are unique within a Service *)
  sd_unique : NoDup (sp_name <$> svc_ports (svc_spec s));
  sd_selector : svc_selector (svc_spec s') = svc_selector (svc_spec s);
  sd_type : svc_type (svc_spec s') = svc_type (svc_spec s);
  sd_publish : svc_publishNotReady (svc_spec s') = svc_publishNotReady (svc_spec s);
  sd_policy :
    svc_externalTrafficPolicy (svc_spec s') = svc_externalTrafficPolicy (svc_spec s) ∨
    (svc_externalTrafficPolicy (svc_spec s) = "" ∧
     (svc_type (svc_spec s) = ServiceTypeNodePort ∨
      svc_type (svc_spec s) = ServiceTypeLoadBalancer));
  sd_health :
    svc_healthCheckNodePort (svc_spec s') = svc_healthCheckNodePort (svc_spec s) ∨
    (svc_type (svc_spec s) = ServiceTypeLoadBalancer ∧
     svc_externalTrafficPolicy (svc_spec s) = ExternalTrafficPolicyLocal);
  sd_allocate :
    svc_allocateLBNodePorts (svc_spec s') = svc_allocateLBNodePorts (svc_spec s) ∨
    svc_type (svc_spec s) = ServiceTypeLoadBalancer;
  sd_lbClass : svc_loadBalancerClass (svc_spec s') = svc_loadBalancerClass (svc_spec s);
  sd_clusterIP : svc_clusterIP (svc_spec s) ≠ "" →
    svc_clusterIP (svc_spec s') = svc_clusterIP (svc_spec s);
  sd_clusterIPs : svc_clusterIPs (svc_spec s) ≠ [] →
    svc_clusterIPs (svc_spec s') = svc_clusterIPs (svc_spec s);
}.

Record listener_defaulted (l l' : Listener) : Prop := {
  ld_meta : meta_defaulted (listener_meta l) (listener_meta l');
  ld_class : ls_className (listener_spec l') = ls_className (listener_spec l);
  ld_ports : ls_ports (listener_spec l') = ls_ports (listener_spec l);
  ld_publish : is_Some (ls_publishNotReady (listener_spec l)) →
    ls_publishNotReady (listener_spec l') = ls_publishNotReady (listener_spec l);
  ld_extra : map_entries (ls_extraPodSelectorLabels (listener_spec l')) =
    map_entries (ls_extraPodSelectorLabels (listener_spec l));
  (* the status is a subresource: creation does not write it *)
  ld_status : listener_status l' = no_status;
}.

Record podlisteners_defaulted (p p' : PodListeners) : Prop := {
  pld_meta : meta_defaulted (pls_meta p) (pls_meta p');
  pld_listeners : map_entries (pls_listeners p') = map_entries (pls_listeners p);
}.

(** The operator creates Services, Listeners and PodListeners only. *)
Definition defaulted (k : Kind) : Obj k → Obj k → Prop :=
  match k return Obj k → Obj k → Prop with
  | KService => svc_defaulted
  | KListener => listener_defaulted
  | KPodListeners => podlisteners_defaulted
  | _ => λ _ _, False
  end.

(** A JSON merge patch of a map of scalars: the keys whose value changed between
    [original] and [modified] are written, the others keep their current value. *)
Definition merge_entry {V} `{EqDecision V} (original modified current : option V) : option V :=
  if bool_decide (modified = original) then current else modified.

(** The same for the entries of PodListeners.spec.listeners, which are objects: an entry
    that is in [original] too is patched field by field.  Nothing is said of such an
    entry that was deleted meanwhile. *)
Definition merge_listener (original modified current new : option PodListener) : Prop :=
  match original, modified, current with
  | Some o, Some m, Some c =>
      new = Some {| pl_scope := if bool_decide (pl_scope m = pl_scope o)
                                then pl_scope c else pl_scope m;
                    pl_listenerIngresses :=
                      if bool_decide (pl_listenerIngresses m = pl_listenerIngresses o)
                      then pl_listenerIngresses c else pl_listenerIngresses m |}
  | Some o, Some m, None => o = m → new = None
  | None, Some m, _ => new = Some m
  | Some _, None, _ => new = None
  | None, None, c => new = c
  end.

(** What a merge patch writes, for the patches the operator sends: labels of pods and
    persistent volumes, and the listeners of PodListeners. *)
Definition patched (k : Kind) : Obj k → Obj k → Obj k → Obj k → Prop :=
  let labels_merged (o m c n : ObjectMeta) :=
    ∀ x, map_get (meta_labels n) x =
      merge_entry (map_get (meta_labels o) x) (map_get (meta_labels m) x)
                  (map_get (meta_labels c) x) in
  match k return Obj k → Obj k → Obj k → Obj k → Prop with
  | KPod => λ o m c n, m = with_pod_labels (meta_labels (pod_meta m)) o →
      n = with_pod_labels (meta_labels (pod_meta n)) c ∧
      labels_merged (pod_meta o) (pod_meta m) (pod_meta c) (pod_meta n)
  | KPersistentVolume => λ o m c n, m = with_pv_labels (meta_labels (pv_meta m)) o →
      n = with_pv_labels (meta_labels (pv_meta n)) c ∧
      labels_merged (pv_meta o) (pv_meta m) (pv_meta c) (pv_meta n)
  | KPodListeners => λ o m c n, m = with_listeners (pls_listeners m) o →
      n = with_listeners (pls_listeners n) c ∧
      ∀ x, merge_listener (map_get (pls_listeners o) x) (map_get (pls_listeners m) x)
                          (map_get (pls_listeners c) x) (map_get (pls_listeners n) x)
  | _ => λ _ _ _ _, False
  end.

(** ** The laws of the API *)

Section laws.
Context {W : Type} (stored : ∀ k, W → ObjectKey → option (Obj k)).

(** [w'] is [w] with the object of kind [k] at [key] replaced by [o]. *)
Definition wrote (k : Kind) (key : ObjectKey) (o : Obj k) (w w' : W) : Prop :=
  stored k w' key = Some o ∧
  ∀ k2 key2, (k2 ≠ k ∨ key2 ≠ key) → stored k2 w' key2 = stored k2 w key2.
End laws.

(** A client whose reads see the current objects and whose successful writes take effect.
    Any call may fail; an error with the reason NotFound, AlreadyExists on creation,
    and a conflict tell the truth.  Nothing is said of the state after another failed
    write. *)
Class ApiServer (W : Type) `{Client W} := {
  stored : ∀ k, W → ObjectKey → option (Obj k);

  stored_key : ∀ k w key (o : Obj k), stored k w key = Some o → scoped k (key_of o) = key;

  get_spec : ∀ k key w w' r, client_get k key w = (w', r) →
    w' = w ∧
    match r with
    | Ok o => stored k w (scoped k key) = Some o
    | Fail e => IsNotFound e = true → stored k w (scoped k key) = None
    | Panic => False
    end;

  list_spec : ∀ k opts w w' r, client_list k opts w = (w', r) →
    w' = w ∧
    match r with
    | Ok os => ∀ o, o ∈ os ↔
        stored k w (scoped k (key_of o)) = Some o ∧ selects opts (meta_of k o)
    | Fail _ => True
    | Panic => False
    end;

  create_spec : ∀ k o w w' r, client_create k o w = (w', r) →
    match r with
    | Ok o' => stored k w (scoped k (key_of o)) = None ∧ defaulted k o o' ∧
        wrote stored k (scoped k (key_of o)) o' w w'
    | Fail e => IsAlreadyExists e = true →
        w' = w ∧ is_Some (stored k w (scoped k (key_of o)))
    | Panic => False
    end;

  update_spec : ∀ k o w w' r, client_update k o w = (w', r) →
    match r with
    | Ok o' => is_Some (stored k w (scoped k (key_of o))) ∧ defaulted k o o' ∧
        wrote stored k (scoped k (key_of o)) o' w w'
    | Fail _ => True
    | Panic => False
    end;

  patch_spec : ∀ k o m w w' r, client_patch k o m w = (w', r) →
    match r with
    | Ok n => ∃ c, stored k w (scoped k (key_of m)) = Some c ∧ patched k o m c n ∧
        wrote stored k (scoped k (key_of m)) n w w'
    | Fail _ => True
    | Panic => False
    end;

  status_update_spec : ∀ l w w' r, client_status_update l w = (w', r) →
    match r with
    | Ok l' => ∃ c, stored KListener w (key_of (k:=KListener) l) = Some c ∧
        l' = with_status (listener_status l) c ∧
        wrote stored KListener (key_of (k:=KListener) l) l' w w'
    | Fail e => IsConflict e = true → w' = w
    | Panic => False
    end;
}.

(** ** Helpers of controller-runtime, client-go and operator-go *)

(** The result of [controllerutil.CreateOrUpdate]. *)
Inductive OperationResult := OperationResultNone | OperationResultCreated | OperationResultUpdated.
#[export] Instance OperationResult_eq_dec : EqDecision OperationResult.
Proof. solve_decision. Defined.

(** [equality.Semantic.DeepEqual] does not tell a nil map from an empty one. *)
Definition norm_map (m : gomap string) : gomap string :=
  match m with Some m => if bool_decide (m = ∅) then None else Some m | None => None end.
Definition norm_service (s : Service) : Service :=
  let m := svc_meta s in let p := svc_spec s in
  {| svc_meta := {| meta_name := meta_name m; meta_namespace := meta_namespace m;
                    meta_uid := meta_uid m; meta_labels := norm_map (meta_labels m);
                    meta_annotations := norm_map (meta_annotations m);
                    meta_owners := meta_owners m |};
     svc_spec := {| svc_ports := svc_ports p; svc_selector := norm_map (svc_selector p);
                    svc_type := svc_type p; svc_publishNotReady := svc_publishNotReady p;
                    svc_externalTrafficPolicy := svc_externalTrafficPolicy p;
                    svc_healthCheckNodePort := svc_healthCheckNodePort p;
                    svc_allocateLBNodePorts := svc_allocateLBNodePorts p;
                    svc_loadBalancerClass := svc_loadBalancerClass p;
                    svc_clusterIP := svc_clusterIP p; svc_clusterIPs := svc_clusterIPs p;
                    svc_ipFamilies := svc_ipFamilies p;
                    svc_ipFamilyPolicy := svc_ipFamilyPolicy p |};
     svc_ingress := svc_ingress s |}.
Definition semantic_equal (s1 s2 : Service) : Prop := norm_service s1 = norm_service s2.
#[export] Instance semantic_equal_dec s1 s2 : Decision (semantic_equal s1 s2).
Proof. unfold semantic_equal. apply _. Defined.

(** The runs of [retry.RetryOnConflict]: the function is called again while it ends in a
    conflict, until the attempts are used up. *)
Inductive retried {W} (f : M W ()) : W → W * res () → Prop :=
| retried_done w w' r :
    f w = (w', r) → (∀ e, r = Fail e → IsConflict e = false) → retried f w (w', r)
| retried_give_up w w' e :
    f w = (w', Fail e) → IsConflict e = true → retried f w (w', Fail e)
| retried_again w w1 e out :
    f w = (w1, Fail e) → IsConflict e = true → retried f w1 out → retried f w out.

Class ControllerUtil (W : Type) `{Client W} := {
  (* ctrl.SetControllerReference(owner, object, scheme), on the object's metadata *)
  SetControllerReference : Kind → ObjectMeta → ObjectMeta → res ObjectMeta;
  CreateOrUpdate : Service → (Service → res Service) → M W OperationResult;
  RetryOnConflict : M W () → M W ();
}.

(** Their documented behaviour. *)
Class ControllerUtilLaws (W : Type) `{ControllerUtil W} := {
  SetControllerReference_spec : ∀ k owner m r, SetControllerReference k owner m = r →
    match r with
    | Ok m' => m' = with_owners (meta_owners m') m ∧
        (∃ ref, ref ∈ meta_owners m' ∧ or_controller ref = true ∧
                or_name ref = meta_name owner ∧ or_uid ref = meta_uid owner) ∧
        (* an object that has the reference already is left as it is *)
        (∀ m2, meta_owners m2 = meta_owners m' → meta_namespace m2 = meta_namespace m →
               SetControllerReference k owner m2 = Ok m2)
    | Fail _ => True
    | Panic => False
    end;
  (* only another controller, or an owner of another namespace, is refused *)
  SetControllerReference_ok : ∀ k owner m,
    Forall (λ ref, or_controller ref = false) (meta_owners m) →
    meta_namespace owner = "" ∨ meta_namespace owner = meta_namespace m →
    ∃ m', SetControllerReference k owner m = Ok m';
  CreateOrUpdate_spec : ∀ obj f w, CreateOrUpdate obj f w =
    (found ← attempt (client_get KService (key_of (k:=KService) obj));
     match found with
     | inl existing =>
         o ← lift (f existing);
         if bool_decide (semantic_equal o existing) then mret OperationResultNone
         else client_update KService o ≫= λ _, mret OperationResultUpdated
     | inr e =>
         if IsNotFound e
         then o ← lift (f obj); client_create KService o ≫= λ _, mret OperationResultCreated
         else fail e
     end) w;
  RetryOnConflict_spec : ∀ f w, retried f w (RetryOnConflict f w);
}.

(** Constants and methods of operator-go the repository uses. *)
Class OperatorGo := {
  ListenerClassAnnotation : string;
  AnnotationListenerName : string;
  GetPublishNotReadyAddresses : ListenerSpec → bool;
  (* an unset field means true, as the CRD's default *)
  GetPublishNotReadyAddresses_spec : ∀ spec,
    GetPublishNotReadyAddresses spec = default true (ls_publishNotReady spec);
}.

(** A client whose reads do not fail: needed only where a call must make progress. *)
Class ReliableReads (W : Type) `{ApiServer W} := {
  get_found : ∀ k key w (o : Obj k),
    stored k w (scoped k key) = Some o → client_get k key w = (w, Ok o);
  get_missing : ∀ k key w,
    stored k w (scoped k key) = None →
    ∃ e, client_get k key w = (w, Fail e) ∧ IsNotFound e = true;
  list_found : ∀ k opts w, ∃ os, client_list k opts w = (w, Ok os);
}.

(** ** Consequences of the laws *)

Section api_lemmas.
Context {W : Type} `{ApiServer W}.

Lemma get_Ok k key w w' (o : Obj k) :
  client_get k key w = (w', Ok o) → w' = w ∧ stored k w (scoped k key) = Some o.
Proof. by intros [-> ?]%get_spec. Qed.

Lemma get_state k key w w' r : client_get k key w = (w', r) → w' = w ∧ r ≠ Panic.
Proof. intros [-> Hr]%get_spec. by destruct r. Qed.

Lemma list_Ok k opts w w' os :
  client_list k opts w = (w', Ok os) →
  w' = w ∧ ∀ o, o ∈ os ↔ stored k w (scoped k (key_of o)) = Some o ∧ selects opts (meta_of k o).
Proof. by intros [-> ?]%list_spec. Qed.

Lemma wrote_same k key o w w' : wrote stored k key o w w' → stored k w' key = Some o.
Proof. by intros [? _]. Qed.

Lemma wrote_other k key o w w' k2 key2 :
  wrote stored k key o w w' → k2 ≠ k ∨ key2 ≠ key → stored k2 w' key2 = stored k2 w key2.
Proof. intros [_ Hf]. apply Hf. Qed.

(** With reliable reads a lookup is decided by the stored objects. *)
Lemma get_cases `{!ReliableReads W} k key w :
  match stored k w (scoped k key) with
  | Some o => client_get k key w = (w, Ok o)
  | None => ∃ e, client_get k key w = (w, Fail e)
  end.
Proof.
  destruct (stored k w (scoped k key)) eqn:Hs; [by apply get_found|].
  apply get_missing in Hs as (e & He & _). by exists e.
Qed.
End api_lemmas.

Section create_or_update.
Context {W : Type} `{HC : Client W} `{!ApiServer W} `{!ControllerUtil W} `{!ControllerUtilLaws W}.

(** The runs of [CreateOrUpdate] that end without an error: nothing had to be done, or
    the mutated object was written. *)
Lemma CreateOrUpdate_inv obj f w w' op :
  (∀ b o, f b = Ok o → key_of (k:=KService) o = key_of (k:=KService) b) →
  CreateOrUpdate obj f w = (w', Ok op) →
  (op = OperationResultNone ∧ w' = w ∧
     ∃ svc o, stored KService w (key_of (k:=KService) obj) = Some svc ∧ f svc = Ok o ∧
              semantic_equal o svc) ∨
  (op ≠ OperationResultNone ∧
     ∃ b o o', f b = Ok o ∧ svc_defaulted o o' ∧
               wrote stored KService (key_of (k:=KService) obj) o' w w').
Proof.
  intros Hkey Hop. rewrite CreateOrUpdate_spec in Hop.
  apply bind_Ok_inv in Hop as (found & w4 & Hget & Hop). apply attempt_Ok_inv in Hget.
  destruct found as [svc|e].
  - apply (get_Ok KService) in Hget as [-> Hsvc]. rewrite scoped_namespaced in Hsvc by done.
    pose proof (stored_key KService _ _ _ Hsvc) as Hks. rewrite scoped_namespaced in Hks by done.
    apply bind_Ok_inv in Hop as (o & w5 & [-> Ho]%lift_Ok_inv & Hop).
    case_bool_decide as Heq.
    + apply ret_Ok_inv in Hop as [-> ->]. left. eauto 8.
    + apply bind_Ok_inv in Hop as (o' & w5 & Hup & [-> ->]%ret_Ok_inv).
      apply (update_spec KService) in Hup as (_ & Hdef & Hw).
      rewrite scoped_namespaced, (Hkey _ _ Ho), Hks in Hw by done. right. split; [done|]. eauto 8.
  - apply (get_state KService) in Hget as [-> _].
    destruct (IsNotFound e); [|by rewrite fail_Ok_inv in Hop].
    apply bind_Ok_inv in Hop as (o & w5 & [-> Ho]%lift_Ok_inv & Hop).
    apply bind_Ok_inv in Hop as (o' & w5 & Hcr & [-> ->]%ret_Ok_inv).
    apply (create_spec KService) in Hcr as (_ & Hdef & Hw).
    rewrite scoped_namespaced, (Hkey _ _ Ho) in Hw by done. right. split; [done|]. eauto 8.
Qed.
End create_or_update.
