(* ===== verification/FakeClient.v ===== *)
(** * An in-memory API server

    A concrete client for which the laws of [Api] hold: a map of objects per kind, with
    the allocations and validations of the API server the laws speak of.  It plays the
    part of controller-runtime's fake client in the repository's tests: the witnesses run
    the operator against it.  It models no code of the repository. *)
From S2P Require Import Prelude GoRuntime Api.

Definition cluster : Type := ∀ k : Kind, gmap ObjectKey (Obj k).

Definition empty_cluster : cluster := λ _, ∅.

(** An entry is an object under its own key. *)
Definition fake_stored (k : Kind) (w : cluster) (key : ObjectKey) : option (Obj k) :=
  match w k !! key with
  | Some o => if bool_decide (scoped k (key_of o) = key) then Some o else None
  | None => None
  end.

Definition put (k : Kind) (key : ObjectKey) (o : Obj k) (w : cluster) : cluster := λ k',
  match decide (k = k') with
  | left e => <[key := eq_rect k Obj o k' e]> (w k')
  | right _ => w k'
  end.

(** Add an object under its key. *)
Definition add (k : Kind) (o : Obj k) (w : cluster) : cluster := put k (scoped k (key_of o)) o w.

(** ** Defaults and allocations *)

Definition fill_meta (m : ObjectMeta) : ObjectMeta :=
  {| meta_name := meta_name m; meta_namespace := meta_namespace m;
     meta_uid := if bool_decide (meta_uid m = "")
                 then "uid-" +:+ meta_namespace m +:+ "-" +:+ meta_name m else meta_uid m;
     meta_labels := meta_labels m; meta_annotations := meta_annotations m;
     meta_owners := meta_owners m |}.

Definition external (type : string) : bool :=
  bool_decide (type = ServiceTypeNodePort ∨ type = ServiceTypeLoadBalancer).

Definition fill_port (type : string) (p : ServicePort) : ServicePort :=
  {| sp_name := sp_name p; sp_protocol := sp_protocol p; sp_port := sp_port p;
     sp_targetPort := sp_targetPort p;
     sp_nodePort := if external type && bool_decide (sp_nodePort p = 0%Z)
                    then 30000 + sp_port p mod 2768 else sp_nodePort p |}.

Definition fill_service (s : Service) : Service :=
  let p := svc_spec s in
  {| svc_meta := fill_meta (svc_meta s);
     svc_spec := {|
       svc_ports := fill_port (svc_type p) <$> svc_ports p;
       svc_selector := svc_selector p; svc_type := svc_type p;
       svc_publishNotReady := svc_publishNotReady p;
       svc_externalTrafficPolicy :=
         if external (svc_type p) && bool_decide (svc_externalTrafficPolicy p = "")
         then ExternalTrafficPolicyCluster else svc_externalTrafficPolicy p;
       svc_healthCheckNodePort := svc_healthCheckNodePort p;
       svc_allocateLBNodePorts := svc_allocateLBNodePorts p;
       svc_loadBalancerClass := svc_loadBalancerClass p;
       svc_clusterIP := if bool_decide (svc_clusterIP p = "") then "10.96.0.10" else svc_clusterIP p;
       svc_clusterIPs := if bool_decide (svc_clusterIPs p = []) then ["10.96.0.10"]
                         else svc_clusterIPs p;
       svc_ipFamilies := svc_ipFamilies p; svc_ipFamilyPolicy := svc_ipFamilyPolicy p |};
     svc_ingress := svc_ingress s |}.

Definition fill_listener (l : Listener) : Listener :=
  {| listener_meta := fill_meta (listener_meta l);
     listener_spec := listener_spec l;
     listener_status := no_status |}.

Definition fill_podlisteners (p : PodListeners) : PodListeners :=
  {| pls_meta := fill_meta (pls_meta p); pls_listeners := pls_listeners p |}.

(** [None]: the object is refused. *)
Definition fill (k : Kind) : Obj k → option (Obj k) :=
  match k return Obj k → option (Obj k) with
  | KService => λ s, if bool_decide (NoDup (sp_name <$> svc_ports (svc_spec s)))
                     then Some (fill_service s) else None
  | KListener => λ l, Some (fill_listener l)
  | KPodListeners => λ p, Some (fill_podlisteners p)
  | _ => λ _, None
  end.

(** ** Merge patches *)

Definition pairs {V} (o m : gmap string V) : gmap string (option V * option V) :=
  merge (λ a b, match a, b with None, None => None | _, _ => Some (a, b) end) o m.

(** Apply [f original modified current] at every key. *)
Definition merge3 {V} (f : option V → option V → option V → option V)
    (o m c : gmap string V) : gmap string V :=
  merge (λ om cur, match om with Some (a, b) => f a b cur | None => cur end) (pairs o m) c.

Definition merge_listener_fun (o m c : option PodListener) : option PodListener :=
  match o, m, c with
  | Some o, Some m, Some c =>
      Some {| pl_scope := if bool_decide (pl_scope m = pl_scope o) then pl_scope c else pl_scope m;
              pl_listenerIngresses :=
                if bool_decide (pl_listenerIngresses m = pl_listenerIngresses o)
                then pl_listenerIngresses c else pl_listenerIngresses m |}
  | Some o, Some m, None => if bool_decide (o = m) then None else Some m
  | None, Some m, _ => Some m
  | Some _, None, _ => None
  | None, None, c => c
  end.

Definition merged_labels (o m c : ObjectMeta) : gomap string :=
  Some (merge3 merge_entry (map_entries (meta_labels o)) (map_entries (meta_labels m))
               (map_entries (meta_labels c))).

Definition fake_merge (k : Kind) : Obj k → Obj k → Obj k → option (Obj k) :=
  match k return Obj k → Obj k → Obj k → option (Obj k) with
  | KPod => λ o m c, Some (with_pod_labels (merged_labels (pod_meta o) (pod_meta m) (pod_meta c)) c)
  | KPersistentVolume => λ o m c,
      Some (with_pv_labels (merged_labels (pv_meta o) (pv_meta m) (pv_meta c)) c)
  | KPodListeners => λ o m c,
      Some (with_listeners (Some (merge3 merge_listener_fun (map_entries (pls_listeners o))
              (map_entries (pls_listeners m)) (map_entries (pls_listeners c)))) c)
  | _ => λ _ _ _, None
  end.

(** ** The client *)

Definition entries (k : Kind) (w : cluster) : list (Obj k) :=
  omap (λ '(key, o), if bool_decide (scoped k (key_of o) = key) then Some o else None)
       (map_to_list (w k)).

Definition refused : error := ApiError (OtherReason 422).

#[export] Instance fake_client : Client cluster := {
  client_get k key w :=
    (w, match fake_stored k w (scoped k key) with
        | Some o => Ok o | None => Fail (ApiError NotFound) end);
  client_list k opts w :=
    (w, Ok (filter (λ o, selects opts (meta_of k o)) (entries k w)));
  client_create k o w :=
    match fake_stored k w (scoped k (key_of o)), fill k o with
    | Some _, _ => (w, Fail (ApiError AlreadyExists))
    | None, Some o' => (put k (scoped k (key_of o)) o' w, Ok o')
    | None, None => (w, Fail refused)
    end;
  client_update k o w :=
    match fake_stored k w (scoped k (key_of o)), fill k o with
    | Some _, Some o' => (put k (scoped k (key_of o)) o' w, Ok o')
    | Some _, None => (w, Fail refused)
    | None, _ => (w, Fail (ApiError NotFound))
    end;
  client_patch k o m w :=
    match fake_stored k w (scoped k (key_of m)) with
    | Some c =>
      match fake_merge k o m c with
      | Some n => (put k (scoped k (key_of m)) n w, Ok n)
      | None => (w, Fail refused)
      end
    | None => (w, Fail (ApiError NotFound))
    end;
  client_status_update l w :=
    match fake_stored KListener w (key_of (k:=KListener) l) with
    | Some c => let n := with_status (listener_status l) c in
                (put KListener (key_of (k:=KListener) l) n w, Ok n)
    | None => (w, Fail (ApiError NotFound))
    end;
}.

(** ** controllerutil and retry *)

Definition kind_name (k : Kind) : string :=
  match k with
  | KPod => "Pod" | KPersistentVolume => "PersistentVolume"
  | KPersistentVolumeClaim => "PersistentVolumeClaim" | KNode => "Node" | KService => "Service"
  | KEndpointSlice => "EndpointSlice" | KListener => "Listener"
  | KListenerClass => "ListenerClass" | KPodListeners => "PodListeners"
  end.

Definition owner_ref (k : Kind) (owner : ObjectMeta) : OwnerReference :=
  {| or_kind := kind_name k; or_name := meta_name owner; or_uid := meta_uid owner;
     or_controller := true |}.

Definition fake_set_controller_reference (k : Kind) (owner m : ObjectMeta) : res ObjectMeta :=
  if bool_decide (meta_namespace owner = "" ∨ meta_namespace owner = meta_namespace m) then
    if bool_decide (owner_ref k owner ∈ meta_owners m) then Ok m
    else if bool_decide (Forall (λ ref, or_controller ref = false) (meta_owners m))
    then Ok (with_owners (meta_owners m ++ [owner_ref k owner]) m)
    else Fail (LibraryError "already owned")
  else Fail (LibraryError "cross-namespace owner").

Fixpoint fake_retry (steps : nat) (f : M cluster ()) : M cluster () := λ w,
  match f w, steps with
  | (w', Fail e), S steps => if IsConflict e then fake_retry steps f w' else (w', Fail e)
  | r, _ => r
  end.

#[export] Instance fake_controller_util : ControllerUtil cluster := {
  SetControllerReference := fake_set_controller_reference;
  CreateOrUpdate obj f :=
    found ← attempt (client_get KService (key_of (k:=KService) obj));
    match found with
    | inl existing =>
        o ← lift (f existing);
        if bool_decide (semantic_equal o existing) then mret OperationResultNone
        else client_update KService o ≫= λ _, mret OperationResultUpdated
    | inr e =>
        if IsNotFound e
        then o ← lift (f obj); client_create KService o ≫= λ _, mret OperationResultCreated
        else fail e
    end;
  RetryOnConflict := fake_retry 4;
}.

(** The values the end-to-end tests and the documentation of the code use. *)
#[export] Instance fake_operator_go : OperatorGo := {
  ListenerClassAnnotation := "listeners.kubedoop.dev/class";
  AnnotationListenerName := "listeners.kubedoop.dev/listenerName";
  GetPublishNotReadyAddresses spec := default true (ls_publishNotReady spec);
  GetPublishNotReadyAddresses_spec spec := eq_refl;
}.

(** ** The laws hold *)

Lemma put_same k key o w : put k key o w k = <[key := o]> (w k).
Proof.
  unfold put. destruct (decide (k = k)) as [e|]; [|done].
  by rewrite (proof_irrel e eq_refl).
Qed.

Lemma put_other k key o w k' : k ≠ k' → put k key o w k' = w k'.
Proof. unfold put. intros. by destruct (decide (k = k')). Qed.

Lemma put_wrote k key o w :
  scoped k (key_of o) = key → wrote fake_stored k key o w (put k key o w).
Proof.
  intros Hkey. split; unfold fake_stored.
  - rewrite put_same, lookup_insert_eq. by rewrite bool_decide_eq_true_2.
  - intros k2 key2 Hne. destruct (decide (k = k2)) as [->|Hk].
    + rewrite put_same, lookup_insert_ne; [done|]. destruct Hne; congruence.
    + by rewrite put_other.
Qed.

Lemma fake_stored_key k w key (o : Obj k) :
  fake_stored k w key = Some o → scoped k (key_of o) = key.
Proof. unfold fake_stored. case_match; [|done]. case_bool_decide; naive_solver. Qed.

Lemma elem_of_entries k w (o : Obj k) :
  o ∈ entries k w ↔ fake_stored k w (scoped k (key_of o)) = Some o.
Proof.
  unfold entries, fake_stored. rewrite list_elem_of_omap. split.
  - intros ([key o'] & Hin%elem_of_map_to_list & Heq). case_bool_decide; simplify_eq.
    rewrite Hin. by rewrite bool_decide_eq_true_2.
  - intros Hs. case_match eqn:Hl; [|done]. case_bool_decide; simplify_eq.
    exists (scoped k (key_of o), o). split; [by apply elem_of_map_to_list|].
    by rewrite bool_decide_eq_true_2.
Qed.

Lemma fill_meta_defaulted m : meta_defaulted m (fill_meta m).
Proof. split; try done. simpl. by case_bool_decide. Qed.

Lemma external_spec t : external t = true → t = ServiceTypeNodePort ∨ t = ServiceTypeLoadBalancer.
Proof. apply bool_decide_eq_true. Qed.

Lemma fill_service_defaulted s :
  NoDup (sp_name <$> svc_ports (svc_spec s)) → svc_defaulted s (fill_service s).
Proof.
  intros Hnd. split; simpl; try done; auto.
  - apply fill_meta_defaulted.
  - apply Forall2_fmap_r, Forall_Forall2_diag, Forall_forall. intros p _.
    split; try done. simpl. destruct (external _) eqn:He; simpl; [|by left].
    case_bool_decide; [right; auto using external_spec|by left].
  - destruct (external _) eqn:He; simpl; [|by left].
    case_bool_decide; [right; auto using external_spec|by left].
  - by case_bool_decide.
  - by case_bool_decide.
Qed.

Lemma fill_defaulted k o o' : fill k o = Some o' → defaulted k o o'.
Proof.
  destruct k; simpl; try done.
  - case_bool_decide; [|done]. intros [= <-]. by apply fill_service_defaulted.
  - intros [= <-]. split; try done. apply fill_meta_defaulted.
  - intros [= <-]. split; try done. apply fill_meta_defaulted.
Qed.

Lemma defaulted_meta k (o o' : Obj k) :
  defaulted k o o' → meta_defaulted (meta_of k o) (meta_of k o').
Proof. destruct k; simpl; try done; by intros []. Qed.

Lemma defaulted_key k (o o' : Obj k) : defaulted k o o' → key_of o' = key_of o.
Proof. intros []%defaulted_meta. unfold key_of. congruence. Qed.

Lemma lookup_merge3 {V} (f : option V → option V → option V → option V) o m c x :
  (∀ cur, f None None cur = cur) →
  merge3 f o m c !! x = f (o !! x) (m !! x) (c !! x).
Proof.
  intros Hf. unfold merge3, pairs. rewrite lookup_merge, lookup_merge.
  destruct (o !! x), (m !! x), (c !! x); simpl; by rewrite ?Hf.
Qed.

Lemma merge_entry_none {V} `{EqDecision V} (c : option V) : merge_entry None None c = c.
Proof. done. Qed.

Lemma merge_listener_fun_spec o m c : merge_listener o m c (merge_listener_fun o m c).
Proof. destruct o, m, c; simpl; try done. by case_bool_decide. Qed.

Lemma fake_merge_patched k o m c n : fake_merge k o m c = Some n → patched k o m c n.
Proof.
  destruct k; simpl; try done; intros [= <-] _; (split; [done|]); intros x; simpl.
  1,2: unfold map_get at 1; simpl; by rewrite lookup_merge3.
  unfold map_get at 4; simpl. rewrite lookup_merge3 by done. apply merge_listener_fun_spec.
Qed.

Lemma fake_merge_key k o m c n : fake_merge k o m c = Some n → key_of n = key_of c.
Proof. destruct k; simpl; try done; by intros [= <-]. Qed.

#[export] Instance fake_api_server : ApiServer cluster.
Proof.
  refine {| stored := fake_stored; stored_key := fake_stored_key |}; simpl.
  - intros k key w w' r [= <- <-]. split; [done|].
    by destruct (fake_stored k w (scoped k key)).
  - intros k opts w w' r [= <- <-]. split; [done|]. intros o.
    rewrite list_elem_of_filter, elem_of_entries. naive_solver.
  - intros k o w w' r. destruct (fake_stored k w (scoped k (key_of o))) eqn:Hs.
    { intros [= <- <-] _. split; [done|]. by eexists. }
    destruct (fill k o) as [o'|] eqn:Hf; intros [= <- <-]; [|done].
    apply fill_defaulted in Hf. split_and!; [done..|].
    apply put_wrote. by rewrite (defaulted_key _ _ _ Hf).
  - intros k o w w' r. destruct (fake_stored k w (scoped k (key_of o))) eqn:Hs; [|by intros [= <- <-]].
    destruct (fill k o) as [o'|] eqn:Hf; intros [= <- <-]; [|done].
    apply fill_defaulted in Hf. split_and!; [by eexists|done|].
    apply put_wrote. by rewrite (defaulted_key _ _ _ Hf).
  - intros k o m w w' r. destruct (fake_stored k w (scoped k (key_of m))) as [c|] eqn:Hs;
      [|by intros [= <- <-]].
    destruct (fake_merge k o m c) as [n|] eqn:Hf; intros [= <- <-]; [|done].
    exists c. split_and!; [done|by apply fake_merge_patched|].
    apply put_wrote. rewrite (fake_merge_key _ _ _ _ _ Hf). by apply fake_stored_key in Hs.
  - intros l w w' r. destruct (fake_stored KListener w _) as [c|] eqn:Hs; intros [= <- <-]; [|done].
    exists c. split_and!; [done..|]. apply (put_wrote KListener).
    by apply (fake_stored_key KListener) in Hs.
Defined.

Lemma fake_retried n f w : retried f w (fake_retry n f w).
Proof.
  revert w; induction n as [|n IH]; intros w; simpl; destruct (f w) as [w' [a|e|]] eqn:Hf;
    try (by apply retried_done); destruct (IsConflict e) eqn:He.
  - by apply retried_give_up.
  - apply retried_done; [done|]. naive_solver.
  - by eapply retried_again.
  - apply retried_done; [done|]. naive_solver.
Qed.

#[export] Instance fake_controller_util_laws : ControllerUtilLaws cluster.
Proof.
  split.
  - intros k owner m r <-; simpl. unfold fake_set_controller_reference.
    case_bool_decide as Hns; [|done]. case_bool_decide as Hin.
    + split_and!; [by destruct m|by exists (owner_ref k owner)|].
      intros m2 Ho Hn. by rewrite Hn, Ho, !bool_decide_eq_true_2.
    + case_bool_decide as Hall; [|done]. split_and!; [done| |].
      * exists (owner_ref k owner). split; [simpl; set_solver|done].
      * intros m2 Ho Hn. rewrite Hn, Ho, bool_decide_eq_true_2 by done.
        rewrite bool_decide_eq_true_2; [done|]. simpl. set_solver.
  - intros k owner m Hall Hns; simpl. unfold fake_set_controller_reference.
    rewrite bool_decide_eq_true_2 by done. case_bool_decide; [eauto|].
    rewrite bool_decide_eq_true_2 by done. eauto.
  - done.
  - intros f w. apply fake_retried.
Qed.

#[export] Instance fake_reliable : ReliableReads cluster.
Proof.
  split; simpl; intros k key w.
  - by intros o ->.
  - intros ->. by exists (ApiError NotFound).
  - eauto.
Qed.
