(* ===== verification/Fixtures.v ===== *)
(** * Example objects

    The objects of service_test.go and of the end-to-end tests, used by the witnesses. *)
From S2P Require Import Prelude GoRuntime Api FakeClient.

Definition test_meta (name ns uid : string) : ObjectMeta :=
  {| meta_name := name; meta_namespace := ns; meta_uid := uid; meta_labels := None;
     meta_annotations := None; meta_owners := [] |}.

(** The Listener of TestServiceUpdatePreservesAllocationsAndConverges. *)
Definition test_listener : Listener :=
  {| listener_meta := test_meta "client" "default" "listener-uid";
     listener_spec := {|
       ls_className := "external";
       ls_ports := [ {| port_name := "metrics"; port_protocol := "TCP"; port_port := 9090 |};
                     {| port_name := "client"; port_protocol := "TCP"; port_port := 8081 |};
                     {| port_name := "new"; port_protocol := ""; port_port := 8082 |} ];
       ls_publishNotReady := None;
       ls_extraPodSelectorLabels := None |};
     listener_status := no_status |}.

Definition test_class (type preferred : string) : ListenerClass :=
  {| lc_meta := test_meta "external" "" "class-uid";
     lc_spec := {| lcs_serviceType := Some type; lcs_preferredAddressType := preferred;
                   lcs_externalTrafficPolicy := ExternalTrafficPolicyCluster;
                   lcs_serviceAnnotations := None |} |}.

Definition test_port (name : string) (port nodePort : Z) : ServicePort :=
  {| sp_name := name; sp_protocol := "TCP"; sp_port := port; sp_targetPort := FromInt32 0;
     sp_nodePort := nodePort |}.

Definition test_service : Service :=
  {| svc_meta := {| meta_name := "client"; meta_namespace := "default"; meta_uid := "svc-uid";
                    meta_labels := None;
                    meta_annotations := Some {[ "external.example/managed" := "keep" ]};
                    meta_owners := [] |};
     svc_spec := {|
       svc_ports := [ test_port "client" 8080 30080; test_port "metrics" 9090 30090 ];
       svc_selector := None; svc_type := ServiceTypeNodePort; svc_publishNotReady := false;
       svc_externalTrafficPolicy := ""; svc_healthCheckNodePort := 0;
       svc_allocateLBNodePorts := None; svc_loadBalancerClass := None;
       svc_clusterIP := "10.0.0.10"; svc_clusterIPs := ["10.0.0.10"; "fd00::10"];
       svc_ipFamilies := ["IPv4"; "IPv6"]; svc_ipFamilyPolicy := Some "PreferDualStack" |};
     svc_ingress := [] |}.

Definition test_node (name ip : string) : Node :=
  {| node_meta := test_meta name "" ("uid-" +:+ name);
     node_addresses := [ {| na_type := "InternalDNS"; na_address := name |};
                         {| na_type := NodeInternalIP; na_address := ip |} ] |}.

Definition test_slice : EndpointSlice :=
  {| es_meta := {| meta_name := "client-abc"; meta_namespace := "default"; meta_uid := "es-uid";
                   meta_labels := Some {[ "kubernetes.io/service-name" := "client" ]};
                   meta_annotations := None; meta_owners := [] |};
     es_endpoints := [ {| endpoint_nodeName := Some "node-1" |}; {| endpoint_nodeName := None |};
                       {| endpoint_nodeName := Some "node-2" |} ] |}.

(** A cluster with the Listener and its class only, and one with the old Service too. *)
Definition fresh_cluster : cluster :=
  add KListenerClass (test_class ServiceTypeNodePort AddressTypeHostnameConservative)
    (add KListener test_listener empty_cluster).
Definition test_cluster : cluster := add KService test_service fresh_cluster.
