(* ===== verification/Util.v ===== *)
(** * Package pkg/util

    [address.go], [constant.go], [net.go] and the level choice of [log.go]. *)
From S2P Require Import Prelude GoRuntime GoStrings Api.
From Stdlib Require Import Ascii.

(** ** address.go *)

Module Address.

Record AddressInfo := { Address : string; AddressType : string }.

Record IngressAddress := { ia_info : AddressInfo; ia_ports : gomap Z }.

(** [AddressInfo.Pick]: [None] is the nil pointer. *)
Definition Pick (a : AddressInfo) (preferredType : string) : option AddressInfo :=
  if bool_decide (preferredType = AddressTypeIP) then
    if bool_decide (AddressType a = AddressTypeIP) then Some a
    else Some {| Address := Address a; AddressType := AddressTypeIP |}
  else if bool_decide (AddressType a = AddressTypeHostname) then
    if bool_decide (preferredType = AddressTypeHostname) then Some a
    else Some {| Address := Address a; AddressType := AddressTypeHostname |}
  else None.

(** [GetPriorNodeAddress]. *)
Fixpoint prior_address (addresses : list NodeAddress) : res AddressInfo :=
  match addresses with
  | [] => Fail (New (Lit "no address found"))
  | address :: rest =>
    if bool_decide (na_type address = NodeExternalIP) then
      Ok {| Address := na_address address; AddressType := AddressTypeIP |}
    else if bool_decide (na_type address = NodeInternalIP) then
      Ok {| Address := na_address address; AddressType := AddressTypeIP |}
    else if bool_decide (na_type address = NodeHostName) then
      Ok {| Address := na_address address; AddressType := AddressTypeHostname |}
    else prior_address rest
  end.
Definition GetPriorNodeAddress (node : Node) : res AddressInfo :=
  prior_address (node_addresses node).

(** The node address types the operator can publish. *)
Definition publishable (a : NodeAddress) : Prop :=
  na_type a = NodeExternalIP ∨ na_type a = NodeInternalIP ∨ na_type a = NodeHostName.
#[export] Instance publishable_dec a : Decision (publishable a).
Proof. unfold publishable. apply _. Defined.

(** The address information of a publishable node address. *)
Definition info_of (a : NodeAddress) : AddressInfo :=
  {| Address := na_address a;
     AddressType := if bool_decide (na_type a = NodeHostName)
                    then AddressTypeHostname else AddressTypeIP |}.

Lemma prior_address_find addresses :
  prior_address addresses =
  match List.find (λ a, bool_decide (publishable a)) addresses with
  | Some a => Ok (info_of a)
  | None => Fail (New (Lit "no address found"))
  end.
Proof.
  induction addresses as [|a rest IH]; simpl; [done|]. rewrite IH.
  unfold publishable, info_of, NodeExternalIP, NodeInternalIP, NodeHostName.
  repeat case_bool_decide; try congruence; tauto.
Qed.

(** The first publishable address, in the order of the node. *)
Lemma prior_address_first addresses a :
  prior_address addresses = Ok a →
  ∃ skipped first rest, addresses = skipped ++ first :: rest ∧
    Forall (λ x, na_type x ∉ [NodeExternalIP; NodeInternalIP; NodeHostName]) skipped ∧
    Address a = na_address first ∧
    (na_type first ∈ [NodeExternalIP; NodeInternalIP] ∧ AddressType a = AddressTypeIP ∨
     na_type first = NodeHostName ∧ AddressType a = AddressTypeHostname).
Proof.
  induction addresses as [|x addresses IH]; simpl; [done|].
  repeat case_bool_decide; [intros [= <-]; exists [], x, addresses; split_and!; [done|constructor|done|set_solver]..|].
  intros (skipped & first & rest & -> & Hsk & Hrest)%IH. exists (x :: skipped), first, rest.
  split_and!; [done|constructor; [set_solver|done]|tauto..].
Qed.

(** Picking an IP never gives nil; picking anything else does exactly for an address that
    is not a host name. *)
Lemma Pick_nil a preferred :
  Pick a preferred = None ↔
  preferred ≠ AddressTypeIP ∧ AddressType a ≠ AddressTypeHostname.
Proof. unfold Pick. repeat case_bool_decide; naive_solver. Qed.

Lemma Pick_address a preferred b : Pick a preferred = Some b → Address b = Address a.
Proof. unfold Pick. repeat case_bool_decide; naive_solver. Qed.

Lemma Pick_type a preferred b :
  Pick a preferred = Some b →
  AddressType b = if bool_decide (preferred = AddressTypeIP)
                  then AddressTypeIP else AddressTypeHostname.
Proof. unfold Pick. repeat case_bool_decide; naive_solver. Qed.

End Address.

(** ** constant.go *)

Module Constant.

Definition LabelListenerName : string := "listeners.kubecoop.dev/listenerName".
Definition LabelListenerNamespace : string := "listeners.kubedoop.dev/listenerNamespace".
Definition LabelListenerMntPrefix : string := "listeners.kubedoop.dev/mnt.".

(** The key of [ListenerMountPodLabels]. *)
Definition mount_label (uid : string) : string :=
  LabelListenerMntPrefix +:+ ReplaceAll uid "-" "".

Definition ListenerMountPodLabels (listener : Listener) : gomap string :=
  Some {[ mount_label (meta_uid (listener_meta listener)) := meta_name (listener_meta listener) ]}.

Definition ListenerMetaLabels (listener : Listener) : gomap string :=
  Some (<[ LabelListenerName := meta_name (listener_meta listener) ]>
         {[ LabelListenerNamespace := meta_namespace (listener_meta listener) ]}).

(** Which bytes of a UID are dashes. *)
Definition dash_mask (uid : string) : list bool :=
  (λ c, bool_decide (c = "-"%char)) <$> bytes uid.

Lemma ReplaceAll_dash_inj u1 u2 :
  dash_mask u1 = dash_mask u2 → ReplaceAll u1 "-" "" = ReplaceAll u2 "-" "" → u1 = u2.
Proof.
  unfold dash_mask. revert u2.
  induction u1 as [|c1 u1 IH]; intros [|c2 u2]; simpl; [done..|].
  intros [= Hc Hm] Hr.
  destruct (Ascii.eqb_spec c1 "-") as [->|H1], (Ascii.eqb_spec c2 "-") as [->|H2];
    repeat case_bool_decide; try done.
  - f_equal. by apply IH.
  - injection Hr as -> Hr. f_equal. by apply IH.
Qed.

(** Listeners with different UIDs of the same shape (all UUIDs have theirs) mark the
    pods that mount them with different labels, though the dashes are removed. *)
Lemma mount_label_distinct u1 u2 :
  dash_mask u1 = dash_mask u2 → u1 ≠ u2 → mount_label u1 ≠ mount_label u2.
Proof.
  intros Hm Hne Hl%string_app_inj_l. by apply Hne, ReplaceAll_dash_inj.
Qed.

Lemma mount_label_distinct_witness :
  mount_label "7f1c2a9e-0b1d-4c55-9d3e-8a7b6c5d4e3f" ≠
  mount_label "7f1c2a9e-0b1d-4c55-9d3e-8a7b6c5d4e40".
Proof. apply mount_label_distinct; [reflexivity|done]. Defined.

End Constant.

(** ** net.go *)

Module Net.

(** [ParseEndpoint]: protocol and address. *)
Definition ParseEndpoint (ep : string) : res (string * string) :=
  let invalid := Fail (New (Cat (Lit "invalid endpoint: ") (Lit ep))) in
  if HasPrefix (ToLower ep) "unix://" || HasPrefix (ToLower ep) "tcp://" then
    match SplitN2 ep "://" with
    | [s0; s1] => if bool_decide (s1 ≠ "") then Ok (s0, s1) else invalid
    | _ => Panic                                        (* s[1] out of range *)
    end
  else invalid.

(** An endpoint in the form the driver is configured with: a scheme of any letter case
    and a non-empty address. *)
Definition well_formed (ep proto addr : string) : Prop :=
  ep = proto +:+ ("://" +:+ addr) ∧ addr ≠ "" ∧
  (ToLower proto = "unix" ∨ ToLower proto = "tcp").

Lemma scheme_prefix ep scheme :
  HasPrefix (ToLower ep) (scheme +:+ "://") = true →
  ∃ proto addr, ep = proto +:+ ("://" +:+ addr) ∧ ToLower proto = scheme.
Proof.
  intros [t Ht]%HasPrefix_spec. rewrite <- string_app_assoc in Ht.
  change ("://" +:+ t) with (String ":" ("//" +:+ t)) in Ht.
  destruct (ToLower_split _ _ _ _ Ht) as (p & d & s2 & -> & ->%to_lower_colon & H2); [done..|].
  destruct (ToLower_head s2 "/" (String "/" t)) as (d1 & s3 & -> & ->%to_lower_slash & H3); [done..|].
  destruct (ToLower_head s3 "/" t) as (d2 & r & -> & ->%to_lower_slash & H4); [done..|].
  exists p, r. split; [done|].
  rewrite ToLower_app in Ht by (vm_compute; lia).
  apply (string_app_inj_r (ToLower (String ":" (String "/" (String "/" r))))).
  rewrite Ht. f_equal. rewrite ToLower_cons by (vm_compute; lia). by rewrite H2.
Qed.

Lemma no_colon_lower s : ":"%char ∉ bytes (ToLower s) → ":"%char ∉ bytes s.
Proof.
  intros Hn (a & b & ->)%bytes_split. apply Hn. rewrite ToLower_app by (vm_compute; lia).
  apply bytes_split. exists (ToLower a), (ToLower b).
  by rewrite ToLower_cons by (vm_compute; lia).
Qed.

Lemma scheme_cut proto addr :
  ToLower proto = "unix" ∨ ToLower proto = "tcp" →
  SplitN2 (proto +:+ ("://" +:+ addr)) "://" = [proto; addr].
Proof.
  intros Hs. unfold SplitN2. rewrite cut_at_first; [done|].
  apply no_colon_lower. destruct Hs as [-> | ->]; set_solver.
Qed.

Lemma scheme_prefix_conv proto addr scheme :
  ToLower proto = scheme →
  HasPrefix (ToLower (proto +:+ ("://" +:+ addr))) (scheme +:+ "://") = true.
Proof.
  intros <-. apply HasPrefix_spec.
  change ("://" +:+ addr) with (String ":" ("//" +:+ addr)).
  rewrite ToLower_app by (vm_compute; lia).
  exists (ToLower addr). rewrite <- string_app_assoc. f_equal.
  change ("//" +:+ addr) with (String "/" (String "/" addr)).
  by rewrite !ToLower_cons by (vm_compute; lia).
Qed.

(** [ParseEndpoint] accepts exactly the endpoints made of a scheme [unix] or [tcp] in
    any letter case, the separator and a non-empty address, and returns the two parts as
    they were written. *)
Lemma ParseEndpoint_spec ep proto addr :
  ParseEndpoint ep = Ok (proto, addr) ↔ well_formed ep proto addr.
Proof.
  unfold ParseEndpoint, well_formed. split.
  - destruct (HasPrefix _ "unix://" || HasPrefix _ "tcp://") eqn:Hp; [|done].
    assert (∃ p a, ep = p +:+ ("://" +:+ a) ∧ (ToLower p = "unix" ∨ ToLower p = "tcp"))
      as (p & a & -> & Hs).
    { apply orb_true_iff in Hp as [Hp|Hp].
      - apply (scheme_prefix _ "unix") in Hp as (?&?&?&?); eauto.
      - apply (scheme_prefix _ "tcp") in Hp as (?&?&?&?); eauto. }
    rewrite scheme_cut by done. case_bool_decide; naive_solver.
  - intros (-> & Ha & Hs). rewrite scheme_cut by done.
    rewrite (proj2 (orb_true_iff _ _)).
    + by rewrite bool_decide_eq_true_2.
    + destruct Hs as [Hs|Hs]; [left|right]; by apply (scheme_prefix_conv _ addr) in Hs.
Qed.

End Net.

(** ** log.go *)

Module Log.

(** [getLogLevel]; [verbosity] is [ctrl.Log.GetV()]. *)
Definition getLogLevel (verbosity : Z) (method : string) : Z :=
  if bool_decide (method = "/csi.v1.Identity/Probe") ||
     bool_decide (method = "/csi.v1.Node/NodeGetCapabilities") ||
     bool_decide (method = "/csi.v1.Node/NodeGetVolumeStats")
  then 8 else verbosity.

(** What is written to the log: an informational line at a level, or an error line. *)
Inductive Entry :=
| InfoLine (level : Z) (text : string)
| ErrorLine (text : string) (err : error).

(** [LogGRPC], the interceptor around every handler; the log is part of the state. *)
Definition LogGRPC {S Req Resp} (verbosity : Z) (handler : Req → M S Resp)
    (method : string) (req : Req) : M (S * list Entry) Resp := λ '(s, log),
  let level := getLogLevel verbosity method in
  let log := log ++ [InfoLine level "gRPC calling"] in
  match handler req s with
  | (s', Ok resp) => ((s', log ++ [InfoLine level "gRPC called"]), Ok resp)
  | (s', Fail err) =>
      let log := log ++ [ErrorLine "RPC called error" err] in
      let log := if (5 <=? level)%Z then log ++ [ErrorLine "GRPC called error" err] else log in
      ((s', log), Fail err)
  | (s', Panic) => ((s', log), Panic)
  end.

(** The interceptor is transparent: it changes neither the outcome nor the state. *)
Lemma LogGRPC_transparent {S Req Resp} verbosity (handler : Req → M S Resp) method req s log :
  ∃ log', LogGRPC verbosity handler method req (s, log) =
    ((let '(s', _) := handler req s in (s', log')), let '(_, r) := handler req s in r).
Proof.
  unfold LogGRPC. destruct (handler req s) as [s' []]; eexists; reflexivity.
Qed.

End Log.
