(* ===== verification/Service.v ===== *)
(** * internal/controller/listener/service.go

    [ServiceReconciler] keeps the Service of a Listener; [ServiceAddress] reads addresses
    and ports from a Service. *)
From S2P Require Import Prelude GoRuntime GoStrings Api FakeClient Fixtures Util.
Import Address Constant.

(** [ctrl.Result], of which only [Requeue] is used. *)
Record Result := { Requeue : bool }.
Definition zero_result : Result := {| Requeue := false |}.
Definition IsZero (r : Result) : bool := negb (Requeue r).

Module ServiceReconciler.
Section service_reconciler.
Context {W : Type} `{ControllerUtil W} `{OperatorGo}.

(** The receiver: the client is [W]'s, the Listener is the field [listener]. *)
Record ServiceReconciler := { sr_listener : Listener }.

Definition NewServiceReconciler (listener : Listener) : ServiceReconciler :=
  {| sr_listener := listener |}.

Implicit Types (s : ServiceReconciler).

Definition getName s : string := meta_name (listener_meta (sr_listener s)).
Definition getNamespace s : string := meta_namespace (listener_meta (sr_listener s)).

Definition getListenerClass s : M W ListenerClass :=
  client_get KListenerClass (Key "" (ls_className (listener_spec (sr_listener s)))).

(** The extra selector labels are copied over the mount label. *)
Definition getPodSelectorLabels s : res (gomap string) :=
  maps_Copy (ListenerMountPodLabels (sr_listener s))
            (ls_extraPodSelectorLabels (listener_spec (sr_listener s))).

(** [None] is the nil pointer. *)
Definition getExternalTrafficPolicyFromListenerClass (lc : ListenerClass) : res (option string) :=
  serviceType ← deref (lcs_serviceType (lc_spec lc));
  if bool_decide (serviceType = ServiceTypeNodePort) ||
     bool_decide (serviceType = ServiceTypeLoadBalancer)
  then Ok (Some (lcs_externalTrafficPolicy (lc_spec lc)))
  else Ok None.

(** The port loop of [createService]: unnamed ports are skipped. *)
Definition service_port (port : PortSpec) : option ServicePort :=
  if bool_decide (port_name port ≠ "") then
    let protocol := if bool_decide (port_protocol port = "") then ProtocolTCP
                    else port_protocol port in
    Some {| sp_name := port_name port; sp_protocol := protocol; sp_port := port_port port;
            sp_targetPort := FromInt32 (port_port port); sp_nodePort := 0 |}
  else None.
Definition service_ports (ports : list PortSpec) : list ServicePort :=
  filter_map service_port ports.

(** The Service [createService] builds before it looks at the existing one. *)
Definition desired_service s (lc : ListenerClass) (ports : list ServicePort) : res Service :=
  selector ← getPodSelectorLabels s;
  serviceType ← deref (lcs_serviceType (lc_spec lc));
  policy ← getExternalTrafficPolicyFromListenerClass lc;
  Ok {| svc_meta := new_meta (getName s) (getNamespace s);
        svc_spec := {|
          svc_ports := ports;
          svc_selector := selector;
          svc_type := serviceType;
          svc_publishNotReady := GetPublishNotReadyAddresses (listener_spec (sr_listener s));
          svc_externalTrafficPolicy := default "" policy;
          svc_healthCheckNodePort := 0;
          svc_allocateLBNodePorts := None;
          svc_loadBalancerClass := None;
          svc_clusterIP := "";
          svc_clusterIPs := [];
          svc_ipFamilies := [];
          svc_ipFamilyPolicy := None |};
        svc_ingress := [] |}.

(** [ports[i].NodePort = existing.NodePort] for the first existing port of the same name
    and protocol. *)
Definition same_port (p existing : ServicePort) : Prop :=
  sp_name existing = sp_name p ∧ sp_protocol existing = sp_protocol p.
#[export] Instance same_port_dec p existing : Decision (same_port p existing).
Proof. unfold same_port. apply _. Defined.

Definition with_nodePort (n : Z) (p : ServicePort) : ServicePort :=
  {| sp_name := sp_name p; sp_protocol := sp_protocol p; sp_port := sp_port p;
     sp_targetPort := sp_targetPort p; sp_nodePort := n |}.

Definition keep_node_port (existing : list ServicePort) (p : ServicePort) : ServicePort :=
  match List.find (λ e, bool_decide (same_port p e)) existing with
  | Some e => with_nodePort (sp_nodePort e) p
  | None => p
  end.

Definition has_node_ports (serviceType : string) : bool :=
  bool_decide (serviceType = ServiceTypeNodePort) ||
  bool_decide (serviceType = ServiceTypeLoadBalancer).

(** The function [createService] passes to [CreateOrUpdate]: [desired] is the copy taken
    before the call, [service] the object it mutates. *)
Definition mutate s (desired service : Service) : res Service :=
  let d := svc_spec desired in
  let c := svc_spec service in
  let ports := if has_node_ports (svc_type d)
               then keep_node_port (svc_ports c) <$> svc_ports d
               else svc_ports d in
  let lb := bool_decide (svc_type d = ServiceTypeLoadBalancer) in
  let spec := {|
    svc_ports := ports;
    svc_selector := svc_selector d;
    svc_type := svc_type d;
    svc_publishNotReady := svc_publishNotReady d;
    svc_externalTrafficPolicy := svc_externalTrafficPolicy d;
    svc_allocateLBNodePorts := if lb then svc_allocateLBNodePorts c else None;
    svc_loadBalancerClass := if lb then svc_loadBalancerClass c else None;
    svc_healthCheckNodePort :=
      if negb lb || bool_decide (svc_externalTrafficPolicy d ≠ ExternalTrafficPolicyLocal)
      then 0 else svc_healthCheckNodePort c;
    svc_clusterIP := svc_clusterIP c;
    svc_clusterIPs := svc_clusterIPs c;
    svc_ipFamilies := svc_ipFamilies c;
    svc_ipFamilyPolicy := svc_ipFamilyPolicy c |} in
  meta ← SetControllerReference KListener (listener_meta (sr_listener s)) (svc_meta service);
  Ok {| svc_meta := meta; svc_spec := spec; svc_ingress := svc_ingress service |}.

Definition no_ports_error s : error :=
  New (Cat (Lit "could not find any valid ports in listener: ")
      (Cat (Lit (getName s)) (Cat (Lit " namespace: ") (Lit (getNamespace s))))).

Definition createService s : M W Result :=
  listenerClass ← getListenerClass s;
  let ports := service_ports (ls_ports (listener_spec (sr_listener s))) in
  if bool_decide (ports = []) then fail (no_ports_error s)
  else
    desired ← lift (desired_service s listenerClass ports);
    operation ← CreateOrUpdate desired (mutate s desired);
    if bool_decide (operation ≠ OperationResultNone)
    then mret {| Requeue := true |}
    else mret zero_result.

(** [describe]: the Service of the Listener. *)
Definition describe s : M W Service :=
  client_get KService (Key (getNamespace s) (getName s)).

End service_reconciler.
End ServiceReconciler.

(** ** ServiceAddress *)

Module ServiceAddress.
Section service_address.
Context {W : Type} `{Client W}.

Record ServiceAddress := { sa_service : Service }.
Definition NewServiceAddress (service : Service) : ServiceAddress := {| sa_service := service |}.

Implicit Types (s : ServiceAddress).

Definition sa_name s : string := meta_name (svc_meta (sa_service s)).
Definition sa_namespace s : string := meta_namespace (svc_meta (sa_service s)).

(** The addresses of one ingress point of a load balancer: host name first, then IP. *)
Definition ingress_addresses (ingress : LoadBalancerIngress) : list AddressInfo :=
  (if bool_decide (lbi_hostname ingress ≠ "")
   then [{| Address := lbi_hostname ingress; AddressType := AddressTypeHostname |}] else []) ++
  (if bool_decide (lbi_ip ingress ≠ "")
   then [{| Address := lbi_ip ingress; AddressType := AddressTypeIP |}] else []).

Definition getLbIngressAddresses s : res (list AddressInfo) :=
  if bool_decide (svc_type (svc_spec (sa_service s)) ≠ ServiceTypeLoadBalancer)
  then Fail (New (Lit "service is not of type LoadBalancer"))
  else if bool_decide (svc_ingress (sa_service s) = [])
  then Fail (New (Lit "service has no LoadBalancer Ingress"))
  else Ok (svc_ingress (sa_service s) ≫= ingress_addresses).

Definition getClusterIpAddresses s : res (list AddressInfo) :=
  if bool_decide (svc_type (svc_spec (sa_service s)) ≠ ServiceTypeClusterIP)
  then Fail (New (Cat (Lit "service.Spec.Type is not of type ClusterIP, but ")
                      (Lit (svc_type (svc_spec (sa_service s))))))
  else Ok ((λ ip, {| Address := ip; AddressType := AddressTypeIP |}) <$>
             svc_clusterIPs (svc_spec (sa_service s))).

Definition getServiceType s : string := svc_type (svc_spec (sa_service s)).

Definition service_name_label : string := "kubernetes.io/service-name".

(** [getNodeNames]: the nodes of the endpoints, in order and with repetitions. *)
Definition getNodeNames s : M W (list string) :=
  slices ← on_error
    (λ err, Wrap (Cat (Lit "failed to list endpoints for service ")
                 (Cat (Lit (sa_namespace s)) (Cat (Lit "/")
                 (Cat (Lit (sa_name s)) (Cat (Lit ": ") (ErrorOf err)))))) err)
    (client_list KEndpointSlice
       {| lo_namespace := Some (sa_namespace s);
          lo_labels := {[ service_name_label := sa_name s ]} |});
  if bool_decide (length slices = 0) then mret []
  else mret (slices ≫= λ slice, omap endpoint_nodeName (es_endpoints slice)).

Definition node_address (nodeName : string) : M W AddressInfo :=
  node ← client_get KNode (Key "" nodeName);
  lift (GetPriorNodeAddress node).

Definition getNodesAddresses s : M W (list AddressInfo) :=
  nodeNames ← getNodeNames s;
  collect node_address nodeNames.

(** The loop of [getPorts] and [getNodePorts]: a later port of the same name wins. *)
Definition port_map (value : ServicePort → Z) (ports : list ServicePort) : gmap string Z :=
  fold_left (λ m port, if bool_decide (sp_name port = "") then m
                       else <[sp_name port := value port]> m) ports ∅.

Definition getNodePorts s : res (gomap Z) :=
  if bool_decide (svc_type (svc_spec (sa_service s)) ≠ ServiceTypeNodePort)
  then Fail (New (Lit "service is not of type NodePort"))
  else Ok (Some (port_map sp_nodePort (svc_ports (svc_spec (sa_service s))))).

Definition getPorts s : gomap Z :=
  Some (port_map sp_port (svc_ports (svc_spec (sa_service s)))).

End service_address.
End ServiceAddress.

(** ** Lemmas on the wanted and the stored Service *)

Import ServiceReconciler ServiceAddress.

Lemma service_ports_nodePort ports p : p ∈ service_ports ports → sp_nodePort p = 0%Z.
Proof.
  intros (q & _ & Hq)%list_elem_of_omap. unfold service_port in Hq.
  by case_bool_decide; simplify_eq.
Qed.

Lemma service_ports_nil ports :
  service_ports ports = [] ↔ Forall (λ p, port_name p = "") ports.
Proof.
  unfold service_ports, filter_map. induction ports as [|p ports IH]; csimpl; [done|].
  rewrite Forall_cons, <- IH. unfold service_port at 1. case_bool_decide; naive_solver.
Qed.

Lemma has_node_ports_spec t :
  has_node_ports t = true ↔ t = ServiceTypeNodePort ∨ t = ServiceTypeLoadBalancer.
Proof. unfold has_node_ports. rewrite orb_true_iff, !bool_decide_eq_true. done. Qed.

(** [p] is [d] up to the node port. *)
Definition port_of (d p : ServicePort) : Prop := p = with_nodePort (sp_nodePort p) d.

Lemma port_of_keep existing d : port_of d (keep_node_port existing d).
Proof. unfold keep_node_port, port_of. by case_match; [|destruct d]. Qed.

Lemma port_of_defaulted ty d o p : port_of d o → port_defaulted ty o p → port_of d p.
Proof.
  unfold port_of. intros -> [Hn Hpr Hp Ht _]. destruct d, p; simpl in *. by subst.
Qed.

Lemma port_of_same d p : port_of d p → same_port d p.
Proof. unfold port_of. by intros ->. Qed.

(** Ports that carry the wanted ones' identities are found again by them. *)
Lemma keep_node_ports_found ds ps :
  Forall2 port_of ds ps → NoDup (sp_name <$> ps) → keep_node_port ps <$> ds = ps.
Proof.
  intros Hds Hnd. eapply fmap_Forall2_eq; [done|]. intros d p Hp Hin.
  pose proof (port_of_same _ _ Hp) as Hs.
  unfold keep_node_port. rewrite (find_unique (same_port d) ps p); [by symmetry|done..|].
  intros q Hq [Hname _]. destruct Hs as [Hname' _].
  eapply NoDup_fmap_eq; [done..|congruence].
Qed.

Lemma defaulted_names ty l l' :
  Forall2 (port_defaulted ty) l l' → sp_name <$> l' = sp_name <$> l.
Proof. induction 1 as [|p p' l l' Hp _ IH]; [done|]. csimpl. by rewrite IH, (pd_name _ _ _ Hp). Qed.

Lemma defaulted_same ty l l' :
  has_node_ports ty = false → Forall2 (port_defaulted ty) l l' → l = l'.
Proof.
  intros Hty. induction 1 as [|[] [] l l' [? ? ? ? Hn] _ IH]; [done|]. f_equal; [|done].
  destruct Hn as [|[_ Hn%has_node_ports_spec]]; simpl in *; congruence.
Qed.

Section service_lemmas.
Context {W : Type} `{HC : Client W} `{!ApiServer W} `{!ControllerUtil W} `{!ControllerUtilLaws W}.
Context `{!OperatorGo}.
Implicit Types (s : ServiceReconciler).

(** The key of the Service of a Listener. *)
Definition service_key s : ObjectKey := Key (getNamespace s) (getName s).

Lemma mutate_inv s d b o :
  mutate s d b = Ok o →
  SetControllerReference KListener (listener_meta (sr_listener s)) (svc_meta b) = Ok (svc_meta o) ∧
  svc_meta o = with_owners (meta_owners (svc_meta o)) (svc_meta b) ∧
  svc_type (svc_spec o) = svc_type (svc_spec d) ∧
  Forall2 port_of (svc_ports (svc_spec d)) (svc_ports (svc_spec o)).
Proof.
  unfold mutate. intros (m & Hm & [= <-])%res_bind_Ok; simpl.
  pose proof (SetControllerReference_spec _ _ _ _ Hm) as (Hw & _ & _).
  split_and!; try done.
  destruct (has_node_ports _).
  - apply Forall2_fmap_r, Forall_Forall2_diag, Forall_forall. intros. apply port_of_keep.
  - apply Forall_Forall2_diag, Forall_forall. unfold port_of. by intros [].
Qed.

Lemma mutate_key s d b o : mutate s d b = Ok o → key_of (k:=KService) o = key_of (k:=KService) b.
Proof. intros (_ & Hm & _)%mutate_inv. unfold key_of; simpl. by rewrite Hm. Qed.

Lemma desired_key s lc ports d :
  desired_service s lc ports = Ok d → key_of (k:=KService) d = service_key s.
Proof.
  unfold desired_service. intros Hd. apply res_bind_Ok in Hd as (? & _ & Hd).
  apply res_bind_Ok in Hd as (? & _ & Hd). by apply res_bind_Ok in Hd as (? & _ & [= <-]).
Qed.

(** An external Service has a traffic policy: the CRD defaults the class's to Local. *)
Definition policy_set (d : Service) : Prop :=
  has_node_ports (svc_type (svc_spec d)) = true → svc_externalTrafficPolicy (svc_spec d) ≠ "".

(** The ports of a stored Service are left as they are by the next [mutate]. *)
Lemma mutate_ports_fixpoint d o o' :
  Forall2 port_of (svc_ports (svc_spec d)) (svc_ports (svc_spec o)) →
  (has_node_ports (svc_type (svc_spec d)) = false → svc_ports (svc_spec o) = svc_ports (svc_spec d)) →
  svc_type (svc_spec o) = svc_type (svc_spec d) → svc_defaulted o o' →
  (if has_node_ports (svc_type (svc_spec d))
   then keep_node_port (svc_ports (svc_spec o')) <$> svc_ports (svc_spec d)
   else svc_ports (svc_spec d)) = svc_ports (svc_spec o').
Proof.
  intros Hof Hsame Ht Hdef. pose proof (sd_ports _ _ Hdef) as Hports. rewrite Ht in Hports.
  destruct (has_node_ports (svc_type (svc_spec d))) eqn:Hnp.
  - apply keep_node_ports_found.
    + eapply Forall2_trans; [|exact Hof|exact Hports]. intros. by eapply port_of_defaulted.
    + rewrite (defaulted_names _ _ _ Hports). by apply sd_unique in Hdef.
  - rewrite <- Hsame by done. by eapply defaulted_same.
Qed.

(** What the server stored of a mutated Service is a fixed point of [mutate]. *)
Lemma mutate_fixpoint s d b o o' :
  mutate s d b = Ok o → policy_set d → svc_defaulted o o' → mutate s d o' = Ok o'.
Proof.
  intros Hmut Hpol Hdef. pose proof (mutate_inv _ _ _ _ Hmut) as (Hm & Hmeta & Ht & Hof).
  assert (SetControllerReference KListener (listener_meta (sr_listener s)) (svc_meta o')
          = Ok (svc_meta o')) as Hm'.
  { apply SetControllerReference_spec in Hm as (_ & _ & Hidem). pose proof (sd_meta _ _ Hdef) as Hmd.
    apply Hidem; [by apply md_owners in Hmd|].
    apply md_namespace in Hmd. rewrite Hmd. by rewrite Hmeta. }
  unfold mutate in Hmut |- *.
  apply res_bind_Ok in Hmut as (m & _ & [= Ho]).
  rewrite Hm'. unfold mbind, res_bind. f_equal.
  rewrite (mutate_ports_fixpoint d o o') by (try done; subst o; simpl; by intros ->).
  destruct Hdef as [_ _ _ Hsel Hty Hpub Hpo Hhc Hal Hlc _ _].
  destruct o' as [m' [po sel ty pub pol hc al lbc ip ips fam famp] st']. simpl in *. f_equal.
  clear Hmeta Hm Hof Hm'. rewrite <- Ho in *. simpl in *.
  unfold policy_set in Hpol. setoid_rewrite has_node_ports_spec in Hpol.
  subst. f_equal.
  - destruct Hpo as [->|[Hp Hor]]; [done|]. by destruct (Hpol Hor).
  - destruct (bool_decide_reflect (svc_type (svc_spec d) = ServiceTypeLoadBalancer)) as [Hlb|Hlb],
      (bool_decide_reflect (svc_externalTrafficPolicy (svc_spec d) ≠ ExternalTrafficPolicyLocal));
      simpl in *; destruct Hhc as [->|[Hh1 Hh2]]; congruence.
  - destruct (bool_decide_reflect (svc_type (svc_spec d) = ServiceTypeLoadBalancer)) as [Hlb|Hlb];
      [done|]. by destruct Hal as [->|?].
  - by case_bool_decide.
Qed.

(** The runs of [createService] that end without an error. *)
Lemma createService_inv s w w' r :
  createService s w = (w', Ok r) →
  ∃ lc d,
    stored KListenerClass w (Key "" (ls_className (listener_spec (sr_listener s)))) = Some lc ∧
    service_ports (ls_ports (listener_spec (sr_listener s))) ≠ [] ∧
    desired_service s lc (service_ports (ls_ports (listener_spec (sr_listener s)))) = Ok d ∧
    ((∃ svc o, stored KService w (service_key s) = Some svc ∧ mutate s d svc = Ok o ∧
        semantic_equal o svc ∧ w' = w ∧ r = zero_result) ∨
     (∃ b o o', mutate s d b = Ok o ∧ svc_defaulted o o' ∧
        wrote stored KService (service_key s) o' w w' ∧ r = {| Requeue := true |})).
Proof.
  unfold createService. intros Hrun. apply bind_Ok_inv in Hrun as (lc & w1 & Hlc & Hrun).
  unfold getListenerClass in Hlc. apply (get_Ok KListenerClass) in Hlc as [-> Hlc].
  destruct (bool_decide_reflect (service_ports (ls_ports (listener_spec (sr_listener s))) = []))
    as [|Hports]; [by rewrite fail_Ok_inv in Hrun|].
  apply bind_Ok_inv in Hrun as (d & w2 & [-> Hd]%lift_Ok_inv & Hrun).
  exists lc, d. split_and!; [done..|].
  apply bind_Ok_inv in Hrun as (op & w3 & Hop & Hrun).
  rewrite <- (desired_key _ _ _ _ Hd).
  apply CreateOrUpdate_inv in Hop as [(-> & -> & svc & o & ? & ? & ?)|(Hne & b & o & o' & ? & ? & ?)];
    [| |apply mutate_key].
  - apply ret_Ok_inv in Hrun as [-> ->]. left. by exists svc, o.
  - rewrite bool_decide_eq_true_2 in Hrun by done. apply ret_Ok_inv in Hrun as [-> ->].
    right. by exists b, o, o'.
Qed.


(** ** The contract of the Service of a Listener *)

(** The label selector of the Service: the mount label of the Listener, and the extra
    labels over it. *)
Definition selector_spec (l : Listener) (k : string) : option string :=
  match map_get (ls_extraPodSelectorLabels (listener_spec l)) k with
  | Some v => Some v
  | None => if decide (k = mount_label (meta_uid (listener_meta l)))
            then Some (meta_name (listener_meta l)) else None
  end.

Record conforms (l : Listener) (lc : ListenerClass) (svc : Service) : Prop := {
  cf_type : lcs_serviceType (lc_spec lc) = Some (svc_type (svc_spec svc));
  cf_ports : Forall2 port_of (service_ports (ls_ports (listener_spec l)))
                     (svc_ports (svc_spec svc));
  cf_internal : has_node_ports (svc_type (svc_spec svc)) = false →
    Forall (λ p, sp_nodePort p = 0%Z) (svc_ports (svc_spec svc));
  cf_selector : ∀ k, map_get (svc_selector (svc_spec svc)) k = selector_spec l k;
  cf_publish : svc_publishNotReady (svc_spec svc) =
    default true (ls_publishNotReady (listener_spec l));
  cf_policy : svc_externalTrafficPolicy (svc_spec svc) =
    if has_node_ports (svc_type (svc_spec svc))
    then lcs_externalTrafficPolicy (lc_spec lc) else "";
  cf_owner : ∃ ref, ref ∈ meta_owners (svc_meta svc) ∧ or_controller ref = true ∧
    or_name ref = meta_name (listener_meta l) ∧ or_uid ref = meta_uid (listener_meta l);
}.

Lemma norm_map_get a b k : norm_map a = norm_map b → map_get a k = map_get b k.
Proof.
  assert (∀ m, map_get (norm_map m) k = map_get m k) as Hn.
  { intros [m|]; simpl; [|done]. case_bool_decide; [by subst|done]. }
  intros Heq. by rewrite <- (Hn a), <- (Hn b), Heq.
Qed.

Lemma selector_ok s sel k :
  getPodSelectorLabels s = Ok sel → map_get sel k = selector_spec (sr_listener s) k.
Proof.
  unfold getPodSelectorLabels, selector_spec. intros Hsel.
  rewrite (maps_Copy_get _ _ _ k Hsel). case_match; [done|].
  unfold map_get; simpl. rewrite lookup_singleton. by repeat case_decide.
Qed.

(** The wanted Service: its fields, from the Listener and its class. *)
Lemma desired_inv s lc ports d :
  desired_service s lc ports = Ok d →
  lcs_serviceType (lc_spec lc) = Some (svc_type (svc_spec d)) ∧
  svc_ports (svc_spec d) = ports ∧
  (∀ k, map_get (svc_selector (svc_spec d)) k = selector_spec (sr_listener s) k) ∧
  svc_publishNotReady (svc_spec d) = default true (ls_publishNotReady (listener_spec (sr_listener s))) ∧
  svc_externalTrafficPolicy (svc_spec d) =
    (if has_node_ports (svc_type (svc_spec d)) then lcs_externalTrafficPolicy (lc_spec lc) else "").
Proof.
  unfold desired_service, getExternalTrafficPolicyFromListenerClass. intros Hd.
  apply res_bind_Ok in Hd as (sel & Hsel & Hd).
  apply res_bind_Ok in Hd as (ty & Hty & Hd). rewrite Hty in Hd. simpl in Hd.
  apply res_bind_Ok in Hd as (pol & Hpol & [= <-]); simpl.
  apply deref_Ok in Hty. split_and!; try done.
  - intros k. by apply selector_ok.
  - by rewrite GetPublishNotReadyAddresses_spec.
  - unfold has_node_ports. unfold mbind, res_bind in Hpol.
    by destruct (_ || _); injection Hpol as <-.
Qed.

(** A Service a mutation leaves as it is conforms. *)
Lemma mutate_conforms s lc d svc o :
  desired_service s lc (service_ports (ls_ports (listener_spec (sr_listener s)))) = Ok d →
  mutate s d svc = Ok o → semantic_equal o svc → conforms (sr_listener s) lc svc.
Proof.
  intros (Hty & Hports & Hsel & Hpub & Hpol)%desired_inv Hmut Heq.
  pose proof (mutate_inv _ _ _ _ Hmut) as (Href & _ & Hto & Hof).
  unfold semantic_equal, norm_service in Heq. injection Heq as ? ? ? Hl Ha Ho
    Hp Hs Ht Hpr Hpo Hh Hal Hlc Hip Hips Hf Hfp Hst.
  unfold mutate in Hmut. apply res_bind_Ok in Hmut as (m & Hm & [= <-]). simpl in *.
  apply SetControllerReference_spec in Href as (_ & Hown & _). rewrite Ho in Hown.
  split.
  - by rewrite Hty, Ht.
  - rewrite <- Hp. by rewrite <- Hports.
  - intros Hnp. rewrite <- Ht in Hnp. rewrite <- Hp, Hnp, Hports.
    apply Forall_forall. apply service_ports_nodePort.
  - intros k. rewrite <- (norm_map_get _ _ k Hs). apply Hsel.
  - by rewrite <- Hpr.
  - by rewrite <- Hpo, <- Ht.
  - done.
Qed.

Lemma createService_conforms s w w' r :
  createService s w = (w', Ok r) → IsZero r = true →
  w' = w ∧ ∃ lc svc,
    stored KListenerClass w (Key "" (ls_className (listener_spec (sr_listener s)))) = Some lc ∧
    stored KService w (service_key s) = Some svc ∧ conforms (sr_listener s) lc svc.
Proof.
  intros (lc & d & Hlc & Hports & Hd & [Hnone|Hwrote])%createService_inv Hz.
  - destruct Hnone as (svc & o & Hsvc & Hmut & Heq & -> & ->). split; [done|].
    exists lc, svc. split_and!; [done..|]. by eapply mutate_conforms.
  - by destruct Hwrote as (_ & _ & _ & _ & _ & _ & ->).
Qed.

(** C23: When [createService] has nothing left to do, the cluster holds a Service for the
    Listener that meets the whole contract (type, ports, selector, policy, owner), and the
    call changed nothing. *)
Theorem createService_settled s w w' r :
  createService s w = (w', Ok r) → IsZero r = true →
  w' = w ∧ ∃ lc svc,
    stored KListenerClass w (Key "" (ls_className (listener_spec (sr_listener s)))) = Some lc ∧
    stored KService w (service_key s) = Some svc ∧ conforms (sr_listener s) lc svc.
Proof. apply createService_conforms. Qed.

(** The run after one that wrote the Service. *)
Lemma createService_again `{!ReliableReads W} s w w' r :
  createService s w = (w', Ok r) → IsZero r = false →
  (∀ lc, stored KListenerClass w (Key "" (ls_className (listener_spec (sr_listener s)))) = Some lc →
         lcs_externalTrafficPolicy (lc_spec lc) ≠ "") →
  createService s w' = (w', Ok zero_result).
Proof.
  intros (lc & d & Hlc & Hports & Hd & [Hnone|Hwrote])%createService_inv Hz Hpol.
  { by destruct Hnone as (? & ? & ? & ? & ? & ? & ->). }
  destruct Hwrote as (b & o & o' & Hmut & Hdef & Hw & ->).
  assert (policy_set d) as Hps.
  { intros Hnp. apply desired_inv in Hd as (_ & _ & _ & _ & Hp). rewrite Hp, Hnp. by apply Hpol. }
  pose proof (mutate_fixpoint _ _ _ _ _ Hmut Hps Hdef) as Hfix.
  unfold createService, getListenerClass.
  rewrite (bind_step _ _ w' w' lc); [|apply (get_found KListenerClass)];
    [|rewrite (wrote_other _ _ _ _ _ _ _ Hw) by (by left); exact Hlc].
  rewrite bool_decide_eq_false_2 by done. rewrite Hd.
  rewrite (bind_step _ (lift (Ok d)) w' w' d) by done.
  rewrite (bind_step _ _ w' w' OperationResultNone); [done|].
  rewrite CreateOrUpdate_spec.
  rewrite (bind_step _ _ w' w' (inl o')).
  - rewrite Hfix. rewrite (bind_step _ (lift (Ok o')) w' w' o') by done.
    by rewrite bool_decide_eq_true_2.
  - apply attempt_Ok_inv, (get_found KService).
    rewrite scoped_namespaced, (desired_key _ _ _ _ Hd) by done. by apply wrote_same in Hw.
Qed.

(** C14: [createService] converges in one step: after a run that wrote the Service and asked
    for a requeue, a second run on the resulting cluster finds nothing to do, whatever
    node ports, cluster IPs and defaults the API server filled in. *)
Theorem createService_converges `{!ReliableReads W} s w w' r :
  createService s w = (w', Ok r) → IsZero r = false →
  (∀ lc, stored KListenerClass w (Key "" (ls_className (listener_spec (sr_listener s)))) = Some lc →
         lcs_externalTrafficPolicy (lc_spec lc) ≠ "") →
  createService s w' = (w', Ok zero_result).
Proof. apply createService_again. Qed.


(** A mutation keeps what the API server allocated: cluster IPs, IP families, labels,
    annotations and status are untouched; on a NodePort or LoadBalancer Service a wanted
    port takes the node port of the first existing port of the same name and protocol,
    and none if there is no such port; on any other Service it has no node port. *)
Lemma mutate_keeps_allocations s lc d svc o :
  desired_service s lc (service_ports (ls_ports (listener_spec (sr_listener s)))) = Ok d →
  mutate s d svc = Ok o →
  svc_clusterIP (svc_spec o) = svc_clusterIP (svc_spec svc) ∧
  svc_clusterIPs (svc_spec o) = svc_clusterIPs (svc_spec svc) ∧
  svc_ipFamilies (svc_spec o) = svc_ipFamilies (svc_spec svc) ∧
  svc_ipFamilyPolicy (svc_spec o) = svc_ipFamilyPolicy (svc_spec svc) ∧
  svc_ingress o = svc_ingress svc ∧
  meta_labels (svc_meta o) = meta_labels (svc_meta svc) ∧
  meta_annotations (svc_meta o) = meta_annotations (svc_meta svc) ∧
  Forall2 (λ p q, port_of p q ∧
    if has_node_ports (svc_type (svc_spec d)) then
      (∀ l1 e l2, svc_ports (svc_spec svc) = l1 ++ e :: l2 → same_port p e →
         Forall (λ e', ¬ same_port p e') l1 → sp_nodePort q = sp_nodePort e) ∧
      (Forall (λ e, ¬ same_port p e) (svc_ports (svc_spec svc)) → sp_nodePort q = 0%Z)
    else sp_nodePort q = 0%Z)
    (service_ports (ls_ports (listener_spec (sr_listener s)))) (svc_ports (svc_spec o)).
Proof.
  intros (_ & Hports & _)%desired_inv Hmut.
  pose proof (mutate_inv _ _ _ _ Hmut) as (_ & Hm & _).
  unfold mutate in Hmut. apply res_bind_Ok in Hmut as (m & _ & [= <-]). simpl in *.
  rewrite Hm. split_and!; try done. rewrite Hports.
  destruct (has_node_ports _).
  - apply Forall2_fmap_r, Forall_Forall2_diag, Forall_forall. intros p Hp.
    split; [apply port_of_keep|]. unfold keep_node_port. split.
    + intros l1 e l2 -> He Hl1. by rewrite find_first_app.
    + intros Hno. rewrite (proj2 (find_None _ _)) by done.
      by apply service_ports_nodePort in Hp.
  - apply Forall_Forall2_diag, Forall_forall. intros p Hp.
    split; [by destruct p|]. by apply service_ports_nodePort in Hp.
Qed.

(** A Listener without a named port gets no Service: the call fails and changes nothing. *)
Lemma createService_no_ports s w lc :
  client_get KListenerClass (Key "" (ls_className (listener_spec (sr_listener s)))) w = (w, Ok lc) →
  Forall (λ p, port_name p = "") (ls_ports (listener_spec (sr_listener s))) →
  createService s w = (w, Fail (no_ports_error s)).
Proof.
  intros Hlc Hall. unfold createService, getListenerClass.
  rewrite (bind_step _ _ w w lc) by done.
  rewrite bool_decide_eq_true_2; [done|].
  by apply service_ports_nil.
Qed.

End service_lemmas.

(** ** Lemmas on the addresses and ports of a Service *)

Lemma port_map_snoc value ports p :
  port_map value (ports ++ [p]) =
  if bool_decide (sp_name p = "") then port_map value ports
  else <[sp_name p := value p]> (port_map value ports).
Proof. unfold port_map. by rewrite fold_left_app. Qed.

(** The last port of a name gives its value. *)
Lemma port_map_lookup value ports n v :
  port_map value ports !! n = Some v ↔
  n ≠ "" ∧ ∃ l1 p l2, ports = l1 ++ p :: l2 ∧ sp_name p = n ∧ value p = v ∧
                      Forall (λ q, sp_name q ≠ n) l2.
Proof.
  induction ports as [|p ports IH] using rev_ind.
  { unfold port_map; simpl. rewrite lookup_empty. split; [done|]. by intros (_ & [|] & ? & ? & ? & _). }
  rewrite port_map_snoc. split.
  - intros Hl.
    assert (port_map value ports !! n = Some v ∧ sp_name p ≠ n ∨ sp_name p = n ∧ n ≠ "" ∧ value p = v)
      as [[(Hn & l1 & q & l2 & -> & Hq & Hv & Hl2)%IH Hp]|(Hp & Hn & Hv)].
    { case_bool_decide as Hp; [|rewrite lookup_insert in Hl; case_decide; naive_solver].
      left. split; [done|]. apply IH in Hl as [Hn _]. congruence. }
    + split; [done|]. exists l1, q, (l2 ++ [p]).
      split_and!; [by rewrite <- app_assoc|done..|]. by apply Forall_app_2; [|repeat constructor].
    + split; [done|]. exists ports, p, []. by split_and!.
  - intros (Hn & l1 & q & l2 & Heq & Hq & Hv & Hl2).
    destruct l2 as [|r l2 _] using rev_ind.
    + apply app_inj_tail in Heq as [-> ->]. rewrite Hq, bool_decide_eq_false_2 by done.
      rewrite lookup_insert_eq. by rewrite Hv.
    + rewrite app_comm_cons, app_assoc in Heq. apply app_inj_tail in Heq as [-> ->].
      apply Forall_app in Hl2 as [Hl2 [Hr _]%Forall_cons].
      assert (port_map value (l1 ++ q :: l2) !! n = Some v) as Hl.
      { apply IH. split; [done|]. by exists l1, q, l2. }
      case_bool_decide; [done|]. rewrite lookup_insert_ne; [done|exact Hr].
Qed.

Section address_lemmas.
Context {W : Type} `{HC : Client W} `{!ApiServer W}.

(** The endpoint slices of a Service. *)
Definition slice_of (s : ServiceAddress) (w : W) (slice : EndpointSlice) : Prop :=
  stored KEndpointSlice w (key_of (k:=KEndpointSlice) slice) = Some slice ∧
  meta_namespace (es_meta slice) = sa_namespace s ∧
  map_get (meta_labels (es_meta slice)) service_name_label = Some (sa_name s).

Lemma getNodeNames_Ok s w w' names :
  getNodeNames s w = (w', Ok names) →
  w' = w ∧ ∀ n, n ∈ names ↔ ∃ slice ep, slice_of s w slice ∧ ep ∈ es_endpoints slice ∧
                                        endpoint_nodeName ep = Some n.
Proof.
  unfold getNodeNames. intros (slices & w1 & Hl%on_error_Ok & Hrun)%bind_Ok_inv.
  apply (list_Ok KEndpointSlice) in Hl as [-> Hl].
  assert (w' = w ∧ names = (slices ≫= λ slice, omap endpoint_nodeName (es_endpoints slice))) as [-> ->].
  { case_bool_decide as Hlen; apply ret_Ok_inv in Hrun as [-> ->]; [|done].
    by apply nil_length_inv in Hlen as ->. }
  split; [done|]. intros n. rewrite list_elem_of_bind.
  assert (∀ slice, slice ∈ slices ↔ slice_of s w slice) as Hs.
  { intros slice. rewrite (Hl slice), scoped_namespaced by done. unfold slice_of, selects; simpl.
    rewrite map_singleton_subseteq_l. naive_solver. }
  setoid_rewrite Hs. setoid_rewrite list_elem_of_omap. naive_solver.
Qed.

Lemma getNodesAddresses_runs s w w' addrs :
  getNodesAddresses s w = (w', Ok addrs) →
  w' = w ∧ ∃ names,
    Forall2 (λ n a, ∃ node, stored KNode w (Key "" n) = Some node ∧ GetPriorNodeAddress node = Ok a)
            names addrs ∧
    ∀ n, n ∈ names ↔ ∃ slice ep, slice_of s w slice ∧ ep ∈ es_endpoints slice ∧
                                 endpoint_nodeName ep = Some n.
Proof.
  unfold getNodesAddresses. intros (names & w1 & [-> Hn]%getNodeNames_Ok & Hc)%bind_Ok_inv.
  assert (∀ x s1 a, node_address x w = (s1, Ok a) →
    s1 = w ∧ ∃ node, stored KNode w (Key "" x) = Some node ∧ GetPriorNodeAddress node = Ok a) as Hna.
  { unfold node_address. intros x s1 a (node & w2 & [-> Hg]%(get_Ok KNode) & [-> Ha]%lift_Ok_inv)%bind_Ok_inv.
    eauto. }
  apply collect_reads in Hc as [-> Hc]; [|by intros ??? [? _]%Hna].
  split; [done|]. exists names. split; [|done].
  eapply Forall2_impl; [exact Hc|]. by intros x a [_ ?]%Hna.
Qed.

(** C29: The addresses [getNodesAddresses] returns for a NodePort Service are, one by one, those of
    stored Nodes, and these are exactly the nodes that host an endpoint of the Service; of each node
    it is the first address in the node's own order that is an external IP, an internal IP or a
    host name, published as an IP address or a host name accordingly; the cluster is only read. *)
Theorem getNodesAddresses_spec s w w' addrs :
  getNodesAddresses s w = (w', Ok addrs) →
  w' = w ∧ ∃ names,
    Forall2 (λ n a, ∃ node skipped first rest, stored KNode w (Key "" n) = Some node ∧
               node_addresses node = skipped ++ first :: rest ∧
               Forall (λ x, na_type x ∉ [NodeExternalIP; NodeInternalIP; NodeHostName]) skipped ∧
               Address a = na_address first ∧
               (na_type first ∈ [NodeExternalIP; NodeInternalIP] ∧ AddressType a = AddressTypeIP ∨
                na_type first = NodeHostName ∧ AddressType a = AddressTypeHostname))
            names addrs ∧
    ∀ n, n ∈ names ↔ ∃ slice ep, slice_of s w slice ∧ ep ∈ es_endpoints slice ∧
                                 endpoint_nodeName ep = Some n.
Proof.
  intros (-> & names & Hall & Hnames)%getNodesAddresses_runs. split; [done|]. exists names. split; [|done].
  eapply Forall2_impl; [exact Hall|]. intros n a (node & Hnode & Ha).
  destruct (prior_address_first _ _ Ha) as (skipped & first & rest & Hfirst). by exists node, skipped, first, rest.
Qed.

(** The ports map of a Service has an entry for every named port, with the port number
    of the last port of that name, and no entry for the empty name. *)
Lemma getPorts_lookup s n v :
  map_get (getPorts s) n = Some v ↔
  n ≠ "" ∧ ∃ l1 p l2, svc_ports (svc_spec (sa_service s)) = l1 ++ p :: l2 ∧ sp_name p = n ∧
                      sp_port p = v ∧ Forall (λ q, sp_name q ≠ n) l2.
Proof. apply port_map_lookup. Qed.

End address_lemmas.

(** ** Witnesses *)

Definition test_reconciler : ServiceReconciler := NewServiceReconciler test_listener.

(** The cluster after a first run on the old Service of the test. *)
Definition updated_cluster : cluster := (createService test_reconciler test_cluster).1.

Lemma createService_converges_witness :
  createService test_reconciler updated_cluster = (updated_cluster, Ok zero_result).
Proof.
  apply (createService_converges test_reconciler test_cluster updated_cluster {| Requeue := true |}).
  - apply run_outcome. vm_compute. reflexivity.
  - reflexivity.
  - intros lc Hlc. vm_compute in Hlc. injection Hlc as <-. done.
Defined.

Lemma createService_settled_witness :
  ∃ lc svc,
    stored KListenerClass updated_cluster (Key "" "external") = Some lc ∧
    stored KService updated_cluster (Key "default" "client") = Some svc ∧
    conforms test_listener lc svc.
Proof.
  eapply (createService_settled test_reconciler updated_cluster _ zero_result); [|reflexivity].
  apply run_outcome. vm_compute. reflexivity.
Defined.

Definition test_desired : Service :=
  match desired_service test_reconciler
          (test_class ServiceTypeNodePort AddressTypeHostnameConservative)
          (service_ports (ls_ports (listener_spec test_listener))) with
  | Ok d => d
  | _ => test_service
  end.
Definition test_mutated : Service :=
  match mutate test_reconciler test_desired test_service with Ok o => o | _ => test_service end.

(** As the test asserts: the node ports follow the port identities. *)
Example test_mutated_ports :
  sp_nodePort <$> svc_ports (svc_spec test_mutated) = [30090%Z; 30080%Z; 0%Z].
Proof. vm_compute. reflexivity. Qed.

Example mutate_keeps_allocations_example :
  svc_clusterIPs (svc_spec test_mutated) = ["10.0.0.10"; "fd00::10"].
Proof.
  apply (mutate_keeps_allocations test_reconciler
    (test_class ServiceTypeNodePort AddressTypeHostnameConservative)
    test_desired test_service test_mutated); vm_compute; reflexivity.
Qed.

Definition unnamed_listener : Listener :=
  {| listener_meta := listener_meta test_listener;
     listener_spec := {| ls_className := "external";
       ls_ports := [ {| port_name := ""; port_protocol := "TCP"; port_port := 80 |} ];
       ls_publishNotReady := None; ls_extraPodSelectorLabels := None |};
     listener_status := no_status |}.

Lemma createService_no_ports_witness :
  createService (NewServiceReconciler unnamed_listener) fresh_cluster =
  (fresh_cluster, Fail (no_ports_error (NewServiceReconciler unnamed_listener))).
Proof.
  eapply createService_no_ports; [|by repeat constructor].
  apply (get_found KListenerClass). vm_compute. reflexivity.
Defined.

(** A Service with endpoints on two nodes. *)
Definition nodes_cluster : cluster :=
  add KNode (test_node "node-1" "192.168.0.1") (add KNode (test_node "node-2" "192.168.0.2")
    (add KEndpointSlice test_slice updated_cluster)).
Definition test_address : ServiceAddress := NewServiceAddress test_service.

Lemma getNodesAddresses_spec_witness :
  ∃ names, Forall2 (λ n a, ∃ node first, stored KNode nodes_cluster (Key "" n) = Some node ∧
                      first ∈ node_addresses node ∧ Address a = na_address first)
    names [ {| Address := "192.168.0.1"; AddressType := "IP" |};
            {| Address := "192.168.0.2"; AddressType := "IP" |} ].
Proof.
  destruct (getNodesAddresses_spec test_address nodes_cluster
    (getNodesAddresses test_address nodes_cluster).1
    [ {| Address := "192.168.0.1"; AddressType := "IP" |};
      {| Address := "192.168.0.2"; AddressType := "IP" |} ]) as (_ & names & Hn & _).
  - apply run_outcome. vm_compute. reflexivity.
  - exists names. eapply Forall2_impl; [exact Hn|].
    intros n a (node & skipped & first & rest & Hnode & Heq & _ & Ha & _). exists node, first.
    split; [exact Hnode|]. split; [|exact Ha]. rewrite Heq. set_solver.
Defined.
