(* ===== verification/Reconciler.v ===== *)
(** * internal/controller/listener/controller.go

    [ListenerReconciler]: the reconcile loop of a Listener, the status it publishes, and
    the handlers that turn changes of other objects into reconcile requests. *)
From S2P Require Import Prelude GoRuntime GoStrings Api FakeClient Fixtures Util Service.
Import Address Constant ServiceReconciler ServiceAddress.

Module ListenerReconciler.
Section listener_reconciler.
Context {W : Type} `{HC : Client W} `{!ControllerUtil W} `{!OperatorGo}.

(** [ctrl.Request]. *)
Definition Request : Type := ObjectKey.

(** ** Event handlers *)

Definition handleListenerClassChanges (listenerClass : ListenerClass) : M W (list Request) :=
  list ← attempt (client_list KListener list_all);
  match list with
  | inr _ => mret []
  | inl items =>
    mret (filter_map (λ listener : Listener,
      if bool_decide (ls_className (listener_spec listener) = meta_name (lc_meta listenerClass))
      then Some (Key (meta_namespace (listener_meta listener)) (meta_name (listener_meta listener)))
      else None) items)
  end.

Definition handleEndpointSliceChanges (endpointSlice : EndpointSlice) : M W (list Request) :=
  match map_get (meta_labels (es_meta endpointSlice)) "kubernetes.io/service-name" with
  | None => mret []
  | Some serviceName =>
    list ← attempt (client_list KListener list_all);
    match list with
    | inr _ => mret []
    | inl items =>
      mret (filter_map (λ listener : Listener,
        if bool_decide (lst_serviceName (listener_status listener) = serviceName) &&
           bool_decide (meta_namespace (listener_meta listener) = meta_namespace (es_meta endpointSlice))
        then Some (Key (meta_namespace (listener_meta listener)) (meta_name (listener_meta listener)))
        else None) items)
    end
  end.

Definition handlePVChanges (pv : PersistentVolume) : list Request :=
  match map_get (meta_labels (pv_meta pv)) LabelListenerNamespace with
  | Some ns =>
    match map_get (meta_labels (pv_meta pv)) AnnotationListenerName with
    | Some name => [Key ns name]
    | None => []
    end
  | None => []
  end.

(** ** The status of a Listener *)

Definition preferredAddressType (listener : Listener) : M W string :=
  listenerClass ← client_get KListenerClass (Key "" (ls_className (listener_spec listener)));
  let spec := lc_spec listenerClass in
  if bool_decide (lcs_preferredAddressType spec = AddressTypeHostnameConservative) then
    serviceType ← lift (deref (lcs_serviceType spec));
    if bool_decide (serviceType = ServiceTypeNodePort)
    then mret AddressTypeIP else mret AddressTypeHostname
  else mret (lcs_preferredAddressType spec).

Definition getClusterDomain : string := "cluster.local".

Definition getServiceFQDN (service : Service) : string :=
  meta_name (svc_meta service) +:+ "." +:+ meta_namespace (svc_meta service) +:+ ".svc." +:+
  getClusterDomain.

(** The body of the loops over addresses: a nil result of [Pick] is dereferenced. *)
Definition pick_ingress (preferred : string) (ports : gomap Z) (address : AddressInfo)
    : res IngressAddressSpec :=
  pickAddress ← deref (Pick address preferred);
  Ok {| ias_address := Address pickAddress; ias_addressType := AddressType pickAddress;
        ias_ports := ports |}.

(** The [switch] of [updateListenerStatus]. *)
Definition service_status (listener : Listener) (service : Service) (preferred : string)
    : M W ListenerStatus :=
  let serviceAddress := NewServiceAddress service in
  let serviceType := getServiceType serviceAddress in
  let servicePorts := getPorts serviceAddress in
  let status ingresses nodePorts :=
    {| lst_serviceName := meta_name (listener_meta listener);
       lst_ingressAddresses := ingresses; lst_nodePorts := nodePorts |} in
  if bool_decide (serviceType = ServiceTypeNodePort) then
    ports ← lift (getNodePorts serviceAddress);
    addresses ← getNodesAddresses serviceAddress;
    ingresses ← lift (collect_res (pick_ingress preferred ports) addresses);
    mret (status ingresses ports)
  else if bool_decide (serviceType = ServiceTypeLoadBalancer) then
    addresses ← lift (getLbIngressAddresses serviceAddress);
    ingresses ← lift (collect_res (pick_ingress preferred servicePorts) addresses);
    mret (status ingresses None)
  else if bool_decide (serviceType = ServiceTypeClusterIP) then
    if bool_decide (preferred = AddressTypeIP) then
      addresses ← lift (getClusterIpAddresses serviceAddress);
      ingresses ← lift (collect_res (pick_ingress preferred servicePorts) addresses);
      mret (status ingresses None)
    else
      mret (status [ {| ias_address := getServiceFQDN service;
                        ias_addressType := AddressTypeHostname;
                        ias_ports := servicePorts |} ] None)
  else fail (New (Cat (Lit "unsupported service type ") (Cat (Lit serviceType)
         (Cat (Lit " for listener ") (Cat (Lit (meta_name (listener_meta listener)))
         (Cat (Lit ", namespace ") (Lit (meta_namespace (listener_meta listener))))))))).

(** The function [updateListenerStatus] retries: fetch, set the status, update. *)
Definition write_status (listener : Listener) (status : ListenerStatus) : M W () :=
  current ← client_get KListener (key_of (k:=KListener) listener);
  client_status_update (with_status status current) ≫= λ _, mret ().

Definition updateListenerStatus (listener : Listener) (svcReconciler : ServiceReconciler) : M W () :=
  service ← describe svcReconciler;
  preferred ← preferredAddressType listener;
  status ← service_status listener service preferred;
  RetryOnConflict (write_status listener status).

(** ** Reconcile *)

Definition Reconcile (req : Request) : M W Result :=
  got ← attempt (client_get KListener req);
  match got with
  | inr err => if IsNotFound err then mret zero_result else fail err
  | inl instance =>
    let svcReconciler := {| sr_listener := instance |} in
    result ← createService svcReconciler;
    if negb (IsZero result) then mret result
    else updateListenerStatus instance svcReconciler ≫= λ _, mret zero_result
  end.

End listener_reconciler.
End ListenerReconciler.

(** ** The other two controllers of internal/controller *)

(** [ListenerClassReconciler.Reconcile] and [PodListenersReconciler.Reconcile] do nothing. *)
Definition ListenerClassReconcile {W} (req : ObjectKey) : M W Result := mret zero_result.
Definition PodListenersReconcile {W} (req : ObjectKey) : M W Result := mret zero_result.

(** ** Specification of the published status *)

Import ListenerReconciler.

(** The address type a class asks for. *)
Definition effective_type (lc : ListenerClass) (type : string) : string :=
  if bool_decide (lcs_preferredAddressType (lc_spec lc) = AddressTypeHostnameConservative) then
    if bool_decide (type = ServiceTypeNodePort) then AddressTypeIP else AddressTypeHostname
  else lcs_preferredAddressType (lc_spec lc).

(** [i] publishes the address [a] with the given ports. *)
Definition publishes (preferred : string) (ports : gomap Z) (a : AddressInfo)
    (i : IngressAddressSpec) : Prop :=
  ias_address i = Address a ∧ ias_ports i = ports ∧
  ias_addressType i = (if bool_decide (preferred = AddressTypeIP)
                       then AddressTypeIP else AddressTypeHostname) ∧
  (preferred = AddressTypeIP ∨ AddressType a = AddressTypeHostname).

Section status_spec.
Context {W : Type} `{HC : Client W} `{!ApiServer W}.

(** [a] is the preferred address of the node [n]. *)
Definition address_of_node (w : W) (n : string) (a : AddressInfo) : Prop :=
  ∃ node, stored KNode w (Key "" n) = Some node ∧ GetPriorNodeAddress node = Ok a.

(** The nodes of the endpoints of a Service. *)
Definition hosts (w : W) (svc : Service) (n : string) : Prop :=
  ∃ slice ep, slice_of (NewServiceAddress svc) w slice ∧ ep ∈ es_endpoints slice ∧
              endpoint_nodeName ep = Some n.

(** The status a Listener should have, from its Service and its class. *)
Inductive status_spec (w : W) (l : Listener) (lc : ListenerClass) (svc : Service)
    : ListenerStatus → Prop :=
| status_NodePort names addrs ingresses :
    svc_type (svc_spec svc) = ServiceTypeNodePort →
    (∀ n, n ∈ names ↔ hosts w svc n) →
    Forall2 (address_of_node w) names addrs →
    Forall2 (publishes (effective_type lc ServiceTypeNodePort)
               (Some (port_map sp_nodePort (svc_ports (svc_spec svc))))) addrs ingresses →
    status_spec w l lc svc
      {| lst_serviceName := meta_name (listener_meta l); lst_ingressAddresses := ingresses;
         lst_nodePorts := Some (port_map sp_nodePort (svc_ports (svc_spec svc))) |}
| status_LoadBalancer ingresses :
    svc_type (svc_spec svc) = ServiceTypeLoadBalancer →
    svc_ingress svc ≠ [] →
    Forall2 (publishes (effective_type lc ServiceTypeLoadBalancer)
               (Some (port_map sp_port (svc_ports (svc_spec svc)))))
            (svc_ingress svc ≫= ingress_addresses) ingresses →
    status_spec w l lc svc
      {| lst_serviceName := meta_name (listener_meta l); lst_ingressAddresses := ingresses;
         lst_nodePorts := None |}
| status_ClusterIP ingresses :
    svc_type (svc_spec svc) = ServiceTypeClusterIP →
    effective_type lc ServiceTypeClusterIP = AddressTypeIP →
    Forall2 (λ ip i, i = {| ias_address := ip; ias_addressType := AddressTypeIP;
                            ias_ports := Some (port_map sp_port (svc_ports (svc_spec svc))) |})
            (svc_clusterIPs (svc_spec svc)) ingresses →
    status_spec w l lc svc
      {| lst_serviceName := meta_name (listener_meta l); lst_ingressAddresses := ingresses;
         lst_nodePorts := None |}
| status_FQDN :
    svc_type (svc_spec svc) = ServiceTypeClusterIP →
    effective_type lc ServiceTypeClusterIP ≠ AddressTypeIP →
    status_spec w l lc svc
      {| lst_serviceName := meta_name (listener_meta l);
         lst_ingressAddresses := [ {|
           ias_address := meta_name (svc_meta svc) +:+ "." +:+ meta_namespace (svc_meta svc) +:+
                          ".svc.cluster.local";
           ias_addressType := AddressTypeHostname;
           ias_ports := Some (port_map sp_port (svc_ports (svc_spec svc))) |} ];
         lst_nodePorts := None |}.

End status_spec.

(** ** Lemmas *)

Lemma pick_ingress_publishes preferred ports a i :
  pick_ingress preferred ports a = Ok i → publishes preferred ports a i.
Proof.
  unfold pick_ingress, publishes. intros (b & Hb%deref_Ok & [= <-])%res_bind_Ok; simpl.
  split_and!; [by eapply Pick_address|done|by eapply Pick_type|].
  destruct (decide (preferred = AddressTypeIP)); [by left|right].
  destruct (decide (AddressType a = AddressTypeHostname)) as [|Hn]; [done|].
  by rewrite (proj2 (Pick_nil a preferred)) in Hb.
Qed.

Lemma pick_ingresses preferred ports addrs ingresses :
  collect_res (pick_ingress preferred ports) addrs = Ok ingresses →
  Forall2 (publishes preferred ports) addrs ingresses.
Proof.
  intros Hc%collect_res_Ok. eapply Forall2_impl; [exact Hc|]. intros. by apply pick_ingress_publishes.
Qed.

Lemma pick_ingress_Panic preferred ports a :
  preferred ≠ AddressTypeIP → AddressType a ≠ AddressTypeHostname →
  pick_ingress preferred ports a = Panic.
Proof. intros. unfold pick_ingress. by rewrite (proj2 (Pick_nil a preferred)). Qed.

Lemma pick_ingress_no_error preferred ports a e : pick_ingress preferred ports a ≠ Fail e.
Proof. unfold pick_ingress. by destruct (Pick a preferred). Qed.

Section reconciler_lemmas.
Context {W : Type} `{HC : Client W} `{!ApiServer W} `{!ControllerUtil W} `{!ControllerUtilLaws W}.
Context `{!OperatorGo}.

Lemma preferredAddressType_Ok l w w' p :
  preferredAddressType l w = (w', Ok p) →
  w' = w ∧ ∃ lc, stored KListenerClass w (Key "" (ls_className (listener_spec l))) = Some lc ∧
    ∀ type, lcs_serviceType (lc_spec lc) = Some type → p = effective_type lc type.
Proof.
  unfold preferredAddressType, effective_type.
  intros (lc & w1 & [-> Hlc]%(get_Ok KListenerClass) & Hrun)%bind_Ok_inv.
  assert (w' = w ∧ ∀ type, lcs_serviceType (lc_spec lc) = Some type → p = effective_type lc type)
    as [-> Hp]; [|by eauto].
  unfold effective_type. case_bool_decide.
  - apply bind_Ok_inv in Hrun as (t & w2 & [-> Ht%deref_Ok]%lift_Ok_inv & Hrun).
    case_bool_decide; apply ret_Ok_inv in Hrun as [-> ->]; (split; [done|]);
      intros ? [= <-]%(eq_trans (eq_sym Ht)); by case_bool_decide.
  - by apply ret_Ok_inv in Hrun as [-> ->].
Qed.

Lemma service_status_Ok l lc svc w w' st :
  service_status l svc (effective_type lc (svc_type (svc_spec svc))) w = (w', Ok st) →
  w' = w ∧ status_spec w l lc svc st.
Proof.
  unfold service_status, getNodePorts, getLbIngressAddresses, getClusterIpAddresses; simpl.
  unfold getServiceType; simpl.
  case_bool_decide as Ht1; [|case_bool_decide as Ht2; [|case_bool_decide as Ht3]].
  - rewrite Ht1, (bool_decide_eq_false_2 (ServiceTypeNodePort ≠ _)) by auto.
    intros (ports & w1 & [-> [= <-]]%lift_Ok_inv & Hrun)%bind_Ok_inv.
    apply bind_Ok_inv in Hrun as (addrs & w1 & Ha & Hrun).
    apply bind_Ok_inv in Hrun as (ings & w2 & [-> Hi%pick_ingresses]%lift_Ok_inv & [-> ->]%ret_Ok_inv).
    unfold getNodesAddresses in Ha.
    apply getNodesAddresses_runs in Ha as (-> & names & Hn & Hh). split; [done|].
    by eapply status_NodePort.
  - rewrite Ht2, (bool_decide_eq_false_2 (ServiceTypeLoadBalancer ≠ _)) by auto. case_bool_decide as Hne.
    { intros (? & ? & [_ ?]%lift_Ok_inv & _)%bind_Ok_inv. done. }
    intros (addrs & w1 & [-> [= <-]]%lift_Ok_inv & Hrun)%bind_Ok_inv.
    apply bind_Ok_inv in Hrun as (ings & w2 & [-> Hi%pick_ingresses]%lift_Ok_inv & [-> ->]%ret_Ok_inv).
    split; [done|]. by apply status_LoadBalancer.
  - rewrite Ht3, (bool_decide_eq_false_2 (ServiceTypeClusterIP ≠ _)) by auto. case_bool_decide as Hip.
    + intros (addrs & w1 & [-> [= <-]]%lift_Ok_inv & Hrun)%bind_Ok_inv.
      apply bind_Ok_inv in Hrun as (ings & w2 & [-> Hi%pick_ingresses]%lift_Ok_inv & [-> ->]%ret_Ok_inv).
      split; [done|]. apply status_ClusterIP; [done..|].
      rewrite Hip, Forall2_fmap_l in Hi. eapply Forall2_impl; [exact Hi|].
      by intros ip [] (? & ? & ? & _); simplify_eq/=.
    + intros [-> ->]%ret_Ok_inv. split; [done|]. by apply status_FQDN.
  - by intros ?%fail_Ok_inv.
Qed.

(** The retried write sets the status of the stored Listener and nothing else. *)
Lemma write_status_retried l st w w' :
  retried (write_status l st) w (w', Ok ()) →
  ∃ cur, stored KListener w (key_of (k:=KListener) l) = Some cur ∧
         wrote stored KListener (key_of (k:=KListener) l) (with_status st cur) w w'.
Proof.
  intros Hret. remember (w', Ok ()) as out eqn:Hout. revert Hout.
  induction Hret as [w w1 r Hf _|w w1 e Hf|w w1 e out Hf He _ IH]; intros Hout; [| done |].
  - injection Hout as -> ->. unfold write_status in Hf.
    apply bind_Ok_inv in Hf as (cur & w2 & [-> Hcur]%(get_Ok KListener) & Hf).
    rewrite scoped_namespaced in Hcur by done.
    pose proof (stored_key KListener _ _ _ Hcur) as Hk. rewrite scoped_namespaced in Hk by done.
    apply bind_Ok_inv in Hf as (l' & w3 & (c & Hc & -> & Hw)%status_update_spec & [-> _]%ret_Ok_inv).
    exists cur. split; [done|].
    change (key_of (k:=KListener) (with_status st cur)) with (key_of (k:=KListener) cur) in *.
    rewrite Hk in Hc, Hw. rewrite Hcur in Hc. injection Hc as <-. done.
  - assert (w1 = w) as ->; [|by apply IH].
    unfold write_status, mbind, M_bind in Hf.
    destruct (client_get KListener (key_of (k:=KListener) l) w) as [w2 r2] eqn:Hg.
    pose proof (get_state KListener _ _ _ _ Hg) as [-> _].
    destruct r2 as [cur|e2|]; [|by injection Hf|done].
    destruct (client_status_update (with_status st cur) w) as [w3 r3] eqn:Hu.
    apply status_update_spec in Hu. destruct r3 as [?|e3|]; [done| |done].
    injection Hf as -> ->. by apply Hu.
Qed.


(** The runs of [Reconcile] for an existing Listener. *)
Lemma Reconcile_inv req w w' r l :
  Reconcile req w = (w', Ok r) → stored KListener w req = Some l →
  ∃ w1 res1, createService {| sr_listener := l |} w = (w1, Ok res1) ∧
    (if IsZero res1
     then updateListenerStatus l {| sr_listener := l |} w1 = (w', Ok ()) ∧ r = zero_result
     else w' = w1 ∧ r = res1).
Proof.
  unfold Reconcile. intros (got & w1 & Hg%attempt_Ok_inv & Hrun)%bind_Ok_inv Hl.
  destruct got as [inst|e].
  - apply (get_Ok KListener) in Hg as [-> Hg]. rewrite scoped_namespaced in Hg by done.
    rewrite Hl in Hg. injection Hg as <-.
    apply bind_Ok_inv in Hrun as (res1 & w2 & Hc & Hrun). exists w2, res1. split; [done|].
    destruct (IsZero res1); simpl in Hrun.
    + by apply bind_Ok_inv in Hrun as ([] & w3 & ? & [-> ->]%ret_Ok_inv).
    + by apply ret_Ok_inv in Hrun as [-> ->].
  - apply (get_spec KListener) in Hg as [-> Hg]. rewrite scoped_namespaced in Hg by done.
    destruct (IsNotFound e); [|by rewrite fail_Ok_inv in Hrun].
    rewrite Hl in Hg. by discriminate Hg.
Qed.

(** The run that publishes the status. *)
Lemma Reconcile_settles req w w' r l :
  Reconcile req w = (w', Ok r) → IsZero r = true → stored KListener w req = Some l →
  ∃ lc svc st,
    stored KListenerClass w (Key "" (ls_className (listener_spec l))) = Some lc ∧
    stored KService w (key_of (k:=KListener) l) = Some svc ∧
    conforms l lc svc ∧ status_spec w l lc svc st ∧
    wrote stored KListener req (with_status st l) w w'.
Proof.
  intros Hrun Hz Hl. pose proof (stored_key KListener _ _ _ Hl) as Hkey.
  rewrite scoped_namespaced in Hkey by done.
  destruct (Reconcile_inv _ _ _ _ _ Hrun Hl) as (w1 & res1 & Hc & Hrest).
  destruct (IsZero res1) eqn:Hz1; [|destruct Hrest as [-> ->]; congruence].
  destruct Hrest as [Hup ->].
  apply createService_conforms in Hc as (-> & lc & svc & Hlc & Hsvc & Hconf); [|done].
  unfold updateListenerStatus, describe in Hup.
  apply bind_Ok_inv in Hup as (svc' & w2 & [-> Hd]%(get_Ok KService) & Hup).
  rewrite scoped_namespaced in Hd by done. unfold service_key in Hsvc.
  rewrite Hsvc in Hd. injection Hd as <-.
  apply bind_Ok_inv in Hup as (p & w2 & (-> & lc' & Hlc' & Hp)%preferredAddressType_Ok & Hup).
  simpl in Hlc. rewrite Hlc in Hlc'. injection Hlc' as <-.
  rewrite (Hp _ (cf_type _ _ _ Hconf)) in Hup.
  apply bind_Ok_inv in Hup as (st & w2 & [-> Hst]%service_status_Ok & Hup).
  pose proof (RetryOnConflict_spec (write_status l st) w) as Hret. rewrite Hup in Hret.
  apply write_status_retried in Hret as (cur & Hcur & Hw). rewrite Hkey in Hcur, Hw.
  rewrite Hl in Hcur. injection Hcur as <-. by exists lc, svc, st.
Qed.

(** C15: A reconcile that ends with nothing left to do has published the status the
    specification asks for: the stored Listener's status is computed from the conforming
    Service, the class, and for a NodePort Service the nodes of its endpoints; no other
    object of the cluster changed. *)
Theorem Reconcile_publishes req w w' r l :
  Reconcile req w = (w', Ok r) → IsZero r = true → stored KListener w req = Some l →
  ∃ lc svc st,
    stored KListenerClass w (Key "" (ls_className (listener_spec l))) = Some lc ∧
    stored KService w (key_of (k:=KListener) l) = Some svc ∧
    conforms l lc svc ∧ status_spec w l lc svc st ∧
    wrote stored KListener req (with_status st l) w w'.
Proof. apply Reconcile_settles. Qed.

(** A reconcile that asks for a requeue has written the Service of the Listener and
    nothing else: the status of the Listener is left for the next run. *)
Lemma Reconcile_requeue req w w' r l :
  Reconcile req w = (w', Ok r) → IsZero r = false → stored KListener w req = Some l →
  ∃ svc, wrote stored KService req svc w w'.
Proof.
  intros Hrun Hz Hl. pose proof (stored_key KListener _ _ _ Hl) as Hkey.
  rewrite scoped_namespaced in Hkey by done.
  destruct (Reconcile_inv _ _ _ _ _ Hrun Hl) as (w1 & res1 & Hc & Hrest).
  destruct (IsZero res1) eqn:Hz1; [destruct Hrest as [_ ->]; done|]. destruct Hrest as [-> ->].
  apply createService_inv in Hc as (lc & d & _ & _ & _ & [Hn|Hw]).
  - by destruct Hn as (? & ? & ? & ? & ? & ? & ->).
  - destruct Hw as (b & o & o' & _ & _ & Hw & _). exists o'. by rewrite <- Hkey.
Qed.

(** A request for a Listener that no longer exists is dropped: no error, no requeue,
    no change. *)
Lemma Reconcile_deleted `{!ReliableReads W} req w :
  stored KListener w req = None → Reconcile req w = (w, Ok zero_result).
Proof.
  intros Hl. destruct (get_missing KListener req w) as (e & Hg & He);
    [by rewrite scoped_namespaced|].
  unfold Reconcile. rewrite (bind_step _ _ w w (inr e)) by (by apply attempt_Ok_inv).
  by rewrite He.
Qed.

(** ** Panics *)

Lemma address_of_node_unique w n a a' : address_of_node w n a → address_of_node w n a' → a = a'.
Proof. intros (node & Hn & Ha) (node' & Hn' & Ha'). congruence. Qed.

(** When every host has an address, the addresses of the hosts are found. *)
Lemma getNodesAddresses_total `{!ReliableReads W} svc w :
  (∀ n, hosts w svc n → ∃ a, address_of_node w n a) →
  ∃ addrs, getNodesAddresses (NewServiceAddress svc) w = (w, Ok addrs).
Proof.
  intros Hh. unfold getNodesAddresses.
  assert (∃ names, getNodeNames (NewServiceAddress svc) w = (w, Ok names)) as [names Hn].
  { unfold getNodeNames.
    match goal with |- context [client_list _ ?opts] =>
      destruct (list_found KEndpointSlice opts w) as [slices Hs] end.
    setoid_rewrite (bind_step _ _ _ _ _ (on_error_step _ _ _ _ _ Hs)). case_bool_decide; by eexists. }
  pose proof (getNodeNames_Ok _ _ _ _ Hn) as [_ Hnames].
  setoid_rewrite (bind_step _ _ _ _ _ Hn). apply collect_total. intros n (slice & ep & Hhost)%Hnames.
  destruct (Hh n) as (a & node & Hnode & Ha); [by exists slice, ep|]. exists a. unfold node_address.
  rewrite (bind_step _ _ w w node) by (by apply (get_found KNode)). unfold lift. by rewrite Ha.
Qed.

(** With a Service that is as wanted, a panic while the status is computed is one of [Reconcile]. *)
Lemma Reconcile_panics `{!ReliableReads W} req w l lc svc :
  stored KListener w req = Some l →
  stored KListenerClass w (Key "" (ls_className (listener_spec l))) = Some lc →
  stored KService w req = Some svc →
  createService {| sr_listener := l |} w = (w, Ok zero_result) →
  service_status l svc (effective_type lc (svc_type (svc_spec svc))) w = (w, Panic) →
  Reconcile req w = (w, Panic).
Proof.
  intros Hl Hlc Hsvc Hc Hst.
  pose proof (stored_key KListener _ _ _ Hl) as Hkey. rewrite scoped_namespaced in Hkey by done.
  destruct (createService_conforms _ _ _ _ Hc) as (_ & lc' & svc' & Hlc' & Hsvc' & Hconf); [done|].
  simpl in Hlc'. unfold service_key in Hsvc'. rewrite Hlc in Hlc'. injection Hlc' as <-.
  unfold getNamespace, getName, key_of in *; simpl in *.
  rewrite Hkey, Hsvc in Hsvc'. injection Hsvc' as <-.
  unfold Reconcile. rewrite (bind_step _ _ w w (inl l));
    [|apply attempt_Ok_inv, (get_found KListener); by rewrite scoped_namespaced].
  rewrite (bind_step _ _ w w zero_result) by done. simpl.
  apply bind_panic. unfold updateListenerStatus, describe.
  rewrite (bind_step _ _ w w svc);
    [|apply (get_found KService); rewrite scoped_namespaced by done;
      unfold getNamespace, getName; simpl; by rewrite Hkey].
  rewrite (bind_step _ _ w w (effective_type lc (svc_type (svc_spec svc)))); [by apply bind_panic|].
  unfold preferredAddressType, effective_type. rewrite (bind_step _ _ w w lc) by (by apply (get_found KListenerClass)).
  case_bool_decide; [|done].
  rewrite (bind_step _ _ w w (svc_type (svc_spec svc)))
    by (by apply lift_Ok_inv; split; [|apply deref_Ok, (cf_type _ _ _ Hconf)]).
  by case_bool_decide.
Qed.

(** C35: Reconciling the Listener of a LoadBalancer Service panics on a nil pointer when the
    load balancer has an IP address and the class prefers host names, which
    HostnameConservative, the default, does for a LoadBalancer. *)
Theorem Reconcile_lb_panics `{!ReliableReads W} req w l lc svc ingress :
  stored KListener w req = Some l →
  stored KListenerClass w (Key "" (ls_className (listener_spec l))) = Some lc →
  stored KService w req = Some svc →
  createService {| sr_listener := l |} w = (w, Ok zero_result) →
  svc_type (svc_spec svc) = ServiceTypeLoadBalancer →
  lcs_preferredAddressType (lc_spec lc) = AddressTypeHostnameConservative →
  ingress ∈ svc_ingress svc → lbi_ip ingress ≠ "" →
  Reconcile req w = (w, Panic).
Proof.
  intros Hl Hlc Hsvc Hc Ht Hpref Hin Hip. eapply Reconcile_panics; [done..|].
  unfold effective_type. rewrite Hpref, Ht. simpl.
  unfold service_status, getLbIngressAddresses, getServiceType; simpl.
  rewrite Ht. simpl. rewrite bool_decide_eq_false_2 by (by intros He; rewrite He in Hin; inversion Hin).
  rewrite (bind_step _ (lift (Ok _)) w w (svc_ingress svc ≫= ingress_addresses)) by done.
  apply bind_panic. unfold lift.
  rewrite (collect_res_Panic _ _ {| Address := lbi_ip ingress; AddressType := AddressTypeIP |});
    [done|apply pick_ingress_no_error| |by apply pick_ingress_Panic].
  apply list_elem_of_bind. exists ingress. split; [|done]. unfold ingress_addresses.
  rewrite (bool_decide_eq_true_2 (lbi_ip ingress ≠ "")) by done. set_solver.
Qed.

(** C36: Reconciling the Listener of a NodePort Service panics on a nil pointer when the class prefers
    host names and one of the nodes that host the Service lists an IP address before any host
    name, as long as every host has an address to publish. *)
Theorem Reconcile_nodeport_panics `{!ReliableReads W} req w l lc svc n a :
  stored KListener w req = Some l →
  stored KListenerClass w (Key "" (ls_className (listener_spec l))) = Some lc →
  stored KService w req = Some svc →
  createService {| sr_listener := l |} w = (w, Ok zero_result) →
  svc_type (svc_spec svc) = ServiceTypeNodePort →
  lcs_preferredAddressType (lc_spec lc) = AddressTypeHostname →
  (∀ n, hosts w svc n → ∃ a, address_of_node w n a) →
  hosts w svc n → address_of_node w n a → AddressType a = AddressTypeIP →
  Reconcile req w = (w, Panic).
Proof.
  intros Hl Hlc Hsvc Hc Ht Hpref Hall Hn Ha Hip. eapply Reconcile_panics; [done..|].
  unfold effective_type. rewrite Hpref. simpl. unfold service_status, getServiceType, getNodePorts; simpl. rewrite Ht. simpl.
  rewrite (bind_step _ (lift (Ok _)) w w (Some (port_map sp_nodePort (svc_ports (svc_spec svc))))) by done.
  destruct (getNodesAddresses_total svc w Hall) as [addrs Haddrs]. setoid_rewrite (bind_step _ _ _ _ _ Haddrs).
  apply getNodesAddresses_runs in Haddrs as (_ & names & Hrel & Hnames).
  assert (a ∈ addrs) as Hin.
  { assert (n ∈ names) as Hnin by (by apply Hnames). apply list_elem_of_lookup in Hnin as [i Hi].
    destruct (Forall2_lookup_l _ _ _ _ _ Hrel Hi) as (a' & Ha' & Hn').
    rewrite (address_of_node_unique _ _ _ _ Ha Hn'). by eapply list_elem_of_lookup_2. }
  apply bind_panic. unfold lift.
  rewrite (collect_res_Panic _ _ a); [done|apply pick_ingress_no_error|done|].
  apply pick_ingress_Panic; [done|by rewrite Hip].
Qed.

(** The requests a handler makes from the list of all Listeners. *)
Lemma filter_requests (P : Listener → Prop) `{!∀ l, Decision (P l)} w items key :
  (∀ l, l ∈ items ↔ stored KListener w (scoped KListener (key_of (k:=KListener) l)) = Some l ∧
                    selects list_all (listener_meta l)) →
  key ∈ filter_map (λ l, if bool_decide (P l)
                         then Some (Key (meta_namespace (listener_meta l)) (meta_name (listener_meta l)))
                         else None) items ↔
  ∃ l, stored KListener w key = Some l ∧ P l.
Proof.
  intros Hitems. unfold filter_map. rewrite list_elem_of_omap. split.
  - intros (l & Hin & Hk). case_bool_decide; simplify_eq. exists l.
    apply Hitems in Hin as [Hin _]. rewrite scoped_namespaced in Hin by done. done.
  - intros (l & Hl & HP). exists l. pose proof (stored_key KListener _ _ _ Hl) as Hkey.
    rewrite Hitems, Hkey, bool_decide_eq_true_2 by done.
    rewrite scoped_namespaced in Hkey by done. unfold key_of in Hkey; simpl in Hkey.
    rewrite Hkey. split; [|done]. split; [done|]. split; [done|]. apply map_empty_subseteq.
Qed.

Lemma class_requests `{!ReliableReads W} lc w :
  ∃ reqs, handleListenerClassChanges lc w = (w, Ok reqs) ∧
    ∀ key, key ∈ reqs ↔ ∃ l, stored KListener w key = Some l ∧
                             ls_className (listener_spec l) = meta_name (lc_meta lc).
Proof.
  destruct (list_found KListener list_all w) as [items Hl].
  pose proof (list_Ok KListener _ _ _ _ Hl) as [_ Hitems].
  unfold handleListenerClassChanges.
  rewrite (bind_step _ _ w w (inl items)) by (by apply attempt_Ok_inv).
  eexists. split; [reflexivity|]. intros key. by apply filter_requests.
Qed.

(** The slice belongs to the Service a Listener has published, in its namespace. *)
Definition concerns (slice : EndpointSlice) (l : Listener) : Prop :=
  map_get (meta_labels (es_meta slice)) "kubernetes.io/service-name" =
    Some (lst_serviceName (listener_status l)) ∧
  meta_namespace (listener_meta l) = meta_namespace (es_meta slice).

(** A change of an EndpointSlice enqueues exactly the Listeners it concerns. *)
Lemma slice_requests `{!ReliableReads W} slice w :
  ∃ reqs, handleEndpointSliceChanges slice w = (w, Ok reqs) ∧
    ∀ key, key ∈ reqs ↔ ∃ l, stored KListener w key = Some l ∧ concerns slice l.
Proof.
  unfold handleEndpointSliceChanges, concerns.
  destruct (map_get (meta_labels (es_meta slice)) "kubernetes.io/service-name") as [serviceName|].
  2: { exists []. split; [done|]. intros key. split; [by intros ?%not_elem_of_nil|by intros (l & _ & ? & _)]. }
  destruct (list_found KListener list_all w) as [items Hl].
  pose proof (list_Ok KListener _ _ _ _ Hl) as [_ Hitems].
  rewrite (bind_step _ _ w w (inl items)) by (by apply attempt_Ok_inv).
  eexists. split; [reflexivity|]. intros key.
  setoid_rewrite <- bool_decide_and. rewrite filter_requests by done. naive_solver.
Qed.

End reconciler_lemmas.

(** ** Witnesses *)

Definition test_request : Request := Key "default" "client".

(** One reconcile creates the Service; the next one publishes the status. *)
Definition requeued_cluster : cluster := (Reconcile test_request fresh_cluster).1.
Definition ready_cluster : cluster :=
  add KNode (test_node "node-1" "192.168.0.1") (add KNode (test_node "node-2" "192.168.0.2")
    (add KEndpointSlice test_slice requeued_cluster)).
Definition published_cluster : cluster := (Reconcile test_request ready_cluster).1.

Definition published_status : ListenerStatus :=
  match stored KListener published_cluster test_request with
  | Some l => listener_status l
  | None => no_status
  end.

(** The addresses of the two nodes are published with the allocated node ports. *)
Example published_addresses :
  ias_address <$> lst_ingressAddresses published_status = ["192.168.0.1"; "192.168.0.2"].
Proof. vm_compute. reflexivity. Qed.

Lemma Reconcile_requeue_witness :
  ∃ svc, wrote stored KService test_request svc fresh_cluster requeued_cluster.
Proof.
  apply (Reconcile_requeue test_request fresh_cluster requeued_cluster {| Requeue := true |}
           test_listener).
  - apply run_outcome. vm_compute. reflexivity.
  - reflexivity.
  - vm_compute. reflexivity.
Defined.

Lemma Reconcile_publishes_witness :
  ∃ lc svc st, conforms test_listener lc svc ∧ status_spec ready_cluster test_listener lc svc st ∧
    wrote stored KListener test_request (with_status st test_listener) ready_cluster published_cluster.
Proof.
  destruct (Reconcile_publishes test_request ready_cluster published_cluster zero_result test_listener)
    as (lc & svc & st & _ & _ & H1 & H2 & H3).
  - apply run_outcome. vm_compute. reflexivity.
  - reflexivity.
  - vm_compute. reflexivity.
  - by exists lc, svc, st.
Defined.

Lemma Reconcile_deleted_witness :
  Reconcile (Key "default" "gone") fresh_cluster = (fresh_cluster, Ok zero_result).
Proof. apply Reconcile_deleted. vm_compute. reflexivity. Defined.

(** A load balancer that answered with an IP address. *)
Definition lb_class : ListenerClass :=
  test_class ServiceTypeLoadBalancer AddressTypeHostnameConservative.
Definition lb_ingress : LoadBalancerIngress := {| lbi_hostname := ""; lbi_ip := "203.0.113.7" |}.
Definition lb_cluster0 : cluster :=
  add KListenerClass lb_class (add KListener test_listener empty_cluster).
Definition lb_service : Service :=
  match stored KService (Reconcile test_request lb_cluster0).1 test_request with
  | Some svc => {| svc_meta := svc_meta svc; svc_spec := svc_spec svc; svc_ingress := [lb_ingress] |}
  | None => test_service
  end.
Definition lb_cluster : cluster := add KService lb_service lb_cluster0.

Example lb_settled :
  (createService {| sr_listener := test_listener |} lb_cluster).2 = Ok zero_result.
Proof. vm_compute. reflexivity. Qed.

Example lb_service_ingress : svc_ingress lb_service = [lb_ingress].
Proof. vm_compute. reflexivity. Qed.

(** The Service is already as wanted: [createService] leaves the cluster alone. *)
Lemma lb_unchanged :
  createService {| sr_listener := test_listener |} lb_cluster = (lb_cluster, Ok zero_result).
Proof.
  pose proof (run_outcome _ _ _ lb_settled) as H.
  pose proof (proj1 (createService_conforms _ _ _ _ H eq_refl)) as Hw.
  rewrite H. by rewrite Hw.
Qed.

Lemma Reconcile_lb_panics_witness : Reconcile test_request lb_cluster = (lb_cluster, Panic).
Proof.
  apply (Reconcile_lb_panics test_request lb_cluster test_listener lb_class lb_service lb_ingress).
  1-3,5-6: vm_compute; reflexivity.
  - exact lb_unchanged.
  - rewrite lb_service_ingress. set_solver.
  - done.
Defined.

(** A class that prefers host names, on the nodes of the example, which have IP addresses. *)
Definition hostname_class : ListenerClass := test_class ServiceTypeNodePort AddressTypeHostname.
Definition hostname_cluster : cluster := add KListenerClass hostname_class ready_cluster.
Definition hostname_service : Service :=
  match stored KService hostname_cluster test_request with Some svc => svc | None => test_service end.

Lemma hostname_unchanged :
  createService {| sr_listener := test_listener |} hostname_cluster = (hostname_cluster, Ok zero_result).
Proof.
  assert ((createService {| sr_listener := test_listener |} hostname_cluster).2 = Ok zero_result) as Hr
    by (vm_compute; reflexivity).
  pose proof (run_outcome _ _ _ Hr) as Hrun. pose proof (proj1 (createService_conforms _ _ _ _ Hrun eq_refl)) as Hw.
  rewrite Hrun. by rewrite Hw.
Qed.

Lemma hostname_hosts :
  (∀ n, hosts hostname_cluster hostname_service n → ∃ a, address_of_node hostname_cluster n a) ∧
  ∃ n a, hosts hostname_cluster hostname_service n ∧ address_of_node hostname_cluster n a ∧ AddressType a = AddressTypeIP.
Proof.
  assert ((getNodesAddresses (NewServiceAddress hostname_service) hostname_cluster).2 =
    Ok [ {| Address := "192.168.0.1"; AddressType := "IP" |}; {| Address := "192.168.0.2"; AddressType := "IP" |} ])
    as Hr by (vm_compute; reflexivity).
  apply run_outcome, getNodesAddresses_runs in Hr as (_ & names & Hall & Hnames). split.
  - intros n Hn. apply Hnames, list_elem_of_lookup in Hn as [i Hi].
    destruct (Forall2_lookup_l _ _ _ _ _ Hall Hi) as (a & _ & Ha). by exists a.
  - apply Forall2_cons_inv_r in Hall as (n & names' & Hn & _ & ->). eexists n, _.
    split_and!; [apply Hnames; apply list_elem_of_here|exact Hn|done].
Qed.

Lemma Reconcile_nodeport_panics_witness : Reconcile test_request hostname_cluster = (hostname_cluster, Panic).
Proof.
  destruct hostname_hosts as (Hall & n & a & Hn & Ha & Hip).
  apply (Reconcile_nodeport_panics test_request hostname_cluster test_listener hostname_class hostname_service n a).
  1-3: vm_compute; reflexivity.
  - exact hostname_unchanged.
  - vm_compute; reflexivity.
  - reflexivity.
  - exact Hall.
  - exact Hn.
  - exact Ha.
  - exact Hip.
Defined.
