(* ===== verification/GoOs.v ===== *)
(** * Package os: the file system of the node

    The calls of package os that the CSI node server and the gRPC server make, over a tree
    of directories, files and symbolic links with a mount table.  Paths are resolved as the
    kernel does it: element by element, following links (at most 40 of them).  Any call may
    fail with an input/output error: [fs_faults] says which of the coming system calls do.
    Permissions, and partial effects of one failing call, are not modelled. *)
From S2P Require Import Prelude GoRuntime GoStrings.

Inductive Inode :=
| Dir
| File (contents : string)
| Link (target : string).
#[export] Instance Inode_eq_dec : EqDecision Inode.
Proof. solve_decision. Defined.

(** A physical path: the elements from the root. *)
Notation location := (list string).
Notation tree := (gmap location Inode).

Record FS := {
  fs_nodes : tree;                       (* what is visible; the root is not in the map *)
  fs_mounts : list (location * tree);    (* mount points, last mounted first, with the
                                            nodes each one hides *)
  fs_cwd : location;
  fs_faults : list bool;
}.

Definition with_nodes (t : tree) (fs : FS) : FS :=
  {| fs_nodes := t; fs_mounts := fs_mounts fs; fs_cwd := fs_cwd fs; fs_faults := fs_faults fs |}.
Definition with_mounts (ms : list (location * tree)) (fs : FS) : FS :=
  {| fs_nodes := fs_nodes fs; fs_mounts := ms; fs_cwd := fs_cwd fs; fs_faults := fs_faults fs |}.
Definition with_faults (l : list bool) (fs : FS) : FS :=
  {| fs_nodes := fs_nodes fs; fs_mounts := fs_mounts fs; fs_cwd := fs_cwd fs; fs_faults := l |}.

Definition node_at (t : tree) (q : location) : option Inode :=
  match q with [] => Some Dir | _ => t !! q end.

(** ** Path resolution *)

(** The elements of a path string as the kernel reads them: empty ones are skipped, "." and
    ".." are kept. *)
Definition elements (s : string) : path :=
  (is_rooted s, filter (λ seg, seg ≠ "") (split_on slash s)).

(** Follow [todo] from the directory [cur].  The last element may be missing; when it is a
    link it is followed if [follow] is set. *)
Fixpoint walk (t : tree) (follow : bool) (links : nat) : location → list string → Errno + location :=
  fix go cur todo :=
    match todo with
    | [] => inr cur
    | seg :: todo' =>
        if bool_decide (seg = ".") then go cur todo'
        else if bool_decide (seg = "..") then go (removelast cur) todo'
        else
          let next := (cur ++ [seg]) in
          match t !! next with
          | Some Dir => go next todo'
          | Some (File _) => match todo' with [] => inr next | _ => inl ENOTDIR end
          | Some (Link target) =>
              if follow || bool_decide (todo' ≠ []) then
                match links with
                | 0 => inl ELOOP
                | S links' => walk t follow links' (if is_rooted target then [] else cur)
                                ((elements target).2 ++ todo')
                end
              else inr next
          | None => match todo' with [] => inr next | _ => inl ENOENT end
          end
    end.

Definition locate (fs : FS) (follow : bool) (p : path) : Errno + location :=
  match p with
  | (false, []) => inl ENOENT
  | (rooted, segs) => walk (fs_nodes fs) follow 40 (if rooted then [] else fs_cwd fs) segs
  end.

Arguments elements s : simpl never.
Arguments locate fs follow p : simpl never.

(** ** System calls *)

(** One system call on the path [p]. *)
Definition syscall {A} (p : path) (call : FS → FS * (Errno + A)) : M FS A := λ fs,
  let run fs := match call fs with
                | (fs', inr a) => (fs', Ok a)
                | (fs', inl e) => (fs', Fail (PathError (print_path p) e))
                end in
  match fs_faults fs with
  | true :: faults => (with_faults faults fs, Fail (PathError (print_path p) EIO))
  | false :: faults => run (with_faults faults fs)
  | [] => run fs
  end.

Definition sys_stat (follow : bool) (p : path) : M FS Inode := syscall p (λ fs,
  match locate fs follow p with
  | inl e => (fs, inl e)
  | inr q => (fs, match node_at (fs_nodes fs) q with Some n => inr n | None => inl ENOENT end)
  end).

Definition sys_mkdir (p : path) : M FS () := syscall p (λ fs,
  match locate fs false p with
  | inl e => (fs, inl e)
  | inr q => match node_at (fs_nodes fs) q with
             | Some _ => (fs, inl EEXIST)
             | None => (with_nodes (<[q := Dir]> (fs_nodes fs)) fs, inr ())
             end
  end).

(** ** Package os *)

(** [os.MkdirAll], on the elements of the path, last first. *)
Fixpoint mkdir_all (rooted : bool) (rsegs : list string) : M FS () :=
  found ← attempt (sys_stat true (rooted, rev rsegs));
  match found with
  | inl Dir => mret ()
  | inl _ => fail (PathError (print_path (rooted, rev rsegs)) ENOTDIR)
  | inr _ =>
      match rsegs with
      | _ :: parent => if rooted || bool_decide (parent ≠ []) then mkdir_all rooted parent else mret ()
      | [] => mret ()
      end;;
      made ← attempt (sys_mkdir (rooted, rev rsegs));
      match made with
      | inl _ => mret ()
      | inr e =>
          again ← attempt (sys_stat false (rooted, rev rsegs));
          match again with
          | inl Dir => mret ()
          | _ => fail e
          end
      end
  end.

Definition MkdirAll (s : string) : M FS () := mkdir_all (elements s).1 (rev (elements s).2).

(** [os.WriteFile]: create or truncate, then write. *)
Definition WriteFile (s : string) (data : string) : M FS () := syscall (elements s) (λ fs,
  match locate fs true (elements s) with
  | inl e => (fs, inl e)
  | inr q => match node_at (fs_nodes fs) q with
             | Some Dir => (fs, inl EISDIR)
             | _ => (with_nodes (<[q := File data]> (fs_nodes fs)) fs, inr ())
             end
  end).

(** [os.Symlink(oldname, newname)]. *)
Definition Symlink (oldname newname : string) : M FS () := syscall (elements newname) (λ fs,
  if bool_decide (oldname = "") then (fs, inl ENOENT) else
  match locate fs false (elements newname) with
  | inl e => (fs, inl e)
  | inr q => match node_at (fs_nodes fs) q with
             | Some _ => (fs, inl EEXIST)
             | None => (with_nodes (<[q := Link oldname]> (fs_nodes fs)) fs, inr ())
             end
  end).

(** [os.RemoveAll] descends into directories and mounted file systems and removes what it
    can: a mount point, and the directories above it, cannot be removed. *)
Definition pinned (fs : FS) (q : location) : Prop := ∃ m, m ∈ fs_mounts fs ∧ q `prefix_of` m.1.
#[export] Instance pinned_dec fs q : Decision (pinned fs q).
Proof.
  refine (cast_if (decide (Exists (λ m, q `prefix_of` m.1) (fs_mounts fs))));
    abstract (unfold pinned; by rewrite <- Exists_exists).
Defined.

Definition RemoveAll (s : string) : M FS () := syscall (elements s) (λ fs,
  match locate fs false (elements s) with
  | inl ENOENT => (fs, inr ())
  | inl e => (fs, inl e)
  | inr q =>
      let fs' := with_nodes (filter (λ kv, ¬ q `prefix_of` kv.1 ∨ pinned fs kv.1) (fs_nodes fs)) fs in
      if decide (pinned fs q) then (fs', inl EBUSY) else (fs', inr ())
  end).

(** [os.Remove]: a file, a link, or an empty directory. *)
Definition Remove (s : string) : M FS () := syscall (elements s) (λ fs,
  match locate fs false (elements s) with
  | inl e => (fs, inl e)
  | inr q =>
      match node_at (fs_nodes fs) q with
      | None => (fs, inl ENOENT)
      | Some Dir =>
          if decide (q = [] ∨ pinned fs q) then (fs, inl EBUSY)
          else if decide (filter (λ kv, q `prefix_of` kv.1 ∧ kv.1 ≠ q) (fs_nodes fs) = ∅)
          then (with_nodes (delete q (fs_nodes fs)) fs, inr ())
          else (fs, inl ENOTEMPTY)
      | Some _ => (with_nodes (delete q (fs_nodes fs)) fs, inr ())
      end
  end).

(** [os.IsNotExist]. *)
Definition IsNotExist (e : error) : bool :=
  match e with PathError _ errno => bool_decide (errno = ENOENT) | _ => false end.

(** ** Mounts *)

(** What lies under [q]. *)
Definition below (q r : location) : Prop := q `prefix_of` r ∧ r ≠ q.
#[export] Instance below_dec q r : Decision (below q r).
Proof. unfold below. apply _. Defined.

(** Mounting an empty file system on the directory [q] hides what was under it; unmounting
    drops what the mounted file system held and shows the hidden nodes again. *)
Definition mount_at (q : location) (fs : FS) : FS :=
  with_mounts ((q, filter (λ kv, below q kv.1) (fs_nodes fs)) :: fs_mounts fs)
    (with_nodes (filter (λ kv, ¬ below q kv.1) (fs_nodes fs)) fs).

Definition unmount_at (q : location) (hidden : tree) (rest : list (location * tree)) (fs : FS) : FS :=
  with_mounts rest
    (with_nodes (hidden ∪ filter (λ kv, ¬ below q kv.1) (fs_nodes fs)) fs).

(** The first entry for [q] of the mount table, and the table without it. *)
Fixpoint take_mount (q : location) (ms : list (location * tree)) : option (tree * list (location * tree)) :=
  match ms with
  | [] => None
  | (r, hidden) :: ms =>
      if bool_decide (r = q) then Some (hidden, ms)
      else found ← take_mount q ms; Some (found.1, (r, hidden) :: found.2)
  end.

(** No system call is about to fail. *)
Definition quiet (fs : FS) : Prop := fs_faults fs = [].

(** The same file system up to the system calls that are still to fail. *)
Definition same_fs (fs fs' : FS) : Prop :=
  fs_nodes fs' = fs_nodes fs ∧ fs_mounts fs' = fs_mounts fs ∧ fs_cwd fs' = fs_cwd fs ∧
  (quiet fs → quiet fs').

(** ** Package k8s.io/utils/mount: a parameter *)

Class Mounter := {
  PathExists : string → M FS bool;
  mounter_Mount : string → string → string → list string → M FS ();
  mounter_Unmount : string → M FS ();
}.

(** Its documented behaviour.  [PathExists] tells whether the path can be found; [Mount] of a
    tmpfs puts an empty file system on a directory, [Unmount] takes the last one off it; a
    call that fails changes nothing. *)
Class MounterLaws `{Mounter} := {
  PathExists_spec : ∀ s fs fs' r, PathExists s fs = (fs', r) →
    same_fs fs fs' ∧
    match r with
    | Ok b => b = match locate fs true (elements s) with
                  | inr q => bool_decide (is_Some (node_at (fs_nodes fs) q))
                  | inl _ => false
                  end
    | Fail _ => True
    | Panic => False
    end;
  Mount_spec : ∀ source s opts fs fs' r, mounter_Mount source s "tmpfs" opts fs = (fs', r) →
    match r with
    | Ok _ => ∃ q, locate fs true (elements s) = inr q ∧
                   node_at (fs_nodes fs) q = Some Dir ∧ same_fs (mount_at q fs) fs'
    | Fail _ => same_fs fs fs'
    | Panic => False
    end;
  Unmount_spec : ∀ s fs fs' r, mounter_Unmount s fs = (fs', r) →
    match r with
    | Ok _ => ∃ q hidden rest, locate fs true (elements s) = inr q ∧
                take_mount q (fs_mounts fs) = Some (hidden, rest) ∧
                same_fs (unmount_at q hidden rest fs) fs'
    | Fail _ => same_fs fs fs'
    | Panic => False
    end;
}.

(** An implementation on the model, for executable examples. *)
#[export] Instance fake_mounter : Mounter := {
  PathExists s fs :=
    (fs, match locate fs true (elements s) with
         | inr q => Ok (bool_decide (is_Some (node_at (fs_nodes fs) q)))
         | inl ENOENT => Ok false
         | inl e => Fail (PathError s e)
         end);
  mounter_Mount source s fstype opts fs :=
    match locate fs true (elements s) with
    | inr q => match node_at (fs_nodes fs) q with
               | Some Dir => (mount_at q fs, Ok ())
               | _ => (fs, Fail (MountError "not a directory"))
               end
    | inl _ => (fs, Fail (MountError "no such file or directory"))
    end;
  mounter_Unmount s fs :=
    match locate fs true (elements s) with
    | inr q => match take_mount q (fs_mounts fs) with
               | Some (hidden, rest) => (unmount_at q hidden rest fs, Ok ())
               | None => (fs, Fail (MountError "not mounted"))
               end
    | inl _ => (fs, Fail (MountError "no such file or directory"))
    end;
}.

#[export] Instance fake_mounter_laws : MounterLaws.
Proof.
  split; simpl.
  - intros s fs fs' r [= <- <-]. split; [done|].
    destruct (locate fs true (elements s)) as [[]|]; done.
  - intros source s opts fs fs' r. destruct (locate fs true (elements s)) as [|q];
      [by intros [= <- <-]|].
    destruct (node_at (fs_nodes fs) q) as [[]|] eqn:Hq; intros [= <- <-]; try done.
    by exists q.
  - intros s fs fs' r. destruct (locate fs true (elements s)) as [|q]; [by intros [= <- <-]|].
    destruct (take_mount q (fs_mounts fs)) as [[hidden rest]|] eqn:Hq; intros [= <- <-]; [|done].
    by exists q, hidden, rest.
Qed.

(** ** Resolving a path that crosses no link *)

(** Every element of [q] is a directory. *)
Definition dirs (t : tree) (q : location) : Prop :=
  ∀ p, p `prefix_of` q → p ≠ [] → t !! p = Some Dir.

(** The absolute path string of a location. *)
Definition abs (q : location) : string := print_path (true, q).

Lemma elements_abs q : Forall plain q → elements (abs q) = (true, q).
Proof.
  intros Hq. unfold elements, abs, print_path; simpl.
  replace (is_rooted _) with true by (by destruct (join_slash q)). f_equal.
  destruct (decide (q = [])) as [->|Hne]; [done|].
  rewrite split_join; [|eapply Forall_impl; [exact Hq|apply plain_no_slash]|done].
  rewrite filter_cons_False by (intros Hx; by apply Hx).
  clear Hne. induction Hq as [|x q Hx _ IH]; [done|].
  rewrite filter_cons_True, IH by (by destruct Hx). done.
Qed.

Lemma path_of_abs q : Forall plain q → path_of (abs q) = (true, q).
Proof.
  intros Hq. unfold abs. apply path_of_print. exists 0, q. done.
Qed.

Lemma Join_abs q names :
  Forall plain q → Forall plain names → Join (abs q :: names) = abs (q ++ names).
Proof.
  intros Hq Hn. assert (∃ c s, abs q = String c s) as (c & s & Hs) by (unfold abs; simpl; eauto).
  assert (Join (abs q :: names) = Clean (join_slash (abs q :: names))) as HJ by (by rewrite Hs).
  pose proof (path_of_Join (abs q) names) as Hp. rewrite path_of_abs in Hp by done. cbn [fst snd] in Hp.
  assert (Clean (Join (abs q :: names)) = Join (abs q :: names)) as <-
    by (rewrite HJ; apply Clean_idem).
  unfold Clean. rewrite Hp; [done|by rewrite Hs|done].
Qed.

Lemma walk_plain t follow links cur todo x :
  Forall plain (todo ++ [x]) →
  (∀ p, p `prefix_of` todo → p ≠ [] → t !! (cur ++ p) = Some Dir) →
  (follow = true → ∀ l, t !! (cur ++ todo ++ [x]) ≠ Some (Link l)) →
  walk t follow links cur (todo ++ [x]) = inr (cur ++ todo ++ [x]).
Proof.
  revert cur. induction todo as [|y todo IH]; intros cur Hp Hd Hl.
  - simpl in *. apply Forall_cons in Hp as [(?&?&?&?) _]. destruct links; simpl;
      rewrite !bool_decide_eq_false_2 by done;
      (destruct (t !! (cur ++ [x])) as [[]|] eqn:Hx; [done..| |done]);
      destruct follow; simpl; try done; naive_solver.
  - simpl in Hp. apply Forall_cons in Hp as [(?&?&?&?) Hp].
    replace (cur ++ (y :: todo) ++ [x]) with ((cur ++ [y]) ++ todo ++ [x])
      by (by rewrite <- app_assoc).
    rewrite <- IH; [|done| |].
    + destruct links; simpl; rewrite !bool_decide_eq_false_2 by done;
        rewrite (Hd [y]); try done; by exists todo.
    + intros p [k ->] Hne. rewrite <- app_assoc. apply Hd; [by exists k|done].
    + rewrite <- app_assoc. done.
Qed.

Lemma prefix_snoc_cases {A} (p d : list A) x :
  p `prefix_of` d ++ [x] → p `prefix_of` d ∨ p = (d ++ [x]).
Proof.
  intros [k Hk]. destruct k as [|y k _] using rev_ind.
  - rewrite app_nil_r in Hk. by right.
  - rewrite app_assoc in Hk. apply app_inj_tail in Hk as [-> _]. left. by exists k.
Qed.

Lemma dirs_snoc t d x : dirs t (d ++ [x]) ↔ dirs t d ∧ t !! (d ++ [x]) = Some Dir.
Proof.
  split.
  - intros Hd. split; [|apply Hd; [done|by destruct d]].
    intros p Hp. apply Hd. by apply prefix_app_r.
  - intros [Hd Hx] p [Hp| ->]%prefix_snoc_cases; [|done]. by apply Hd.
Qed.

Lemma dirs_insert t q p n : dirs t q → ¬ p `prefix_of` q → dirs (<[p := n]> t) q.
Proof. intros Hd Hp r Hr Hne. rewrite lookup_insert_ne; [by apply Hd|]. by intros ->. Qed.

Lemma dirs_mono t t' q : dirs t q → (∀ p, t !! p = Some Dir → t' !! p = Some Dir) → dirs t' q.
Proof. intros Hd Ht p Hp Hne. by apply Ht, Hd. Qed.

(** No file and no link stands on the way to [q]. *)
Definition clear (t : tree) (q : location) : Prop :=
  ∀ p, p `prefix_of` q → p ≠ [] → t !! p = None ∨ t !! p = Some Dir.

Lemma clear_dirs t q : dirs t q → clear t q.
Proof. intros Hd p Hp Hne. right. by apply Hd. Qed.

Lemma clear_prefix t q d : clear t q → d `prefix_of` q → clear t d.
Proof. intros Hc Hd p Hp. apply Hc. by trans d. Qed.

Section locate.
Context (fs : FS) (d : location) (x : string).
Hypothesis Hplain : Forall plain (d ++ [x]).

Lemma locate_snoc follow :
  locate fs follow (true, d ++ [x]) = walk (fs_nodes fs) follow 40 [] (d ++ [x]).
Proof. unfold locate. by destruct (d ++ [x]). Qed.

Lemma locate_abs follow :
  dirs (fs_nodes fs) d →
  (follow = true → ∀ l, fs_nodes fs !! (d ++ [x]) ≠ Some (Link l)) →
  locate fs follow (true, d ++ [x]) = inr (d ++ [x]).
Proof. intros Hd Hl. rewrite locate_snoc. by apply (walk_plain _ follow 40 []). Qed.
End locate.

Lemma walk_clear t follow links cur todo q :
  Forall plain todo → (∀ p, p `prefix_of` todo → p ≠ [] →
    t !! (cur ++ p) = None ∨ t !! (cur ++ p) = Some Dir) →
  walk t follow links cur todo = inr q →
  q = (cur ++ todo) ∧ ∀ p, p `prefix_of` todo → p ≠ [] → p ≠ todo → t !! (cur ++ p) = Some Dir.
Proof.
  revert cur. induction todo as [|x todo IH]; intros cur Hp Hc Hw.
  - destruct links; simpl in Hw; injection Hw as <-; (split; [by rewrite app_nil_r|]);
      intros p Hpre Hne; by apply prefix_nil_inv in Hpre.
  - apply Forall_cons in Hp as [(?&?&?&?) Hp].
    assert (walk t follow links cur (x :: todo) =
      match t !! (cur ++ [x]) with
      | Some Dir => walk t follow links (cur ++ [x]) todo
      | _ => match todo with [] => inr (cur ++ [x]) | _ => inl ENOENT end
      end) as Hs.
    { destruct (Hc [x]) as [Hx|Hx]; [by exists todo|done| |];
        destruct links; simpl; rewrite !bool_decide_eq_false_2 by done; by rewrite Hx. }
    rewrite Hs in Hw. clear Hs.
    destruct (Hc [x]) as [Hx|Hx]; [by exists todo|done| |]; rewrite Hx in Hw.
    + destruct todo; [|done]. injection Hw as <-. split; [done|].
      intros p [Hpre| ->]%(prefix_snoc_cases _ []) Hne Hq; [|done].
      by apply prefix_nil_inv in Hpre.
    + apply IH in Hw as [-> Hd]; [|done|].
      * split; [by rewrite <- app_assoc|]. intros p Hpre Hne Hq. destruct p as [|y p]; [done|].
        pose proof (prefix_cons_inv_1 _ _ _ _ Hpre) as ->. apply prefix_cons_inv_2 in Hpre.
        destruct (decide (p = [])) as [->|Hp0]; [done|].
        specialize (Hd p Hpre Hp0). rewrite <- app_assoc in Hd. apply Hd. by intros ->.
      * intros p Hpre Hne. rewrite <- app_assoc. apply Hc; [|done]. by apply prefix_cons.
Qed.

(** ** The effect of a call *)

(** The mount table is as before. *)
Definition keeps (fs fs' : FS) : Prop :=
  fs_mounts fs' = fs_mounts fs ∧ fs_cwd fs' = fs_cwd fs ∧ (quiet fs → quiet fs').

#[export] Instance keeps_preorder : PreOrder keeps.
Proof.
  split; [done|]. intros x y z (Hm & Hc & ?) (Hm' & Hc' & ?). unfold keeps.
  rewrite Hm', Hc'. auto.
Qed.

(** The call leaves the tree [t]; or it fails, by a fault, and leaves the old tree. *)
Definition writes (t : tree) (fs fs' : FS) (r : res ()) : Prop :=
  keeps fs fs' ∧
  (r = Ok () ∧ fs_nodes fs' = t ∨ ∃ e, r = Fail e ∧ fs_nodes fs' = fs_nodes fs ∧ ¬ quiet fs).

Lemma syscall_inv {A} p (call : FS → FS * (Errno + A)) fs fs' r :
  syscall p call fs = (fs', r) →
  (∃ l e, fs' = with_faults l fs ∧ r = Fail e ∧ ¬ quiet fs) ∨
  (∃ l, (quiet fs → l = []) ∧
     match call (with_faults l fs) with
     | (fs2, inr a) => fs' = fs2 ∧ r = Ok a
     | (fs2, inl e) => fs' = fs2 ∧ r = Fail (PathError (print_path p) e)
     end).
Proof.
  unfold syscall, quiet. destruct (fs_faults fs) as [|[] l] eqn:Hf.
  - intros H. right. exists []. split; [done|].
    replace (with_faults [] fs) with fs by (destruct fs; simpl in *; by subst).
    destruct (call fs) as [? []]; naive_solver.
  - intros [= <- <-]. left. eauto.
  - intros H. right. exists l. split; [done|].
    destruct (call (with_faults l fs)) as [? []]; naive_solver.
Qed.

(** A fault is an input/output error. *)
Lemma syscall_error {A} p (call : FS → FS * (Errno + A)) fs fs' e :
  syscall p call fs = (fs', Fail e) →
  e = PathError (print_path p) EIO ∧ fs_nodes fs' = fs_nodes fs ∨
  ∃ l errno, call (with_faults l fs) = (fs', inl errno) ∧ e = PathError (print_path p) errno.
Proof.
  unfold syscall. destruct (fs_faults fs) as [|[] l] eqn:Hf.
  - intros H. right. exists []. replace (with_faults [] fs) with fs by (destruct fs; simpl in *; by subst).
    destruct (call fs) as [? [errno|]]; simplify_eq. by exists errno.
  - intros [= <- <-]. by left.
  - intros H. right. exists l. destruct (call (with_faults l fs)) as [? [errno|]]; simplify_eq.
    by exists errno.
Qed.

Lemma locate_faults fs l follow p : locate (with_faults l fs) follow p = locate fs follow p.
Proof. done. Qed.

Lemma keeps_faults fs l : (quiet fs → l = []) → keeps fs (with_faults l fs).
Proof. intros H. repeat split; auto. Qed.

(** [stat] and [lstat] change nothing; an answer is the node at the location. *)
Lemma sys_stat_inv follow p fs fs' r :
  sys_stat follow p fs = (fs', r) →
  keeps fs fs' ∧ fs_nodes fs' = fs_nodes fs ∧
  match r with
  | Ok n => ∃ q, locate fs follow p = inr q ∧ node_at (fs_nodes fs) q = Some n
  | Fail _ => quiet fs → ∀ q, locate fs follow p = inr q → node_at (fs_nodes fs) q = None
  | Panic => False
  end.
Proof.
  intros [(l & e & -> & -> & Hq)|(l & Hl & Hcall)]%syscall_inv.
  - split_and!; [by apply keeps_faults|done|]. done.
  - rewrite locate_faults in Hcall. destruct (locate fs follow p) as [e|q] eqn:Hloc.
    + destruct Hcall as [-> ->]. split_and!; [by apply keeps_faults|done|]. done.
    + change (fs_nodes (with_faults l fs)) with (fs_nodes fs) in Hcall.
      destruct (node_at (fs_nodes fs) q) as [n|] eqn:Hn; destruct Hcall as [-> ->];
        (split_and!; [by apply keeps_faults|done|]).
      * by exists q.
      * intros _ q' [= <-]. done.
Qed.

Lemma sys_mkdir_inv d x fs fs' r :
  Forall plain (d ++ [x]) → dirs (fs_nodes fs) d → sys_mkdir (true, d ++ [x]) fs = (fs', r) →
  match fs_nodes fs !! (d ++ [x]) with
  | None => writes (<[d ++ [x] := Dir]> (fs_nodes fs)) fs fs' r
  | Some _ => keeps fs fs' ∧ fs_nodes fs' = fs_nodes fs ∧ ∃ e, r = Fail e
  end.
Proof.
  intros Hp Hd [(l & e & -> & -> & Hq)|(l & Hl & Hcall)]%syscall_inv.
  - destruct (fs_nodes fs !! (d ++ [x])); (split; [by apply keeps_faults|]); eauto.
  - rewrite locate_faults, locate_abs in Hcall by done.
    replace (node_at (fs_nodes (with_faults l fs)) (d ++ [x])) with (fs_nodes fs !! (d ++ [x])) in Hcall
      by (by destruct d).
    destruct (fs_nodes fs !! (d ++ [x])); destruct Hcall as [-> ->];
      (split; [by apply keeps_faults|]); eauto.
Qed.

Lemma WriteFile_writes d x data fs fs' r :
  Forall plain (d ++ [x]) → dirs (fs_nodes fs) d →
  (∀ s, fs_nodes fs !! (d ++ [x]) = Some s → ∃ c, s = File c) →
  WriteFile (abs (d ++ [x])) data fs = (fs', r) →
  writes (<[d ++ [x] := File data]> (fs_nodes fs)) fs fs' r.
Proof.
  intros Hp Hd Hx. unfold WriteFile. rewrite elements_abs by done.
  intros [(l & e & -> & -> & Hq)|(l & Hl & Hcall)]%syscall_inv.
  - split; [by apply keeps_faults|]. right. eauto.
  - rewrite locate_faults, locate_abs in Hcall; [|done..|by intros _ lk (? & ?)%Hx].
    replace (node_at (fs_nodes (with_faults l fs)) (d ++ [x])) with (fs_nodes fs !! (d ++ [x])) in Hcall
      by (by destruct d).
    destruct (fs_nodes fs !! (d ++ [x])) as [n|] eqn:Hn;
      [destruct (Hx _ eq_refl) as [c ->]|]; destruct Hcall as [-> ->];
      (split; [by apply keeps_faults|]); by left.
Qed.

Lemma Symlink_writes d x target fs fs' r :
  target ≠ "" → Forall plain (d ++ [x]) → dirs (fs_nodes fs) d → fs_nodes fs !! (d ++ [x]) = None →
  Symlink target (abs (d ++ [x])) fs = (fs', r) →
  writes (<[d ++ [x] := Link target]> (fs_nodes fs)) fs fs' r.
Proof.
  intros Ht Hp Hd Hx. unfold Symlink. rewrite elements_abs by done.
  intros [(l & e & -> & -> & Hq)|(l & Hl & Hcall)]%syscall_inv.
  - split; [by apply keeps_faults|]. right. eauto.
  - rewrite bool_decide_eq_false_2, locate_faults, locate_abs in Hcall by done.
    replace (node_at (fs_nodes (with_faults l fs)) (d ++ [x])) with (fs_nodes fs !! (d ++ [x])) in Hcall
      by (by destruct d).
    rewrite Hx in Hcall. destruct Hcall as [-> ->]. split; [by apply keeps_faults|]. by left.
Qed.

(** [t'] is [t] with some missing directories on the way to [q]. *)
Definition grown (t t' : tree) (q : location) : Prop :=
  ∀ p, t' !! p = t !! p ∨ (p `prefix_of` q ∧ p ≠ [] ∧ t !! p = None ∧ t' !! p = Some Dir).

Lemma grown_trans t1 t2 t3 d q :
  grown t1 t2 d → grown t2 t3 q → d `prefix_of` q → grown t1 t3 q.
Proof.
  intros H12 H23 Hd p. destruct (H12 p) as [H|(Hp & Hne & H1 & H2)],
    (H23 p) as [H'|(Hp' & Hne' & H1' & H2')]; try congruence.
  - left. congruence.
  - right. split_and!; [done..| |done]. congruence.
  - right. split_and!; [by trans d|done..|]. congruence.
Qed.

Lemma grown_clear t t' q d : grown t t' d → clear t q → clear t' q.
Proof.
  intros Hg Hc p Hp Hne. destruct (Hg p) as [->|(_ & _ & _ & ->)]; [by apply Hc|by right].
Qed.

(** What [os.MkdirAll] does on a path without files and links in the way. *)
Definition made (q : location) (fs fs' : FS) (r : res ()) : Prop :=
  keeps fs fs' ∧ grown (fs_nodes fs) (fs_nodes fs') q ∧
  match r with
  | Ok _ => dirs (fs_nodes fs') q
  | Fail _ => ¬ quiet fs ∧ fs_nodes fs' !! q = fs_nodes fs !! q
  | Panic => False
  end.

Lemma stat_clear follow q fs n :
  Forall plain q → clear (fs_nodes fs) q →
  (∃ p, locate fs follow (true, q) = inr p ∧ node_at (fs_nodes fs) p = Some n) →
  n = Dir ∧ dirs (fs_nodes fs) q.
Proof.
  intros Hp Hc (p & Hloc & Hn). unfold locate in Hloc.
  apply walk_clear in Hloc as [-> Hd]; [|done..]. simpl in *. destruct q as [|x q].
  { split; [by injection Hn|]. intros p Hpre. by apply prefix_nil_inv in Hpre. }
  simpl in Hn. destruct (Hc (x :: q)) as [H|H]; [done..|congruence|].
  split; [congruence|]. intros p Hpre Hne. destruct (decide (p = x :: q)) as [->|]; [done|].
  by apply Hd.
Qed.

(** The calls [mkdir] and [lstat] at the end of [os.MkdirAll], once the parent is there. *)
Lemma mkdir_last d x fs fs' r :
  Forall plain (d ++ [x]) → clear (fs_nodes fs) (d ++ [x]) → dirs (fs_nodes fs) d →
  (made ← attempt (sys_mkdir (true, d ++ [x]));
   match made with
   | inl _ => mret ()
   | inr e => again ← attempt (sys_stat false (true, d ++ [x]));
              match again with inl Dir => mret () | _ => fail e end
   end) fs = (fs', r) →
  made (d ++ [x]) fs fs' r.
Proof.
  intros Hp Hc Hd [(m & fs1 & Hm & Hrun)|[(e & Hm & ->)|[Hm ->]]]%bind_inv;
    apply attempt_inv in Hm; [|done|].
  2: { apply sys_mkdir_inv in Hm; [|done..]. case_match; [naive_solver|].
       destruct Hm as [_ Hm]; naive_solver. }
  assert (keeps fs fs1 ∧ (m = inl () ∧ fs_nodes fs1 = <[d ++ [x] := Dir]> (fs_nodes fs) ∧
                          fs_nodes fs !! (d ++ [x]) = None ∨
          fs_nodes fs1 = fs_nodes fs ∧ (∃ e, m = inr e) ∧
          (quiet fs → is_Some (fs_nodes fs !! (d ++ [x]))))) as [Hk Hcases].
  { destruct m as [[]|e]; apply sys_mkdir_inv in Hm; try done;
      destruct (fs_nodes fs !! (d ++ [x])) eqn:Hx; unfold writes in Hm; naive_solver. }
  destruct Hcases as [(-> & Hn & Hx)|(Hn & (e & ->) & Hx)].
  - injection Hrun as <- <-. split_and!; [done| |].
    + intros p. rewrite Hn. destruct (decide (p = d ++ [x])) as [->|Hpne].
      * right. rewrite lookup_insert_eq. split_and!; [done|by destruct d|done..].
      * left. by rewrite lookup_insert_ne.
    + rewrite Hn. apply dirs_snoc. rewrite lookup_insert_eq. split; [|done].
      apply dirs_insert; [done|]. intros Hpre%prefix_length. rewrite length_app in Hpre. simpl in Hpre. lia.
  - apply bind_inv in Hrun as [(a & fs2 & Ha & Hrun)|[(e2 & Ha & ->)|[Ha ->]]];
      apply attempt_inv in Ha; [|done|by apply sys_stat_inv in Ha as (_ & _ & ?)].
    assert (keeps fs1 fs2 ∧ fs_nodes fs2 = fs_nodes fs1) as [Hk2 Hn2]
      by (destruct a; apply sys_stat_inv in Ha as (? & ? & _); done).
    assert (keeps fs fs2) as Hk3 by (by trans fs1).
    assert (clear (fs_nodes fs1) (d ++ [x])) as Hc1 by (by rewrite Hn).
    destruct a as [n|e2]; apply sys_stat_inv in Ha as (_ & _ & Ha).
    + apply stat_clear in Ha as [-> Hdirs]; [|done..]. injection Hrun as <- <-.
      split_and!; [done|intros p; left; by rewrite Hn2, Hn|by rewrite Hn2].
    + injection Hrun as <- <-. split_and!; [done|intros p; left; by rewrite Hn2, Hn| |by rewrite Hn2, Hn].
      intros Hq. destruct (Hx Hq) as [n Hxn].
      destruct Hk as (_ & _ & Hk). specialize (Ha (Hk Hq) (d ++ [x])).
      rewrite locate_abs, Hn in Ha by (done || by rewrite Hn). specialize (Ha eq_refl).
      destruct d; simpl in *; congruence.
Qed.

Lemma sys_mkdir_root fs fs' r :
  sys_mkdir (true, []) fs = (fs', r) →
  keeps fs fs' ∧ fs_nodes fs' = fs_nodes fs ∧ ∃ e, r = Fail e.
Proof.
  intros [(l & e & -> & -> & Hq)|(l & Hl & Hcall)]%syscall_inv.
  - split_and!; [by apply keeps_faults|done|eauto].
  - simpl in Hcall. destruct Hcall as [-> ->]. split_and!; [by apply keeps_faults|done|eauto].
Qed.

Lemma made_same q fs fs' r :
  keeps fs fs' → fs_nodes fs' = fs_nodes fs →
  match r with Ok _ => dirs (fs_nodes fs) q | Fail _ => ¬ quiet fs | Panic => False end →
  made q fs fs' r.
Proof.
  intros Hk Hn Hr. split_and!; [done|intros p; left; by rewrite Hn|].
  rewrite Hn. by destruct r.
Qed.

(** What a [stat] in [os.MkdirAll] tells. *)
Lemma mkdir_stat follow q fs fs1 found :
  Forall plain q → clear (fs_nodes fs) q →
  attempt (sys_stat follow (true, q)) fs = (fs1, Ok found) →
  keeps fs fs1 ∧ fs_nodes fs1 = fs_nodes fs ∧
  match found with
  | inl n => n = Dir ∧ dirs (fs_nodes fs) q
  | inr _ => quiet fs → ∀ p, locate fs follow (true, q) = inr p → node_at (fs_nodes fs) p = None
  end.
Proof.
  intros Hp Hc Hs%attempt_inv. destruct found as [n|e]; apply sys_stat_inv in Hs as (Hk & Hn & Hs).
  - split_and!; [done..| |]; by apply stat_clear in Hs as [-> ?].
  - done.
Qed.

Lemma attempt_stat_total follow p fs fs' r :
  attempt (sys_stat follow p) fs = (fs', r) → ∃ found, r = Ok found.
Proof.
  intros H%attempt_inv. destruct r as [found| |]; [by exists found|done|].
  by apply sys_stat_inv in H as (_ & _ & ?).
Qed.

(** A step that stats cannot end the run by itself. *)
Lemma bind_stat {B} follow p (f : Inode + error → M FS B) fs fs' r :
  (attempt (sys_stat follow p) ≫= f) fs = (fs', r) →
  ∃ found fs1, attempt (sys_stat follow p) fs = (fs1, Ok found) ∧ f found fs1 = (fs', r).
Proof.
  intros [(a & s1 & Ha & Hf)|[(e & He & _)|[He _]]]%bind_inv; [by exists a, s1|..];
    apply attempt_stat_total in He as [? ?]; done.
Qed.

(** The same end of [os.MkdirAll] at the root. *)
Lemma mkdir_last_root fs fs' r :
  (made ← attempt (sys_mkdir (true, []));
   match made with
   | inl _ => mret ()
   | inr e => again ← attempt (sys_stat false (true, []));
              match again with inl Dir => mret () | _ => fail e end
   end) fs = (fs', r) →
  keeps fs fs' ∧ fs_nodes fs' = fs_nodes fs ∧ r ≠ Panic.
Proof.
  intros [(m & fs1 & Hm & Hrun)|[(e & Hm & _)|[Hm _]]]%bind_inv; apply attempt_inv in Hm;
    [|done|by apply sys_mkdir_root in Hm as (_ & _ & ? & ?)].
  destruct m as [[]|e]; apply sys_mkdir_root in Hm as (Hk & Hn & ? & ?); [done|].
  apply bind_stat in Hrun as (again & fs2 & Ha & Hrun).
  apply mkdir_stat in Ha as (Hk2 & Hn2 & Ha); [|done|intros p Hp; by apply prefix_nil_inv in Hp].
  assert (keeps fs fs2) by (by trans fs1). assert (fs_nodes fs2 = fs_nodes fs) by congruence.
  destruct again as [n|e2]; [destruct Ha as [-> Ha]|]; by injection Hrun as <- <-.
Qed.

Lemma made_trans d x fs fs1 fs' r :
  keeps fs fs1 → grown (fs_nodes fs) (fs_nodes fs1) d →
  made (d ++ [x]) fs1 fs' r → made (d ++ [x]) fs fs' r.
Proof.
  intros Hk Hg (Hk2 & Hg2 & Hr). split_and!; [by trans fs1| |].
  - eapply grown_trans; [done..|]. by apply prefix_app_r.
  - destruct r as [|e|]; [done| |done]. destruct Hr as [Hnq Hx]. split.
    + destruct Hk as (_ & _ & Hk). tauto.
    + rewrite Hx. destruct (Hg (d ++ [x])) as [->|([k Hk'] & _)]; [done|].
      apply (f_equal length) in Hk'. rewrite !length_app in Hk'. simpl in Hk'. lia.
Qed.

Lemma mkdir_all_made rsegs fs fs' r :
  Forall plain (rev rsegs) → clear (fs_nodes fs) (rev rsegs) →
  mkdir_all true rsegs fs = (fs', r) → made (rev rsegs) fs fs' r.
Proof.
  revert fs fs' r. induction rsegs as [|x rsegs IH]; intros fs fs' r Hp Hc; cbn [mkdir_all];
    intros (found & fs1 & Hs & Hrun)%bind_stat.
  - apply mkdir_stat in Hs as (Hk & Hn & Hs); [|done..].
    destruct found as [n|e]; [destruct Hs as [-> Hd]; injection Hrun as <- <-; by apply made_same|].
    rewrite (bind_step _ _ fs1 fs1 ()) in Hrun by done.
    apply mkdir_last_root in Hrun as (Hk2 & Hn2 & Hr).
    apply made_same; [by trans fs1|congruence|].
    destruct r; [intros p Hpre; by apply prefix_nil_inv in Hpre| |done].
    intros Hq. by specialize (Hs Hq [] eq_refl).
  - simpl in Hp, Hc. apply mkdir_stat in Hs as (Hk & Hn & Hs); [|done..].
    destruct found as [n|e]; [destruct Hs as [-> Hd]; injection Hrun as <- <-; by apply made_same|].
    simpl in *. pose proof Hp as [Hpd _]%Forall_app.
    assert (clear (fs_nodes fs1) (rev rsegs)) as Hcd
      by (rewrite Hn; eapply clear_prefix; [done|by apply prefix_app_r]).
    apply bind_inv in Hrun as [([] & fs2 & Hpar & Hrun)|[(e1 & Hpar & ->)|[Hpar ->]]];
      apply IH in Hpar as (Hk2 & Hg & Hr); try done; rewrite Hn in Hg.
    + eapply (made_trans _ _ _ fs2); [by trans fs1|done|].
      apply mkdir_last in Hrun; [done..| |done]. by eapply grown_clear.
    + destruct Hr as [Hnq Hx]. split_and!; [by trans fs1| | |].
      * eapply grown_trans; [exact Hg| |by apply prefix_app_r]. by left.
      * destruct Hk as (_ & _ & Hk). tauto.
      * destruct (Hg (rev rsegs ++ [x])) as [->|([k Hk'] & _)]; [done|].
        apply (f_equal length) in Hk'. rewrite !length_app in Hk'. simpl in Hk'. lia.
Qed.

(** [os.MkdirAll] makes the missing directories on the way, or fails by a fault before the
    last one. *)
Lemma MkdirAll_made q fs fs' r :
  Forall plain q → clear (fs_nodes fs) q → MkdirAll (abs q) fs = (fs', r) → made q fs fs' r.
Proof.
  intros Hp Hc. unfold MkdirAll. rewrite elements_abs by done. cbn [fst snd]. intros Hrun.
  rewrite <- (rev_involutive q). apply mkdir_all_made; by rewrite ?rev_involutive.
Qed.

(** When only the last directory may be missing. *)
Lemma MkdirAll_writes d x fs fs' r :
  Forall plain (d ++ [x]) → dirs (fs_nodes fs) d →
  (fs_nodes fs !! (d ++ [x]) = None ∨ fs_nodes fs !! (d ++ [x]) = Some Dir) →
  MkdirAll (abs (d ++ [x])) fs = (fs', r) →
  writes (<[d ++ [x] := Dir]> (fs_nodes fs)) fs fs' r.
Proof.
  intros Hp Hd Hx Hrun. apply MkdirAll_made in Hrun as (Hk & Hg & Hr); [|done|].
  2: { intros p [Hpre| ->]%prefix_snoc_cases Hne; [right; by apply Hd|done]. }
  assert (∀ p, p ≠ d ++ [x] → fs_nodes fs' !! p = fs_nodes fs !! p) as Hother.
  { intros p Hne. destruct (Hg p) as [|([Hpre|]%prefix_snoc_cases & Hn0 & Hnone & _)]; [done| |done].
    rewrite Hd in Hnone; done. }
  split; [done|]. destruct r as [[]|e|]; [left|right|done].
  - split; [done|]. apply map_eq. intros p. destruct (decide (p = d ++ [x])) as [->|Hne].
    + rewrite lookup_insert_eq. by apply dirs_snoc in Hr as [_ ?].
    + rewrite lookup_insert_ne by done. by apply Hother.
  - destruct Hr as [Hnq Hsame]. exists e. split_and!; [done| |done]. apply map_eq. intros p.
    destruct (decide (p = d ++ [x])) as [->|Hne]; [done|by apply Hother].
Qed.
