(* ===== verification/CsiTypes.v ===== *)
(** * Messages of the Container Storage Interface

    The request and response types of the CSI gRPC services, with the fields the drivers
    read and write.  They stand for the generated Go structs: a pointer or a slice that the
    code compares with nil is an option, and the [Get] accessors give the zero value for a
    nil receiver. *)
From S2P Require Import Prelude GoRuntime.

(** ** Volume capabilities *)

Inductive AccessMode :=
| UNKNOWN
| SINGLE_NODE_WRITER
| SINGLE_NODE_READER_ONLY
| MULTI_NODE_READER_ONLY
| MULTI_NODE_SINGLE_WRITER
| MULTI_NODE_MULTI_WRITER
| SINGLE_NODE_SINGLE_WRITER
| SINGLE_NODE_MULTI_WRITER.
#[export] Instance AccessMode_eq_dec : EqDecision AccessMode.
Proof. solve_decision. Defined.

(** The [access_type] one-of. *)
Inductive AccessType := Block | Mount (fsType : string).
#[export] Instance AccessType_eq_dec : EqDecision AccessType.
Proof. solve_decision. Defined.

Record VolumeCapability := {
  vc_accessType : option AccessType;
  vc_accessMode : option AccessMode;      (* the [Mode] of a non-nil AccessMode *)
}.

(** [cap.GetAccessType()] and [cap.AccessMode.GetMode()]. *)
Definition GetAccessType (c : option VolumeCapability) : option AccessType :=
  c ≫= vc_accessType.
Definition GetMode (m : option AccessMode) : AccessMode := default UNKNOWN m.

(** ** Topology *)

Record Topology := { segments : gmap string string }.
Record TopologyRequirement := {
  requisite : list Topology;
  preferred : list Topology;
}.

(** ** The controller service *)

Record CapacityRange := { required_bytes : Z; limit_bytes : Z }.

Record CreateVolumeRequest := {
  cv_name : string;
  cv_capacityRange : option CapacityRange;
  cv_volumeCapabilities : option (list (option VolumeCapability));
  cv_parameters : gomap string;
  cv_accessibilityRequirements : option TopologyRequirement;
}.

Record Volume := {
  vol_id : string;
  vol_capacityBytes : Z;
  vol_context : gomap string;
  vol_accessibleTopology : list Topology;
}.

(** The capabilities that stand for calls. *)
Inductive ControllerRpc :=
| CREATE_DELETE_VOLUME
| PUBLISH_UNPUBLISH_VOLUME
| LIST_VOLUMES
| GET_CAPACITY
| CREATE_DELETE_SNAPSHOT
| LIST_SNAPSHOTS
| GET_SNAPSHOT
| EXPAND_VOLUME
| GET_VOLUME
| MODIFY_VOLUME.
#[export] Instance ControllerRpc_eq_dec : EqDecision ControllerRpc.
Proof. solve_decision. Defined.

(** ** The node service *)

Record NodePublishVolumeRequest := {
  np_volumeId : string;
  np_targetPath : string;
  np_volumeCapability : option VolumeCapability;
  np_volumeContext : gomap string;
}.

Record NodeStageVolumeRequest := {
  ns_volumeId : string;
  ns_stagingTargetPath : string;
  ns_volumeCapability : option VolumeCapability;
}.

Inductive NodeRpc := STAGE_UNSTAGE_VOLUME | GET_VOLUME_STATS | NODE_EXPAND_VOLUME.
#[export] Instance NodeRpc_eq_dec : EqDecision NodeRpc.
Proof. solve_decision. Defined.

(** ** The identity service *)

Inductive PluginCapability := CONTROLLER_SERVICE | VOLUME_ACCESSIBILITY_CONSTRAINTS.
#[export] Instance PluginCapability_eq_dec : EqDecision PluginCapability.
Proof. solve_decision. Defined.

Record PluginInfo := { pi_name : string; pi_vendorVersion : string }.
