(* ===== verification/CsiController.v ===== *)
(** * The CSI controller service

    Models internal/csi/controller.go and internal/csi/constant.go: the validation of the
    requests, [CreateVolume] with the volume context taken from the annotations of the claim
    and the topology taken from the ListenerClass, [DeleteVolume] with the test on the volume
    name, and the remaining calls of the service.  The theorems show what [CreateVolume]
    answers on every input: it refines the function [provision] on the stored objects. *)
From Stdlib Require Import Ascii.
From S2P Require Import Prelude GoRuntime GoStrings Api CsiTypes FakeClient Fixtures.

(** ** internal/csi/constant.go *)

Definition CSI_STORAGE_PVC_NAME : string := "csi.storage.k8s.io/pvc/name".
Definition CSI_STORAGE_PVC_NAMESPACE : string := "csi.storage.k8s.io/pvc/namespace".
Definition CSI_STORAGE_POD_NAME : string := "csi.storage.k8s.io/pod.name".
Definition CSI_STORAGE_POD_NAMESPACE : string := "csi.storage.k8s.io/pod.namespace".
Definition CSI_STORAGE_POD_UID : string := "csi.storage.k8s.io/pod.uid".
Definition CSI_STORAGE_SERVICE_ACCOUNT_NAME : string := "csi.storage.k8s.io/serviceAccount.name".
Definition CSI_STORAGE_EPHEMERAL : string := "csi.storage.k8s.io/ephemeral".
Definition STORAGE_KUBERNETES_CSI_PROVISIONER_IDENTITY : string :=
  "storage.kubernetes.io/csiProvisionerIdentity".

(** ** Regular expressions

    The fragment of package regexp that [CheckDynamicPV] uses: literal bytes, the class
    [\w], concatenation and counted repetition.  [regexp.Match] looks for a match anywhere
    in its input. *)
Module Regexp.

Inductive regexp :=
| Byte (c : ascii)
| WordClass                                   (* \w *)
| Concat (r1 r2 : regexp)
| Repeat (r : regexp) (n : nat).              (* r{n} *)

Fixpoint Literal (s : string) (r : regexp) : regexp :=
  match s with
  | "" => r
  | String c s => Concat (Byte c) (Literal s r)
  end.

(** [\w] is [0-9A-Za-z_]. *)
Definition is_word (c : ascii) : bool :=
  let n := Ascii.nat_of_ascii c in
  ((48 <=? n) && (n <=? 57) || (65 <=? n) && (n <=? 90) || (97 <=? n) && (n <=? 122) || (n =? 95))%nat.

(** What is left of the input after a match at its start; the fragment is deterministic. *)
Definition times (f : string → option string) : nat → string → option string :=
  fix go n s := match n with 0 => Some s | S n => f s ≫= go n end.

Fixpoint strip (r : regexp) (s : string) : option string :=
  match r with
  | Byte c => match s with
              | String d s => if bool_decide (c = d) then Some s else None
              | "" => None
              end
  | WordClass => match s with
                 | String d s => if is_word d then Some s else None
                 | "" => None
                 end
  | Concat r1 r2 => strip r1 s ≫= strip r2
  | Repeat r n => times (strip r) n s
  end.

Fixpoint Match (r : regexp) (s : string) : bool :=
  bool_decide (is_Some (strip r s)) ||
  match s with "" => false | String _ s => Match r s end.

(** The language of a regular expression. *)
Inductive lang : regexp → string → Prop :=
| lang_byte c : lang (Byte c) (String c "")
| lang_word c : is_word c = true → lang WordClass (String c "")
| lang_concat r1 r2 s1 s2 : lang r1 s1 → lang r2 s2 → lang (Concat r1 r2) (s1 +:+ s2)
| lang_repeat_0 r : lang (Repeat r 0) ""
| lang_repeat_S r n s1 s2 :
    lang r s1 → lang (Repeat r n) s2 → lang (Repeat r (S n)) (s1 +:+ s2).

End Regexp.

Module ControllerServer.
Import Regexp.

(** ** Requests *)

Record createVolumeRequestParams := {
  PVCName : string;
  pvcNamespace : string;
}.

Definition newCreateVolumeRequestParamsFromMap (params : gomap string)
  : res createVolumeRequestParams :=
  match map_get params CSI_STORAGE_PVC_NAME, map_get params CSI_STORAGE_PVC_NAMESPACE with
  | Some pvcName, Some pvcNamespace =>
      Ok {| PVCName := pvcName; pvcNamespace := pvcNamespace |}
  | _, _ => Fail (StatusError InvalidArgument (Lit
      "ensure '--extra-create-metadata' args are added in the sidecar of the csi-provisioner container."))
  end.

Definition volumeCaps : list AccessMode :=
  [SINGLE_NODE_WRITER; MULTI_NODE_MULTI_WRITER; MULTI_NODE_READER_ONLY].

Definition isSupportVolumeCapabilities (cap : option VolumeCapability) : bool :=
  match GetAccessType cap with
  | Some (Mount _) =>
      List.existsb (λ volumeCap, bool_decide (volumeCap = GetMode (cap ≫= vc_accessMode))) volumeCaps
  | Some Block | None => false
  end.

(** The loop does not stop early: it clears [foundAll] for every unsupported element. *)
Definition isValidVolumeCapabilities (volCaps : list (option VolumeCapability)) : bool :=
  fold_left (λ foundAll c, if negb (isSupportVolumeCapabilities c) then false else foundAll)
            volCaps true.

Definition validateCreateVolumeRequest (request : CreateVolumeRequest) : res () :=
  if bool_decide (cv_name request = "") then Fail (New (Lit "volume Name is required"))
  else if bool_decide (cv_capacityRange request = None)
  then Fail (New (Lit "capacityRange is required"))
  else match cv_volumeCapabilities request with
       | None => Fail (New (Lit "volumeCapabilities is required"))
       | Some caps => if negb (isValidVolumeCapabilities caps)
                      then Fail (New (Lit "volumeCapabilities is not supported"))
                      else Ok ()
       end.

Definition validateDeleteVolumeRequest (volumeId : string) : res () :=
  if bool_decide (volumeId = "") then Fail (New (Lit "volume ID is required")) else Ok ().

Section server.
Context {W : Type} `{Client W} `{OperatorGo}.

(** ** CreateVolume *)

Definition getAccessibleTopology (request : CreateVolumeRequest) (listenerClass : ListenerClass)
  : list Topology :=
  if bool_decide (lcs_serviceType (lc_spec listenerClass) = Some ServiceTypeNodePort) then
    match cv_accessibilityRequirements request with
    | Some req => match preferred req with
                  | first :: _ => [first]
                  | [] => []
                  end
    | None => []
    end
  else [].

Definition getListenerClass (volumeContext : gomap string) (namespace : string) : M W ListenerClass :=
  match map_get volumeContext AnnotationListenerName with
  | Some listenerName =>
      listener ← on_error (λ e, New (Cat (Lit "get listener error: ") (ErrorOf e)))
                   (client_get KListener (Key namespace listenerName));
      on_error (λ e, New (Cat (Lit "get listener class from listener error: ") (ErrorOf e)))
        (client_get KListenerClass (Key namespace (ls_className (listener_spec listener))))
  | None =>
      match map_get volumeContext ListenerClassAnnotation with
      | Some className =>
          on_error (λ e, New (Cat (Lit "get listener class error: ") (ErrorOf e)))
            (client_get KListenerClass (Key namespace className))
      | None => fail (New (Lit
          "neither listener name nor listener class name found in volume context"))
      end
  end.

Definition getVolumeContext (params : createVolumeRequestParams) : M W (gomap string) :=
  pvc ← on_error (λ e, New (Cat (Lit "get pvc error: ") (ErrorOf e)))
          (client_get KPersistentVolumeClaim (Key (pvcNamespace params) (PVCName params)));
  let annotations := meta_annotations (pvc_meta pvc) in
  let classNameExists := bool_decide (is_Some (map_get annotations ListenerClassAnnotation)) in
  let listenerNameExist := bool_decide (is_Some (map_get annotations AnnotationListenerName)) in
  if negb classNameExists && negb listenerNameExist
  then fail (New (Cat (Lit "pvc annotations must have one of ")
                 (Cat (Quoted ListenerClassAnnotation)
                 (Cat (Lit " or ") (Quoted AnnotationListenerName)))))
  else mret annotations.

Definition CreateVolume (request : CreateVolumeRequest) : M W Volume :=
  lift (on_error_res (λ e, StatusError InvalidArgument (ErrorOf e))
          (validateCreateVolumeRequest request));;
  requiredCap ← mret (match cv_capacityRange request with
                      | Some r => required_bytes r
                      | None => 0%Z
                      end);
  params ← lift (on_error_res
             (λ e, StatusError InvalidArgument
                     (Cat (Lit "Get createVolumeRequestParams error: ") (ErrorOf e)))
             (newCreateVolumeRequestParamsFromMap (cv_parameters request)));
  volumeCtx ← on_error
             (λ e, StatusError InvalidArgument
                     (Cat (Lit "Get listener Volume refer error: ") (ErrorOf e)))
             (getVolumeContext params);
  listenerClass ← on_error
             (λ e, StatusError Internal (Cat (Lit "Get listenerClass error: ") (ErrorOf e)))
             (getListenerClass volumeCtx (pvcNamespace params));
  mret {| vol_id := cv_name request;
          vol_capacityBytes := requiredCap;
          vol_context := volumeCtx;
          vol_accessibleTopology := getAccessibleTopology request listenerClass |}.

(** ** DeleteVolume *)

(** [pvc-\w{8}(-\w{4}){3}-\w{12}] *)
Definition dynamic_pv_pattern : regexp :=
  Literal "pvc-" (Concat (Repeat WordClass 8)
    (Concat (Repeat (Literal "-" (Repeat WordClass 4)) 3)
      (Literal "-" (Repeat WordClass 12)))).

Definition CheckDynamicPV (name : string) : res bool := Ok (Match dynamic_pv_pattern name).

Definition DeleteVolume (volumeId : string) : M W () :=
  lift (on_error_res (λ e, StatusError InvalidArgument (ErrorOf e))
          (validateDeleteVolumeRequest volumeId));;
  dynamic ← lift (on_error_res
             (λ e, StatusError InvalidArgument (Cat (Lit "Check Volume ID error: ") (ErrorOf e)))
             (CheckDynamicPV volumeId));
  if negb dynamic then mret () else mret ().

(** ** The remaining calls *)

Definition ValidateVolumeCapabilities (volumeId : string)
    (vcs : option (list (option VolumeCapability))) : M W (option (list (option VolumeCapability))) :=
  if bool_decide (volumeId = "")
  then fail (StatusError InvalidArgument (Lit "Volume ID is required"))
  else if bool_decide (length (default [] vcs) = 0)
  then fail (StatusError InvalidArgument (Lit "VolumeCapabilities is required"))
  else mret vcs.

Definition ListVolumes : M W () := fail (StatusError Unimplemented (Lit "")).
Definition GetCapacity : M W () := fail (StatusError Unimplemented (Lit "")).
Definition ControllerGetCapabilities : M W (list ControllerRpc) := mret [CREATE_DELETE_VOLUME].

End server.
End ControllerServer.
Export ControllerServer.
Import Regexp.

(** ** What a regular expression matches *)

Lemma times_strip (f : string → option string) r n :
  (∀ s t, f s = Some t ↔ ∃ m, lang r m ∧ s = m +:+ t) →
  ∀ s t, times f n s = Some t ↔ ∃ m, lang (Repeat r n) m ∧ s = m +:+ t.
Proof.
  intros Hf. induction n as [|n IH]; intros s t; simpl.
  - split.
    + intros [= ->]. exists "". split; [constructor|done].
    + intros (m & Hm & ->). by inversion Hm.
  - rewrite bind_Some. split.
    + intros (u & (m1 & H1 & ->)%Hf & (m2 & H2 & ->)%IH). exists (m1 +:+ m2).
      split; [by constructor|]. by rewrite string_app_assoc.
    + intros (m & Hm & ->). inversion Hm as [| | | |? ? m1 m2 H1 H2]; subst.
      exists (m2 +:+ t). rewrite Hf, IH, <- string_app_assoc. split; [by exists m1|by exists m2].
Qed.

Lemma strip_spec r s t : strip r s = Some t ↔ ∃ m, lang r m ∧ s = m +:+ t.
Proof.
  revert s t. induction r as [c| |r1 IH1 r2 IH2|r IH n]; intros s t; simpl.
  - split.
    + destruct s as [|d s]; [done|]. case_bool_decide; [|done]. intros [= ->]; subst.
      exists (String d ""). by split; [constructor|].
    + intros (m & Hm & ->). inversion Hm; subst. rewrite string_app_cons, string_app_nil_l.
      by rewrite bool_decide_eq_true_2.
  - split.
    + destruct s as [|d s]; [done|]. case_match eqn:Hd; [|done]. intros [= ->].
      exists (String d ""). by split; [constructor|].
    + intros (m & Hm & ->). inversion Hm as [|? Hc| | |]; subst.
      rewrite string_app_cons, string_app_nil_l. by rewrite Hc.
  - rewrite bind_Some. split.
    + intros (u & (m1 & H1 & ->)%IH1 & (m2 & H2 & ->)%IH2). exists (m1 +:+ m2).
      split; [by constructor|]. by rewrite string_app_assoc.
    + intros (m & Hm & ->). inversion Hm as [| |? ? m1 m2 H1 H2| |]; subst.
      exists (m2 +:+ t). rewrite IH1, IH2, <- string_app_assoc. split; [by exists m1|by exists m2].
  - by apply times_strip.
Qed.

Lemma Match_spec r s :
  Match r s = true ↔ ∃ pre m post, s = pre +:+ (m +:+ post) ∧ lang r m.
Proof.
  induction s as [|c s IH]; simpl; rewrite orb_true_iff, bool_decide_eq_true.
  - split.
    + intros [[t (m & Hm & Hs)%strip_spec]|]; [|done]. by exists "", m, t.
    + intros (pre & m & post & Hs & Hm). left. exists post. apply strip_spec. exists m.
      split; [done|]. by destruct pre.
  - rewrite IH. split.
    + intros [[t (m & Hm & Hs)%strip_spec]|(pre & m & post & -> & Hm)].
      * by exists "", m, t.
      * exists (String c pre), m, post. by rewrite string_app_cons.
    + intros (pre & m & post & Hs & Hm). destruct pre as [|d pre].
      * left. exists post. apply strip_spec. by exists m.
      * right. rewrite string_app_cons in Hs. injection Hs as -> ->. eauto.
Qed.

Lemma lang_concat_inv r1 r2 m :
  lang (Concat r1 r2) m ↔ ∃ m1 m2, m = m1 +:+ m2 ∧ lang r1 m1 ∧ lang r2 m2.
Proof.
  split.
  - inversion 1; subst. eauto.
  - intros (m1 & m2 & -> & H1 & H2). by constructor.
Qed.

Lemma lang_literal s r m : lang (Literal s r) m ↔ ∃ m', m = s +:+ m' ∧ lang r m'.
Proof.
  revert m. induction s as [|c s IH]; intros m; simpl.
  - split; [intros; by exists m|]. by intros (? & -> & ?).
  - rewrite lang_concat_inv. split.
    + intros (m1 & m2 & -> & H1 & (m' & -> & ?)%IH). inversion H1; subst. exists m'. done.
    + intros (m' & -> & Hm). exists (String c ""), (s +:+ m'). split_and!; [done|constructor|].
      apply IH. by exists m'.
Qed.

Lemma lang_repeat_inv r n m :
  lang (Repeat r (S n)) m ↔ ∃ m1 m2, m = m1 +:+ m2 ∧ lang r m1 ∧ lang (Repeat r n) m2.
Proof.
  split.
  - inversion 1; subst. eauto.
  - intros (m1 & m2 & -> & H1 & H2). by constructor.
Qed.

Lemma lang_repeat_nil r m : lang (Repeat r 0) m ↔ m = "".
Proof. split; [by inversion 1|intros ->; constructor]. Qed.

(** [n] word characters. *)
Definition word (n : nat) (s : string) : Prop :=
  String.length s = n ∧ Forall (λ c, is_word c = true) (String.list_ascii_of_string s).

Lemma lang_word_repeat n s : lang (Repeat WordClass n) s ↔ word n s.
Proof.
  revert s. induction n as [|n IH]; intros s.
  - rewrite lang_repeat_nil. unfold word. split; [by intros ->|]. intros [Hl _]. by destruct s.
  - rewrite lang_repeat_inv. unfold word. split.
    + intros (m1 & m2 & -> & H1 & [Hl Hf]%IH). inversion H1; subst. simpl.
      split; [done|]. by constructor.
    + intros [Hl Hf]. destruct s as [|c s]; [done|]. simpl in Hl, Hf.
      apply Forall_cons in Hf as [Hc Hf]. exists (String c ""), s.
      split_and!; [done|by constructor|]. apply IH. split; [by injection Hl|done].
Qed.

(** The three groups in the middle of a dynamic name. *)
Lemma lang_groups m :
  lang (Repeat (Literal "-" (Repeat WordClass 4)) 3) m ↔
  ∃ g2 g3 g4, m = "-" +:+ g2 +:+ "-" +:+ g3 +:+ "-" +:+ g4 ∧ word 4 g2 ∧ word 4 g3 ∧ word 4 g4.
Proof.
  split.
  - intros (m2 & ? & -> & (g2 & -> & H2%lang_word_repeat)%lang_literal &
            (m3 & ? & -> & (g3 & -> & H3%lang_word_repeat)%lang_literal &
             (m4 & ? & -> & (g4 & -> & H4%lang_word_repeat)%lang_literal & ->%lang_repeat_nil
             )%lang_repeat_inv)%lang_repeat_inv)%lang_repeat_inv.
    exists g2, g3, g4. split; [|done]. by rewrite string_app_nil_r, <- !string_app_assoc.
  - intros (g2 & g3 & g4 & -> & H2 & H3 & H4).
    assert (∀ g, word 4 g → lang (Literal "-" (Repeat WordClass 4)) ("-" +:+ g)) as Hg.
    { intros g Hg. apply lang_literal. exists g. split; [done|]. by apply lang_word_repeat. }
    replace ("-" +:+ g2 +:+ "-" +:+ g3 +:+ "-" +:+ g4)
      with (("-" +:+ g2) +:+ ("-" +:+ g3) +:+ ("-" +:+ g4) +:+ "")
      by (by rewrite string_app_nil_r, <- !string_app_assoc).
    do 3 (apply lang_repeat_S; [by apply Hg|]). constructor.
Qed.

(** ** The controller service *)

(** [CheckDynamicPV] recognises the names the provisioner gives: those that contain
    "pvc-" followed by five groups of 8, 4, 4, 4 and 12 word characters joined by hyphens.
    The pattern is not anchored, so text before and after such a name is accepted. *)
Lemma CheckDynamicPV_spec name :
  CheckDynamicPV name = Ok true ↔
  ∃ before g1 g2 g3 g4 g5 after,
    name = before +:+ ("pvc-" +:+ g1 +:+ "-" +:+ g2 +:+ "-" +:+ g3 +:+ "-" +:+ g4 +:+ "-" +:+ g5) +:+ after ∧
    word 8 g1 ∧ word 4 g2 ∧ word 4 g3 ∧ word 4 g4 ∧ word 12 g5.
Proof.
  unfold CheckDynamicPV. trans (Match dynamic_pv_pattern name = true);
    [split; [by injection 1|by intros ->]|].
  rewrite Match_spec. unfold dynamic_pv_pattern.
  split.
  - intros (before & m & after & -> & Hm).
    apply lang_literal in Hm as (m1 & -> & Hm).
    apply lang_concat_inv in Hm as (g1 & m2 & -> & H1%lang_word_repeat & Hm).
    apply lang_concat_inv in Hm as (m3 & m4 & -> & Hm3 & Hm4).
    apply lang_groups in Hm3 as (g2 & g3 & g4 & -> & H2 & H3 & H4).
    apply lang_literal in Hm4 as (g5 & -> & H5%lang_word_repeat).
    exists before, g1, g2, g3, g4, g5, after. split; [|done].
    by rewrite <- !string_app_assoc.
  - intros (before & g1 & g2 & g3 & g4 & g5 & after & -> & H1 & H2 & H3 & H4 & H5).
    eexists before, _, after. split; [reflexivity|].
    apply lang_literal. eexists. split; [reflexivity|].
    apply lang_concat_inv. eexists _, _. split_and!; [reflexivity|by apply lang_word_repeat|].
    apply lang_concat_inv. eexists _, _. split_and!; [|apply lang_groups; by exists g2, g3, g4|].
    2: { apply lang_literal. eexists. split; [reflexivity|]. by apply lang_word_repeat. }
    by rewrite <- !string_app_assoc.
Qed.

(** *** Capabilities *)

(** A capability the driver can serve: a file-system mount with one of three modes. *)
Definition supported (c : option VolumeCapability) : Prop :=
  match c with
  | Some {| vc_accessType := Some (Mount _); vc_accessMode := Some mode |} =>
      mode = SINGLE_NODE_WRITER ∨ mode = MULTI_NODE_MULTI_WRITER ∨ mode = MULTI_NODE_READER_ONLY
  | _ => False
  end.
#[export] Instance supported_dec c : Decision (supported c).
Proof. destruct c as [[[[]|] []]|]; apply _. Defined.

Lemma isSupport_spec c : isSupportVolumeCapabilities c = true ↔ supported c.
Proof. by destruct c as [[[[|fs]|] [[]|]]|]; simpl; split; intros; destruct_or?; auto. Qed.

(** The loop of [isValidVolumeCapabilities] agrees with a conjunction over the list. *)
Lemma isValid_spec caps : isValidVolumeCapabilities caps = true ↔ Forall supported caps.
Proof.
  unfold isValidVolumeCapabilities.
  assert (∀ b, fold_left (λ b c, if negb (isSupportVolumeCapabilities c) then false else b) caps b
               = true ↔ b = true ∧ Forall supported caps) as ->; [|naive_solver].
  induction caps as [|c caps IH]; intros b; simpl; [naive_solver|].
  rewrite IH, Forall_cons, <- isSupport_spec.
  destruct (isSupportVolumeCapabilities c), b; naive_solver.
Qed.

(** *** CreateVolume *)

Definition valid_request (request : CreateVolumeRequest) : Prop :=
  cv_name request ≠ "" ∧ is_Some (cv_capacityRange request) ∧
  match cv_volumeCapabilities request with Some caps => Forall supported caps | None => False end.
#[export] Instance valid_request_dec request : Decision (valid_request request).
Proof. unfold valid_request. destruct (cv_volumeCapabilities request); apply _. Defined.

Lemma validate_Ok request : validateCreateVolumeRequest request = Ok () ↔ valid_request request.
Proof.
  unfold validateCreateVolumeRequest, valid_request.
  destruct (cv_capacityRange request), (cv_volumeCapabilities request) as [caps|];
    repeat case_bool_decide; rewrite <- ?isValid_spec; try destruct (isValidVolumeCapabilities caps);
    simpl; naive_solver.
Qed.

Lemma validate_Fail request :
  ¬ valid_request request → ∃ e, validateCreateVolumeRequest request = Fail e.
Proof.
  rewrite <- validate_Ok. unfold validateCreateVolumeRequest.
  intros. split_goal; eauto.
Qed.

Section create_volume.
Context {W : Type} `{HC : Client W} `{!ApiServer W} `{!OperatorGo}.

(** The class of a volume: that of the Listener the claim names, or else the class the
    claim names. *)
Definition class_of (w : W) (ctx : gomap string) (ns : string) : option ListenerClass :=
  match map_get ctx AnnotationListenerName, map_get ctx ListenerClassAnnotation with
  | Some name, _ =>
      l ← stored KListener w (Key ns name);
      stored KListenerClass w (Key "" (ls_className (listener_spec l)))
  | None, Some className => stored KListenerClass w (Key "" className)
  | None, None => None
  end.

(** The volume context of a claim: all its annotations, if one of the two is there. *)
Definition context_of (w : W) (params : gomap string) : option (string * gomap string) :=
  name ← map_get params CSI_STORAGE_PVC_NAME;
  ns ← map_get params CSI_STORAGE_PVC_NAMESPACE;
  pvc ← stored KPersistentVolumeClaim w (Key ns name);
  let ctx := meta_annotations (pvc_meta pvc) in
  if decide (is_Some (map_get ctx ListenerClassAnnotation) ∨
             is_Some (map_get ctx AnnotationListenerName)) then Some (ns, ctx) else None.

(** The specification: the volume to provision, or the code of the error. *)
Definition provision (w : W) (request : CreateVolumeRequest) : Code + Volume :=
  if decide (valid_request request) then
    match context_of w (cv_parameters request) with
    | None => inl InvalidArgument
    | Some (ns, ctx) =>
        match class_of w ctx ns with
        | None => inl Internal
        | Some lc => inr {|
            vol_id := cv_name request;
            vol_capacityBytes := from_option required_bytes 0%Z (cv_capacityRange request);
            vol_context := ctx;
            vol_accessibleTopology :=
              if decide (lcs_serviceType (lc_spec lc) = Some ServiceTypeNodePort)
              then take 1 (from_option preferred [] (cv_accessibilityRequirements request))
              else [] |}
        end
    end
  else inl InvalidArgument.

Lemma getAccessibleTopology_take request lc :
  getAccessibleTopology request lc =
  if decide (lcs_serviceType (lc_spec lc) = Some ServiceTypeNodePort)
  then take 1 (from_option preferred [] (cv_accessibilityRequirements request)) else [].
Proof.
  unfold getAccessibleTopology. case_bool_decide; case_decide; try done.
  destruct (cv_accessibilityRequirements request) as [[? []]|]; done.
Qed.

Lemma getListenerClass_Ok ctx ns w w' lc :
  getListenerClass ctx ns w = (w', Ok lc) → w' = w ∧ class_of w ctx ns = Some lc.
Proof.
  unfold getListenerClass, class_of. intros Hrun. case_match; [|case_match].
  - apply bind_Ok_inv in Hrun as (l & w1 & Hl%on_error_Ok & Hlc%on_error_Ok).
    apply (get_Ok KListener) in Hl as [-> Hl]. rewrite scoped_namespaced in Hl by done.
    apply (get_Ok KListenerClass) in Hlc as [-> Hlc]. split; [done|]. by rewrite Hl.
  - apply on_error_Ok, (get_Ok KListenerClass) in Hrun as [-> Hlc]. done.
  - by apply fail_Ok_inv in Hrun.
Qed.

Lemma getVolumeContext_Ok params w w' ctx :
  getVolumeContext params w = (w', Ok ctx) →
  w' = w ∧ ∃ pvc, stored KPersistentVolumeClaim w (Key (pvcNamespace params) (PVCName params)) = Some pvc ∧
    ctx = meta_annotations (pvc_meta pvc) ∧
    (is_Some (map_get ctx ListenerClassAnnotation) ∨ is_Some (map_get ctx AnnotationListenerName)).
Proof.
  unfold getVolumeContext.
  intros (pvc & w1 & Hp%on_error_Ok & Hrun)%bind_Ok_inv.
  apply (get_Ok KPersistentVolumeClaim) in Hp as [-> Hp]. rewrite scoped_namespaced in Hp by done.
  repeat case_bool_decide; simpl in Hrun; try (by apply fail_Ok_inv in Hrun);
    apply ret_Ok_inv in Hrun as [-> ->]; eauto 6.
Qed.

Lemma getListenerClass_total `{!ReliableReads W} ctx ns w :
  match class_of w ctx ns with
  | Some lc => getListenerClass ctx ns w = (w, Ok lc)
  | None => ∃ e, getListenerClass ctx ns w = (w, Fail e)
  end.
Proof.
  unfold getListenerClass, class_of.
  destruct (map_get ctx AnnotationListenerName) as [name|];
    [|destruct (map_get ctx ListenerClassAnnotation) as [cn|]; [|by eexists]].
  - pose proof (get_cases KListener (Key ns name) w) as Hl. rewrite scoped_namespaced in Hl by done.
    destruct (stored KListener w (Key ns name)) as [l|]; simpl.
    2: { destruct Hl as [e Hl]. eexists. by apply bind_fail, on_error_fail. }
    pose proof (get_cases KListenerClass (Key ns (ls_className (listener_spec l))) w) as Hc.
    unfold scoped in Hc; simpl in Hc. rewrite (bind_step _ _ w w l) by (by apply on_error_step).
    destruct (stored KListenerClass w _) as [lc|]; [by apply on_error_step|].
    destruct Hc as [e Hc]. eexists. by apply on_error_fail.
  - pose proof (get_cases KListenerClass (Key ns cn) w) as Hc. unfold scoped in Hc; simpl in Hc.
    destruct (stored KListenerClass w _) as [lc|]; [by apply on_error_step|].
    destruct Hc as [e Hc]. eexists. by apply on_error_fail.
Qed.

Lemma getVolumeContext_total `{!ReliableReads W} params w :
  match stored KPersistentVolumeClaim w (Key (pvcNamespace params) (PVCName params)) with
  | Some pvc =>
      let ctx := meta_annotations (pvc_meta pvc) in
      if decide (is_Some (map_get ctx ListenerClassAnnotation) ∨
                 is_Some (map_get ctx AnnotationListenerName))
      then getVolumeContext params w = (w, Ok ctx)
      else ∃ e, getVolumeContext params w = (w, Fail e)
  | None => ∃ e, getVolumeContext params w = (w, Fail e)
  end.
Proof.
  unfold getVolumeContext.
  pose proof (get_cases KPersistentVolumeClaim (Key (pvcNamespace params) (PVCName params)) w) as Hp.
  rewrite scoped_namespaced in Hp by done.
  destruct (stored KPersistentVolumeClaim w _) as [pvc|].
  - rewrite (bind_step _ _ w w pvc) by (by apply on_error_step). simpl.
    case_decide; repeat case_bool_decide; simpl; try done; try (by eexists); naive_solver.
  - destruct Hp as [e Hp]. eexists. by apply bind_fail, on_error_fail.
Qed.

(** The context of a returned volume names a Listener or a class. *)
Lemma CreateVolume_annotated request w w' v :
  CreateVolume request w = (w', Ok v) →
  is_Some (map_get (vol_context v) ListenerClassAnnotation) ∨
  is_Some (map_get (vol_context v) AnnotationListenerName).
Proof.
  unfold CreateVolume. intros Hrun.
  apply bind_Ok_inv in Hrun as ([] & w1 & _ & Hrun). apply bind_Ok_inv in Hrun as (cap & w2 & _ & Hrun).
  apply bind_Ok_inv in Hrun as (params & w3 & _ & Hrun).
  apply bind_Ok_inv in Hrun as (ctx & w4 & Hctx%on_error_Ok & Hrun).
  apply bind_Ok_inv in Hrun as (lc & w5 & _ & [_ ->]%ret_Ok_inv).
  by apply getVolumeContext_Ok in Hctx as (_ & pvc & _ & _ & Hone).
Qed.

(** C17: [CreateVolume] refines [provision]: with an API server that answers, it returns the
    volume the specification gives (the name and the requested size, every annotation of
    the claim as volume context, the first preferred topology for a NodePort class) or the
    error code the specification gives, it never panics and it changes nothing. *)
Theorem CreateVolume_refines `{!ReliableReads W} request w :
  match provision w request with
  | inr v => CreateVolume request w = (w, Ok v)
  | inl c => ∃ m, CreateVolume request w = (w, Fail (StatusError c m))
  end.
Proof.
  unfold provision, CreateVolume. case_decide as Hv.
  2: { apply validate_Fail in Hv as [e He]. rewrite He. by eexists. }
  pose proof (proj2 (validate_Ok request) Hv) as ->. unfold context_of.
  unfold newCreateVolumeRequestParamsFromMap.
  destruct (map_get (cv_parameters request) CSI_STORAGE_PVC_NAME) as [name|]; [|by eexists].
  destruct (map_get (cv_parameters request) CSI_STORAGE_PVC_NAMESPACE) as [ns|]; [|by eexists].
  pose proof (getVolumeContext_total {| PVCName := name; pvcNamespace := ns |} w) as Hc.
  unfold mbind, M_bind, mret, M_ret, lift, on_error. simpl in *.
  destruct (stored KPersistentVolumeClaim w (Key ns name)) as [pvc|]; simpl.
  2: { destruct Hc as [e ->]. by eexists. }
  case_decide as Hd; simpl.
  2: { destruct Hc as [e ->]. by eexists. }
  rewrite Hc. pose proof (getListenerClass_total (meta_annotations (pvc_meta pvc)) ns w) as Hl.
  destruct (class_of w _ ns) as [lc|].
  - by rewrite Hl, getAccessibleTopology_take.
  - destruct Hl as [e ->]. by eexists.
Qed.

(** A call that only reads: it leaves the cluster as it is, does not panic, and fails with errors
    of [E] only. *)
Definition reads {A} (E : error → Prop) (c : M W A) : Prop := ∀ w w' r,
  c w = (w', r) → w' = w ∧ match r with Ok _ => True | Fail e => E e | Panic => False end.

Lemma reads_bind {A B} E (c : M W A) (f : A → M W B) : reads E c → (∀ a, reads E (f a)) → reads E (c ≫= f).
Proof.
  intros Hc Hf w w' r. unfold mbind, M_bind. destruct (c w) as [w1 r1] eqn:H1. apply Hc in H1 as [-> H1].
  destruct r1 as [a|e|]; [apply Hf|by intros [= <- <-]|done].
Qed.
Lemma reads_on_error {A} E E' g (c : M W A) : reads E' c → (∀ e, E (g e)) → reads E (on_error g c).
Proof.
  intros Hc Hg w w' r. unfold on_error. destruct (c w) as [w1 r1] eqn:H1. apply Hc in H1 as [-> H1].
  by destruct r1; intros [= <- <-].
Qed.
Lemma reads_lift {A} E (r : res A) : match r with Ok _ => True | Fail e => E e | Panic => False end → reads E (lift r).
Proof. intros Hr w w' r' [= <- <-]. done. Qed.
Lemma reads_get k key : reads (λ _, True) (client_get k key).
Proof. intros w w' r Hg. apply get_spec in Hg as [-> Hg]. by destruct r. Qed.

Lemma getListenerClass_reads ctx ns : reads (λ _, True) (getListenerClass ctx ns).
Proof.
  unfold getListenerClass. repeat case_match; [|by eapply reads_on_error; [apply (reads_get KListenerClass)|]|by apply (reads_lift _ (Fail _))].
  apply reads_bind; [|intros l]; by eapply reads_on_error; [first [apply (reads_get KListener)|apply (reads_get KListenerClass)]|].
Qed.
Lemma getVolumeContext_reads params : reads (λ _, True) (getVolumeContext params).
Proof.
  unfold getVolumeContext. apply reads_bind; [by eapply reads_on_error; [apply (reads_get KPersistentVolumeClaim)|]|]. intros pvc.
  cbv zeta. case_match; [by apply (reads_lift _ (Fail _))|by apply (reads_lift _ (Ok _))].
Qed.

(** The errors [CreateVolume] reports. *)
Definition create_error (e : error) : Prop := ∃ c m, e = StatusError c m ∧ c ∈ [InvalidArgument; Internal].

Lemma CreateVolume_reads request : reads create_error (CreateVolume request).
Proof.
  assert (∀ m, create_error (StatusError InvalidArgument m)) as Harg by (intros m; exists InvalidArgument, m; set_solver).
  assert (∀ m, create_error (StatusError Internal m)) as Hint by (intros m; exists Internal, m; set_solver).
  unfold CreateVolume. apply reads_bind; [|intros []].
  { apply reads_lift. destruct (decide (valid_request request)) as [Hv|Hv].
    - by rewrite (proj2 (validate_Ok request) Hv).
    - apply validate_Fail in Hv as [e ->]. apply Harg. }
  apply reads_bind; [by apply (reads_lift _ (Ok _))|]. intros cap. apply reads_bind; [|intros params].
  { apply reads_lift. unfold newCreateVolumeRequestParamsFromMap. by repeat case_match; simplify_eq/=. }
  apply reads_bind; [by eapply reads_on_error; [apply getVolumeContext_reads|]|]. intros ctx.
  apply reads_bind; [by eapply reads_on_error; [apply getListenerClass_reads|]|]. intros lc. by apply (reads_lift _ (Ok _)).
Qed.

Lemma CreateVolume_provisions request w w' v :
  CreateVolume request w = (w', Ok v) → provision w request = inr v.
Proof.
  unfold CreateVolume. intros Hrun.
  apply bind_Ok_inv in Hrun as ([] & w1 & [-> Hv]%lift_Ok_inv & Hrun).
  apply bind_Ok_inv in Hrun as (cap & w1 & [-> ->]%ret_Ok_inv & Hrun).
  apply bind_Ok_inv in Hrun as (params & w1 & [-> Hp]%lift_Ok_inv & Hrun).
  apply bind_Ok_inv in Hrun as (ctx & w1 & Hctx%on_error_Ok & Hrun).
  apply getVolumeContext_Ok in Hctx as (-> & pvc & Hpvc & -> & Hone).
  apply bind_Ok_inv in Hrun as (lc & w1 & Hlc%on_error_Ok & [-> ->]%ret_Ok_inv).
  apply getListenerClass_Ok in Hlc as [-> Hlc]. unfold provision. rewrite decide_True
    by (apply validate_Ok; destruct (validateCreateVolumeRequest request) as [[]| |];
        simpl in Hv; congruence).
  unfold newCreateVolumeRequestParamsFromMap in Hp. unfold context_of.
  destruct (map_get (cv_parameters request) CSI_STORAGE_PVC_NAME) as [name|],
    (map_get (cv_parameters request) CSI_STORAGE_PVC_NAMESPACE) as [ns|]; simplify_eq/=.
  rewrite Hpvc. simpl. rewrite decide_True by done. rewrite Hlc.
  by rewrite getAccessibleTopology_take.
Qed.

(** C30: Whatever calls of the API server fail, [CreateVolume] leaves the cluster as it is, on success
    and on failure; a volume it returns is the one [provision] gives for the stored objects; it
    does not panic, and fails with InvalidArgument or Internal only. *)
Theorem CreateVolume_sound request w w' r :
  CreateVolume request w = (w', r) →
  w' = w ∧
  match r with
  | Ok v => provision w request = inr v
  | Fail e => ∃ c m, e = StatusError c m ∧ c ∈ [InvalidArgument; Internal]
  | Panic => False
  end.
Proof.
  intros Hrun. pose proof (CreateVolume_reads _ _ _ _ Hrun) as [-> Hr]. split; [done|].
  destruct r; [by eapply CreateVolume_provisions|done..].
Qed.

End create_volume.

(** ** Witnesses *)

Definition test_claim : PersistentVolumeClaim :=
  {| pvc_meta := {| meta_name := "data-0"; meta_namespace := "default"; meta_uid := "pvc-uid";
                    meta_labels := Some {[ "app" := "demo" ]};
                    meta_annotations := Some {[ ListenerClassAnnotation := "external" ]};
                    meta_owners := [] |} |}.
Definition claim_cluster : cluster := add KPersistentVolumeClaim test_claim fresh_cluster.

Definition node_topology (name : string) : Topology :=
  {| segments := {[ "kubernetes.io/hostname" := name ]} |}.

Definition test_create_request : CreateVolumeRequest :=
  {| cv_name := "pvc-0a1b2c3d-0123-4567-89ab-0123456789ab";
     cv_capacityRange := Some {| required_bytes := 1024; limit_bytes := 0 |};
     cv_volumeCapabilities := Some [Some {| vc_accessType := Some (Mount "");
                                            vc_accessMode := Some SINGLE_NODE_WRITER |}];
     cv_parameters := Some {[ CSI_STORAGE_PVC_NAME := "data-0";
                              CSI_STORAGE_PVC_NAMESPACE := "default" ]};
     cv_accessibilityRequirements := Some {| requisite := [];
       preferred := [node_topology "node-1"; node_topology "node-2"] |} |}.

Definition test_volume : Volume :=
  {| vol_id := "pvc-0a1b2c3d-0123-4567-89ab-0123456789ab";
     vol_capacityBytes := 1024;
     vol_context := meta_annotations (pvc_meta test_claim);
     vol_accessibleTopology := [node_topology "node-1"] |}.

Example dynamic_name : CheckDynamicPV (cv_name test_create_request) = Ok true.
Proof. vm_compute. reflexivity. Qed.
Example static_name : CheckDynamicPV "pvc-manual" = Ok false.
Proof. vm_compute. reflexivity. Qed.
Example provisioned : provision claim_cluster test_create_request = inr test_volume.
Proof. vm_compute. reflexivity. Qed.

(** A request without parameters, which is refused. *)
Definition bare_create_request : CreateVolumeRequest :=
  {| cv_name := cv_name test_create_request; cv_capacityRange := None;
     cv_volumeCapabilities := cv_volumeCapabilities test_create_request; cv_parameters := None;
     cv_accessibilityRequirements := None |}.

Lemma CreateVolume_sound_witness :
  provision claim_cluster test_create_request = inr test_volume ∧
  ((CreateVolume bare_create_request claim_cluster).1 = claim_cluster ∧
   (CreateVolume bare_create_request claim_cluster).2 ≠ Panic).
Proof.
  split.
  - apply (CreateVolume_sound test_create_request claim_cluster
             (CreateVolume test_create_request claim_cluster).1 (Ok test_volume)).
    apply run_outcome. vm_compute. reflexivity.
  - destruct (CreateVolume_sound bare_create_request claim_cluster _ _ (surjective_pairing _)) as [Hw Hr].
    split; [exact Hw|]. intros Hp. rewrite Hp in Hr. exact Hr.
Defined.

Lemma CreateVolume_refines_witness :
  CreateVolume test_create_request claim_cluster = (claim_cluster, Ok test_volume).
Proof.
  pose proof (CreateVolume_refines test_create_request claim_cluster) as H.
  rewrite provisioned in H. exact H.
Defined.
