(* ===== verification/CsiNode.v ===== *)
(** * The CSI node service

    Models internal/csi/node.go.  A call works on the cluster, through the API client, and
    on the file system of the node, through package os and the mounter: the state is a pair.
    [NodePublishVolume] is modelled whole: it labels the persistent volume and the pod,
    records the addresses in PodListeners, mounts a tmpfs and writes the addresses there. *)
From S2P Require Import Prelude GoRuntime GoStrings Api GoOs CsiTypes Util CsiController.
Import Util.Address Util.Constant.

Module NodeServer.

(** ** Volume context *)

Record volumeContext := {
  vc_Pod : option string;
  vc_PodNamespace : option string;
  vc_PodUID : option string;
  vc_ServiceAccountName : option string;
  vc_Ephemeral : option string;
  vc_Provisioner : option string;
  vc_ListenerClassName : option string;
  vc_ListenerName : option string;
}.

Definition newVolumeContextFromMap `{OperatorGo} (parameters : gomap string) : volumeContext :=
  {| vc_Pod := map_get parameters CSI_STORAGE_POD_NAME;
     vc_PodNamespace := map_get parameters CSI_STORAGE_POD_NAMESPACE;
     vc_PodUID := map_get parameters CSI_STORAGE_POD_UID;
     vc_ServiceAccountName := map_get parameters CSI_STORAGE_SERVICE_ACCOUNT_NAME;
     vc_Ephemeral := map_get parameters CSI_STORAGE_EPHEMERAL;
     vc_Provisioner := map_get parameters STORAGE_KUBERNETES_CSI_PROVISIONER_IDENTITY;
     vc_ListenerClassName := map_get parameters ListenerClassAnnotation;
     vc_ListenerName := map_get parameters AnnotationListenerName |}.

Record NodeServer := { nodeID : string }.

(** ** Functions of the objects *)

Definition no_ports : error :=
  StatusError Internal (Lit "pod has no vaild ports, please ensure all port has name").

Definition container_port (port : ContainerPort) : option PortSpec :=
  if bool_decide (cp_name port ≠ "")
  then Some {| port_name := cp_name port; port_protocol := cp_protocol port;
               port_port := cp_containerPort port |}
  else None.

Definition getPodPorts (pod : Pod) : res (list PortSpec) :=
  let ports := pod_containers pod ≫= λ container, filter_map container_port (container_ports container) in
  if bool_decide (length ports = 0) then Fail no_ports else Ok ports.

Definition is_volume_of (pod : Pod) (pvcName : string) (podVolume : PodVolume) : bool :=
  bool_decide (pv_claim_name podVolume = Some pvcName) ||
  pv_ephemeral podVolume &&
  bool_decide (pvcName = meta_name (pod_meta pod) +:+ "-" +:+ pv_volume_name podVolume).

Definition findPodVolumeNameForPVC (pod : Pod) (pvcName : string) : res string :=
  match List.find (is_volume_of pod pvcName) (pod_volumes pod) with
  | Some podVolume => Ok (pv_volume_name podVolume)
  | None => Fail (New (Cat (Lit "no volume found for PVC '") (Cat (Lit pvcName)
      (Cat (Lit "' in pod '") (Cat (Lit (meta_namespace (pod_meta pod)))
      (Cat (Lit "/") (Cat (Lit (meta_name (pod_meta pod))) (Lit "'"))))))))
  end.

Definition determinePodListenerScope (listener : Listener) : string :=
  if bool_decide (0 < map_len (lst_nodePorts (listener_status listener)))
  then PodlistenerNodeScope else PodlistenerClusterScope.

Definition ingress_spec (a : IngressAddress) : IngressAddressSpec :=
  {| ias_address := Address (ia_info a); ias_addressType := AddressType (ia_info a);
     ias_ports := ia_ports a |}.
Definition ingress_address (a : IngressAddressSpec) : IngressAddress :=
  {| ia_info := {| Address := ias_address a; AddressType := ias_addressType a |};
     ia_ports := ias_ports a |}.

(** The zero value a Go map gives for a missing key. *)
Definition zero_pod_listener : PodListener := {| pl_scope := ""; pl_listenerIngresses := [] |}.

(** ** Requests *)

Definition validateNodePublishVolumeRequest (request : NodePublishVolumeRequest) : res () :=
  if bool_decide (np_volumeId request = "")
  then Fail (StatusError InvalidArgument (Lit "volume ID missing in request"))
  else if bool_decide (np_targetPath request = "")
  then Fail (StatusError InvalidArgument (Lit "Target path missing in request"))
  else match np_volumeCapability request with
  | None => Fail (StatusError InvalidArgument (Lit "Volume capability missing in request"))
  | Some _ =>
      if bool_decide (np_volumeContext request = None) ||
         bool_decide (map_len (np_volumeContext request) = 0)
      then Fail (StatusError InvalidArgument (Lit "Volume context missing in request"))
      else Ok ()
  end.

Section server.
Context {W : Type} `{HC : Client W} `{!ControllerUtil W} `{!OperatorGo} `{!MapRange} `{!Mounter}.

(** A call of the API client, and a call of package os or of the mounter. *)
Definition api {A} (c : M W A) : M (W * FS) A := λ s,
  let '(w, r) := c s.1 in ((w, s.2), r).
Definition os {A} (c : M FS A) : M (W * FS) A := λ s,
  let '(fs, r) := c s.2 in ((s.1, fs), r).

(** [status.Error(codes.Internal, err.Error())]. *)
Definition internal (e : error) : error := StatusError Internal (ErrorOf e).

(** ** Reading and writing the cluster *)

Definition getPod (podName podNamespace : string) : M W Pod :=
  client_get KPod (Key podNamespace podName).
Definition getPVC (pvcName pvcNamespace : string) : M W PersistentVolumeClaim :=
  client_get KPersistentVolumeClaim (Key pvcNamespace pvcName).
Definition getPV (pvName : string) : M W PersistentVolume :=
  client_get KPersistentVolume (Key "" pvName).

(** The patches return the object as the server answered it: [client.Patch] writes the
    answer back into the object. *)
Definition patchPVLabelsWithListener (pv : PersistentVolume) (listener : Listener)
  : M W PersistentVolume :=
  let pvLabels := ensure_map (meta_labels (pv_meta pv)) in
  newLabels ← lift (maps_Copy pvLabels (ListenerMetaLabels listener));
  client_patch KPersistentVolume pv (with_pv_labels newLabels pv).

Definition patchPodLabelsWithListener (pod : Pod) (listener : Listener) : M W Pod :=
  let podLabels := ensure_map (meta_labels (pod_meta pod)) in
  newLabels ← lift (maps_Copy podLabels (ListenerMountPodLabels listener));
  client_patch KPod pod (with_pod_labels newLabels pod).

Definition getNodeAddressByPod (pod : Pod) : M W AddressInfo :=
  node ← client_get KNode (Key "" (pod_nodeName pod));
  lift (GetPriorNodeAddress node).

(** The listener is read again: the fresh one is returned with the addresses. *)
Definition getAddresses (listener0 : Listener) (pod : Pod) : M W (Listener * list IngressAddress) :=
  listener ← client_get KListener (key_of (k:=KListener) listener0);
  let status := listener_status listener in
  if bool_decide (map_len (lst_nodePorts status) ≠ 0) then
    address ← getNodeAddressByPod pod;
    mret (listener, [ {| ia_info := address; ia_ports := lst_nodePorts status |} ])
  else if bool_decide (length (lst_ingressAddresses status) ≠ 0) then
    mret (listener, ingress_address <$> lst_ingressAddresses status)
  else fail (New (Lit
    "could not get listener address from listener status, listener status is not ready")).

Definition createListener (ctx : volumeContext) (pv : PersistentVolume) (pod : Pod) : M W Listener :=
  className ← lift (deref (vc_ListenerClassName ctx));
  namespace ← lift (deref (vc_PodNamespace ctx));
  listenerClass ← on_error
      (λ e, New (Cat (Lit "get listener class from volume context error: ") (ErrorOf e)))
      (client_get KListenerClass (Key namespace className));
  claimRef ← lift (deref (pv_claimRef pv));
  pvc ← on_error (λ e, New (Cat (Lit "get pvc error: ") (ErrorOf e)))
      (getPVC (claim_name claimRef) (claim_namespace claimRef));
  ports ← lift (on_error_res (λ e, New (Cat (Lit "get pod ports error: ") (ErrorOf e)))
      (getPodPorts pod));
  let meta := {| meta_name := meta_name (pvc_meta pvc); meta_namespace := namespace;
                 meta_uid := ""; meta_labels := meta_labels (pvc_meta pvc);
                 meta_annotations := None; meta_owners := [] |} in
  meta' ← lift (on_error_res (λ e, New (Cat (Lit "set controller reference error: ") (ErrorOf e)))
      (SetControllerReference KPersistentVolume (pv_meta pv) meta));
  let listener :=
    {| listener_meta := meta';
       listener_spec := {| ls_className := meta_name (lc_meta listenerClass); ls_ports := ports;
                           ls_publishNotReady := Some true; ls_extraPodSelectorLabels := None |};
       listener_status := no_status |} in
  created ← attempt (client_create KListener listener);
  match created with
  | inl listener' => mret listener'
  | inr err =>
      if IsAlreadyExists err then
        on_error (λ e, New (Cat (Lit "get existing listener error: ") (ErrorOf e)))
          (client_get KListener (key_of (k:=KListener) listener))
      else fail (New (Cat (Lit "create listener error: ") (ErrorOf err)))
  end.

Definition getListener (pod : Pod) (pv : PersistentVolume) (ctx : volumeContext) : M W Listener :=
  match vc_ListenerName ctx with
  | Some name =>
      namespace ← lift (deref (vc_PodNamespace ctx));
      client_get KListener (Key namespace name)
  | None => createListener ctx pv pod
  end.

(** ** PodListeners *)

Definition buildPodListenersObject (pod : Pod) (listener : Listener) (volumeName scope : string)
    (ingressAddresses : list IngressAddress) : res PodListeners :=
  let meta := new_meta ("pod-" +:+ meta_uid (pod_meta pod)) (meta_namespace (pod_meta pod)) in
  let listeners := Some {[ volumeName := {| pl_scope := scope;
                             pl_listenerIngresses := ingress_spec <$> ingressAddresses |} ]} in
  match SetControllerReference KListener (listener_meta listener) meta with
  | Ok meta' => Ok {| pls_meta := meta'; pls_listeners := listeners |}
  | Fail _ => Ok {| pls_meta := meta; pls_listeners := listeners |}    (* logged *)
  | Panic => Panic
  end.

Definition createOrUpdatePodListeners (podListenerObj : PodListeners) (volumeName : string) : M W () :=
  found ← attempt (client_get KPodListeners (key_of (k:=KPodListeners) podListenerObj));
  match found with
  | inr err =>
      if IsNotFound err then
        on_error (λ e, New (Cat (Lit "failed to create PodListeners: ") (ErrorOf e)))
          (client_create KPodListeners podListenerObj);; mret ()
      else fail (New (Cat (Lit "failed to get existing PodListeners: ") (ErrorOf err)))
  | inl original =>
      let listeners0 := ensure_map (pls_listeners original) in
      listeners ← lift (map_set listeners0 volumeName
                   (default zero_pod_listener (map_get (pls_listeners podListenerObj) volumeName)));
      on_error (λ e, New (Cat (Lit "failed to update PodListeners: ") (ErrorOf e)))
        (client_patch KPodListeners original (with_listeners listeners original));; mret ()
  end.

Definition publishPodListener (pod : Pod) (pv : PersistentVolume) (listener : Listener)
    (listenerIngressAddresses : list IngressAddress) : M W () :=
  claimRef ← lift (deref (pv_claimRef pv));
  volumeName ← lift (findPodVolumeNameForPVC pod (claim_name claimRef));
  let scope := determinePodListenerScope listener in
  podListenerObj ← lift (buildPodListenersObject pod listener volumeName scope
                           listenerIngressAddresses);
  createOrUpdatePodListeners podListenerObj volumeName.

(** ** The mounted directory *)

Definition mount (targetPath : string) : M FS () :=
  exist ← on_error internal (PathExists targetPath);
  if (exist : bool) then
    fail (StatusError Internal (Cat (Lit "target path ") (Cat (Lit targetPath) (Lit " already exists"))))
  else
    on_error internal (MkdirAll targetPath);;
    on_error internal (mounter_Mount "tmpfs" targetPath "tmpfs" ["noexec"; "nosuid"; "nodev"]).

Definition writeAddress (targetPath : string) (data : IngressAddress) : M FS () :=
  WriteFile (Join [targetPath; "address"]) (Address (ia_info data));;
  let listenerAddressPortPath := Join [targetPath; "ports"] in
  MkdirAll listenerAddressPortPath;;
  for_each (λ '(name, port), WriteFile (Join [listenerAddressPortPath; name]) (Itoa port))
           (map_range (map_entries (ia_ports data))).

Definition symlinkToDefaultAddress (defaultAddressPath targetPath : string) : M FS () :=
  let sourcePath := TrimPrefix (TrimPrefix defaultAddressPath targetPath) "/" in
  Symlink sourcePath (Join [targetPath; "default-address"]).

(** The loop of [writeData] threads [defaultAddressPath], the last directory written. *)
Fixpoint write_addresses (addressesPath defaultAddressPath : string) (data : list IngressAddress)
  : M FS string :=
  match data with
  | [] => mret defaultAddressPath
  | listenerData :: data =>
      let listenerAddressPath := Join [addressesPath; Address (ia_info listenerData)] in
      MkdirAll listenerAddressPath;;
      writeAddress listenerAddressPath listenerData;;
      write_addresses addressesPath listenerAddressPath data
  end.

(** [None] is the nil slice. *)
Definition writeData (targetPath : string) (data : option (list IngressAddress)) : M FS () :=
  match data with
  | None => fail (New (Lit "no data to write to target path, data is nil"))
  | Some data =>
      let addressesPath := Join [targetPath; "addresses"] in
      MkdirAll addressesPath;;
      defaultAddressPath ← write_addresses addressesPath "" data;
      symlinkToDefaultAddress defaultAddressPath targetPath
  end.

(** ** The calls *)

Definition NodePublishVolume (request : NodePublishVolumeRequest) : M (W * FS) () :=
  lift (validateNodePublishVolumeRequest request);;
  let targetPath := np_targetPath request in
  (if bool_decide (targetPath = "")
   then fail (StatusError InvalidArgument (Lit "Target path missing in request")) else mret ());;
  let ctx := newVolumeContextFromMap (np_volumeContext request) in
  pv0 ← api (getPV (np_volumeId request));
  podName ← lift (deref (vc_Pod ctx));
  podNamespace ← lift (deref (vc_PodNamespace ctx));
  pod0 ← on_error internal (api (getPod podName podNamespace));
  listener0 ← on_error internal (api (getListener pod0 pv0 ctx));
  pv ← on_error internal (api (patchPVLabelsWithListener pv0 listener0));
  pod ← on_error internal (api (patchPodLabelsWithListener pod0 listener0));
  fresh ← on_error internal (api (getAddresses listener0 pod));
  on_error internal (api (publishPodListener pod pv fresh.1 fresh.2));;
  on_error internal (os (mount targetPath));;
  on_error internal (os (writeData targetPath (Some fresh.2))).

Definition NodeUnpublishVolume (volumeId targetPath : string) : M (W * FS) () :=
  if bool_decide (volumeId = "")
  then fail (StatusError InvalidArgument (Lit "Volume ID missing in request"))
  else if bool_decide (targetPath = "")
  then fail (StatusError InvalidArgument (Lit "Target path missing in request"))
  else
    attempt (os (mounter_Unmount targetPath));;      (* an error is only logged *)
    on_error internal (os (RemoveAll targetPath)).

Definition NodeStageVolume (request : NodeStageVolumeRequest) : M (W * FS) () :=
  if bool_decide (ns_volumeId request = "")
  then fail (StatusError InvalidArgument (Lit "Volume ID missing in request"))
  else if bool_decide (ns_stagingTargetPath request = "")
  then fail (StatusError InvalidArgument (Lit "Staging target path missing in request"))
  else if bool_decide (ns_volumeCapability request = None)
  then fail (StatusError InvalidArgument (Lit "Volume capability missing in request"))
  else mret ().

Definition NodeUnstageVolume (volumeId stagingTargetPath : string) : M (W * FS) () :=
  if bool_decide (volumeId = "")
  then fail (StatusError InvalidArgument (Lit "Volume ID missing in request"))
  else if bool_decide (stagingTargetPath = "")
  then fail (StatusError InvalidArgument (Lit "Staging target path missing in request"))
  else mret ().

Definition NodeGetCapabilities : M (W * FS) (list NodeRpc) :=
  mret ((λ capability, capability) <$> [STAGE_UNSTAGE_VOLUME]).

Definition NodeGetInfo (n : NodeServer) : M (W * FS) string := mret (nodeID n).

End server.
Arguments writeData : simpl never.
End NodeServer.
