(* ===== verification/CsiNodeFiles.v ===== *)
(** * The files of a published volume

    What [mount], [writeData] and [NodeUnpublishVolume] of internal/csi/node.go do to the
    file system of the node: the exact tree a published volume shows, that a failed call
    leaves everything outside the target alone, and that unpublishing undoes publishing. *)
From S2P Require Import Prelude GoRuntime GoStrings Api GoOs CsiTypes Util CsiController CsiNode.
Import Util.Address Util.Constant NodeServer.

(** ** Sequences of writes under the target *)

(** Nodes to write, in order, by their place under the target [T]. *)
Notation entry := (location * Inode)%type.

Definition put_all (T : location) (L : list entry) (t : tree) : tree :=
  foldl (λ t e, <[T ++ e.1 := e.2]> t) t L.

(** The call wrote the nodes [L]; or it failed, by a fault, after some of them. *)
Definition scripted {A} (T : location) (L : list entry) (fs fs' : FS) (r : res A) : Prop :=
  keeps fs fs' ∧
  match r with
  | Ok _ => fs_nodes fs' = put_all T L (fs_nodes fs)
  | Fail _ => ¬ quiet fs ∧ ∃ L', L' `prefix_of` L ∧ fs_nodes fs' = put_all T L' (fs_nodes fs)
  | Panic => False
  end.

Lemma put_all_app T L1 L2 t : put_all T (L1 ++ L2) t = put_all T L2 (put_all T L1 t).
Proof. apply foldl_app. Qed.

Lemma put_all_outside T L t p :
  (∀ e, e ∈ L → p ≠ T ++ e.1) → put_all T L t !! p = t !! p.
Proof.
  revert t. induction L as [|e L IH]; intros t Hp; [done|]. simpl.
  rewrite IH by set_solver. rewrite lookup_insert_ne; [done|].
  intros Heq. apply (Hp e); [set_solver|done].
Qed.

(** Entries for the same place agree: the tree holds them all. *)
Lemma put_all_inside T L t q n :
  (∀ q' n1 n2, (q', n1) ∈ L → (q', n2) ∈ L → n1 = n2) →
  (q, n) ∈ L → put_all T L t !! (T ++ q) = Some n.
Proof.
  revert t. induction L as [|e L IH] using rev_ind; intros t Hf Hin; [by apply not_elem_of_nil in Hin|].
  rewrite put_all_app. simpl. destruct (decide (e.1 = q)) as [<-|Hne].
  - rewrite lookup_insert_eq. f_equal. apply (Hf e.1); [|done].
    apply elem_of_app. right. rewrite <- surjective_pairing. set_solver.
  - rewrite lookup_insert_ne by (intros ?%app_inv_head; done). apply IH.
    + intros q' n1 n2 H1 H2. apply (Hf q'); set_solver.
    + apply elem_of_app in Hin as [|Hin]; [done|]. apply list_elem_of_singleton in Hin. by subst.
Qed.

Lemma scripted_nil {A} T fs fs' (a : A) :
  keeps fs fs' → fs_nodes fs' = fs_nodes fs → scripted T [] fs fs' (Ok a).
Proof. done. Qed.

Lemma scripted_bind {A B} T L1 L2 (c : M FS A) (f : A → M FS B) fs fs' r :
  (∀ fs1 r1, c fs = (fs1, r1) → scripted T L1 fs fs1 r1) →
  (∀ a fs1, c fs = (fs1, Ok a) → fs_nodes fs1 = put_all T L1 (fs_nodes fs) →
     ∀ fs2 r2, f a fs1 = (fs2, r2) → scripted T L2 fs1 fs2 r2) →
  (c ≫= f) fs = (fs', r) → scripted T (L1 ++ L2) fs fs' r.
Proof.
  intros Hc Hf [(a & fs1 & Ha & Hrun)|[(e & He & ->)|[He ->]]]%bind_inv.
  - pose proof (Hc _ _ Ha) as [Hk Hn]. specialize (Hf _ _ Ha Hn _ _ Hrun) as [Hk2 Hn2].
    split; [by trans fs1|]. rewrite Hn in Hn2. destruct r as [b|e|]; [| |done].
    + by rewrite put_all_app.
    + destruct Hn2 as (Hq & L' & Hpre & Hn2). split; [destruct Hk as (_ & _ & Hk); tauto|].
      exists (L1 ++ L'). split; [by apply prefix_app|]. by rewrite put_all_app.
  - apply Hc in He as (Hk & Hq & L' & Hpre & Hn). split; [done|]. split; [done|].
    exists L'. split; [by apply prefix_app_r|done].
  - by apply Hc in He as [_ ?].
Qed.

Lemma writes_scripted T q n fs fs' r :
  writes (<[T ++ q := n]> (fs_nodes fs)) fs fs' r → scripted T [(q, n)] fs fs' r.
Proof.
  intros [Hk [[-> Hn]|(e & -> & Hn & Hq)]]; (split; [done|]); [done|].
  split; [done|]. exists []. split; [apply prefix_nil|done].
Qed.

(** ** The shape of the written tree *)

(** The places of the layout in the comment of [writeData], with the kind of each. *)
Inductive shaped : location → Inode → Prop :=
| shaped_addresses : shaped ["addresses"] Dir
| shaped_dir a : shaped ["addresses"; a] Dir
| shaped_address a c : shaped ["addresses"; a; "address"] (File c)
| shaped_ports a : shaped ["addresses"; a; "ports"] Dir
| shaped_port a name c : shaped ["addresses"; a; "ports"; name] (File c).

(** The target is there, and what is under it has that shape. *)
Definition shape_inv (T : location) (t : tree) : Prop :=
  dirs t T ∧ ∀ q n, q ≠ [] → t !! (T ++ q) = Some n → shaped q n.

Lemma shaped_Dir q n : shaped q Dir → shaped q n → n = Dir.
Proof. by inversion 1; subst; inversion 1. Qed.
Lemma shaped_File q c n : shaped q (File c) → shaped q n → ∃ c', n = File c'.
Proof. inversion 1; subst; inversion 1; eauto. Qed.
Lemma shaped_nonempty q n : shaped q n → q ≠ [].
Proof. by inversion 1. Qed.

Lemma not_below_itself {A} (T q : list A) p : q ≠ [] → p `prefix_of` T → p ≠ T ++ q.
Proof.
  intros Hq [k ->] Heq. rewrite <- app_assoc in Heq.
  rewrite <- (app_nil_r p) in Heq at 1. apply app_inv_head in Heq.
  symmetry in Heq. by apply app_eq_nil in Heq as [_ ->].
Qed.

Lemma shape_inv_put T t q n : shape_inv T t → shaped q n → shape_inv T (<[T ++ q := n]> t).
Proof.
  intros [Hd Hs] Hq. pose proof (shaped_nonempty _ _ Hq). split.
  - apply dirs_insert; [done|]. intros Hpre. by apply (not_below_itself T q _ ltac:(done) Hpre).
  - intros q' n' Hne. destruct (decide (q = q')) as [<-|Hq'].
    + rewrite lookup_insert_eq. by intros [= <-].
    + rewrite lookup_insert_ne by (intros ?%app_inv_head; done). by apply Hs.
Qed.

Lemma shape_dirs_put T t q n d :
  shape_inv T t → shaped q n → dirs t d → dirs (<[T ++ q := n]> t) d.
Proof.
  intros [_ Hs] Hq Hd p Hp Hne. destruct (decide (p = T ++ q)) as [->|].
  - rewrite lookup_insert_eq. specialize (Hd _ Hp Hne).
    apply Hs in Hd; [|by eapply shaped_nonempty]. f_equal. by eapply shaped_Dir.
  - rewrite lookup_insert_ne by done. by apply Hd.
Qed.

Lemma shape_inv_all T L t d :
  shape_inv T t → Forall (λ e, shaped e.1 e.2) L →
  shape_inv T (put_all T L t) ∧ (dirs t d → dirs (put_all T L t) d).
Proof.
  intros Hi HL. revert t Hi. induction HL as [|e L He _ IH]; intros t Hi; [done|]. simpl.
  destruct (IH (<[T ++ e.1 := e.2]> t)) as [IH1 IH2]; [by apply shape_inv_put|].
  split; [done|]. intros Hd. apply IH2. by apply shape_dirs_put.
Qed.

(** ** The entries [writeData] writes *)

Section files.
Context `{!MapRange}.

Definition port_entry (a : string) (p : string * Z) : entry :=
  (["addresses"; a; "ports"; p.1], File (Itoa p.2)).

Definition address_files (d : IngressAddress) : list entry :=
  let a := Address (ia_info d) in
  (["addresses"; a; "address"], File a) :: (["addresses"; a; "ports"], Dir) ::
  (port_entry a <$> map_range (map_entries (ia_ports d))).

Definition address_entries (d : IngressAddress) : list entry :=
  (["addresses"; Address (ia_info d)], Dir) :: address_files d.

Definition volume_entries (data : list IngressAddress) : list entry :=
  (["addresses"], Dir) :: (data ≫= address_entries).

(** The elements of a listed path are ordinary names. *)
Ltac plain_list := simpl; repeat (apply Forall_cons_2; [by auto with golang|]); apply Forall_nil_2.

(** An address and port names that can be file names. *)
Definition nameable (d : IngressAddress) : Prop :=
  plain (Address (ia_info d)) ∧ ∀ name port, map_get (ia_ports d) name = Some port → plain name.

Lemma nameable_range d name port :
  nameable d → (name, port) ∈ map_range (map_entries (ia_ports d)) → plain name.
Proof.
  intros [_ Hd] Hin. rewrite (map_range_perm _) in Hin. apply elem_of_map_to_list in Hin.
  by eapply Hd.
Qed.

Lemma address_files_shaped d : Forall (λ e, shaped e.1 e.2) (address_files d).
Proof.
  unfold address_files. do 2 (constructor; [simpl; constructor|]).
  apply Forall_fmap, Forall_forall. intros; simpl. constructor.
Qed.
Lemma address_entries_shaped d : Forall (λ e, shaped e.1 e.2) (address_entries d).
Proof. constructor; [simpl; constructor|apply address_files_shaped]. Qed.
Lemma volume_entries_shaped data : Forall (λ e, shaped e.1 e.2) (volume_entries data).
Proof.
  constructor; [simpl; constructor|]. apply Forall_forall.
  intros e (d & He & _)%list_elem_of_bind.
  by eapply (proj1 (Forall_forall _ _) (address_entries_shaped d)).
Qed.

Context (T : location).
Hypothesis HT : Forall plain T.

Lemma mkdir_entry d x fs fs' r :
  shape_inv T (fs_nodes fs) → dirs (fs_nodes fs) (T ++ d) → shaped (d ++ [x]) Dir →
  Forall plain (d ++ [x]) → MkdirAll (abs (T ++ d ++ [x])) fs = (fs', r) →
  scripted T [(d ++ [x], Dir)] fs fs' r.
Proof.
  intros [_ Hs] Hd Hx Hp Hrun. apply writes_scripted. rewrite app_assoc in *.
  apply MkdirAll_writes; [rewrite <- app_assoc; by apply Forall_app_2|done| |done].
  destruct (fs_nodes fs !! ((T ++ d) ++ [x])) as [n|] eqn:Hn; [|by left].
  right. rewrite <- app_assoc in Hn. apply Hs in Hn; [|by destruct d]. f_equal. by eapply shaped_Dir.
Qed.

Lemma file_entry d x c fs fs' r :
  shape_inv T (fs_nodes fs) → dirs (fs_nodes fs) (T ++ d) → shaped (d ++ [x]) (File c) →
  Forall plain (d ++ [x]) → WriteFile (abs (T ++ d ++ [x])) c fs = (fs', r) →
  scripted T [(d ++ [x], File c)] fs fs' r.
Proof.
  intros [_ Hs] Hd Hx Hp Hrun. apply writes_scripted. rewrite app_assoc in *.
  apply WriteFile_writes; [rewrite <- app_assoc; by apply Forall_app_2|done| |done].
  intros n Hn. rewrite <- app_assoc in Hn. apply Hs in Hn; [|by destruct d]. by eapply shaped_File.
Qed.

Lemma plain_addresses : plain "addresses". Proof. by apply (bool_decide_unpack _). Qed.
Lemma plain_address : plain "address". Proof. by apply (bool_decide_unpack _). Qed.
Lemma plain_ports : plain "ports". Proof. by apply (bool_decide_unpack _). Qed.
Lemma plain_default : plain "default-address". Proof. by apply (bool_decide_unpack _). Qed.
Hint Resolve plain_addresses plain_address plain_ports plain_default : golang.

Lemma Join_under d x : Forall plain (d ++ [x]) → Join [abs (T ++ d); x] = abs (T ++ d ++ [x]).
Proof.
  intros [Hd Hx]%Forall_app. rewrite Join_abs by (try apply Forall_app_2; done).
  by rewrite <- app_assoc.
Qed.

Lemma dirs_under d x t : dirs t (T ++ d) → t !! (T ++ d ++ [x]) = Some Dir → dirs t (T ++ d ++ [x]).
Proof. rewrite app_assoc. intros Hd Hx. by apply dirs_snoc. Qed.

Lemma shape_inv_scripted L fs fs' d :
  shape_inv T (fs_nodes fs) → Forall (λ e, shaped e.1 e.2) L →
  fs_nodes fs' = put_all T L (fs_nodes fs) →
  shape_inv T (fs_nodes fs') ∧ (dirs (fs_nodes fs) d → dirs (fs_nodes fs') d).
Proof. intros Hi HL ->. by apply shape_inv_all. Qed.

Lemma write_ports a l fs fs' r :
  plain a → Forall (λ p, plain p.1) l → shape_inv T (fs_nodes fs) →
  dirs (fs_nodes fs) (T ++ ["addresses"; a; "ports"]) →
  for_each (λ '(name, port),
      WriteFile (Join [abs (T ++ ["addresses"; a; "ports"]); name]) (Itoa port)) l fs = (fs', r) →
  scripted T (port_entry a <$> l) fs fs' r.
Proof.
  intros Ha Hl. revert fs fs' r. induction Hl as [|[name port] l Hname _ IH]; intros fs fs' r Hi Hd Hrun.
  - by injection Hrun as <- <-.
  - simpl in Hname. assert (Forall plain (["addresses"; a; "ports"] ++ [name])) as Hp
      by (plain_list).
    cbn [for_each] in Hrun. rewrite Join_under in Hrun by done.
    rewrite fmap_cons. eapply (scripted_bind _ [port_entry a (name, port)]); [| |exact Hrun].
    + intros fs1 r1 H1. apply (file_entry ["addresses"; a; "ports"]); try done. constructor.
    + intros [] fs1 _ Hn fs2 r2 H2.
      destruct (shape_inv_scripted [port_entry a (name, port)] fs fs1
        (T ++ ["addresses"; a; "ports"])) as [Hi1 Hd1]; [done|by repeat constructor|done|].
      apply IH; auto.
Qed.

Lemma writeAddress_scripted d fs fs' r :
  nameable d → shape_inv T (fs_nodes fs) →
  dirs (fs_nodes fs) (T ++ ["addresses"; Address (ia_info d)]) →
  writeAddress (abs (T ++ ["addresses"; Address (ia_info d)])) d fs = (fs', r) →
  scripted T (address_files d) fs fs' r.
Proof.
  intros Hname Hi Hd Hrun. destruct Hname as [Ha Hports] eqn:Heq. clear Heq.
  set (a := Address (ia_info d)) in *. unfold writeAddress in Hrun.
  rewrite !Join_under in Hrun by (plain_list).
  eapply (scripted_bind _ [(["addresses"; a; "address"], File a)]); [| |exact Hrun].
  { intros fs1 r1 H1. apply (file_entry ["addresses"; a]); try done; [constructor|].
    plain_list. }
  intros [] fs1 _ Hn fs2 r2 H2. clear Hrun.
  destruct (shape_inv_scripted [(["addresses"; a; "address"], File a)] fs fs1
    (T ++ ["addresses"; a])) as [Hi1 Hd1]; [done|by repeat constructor|done|].
  eapply (scripted_bind _ [(["addresses"; a; "ports"], Dir)]); [| |exact H2].
  { intros fs3 r3 H3. apply (mkdir_entry ["addresses"; a]); try done; [auto|constructor|].
    plain_list. }
  intros [] fs3 _ Hn3 fs4 r4 H4.
  destruct (shape_inv_scripted [(["addresses"; a; "ports"], Dir)] fs1 fs3
    (T ++ ["addresses"; a])) as [Hi3 Hd3]; [done|by repeat constructor|done|].
  apply write_ports; try done.
  - apply Forall_forall. intros [name port] Hin. by eapply nameable_range.
  - apply (dirs_under ["addresses"; a]); [by auto|]. rewrite Hn3. apply lookup_insert_eq.
Qed.

Lemma write_addresses_scripted data dflt fs fs' r :
  Forall nameable data → shape_inv T (fs_nodes fs) → dirs (fs_nodes fs) (T ++ ["addresses"]) →
  write_addresses (abs (T ++ ["addresses"])) dflt data fs = (fs', r) →
  scripted T (data ≫= address_entries) fs fs' r.
Proof.
  intros Hdata. revert dflt fs fs' r. induction Hdata as [|d data Hname _ IH]; intros dflt fs fs' r Hi Hd Hrun.
  { by injection Hrun as <- <-. }
  pose proof Hname as [Ha _]. cbn [write_addresses] in Hrun.
  set (a := Address (ia_info d)) in *. rewrite Join_under in Hrun by plain_list.
  assert ((d :: data) ≫= address_entries =
    [(["addresses"; a], Dir)] ++ address_files d ++ (data ≫= address_entries)) as -> by done.
  eapply (scripted_bind _ [(["addresses"; a], Dir)]); [| |exact Hrun].
  { intros fs1 r1 H1. apply (mkdir_entry ["addresses"]); try done; [constructor|plain_list]. }
  intros [] fs1 _ Hn fs2 r2 H2.
  destruct (shape_inv_scripted [(["addresses"; a], Dir)] fs fs1 (T ++ ["addresses"]))
    as [Hi1 Hd1]; [done|by repeat constructor|done|].
  assert (dirs (fs_nodes fs1) (T ++ ["addresses"; a])) as Hd1a.
  { apply (dirs_under ["addresses"]); [by auto|]. rewrite Hn. apply lookup_insert_eq. }
  eapply (scripted_bind _ (address_files d)); [| |exact H2].
  { intros fs3 r3 H3. by apply writeAddress_scripted. }
  intros [] fs3 _ Hn3 fs4 r4 H4.
  destruct (shape_inv_scripted (address_files d) fs1 fs3 (T ++ ["addresses"])) as [Hi3 Hd3];
    [done|apply address_files_shaped|done|].
  by eapply IH; auto.
Qed.

Lemma write_addresses_default data dflt fs fs' p :
  Forall nameable data →
  write_addresses (abs (T ++ ["addresses"])) dflt data fs = (fs', Ok p) →
  p = match last data with
      | Some d => abs (T ++ ["addresses"; Address (ia_info d)])
      | None => dflt
      end.
Proof.
  intros Hdata. revert dflt fs. induction Hdata as [|d data [Ha _] _ IH]; intros dflt fs Hrun.
  { by injection Hrun as _ <-. }
  cbn [write_addresses] in Hrun.
  apply bind_Ok_inv in Hrun as ([] & fs1 & _ & Hrun).
  apply bind_Ok_inv in Hrun as ([] & fs2 & _ & Hrun).
  apply IH in Hrun as ->. rewrite last_cons. destruct (last data); [done|].
  by rewrite Join_under by plain_list.
Qed.

Lemma abs_app q : T ≠ [] → q ≠ [] → abs (T ++ q) = abs T +:+ ("/" +:+ join_slash q).
Proof.
  intros HT0 Hq. unfold abs, print_path; simpl. rewrite string_app_cons. f_equal.
  clear HT. induction T as [|x U IH]; [done|]. destruct U as [|y U].
  - by apply (join_slash_app x q).
  - cbn [app join_slash] in *. rewrite IH by done. rewrite <- string_app_assoc. done.
Qed.

(** The link in the target names the directory of the address relative to the target. *)
Lemma default_link a :
  T ≠ [] → TrimPrefix (TrimPrefix (abs (T ++ ["addresses"; a])) (abs T)) "/" = "addresses/" +:+ a.
Proof. intros Hne. rewrite abs_app by done. by rewrite !TrimPrefix_app. Qed.

Definition default_entry (d : IngressAddress) : entry :=
  (["default-address"], Link ("addresses/" +:+ Address (ia_info d))).

Lemma writeData_scripted data d fs fs' r :
  T ≠ [] → Forall nameable data → last data = Some d → shape_inv T (fs_nodes fs) →
  writeData (abs T) (Some data) fs = (fs', r) →
  scripted T (volume_entries data ++ [default_entry d]) fs fs' r.
Proof.
  intros Hne Hdata Hlast Hi Hrun. unfold writeData in Hrun.
  replace (Join [abs T; "addresses"]) with (abs (T ++ ["addresses"])) in Hrun
    by (symmetry; apply Join_abs; [done|plain_list]).
  assert (volume_entries data ++ [default_entry d] =
    [(["addresses"], Dir)] ++ (data ≫= address_entries) ++ [default_entry d]) as -> by done.
  eapply (scripted_bind _ [(["addresses"], Dir)]); [| |exact Hrun].
  { intros fs1 r1 H1. apply (mkdir_entry []); try done;
      [rewrite app_nil_r; by destruct Hi|constructor|plain_list]. }
  intros [] fs1 _ Hn fs2 r2 H2.
  destruct (shape_inv_scripted [(["addresses"], Dir)] fs fs1 T) as [Hi1 _];
    [done|by repeat constructor|done|].
  assert (dirs (fs_nodes fs1) (T ++ ["addresses"])) as Hd1.
  { apply (dirs_under []); [rewrite app_nil_r; by destruct Hi1|]. rewrite Hn. apply lookup_insert_eq. }
  eapply (scripted_bind _ (data ≫= address_entries)); [| |exact H2].
  { intros fs3 r3 H3. by eapply write_addresses_scripted. }
  intros p fs3 Hp Hn3 fs4 r4 H4. apply write_addresses_default in Hp; [|done].
  rewrite Hlast in Hp. subst p. unfold symlinkToDefaultAddress in H4.
  rewrite default_link, Join_abs in H4 by (done || plain_list).
  destruct (shape_inv_scripted (data ≫= address_entries) fs1 fs3 T) as [[Hd3 Hs3] _]; [done| |done|].
  { by pose proof (volume_entries_shaped data) as [_ ?]%Forall_cons. }
  apply writes_scripted, Symlink_writes; try done.
  - apply Forall_app_2; [done|plain_list].
  - destruct (fs_nodes fs3 !! (T ++ ["default-address"])) as [n|] eqn:Hx; [|done].
    apply Hs3 in Hx; [|done]. inversion Hx.
Qed.

(** ** The layout *)

(** The tree under the target that the comment of [writeData] draws, for [data]. *)
Inductive layout (data : list IngressAddress) : location → Inode → Prop :=
| layout_addresses : layout data ["addresses"] Dir
| layout_dir d : d ∈ data → layout data ["addresses"; Address (ia_info d)] Dir
| layout_address d : d ∈ data →
    layout data ["addresses"; Address (ia_info d); "address"] (File (Address (ia_info d)))
| layout_ports d : d ∈ data → layout data ["addresses"; Address (ia_info d); "ports"] Dir
| layout_port d name port : d ∈ data → map_get (ia_ports d) name = Some port →
    layout data ["addresses"; Address (ia_info d); "ports"; name] (File (Itoa port))
| layout_default d : last data = Some d →
    layout data ["default-address"] (Link ("addresses/" +:+ Address (ia_info d))).

Lemma elem_of_address_entries d q n :
  (q, n) ∈ address_entries d ↔
  (q, n) = (["addresses"; Address (ia_info d)], Dir) ∨
  (q, n) = (["addresses"; Address (ia_info d); "address"], File (Address (ia_info d))) ∨
  (q, n) = (["addresses"; Address (ia_info d); "ports"], Dir) ∨
  ∃ name port, map_get (ia_ports d) name = Some port ∧
    (q, n) = (["addresses"; Address (ia_info d); "ports"; name], File (Itoa port)).
Proof.
  unfold address_entries, address_files. rewrite !elem_of_cons, list_elem_of_fmap.
  assert ((∃ p, (q, n) = port_entry (Address (ia_info d)) p ∧
                p ∈ map_range (map_entries (ia_ports d))) ↔
    ∃ name port, map_get (ia_ports d) name = Some port ∧
      (q, n) = (["addresses"; Address (ia_info d); "ports"; name], File (Itoa port))) as ->; [|done].
  unfold map_get. setoid_rewrite <- elem_of_map_to_list. setoid_rewrite <- (map_range_perm _).
  split; [intros ([name port] & ? & ?); by exists name, port|].
  intros (name & port & ? & ?). by exists (name, port).
Qed.

Lemma elem_of_volume_entries data d q n :
  last data = Some d →
  (q, n) ∈ volume_entries data ++ [default_entry d] ↔ layout data q n.
Proof.
  intros Hlast. unfold volume_entries, default_entry.
  rewrite elem_of_app, elem_of_cons, list_elem_of_bind, list_elem_of_singleton. split.
  - intros [[[= -> ->]|(d' & Hin & Hd')]|[= -> ->]]; [constructor| |by constructor].
    apply elem_of_address_entries in Hin as
      [[= -> ->]|[[= -> ->]|[[= -> ->]|(name & port & Hport & [= -> ->])]]]; by constructor.
  - intros Hl. inversion Hl as [|d' Hd'|d' Hd'|d' Hd'|d' name port Hd' Hport|d' Hd']; subst.
    1: by left; left.
    5: right; congruence.
    all: left; right; exists d'; rewrite elem_of_address_entries; split; [|done]; auto; eauto 8.
Qed.

Lemma layout_functional data q n1 n2 :
  NoDup ((λ d, Address (ia_info d)) <$> data) → layout data q n1 → layout data q n2 → n1 = n2.
Proof.
  intros Hnd H1 H2. destruct H1; inversion H2; subst; try congruence.
  - assert (d0 = d) as -> by (by eapply (NoDup_fmap_eq (λ d, Address (ia_info d)))). congruence.
Qed.

Lemma layout_nonempty data q n : layout data q n → q ≠ [].
Proof. by destruct 1. Qed.

Lemma put_all_layout data d t q n :
  NoDup ((λ d, Address (ia_info d)) <$> data) → last data = Some d →
  (∀ q, q ≠ [] → t !! (T ++ q) = None) → q ≠ [] →
  put_all T (volume_entries data ++ [default_entry d]) t !! (T ++ q) = Some n ↔ layout data q n.
Proof.
  intros Hnd Hlast Ht Hq. split.
  - intros Hn. destruct (decide (q ∈ (volume_entries data ++ [default_entry d]).*1)) as [Hin|Hnin].
    + apply list_elem_of_fmap in Hin as ([q' n'] & -> & Hin). cbn [fst] in Hn.
      erewrite put_all_inside in Hn; [|..|exact Hin].
      * injection Hn as ->. by eapply elem_of_volume_entries.
      * intros q n1 n2 ?%elem_of_volume_entries ?%elem_of_volume_entries; [|done..].
        by eapply layout_functional.
    + rewrite put_all_outside, Ht in Hn; [done..|]. intros e He ->%app_inv_head.
      apply Hnin, list_elem_of_fmap. by exists e.
  - intros Hl. apply put_all_inside.
    + intros q' n1 n2 ?%elem_of_volume_entries ?%elem_of_volume_entries; [|done..].
      by eapply layout_functional.
    + by apply elem_of_volume_entries.
Qed.
End files.

(** ** Mounting the target *)

(** What is at and under [T] hangs in directories; a mount hides only what is under its mount
    point. *)
Definition mounts_wf (fs : FS) : Prop :=
  Forall (λ m, ∀ p, is_Some (m.2 !! p) → below m.1 p) (fs_mounts fs).
Definition fs_wf (T : location) (fs : FS) : Prop :=
  (∀ p x, T `prefix_of` p ++ [x] → is_Some (fs_nodes fs !! (p ++ [x])) → dirs (fs_nodes fs) p) ∧
  mounts_wf fs.

Lemma below_app (T p : location) : below T p ↔ ∃ q, q ≠ [] ∧ p = T ++ q.
Proof.
  unfold below. split.
  - intros [[q ->] Hne]. exists q. split; [|done]. intros ->. by rewrite app_nil_r in Hne.
  - intros (q & Hq & ->). split; [by apply prefix_app_r|]. intros Heq.
    by apply (not_below_itself T q T) in Hq.
Qed.

Lemma filter_not_below (T : location) (t : tree) :
  (∀ q, q ≠ [] → t !! (T ++ q) = None) → filter (λ kv, ¬ below T kv.1) t = t ∧
  filter (λ kv, below T kv.1) t = ∅.
Proof.
  intros Ht. split.
  - apply map_filter_id. intros p n Hp Hb. apply below_app in Hb as (q & Hq & Heq).
    simpl in Heq. subst p. by rewrite Ht in Hp.
  - apply map_empty_filter. intros p n Hp Hb. apply below_app in Hb as (q & Hq & Heq).
    simpl in Heq. subst p. by rewrite Ht in Hp.
Qed.

Section mounting.
Context `{!Mounter} `{!MounterLaws} (T : location) (d : location) (x : string).
Hypothesis HT : T = d ++ [x].
Hypothesis Hplain : Forall plain T.

Lemma wf_nothing_below fs q :
  fs_wf T fs → fs_nodes fs !! T ≠ Some Dir → q ≠ [] → fs_nodes fs !! (T ++ q) = None.
Proof.
  intros [Hwf _] Hnot Hq. destruct (fs_nodes fs !! (T ++ q)) as [n|] eqn:Hn; [|done].
  destruct q as [|y q _] using rev_ind; [done|]. rewrite app_assoc in Hn.
  exfalso. apply Hnot. eapply (Hwf (T ++ q) y); [rewrite <- app_assoc; by apply prefix_app_r|by rewrite Hn|by apply prefix_app_r|].
  rewrite HT. by destruct d.
Qed.

(** On a path without links [PathExists] tells whether the target is there. *)
Lemma PathExists_target fs fs' b :
  fs_wf T fs → clear (fs_nodes fs) T → PathExists (abs T) fs = (fs', Ok b) →
  same_fs fs fs' ∧ b = bool_decide (fs_nodes fs !! T = Some Dir).
Proof.
  intros [Hwf _] Hc [Hsame ->]%PathExists_spec. split; [done|].
  rewrite elements_abs by done. destruct (Hc T) as [Hn|Hn]; [done|rewrite HT; by destruct d|..];
    rewrite Hn.
  - destruct (locate fs true (true, T)) as [e|q] eqn:Hloc; [done|].
    unfold locate in Hloc. apply walk_clear in Hloc as [-> _]; [|done..].
    simpl. replace (node_at (fs_nodes fs) T) with (fs_nodes fs !! T) by (rewrite HT; by destruct d).
    by rewrite Hn.
  - rewrite HT in *. assert (dirs (fs_nodes fs) d) as Hd by (eapply Hwf; [done|by rewrite Hn]).
    rewrite locate_abs by (done || by rewrite Hn).
    replace (node_at (fs_nodes fs) (d ++ [x])) with (fs_nodes fs !! (d ++ [x])) by (by destruct d).
    by rewrite Hn.
Qed.

Lemma locate_target fs follow : dirs (fs_nodes fs) T → locate fs follow (true, T) = inr T.
Proof.
  intros Hd. rewrite HT in *. apply dirs_snoc in Hd as [Hd Hx].
  apply locate_abs; try done. by rewrite Hx.
Qed.

(** A target that is a directory is seen. *)
Lemma PathExists_dir fs fs' b :
  dirs (fs_nodes fs) T → PathExists (abs T) fs = (fs', Ok b) → same_fs fs fs' ∧ b = true.
Proof.
  intros Hd [Hsame ->]%PathExists_spec. split; [done|]. rewrite elements_abs, locate_target by done.
  replace (node_at (fs_nodes fs) T) with (fs_nodes fs !! T) by (rewrite HT; by destruct d).
  rewrite (Hd T); [done..|rewrite HT; by destruct d].
Qed.

(** [mount] makes the target, which was missing, and puts an empty file system on it. *)
Lemma mount_Ok fs fs' :
  fs_wf T fs → clear (fs_nodes fs) T → mount (abs T) fs = (fs', Ok ()) →
  (∀ q, fs_nodes fs !! (T ++ q) = None) ∧
  grown (fs_nodes fs) (fs_nodes fs') T ∧ dirs (fs_nodes fs') T ∧
  (∀ q, q ≠ [] → fs_nodes fs' !! (T ++ q) = None) ∧
  fs_mounts fs' = (T, ∅) :: fs_mounts fs.
Proof.
  intros Hwf Hc Hrun. unfold mount in Hrun.
  apply bind_Ok_inv in Hrun as (b & fs1 & Hb%on_error_Ok & Hrun).
  apply PathExists_target in Hb as [(Hn1 & Hm1 & _) ->]; [|done..].
  case_bool_decide as Hex; [by apply fail_Ok_inv in Hrun|].
  apply bind_Ok_inv in Hrun as ([] & fs2 & Hmk%on_error_Ok & Hmt%on_error_Ok).
  apply MkdirAll_made in Hmk as ((Hm2 & _ & _) & Hg & Hd); [|done|by rewrite Hn1].
  rewrite Hn1 in Hg. pose proof (wf_nothing_below fs) as Hbelow.
  assert (∀ q, q ≠ [] → fs_nodes fs2 !! (T ++ q) = None) as Hbelow2.
  { intros q Hq. destruct (Hg (T ++ q)) as [->|(Hp & _)]; [by apply Hbelow|].
    by apply (not_below_itself T q (T ++ q) Hq) in Hp. }
  apply Mount_spec in Hmt as (q & Hloc & _ & (Hn3 & Hm3 & _)).
  rewrite elements_abs, locate_target in Hloc by done. injection Hloc as <-.
  destruct (filter_not_below T (fs_nodes fs2)) as [Hf1 Hf2]; [done|].
  simpl in Hn3, Hm3. rewrite Hf1 in Hn3. rewrite Hf2, Hm2, Hm1 in Hm3. rewrite Hn3.
  split_and!; try done. intros q. destruct (decide (q = [])) as [->|]; [|by apply Hbelow].
  rewrite app_nil_r. destruct (Hc T) as [|]; [done|rewrite HT; by destruct d|done..].
Qed.

(** Whatever [mount] ends with, only directories on the way to the target appear, and nothing
    is mounted when it fails. *)
Lemma mount_effect fs fs' r :
  fs_wf T fs → clear (fs_nodes fs) T → mount (abs T) fs = (fs', r) →
  grown (fs_nodes fs) (fs_nodes fs') T ∧ (r = Ok () ∨ fs_mounts fs' = fs_mounts fs).
Proof.
  intros Hwf Hc Hrun. assert (∀ t, grown t t T) as Hrefl by (intros t p; by left).
  unfold mount in Hrun. apply bind_inv in Hrun as [(b & fs1 & Hb & Hrun)|Hrun].
  2: { assert (∃ r0, PathExists (abs T) fs = (fs', r0)) as (r0 & [(Hn & Hm & _) _]%PathExists_spec);
         [|rewrite Hn; auto].
       unfold on_error in Hrun. destruct (PathExists (abs T) fs) as [? []]; naive_solver. }
  apply on_error_Ok, PathExists_target in Hb as [(Hn1 & Hm1 & _) ->]; [|done..].
  case_bool_decide as Hex; [injection Hrun as <- _; rewrite Hn1; auto|].
  assert (∀ fs2 r2, MkdirAll (abs T) fs1 = (fs2, r2) →
    grown (fs_nodes fs) (fs_nodes fs2) T ∧ fs_mounts fs2 = fs_mounts fs ∧
    (r2 = Ok () → dirs (fs_nodes fs2) T)) as Hmk.
  { intros fs2 r2 ((Hm2 & _) & Hg & Hd)%MkdirAll_made; [|done|by rewrite Hn1].
    rewrite Hn1 in Hg. split_and!; [done|congruence|]. by intros ->. }
  apply bind_inv in Hrun as [([] & fs2 & H2%on_error_Ok & Hmt)|Hrun].
  2: { unfold on_error in Hrun. destruct (MkdirAll (abs T) fs1) as [fs2 r2] eqn:H2.
       destruct (Hmk fs2 r2 eq_refl) as (Hg & Hm & _). destruct r2; naive_solver. }
  destruct (Hmk _ _ H2) as (Hg & Hm2 & Hd). specialize (Hd eq_refl). unfold on_error in Hmt.
  destruct (mounter_Mount _ _ _ _ fs2) as [fs3 r3] eqn:H3. apply Mount_spec in H3.
  assert (fs3 = fs') as -> by (destruct r3; naive_solver).
  destruct r3 as [[]|e|]; [|destruct H3 as (-> & Hm3 & _); split; [done|right; congruence]|done].
  destruct H3 as (q & Hloc & _ & (Hn3 & _ & _)). split; [|left; naive_solver].
  rewrite elements_abs, locate_target in Hloc by done. injection Hloc as <-. rewrite Hn3. simpl.
  destruct (filter_not_below T (fs_nodes fs2)) as [-> _]; [|done].
  intros q Hq. destruct (Hg (T ++ q)) as [->|(Hp & _)]; [by apply wf_nothing_below|].
  by apply (not_below_itself T q (T ++ q) Hq) in Hp.
Qed.
End mounting.

(** ** Unpublishing *)

Lemma take_mount_elem q ms hidden rest :
  take_mount q ms = Some (hidden, rest) → (q, hidden) ∈ ms ∧ ∀ m, m ∈ rest → m ∈ ms.
Proof.
  revert hidden rest. induction ms as [|[r h] ms IH]; simpl; intros hidden rest; [done|].
  case_bool_decide; [intros [= <- <-]; subst; set_solver|].
  intros ([h' rest'] & Hf & [= <- <-])%bind_Some. apply IH in Hf as [? ?]. set_solver.
Qed.

Section unpublishing.
Context {W : Type} `{!Mounter} `{!MounterLaws} (T : location) (d : location) (x : string).
Hypothesis HT : T = d ++ [x].
Hypothesis Hplain : Forall plain T.

Lemma T_nonempty : T ≠ [].
Proof. rewrite HT. by destruct d. Qed.

Lemma locate_dirs fs follow :
  dirs (fs_nodes fs) d → clear (fs_nodes fs) T → locate fs follow (true, T) = inr T.
Proof.
  intros Hd Hc. pose proof T_nonempty. destruct (Hc T) as [Hx|Hx]; [done..| |]; rewrite HT in *;
    (apply locate_abs; [done..|]; rewrite Hx; done).
Qed.

(** Unmounting shows again what was hidden, all of it under the target. *)
Lemma Unmount_outside fs fs' r p :
  mounts_wf fs → dirs (fs_nodes fs) d → clear (fs_nodes fs) T →
  mounter_Unmount (abs T) fs = (fs', r) → ¬ below T p → fs_nodes fs' !! p = fs_nodes fs !! p.
Proof.
  intros Hms Hd Hc Hrun%Unmount_spec Hp. destruct r as [[]|e|]; [|by destruct Hrun as [-> _]|done].
  destruct Hrun as (q & hidden & rest & Hloc & [Hin _]%take_mount_elem & (-> & _)).
  rewrite elements_abs, locate_dirs in Hloc by done. injection Hloc as <-.
  simpl. rewrite lookup_union_r.
  - rewrite map_lookup_filter. destruct (fs_nodes fs !! p); simpl; [|done]. by rewrite option_guard_True.
  - destruct (hidden !! p) as [n|] eqn:Hn; [|done]. exfalso. apply Hp.
    apply (proj1 (Forall_forall _ _) Hms _ Hin). simpl. by rewrite Hn.
Qed.

(** The mount table after a call of [Unmount] that left nothing mounted on the target. *)
Lemma Unmount_table fs fs' r :
  dirs (fs_nodes fs) d → clear (fs_nodes fs) T →
  mounter_Unmount (abs T) fs = (fs', r) → ¬ pinned fs' T →
  fs_mounts fs' = from_option snd (fs_mounts fs) (take_mount T (fs_mounts fs)).
Proof.
  intros Hd Hc Hrun%Unmount_spec Hpin. destruct r as [[]|e|]; [|destruct Hrun as (_ & Hm & _)|done].
  - destruct Hrun as (q & hidden & rest & Hloc & Htake & (_ & Hm & _)).
    rewrite elements_abs, locate_dirs in Hloc by done. injection Hloc as <-. by rewrite Htake.
  - destruct (take_mount T (fs_mounts fs)) as [[hidden rest]|] eqn:Ht; [|done].
    apply take_mount_elem in Ht as [Hin _]. exfalso. apply Hpin. exists (T, hidden).
    by rewrite Hm.
Qed.

Lemma not_below_prefix p : p `prefix_of` T → ¬ below T p.
Proof. intros Hp (q & Hq & ->)%below_app. by apply (not_below_itself T q _ Hq) in Hp. Qed.

(** A successful [NodeUnpublishVolume] leaves no mount and no node at or under the target,
    and the nodes elsewhere as they were. *)
Lemma unpublish_inv volumeId (w : W) fs s' :
  mounts_wf fs → dirs (fs_nodes fs) d → clear (fs_nodes fs) T →
  NodeUnpublishVolume volumeId (abs T) (w, fs) = (s', Ok ()) →
  s'.1 = w ∧ ¬ pinned s'.2 T ∧
  fs_mounts s'.2 = from_option snd (fs_mounts fs) (take_mount T (fs_mounts fs)) ∧
  ∀ p, fs_nodes s'.2 !! p = if decide (T `prefix_of` p) then None else fs_nodes fs !! p.
Proof.
  intros Hwf Hd Hc Hrun. unfold NodeUnpublishVolume in Hrun.
  case_bool_decide; [by apply fail_Ok_inv in Hrun|]. case_bool_decide; [by apply fail_Ok_inv in Hrun|].
  apply bind_Ok_inv in Hrun as (u & s1 & Hu%attempt_Ok_inv & Hrun%on_error_Ok).
  assert (∃ r1, mounter_Unmount (abs T) fs = (s1.2, r1) ∧ s1.1 = w) as (r1 & Hun & Hw).
  { unfold os in Hu. simpl in Hu. destruct (mounter_Unmount (abs T) fs) as [fs1 r1].
    destruct u; simplify_eq/=; eauto. }
  pose proof (λ p, Unmount_outside _ _ _ p Hwf Hd Hc Hun) as Hout.
  assert (dirs (fs_nodes s1.2) d) as Hd1.
  { intros p Hp Hne. rewrite Hout; [by apply Hd|]. apply not_below_prefix.
    rewrite HT. by apply prefix_app_r. }
  assert (clear (fs_nodes s1.2) T) as Hc1.
  { intros p Hp Hne. rewrite Hout; [by apply Hc|]. by apply not_below_prefix. }
  unfold os in Hrun. destruct (RemoveAll (abs T) s1.2) as [fs2 r2] eqn:Hrm.
  injection Hrun as <- ->. cbn [fst snd]. split; [done|].
  unfold RemoveAll in Hrm. rewrite elements_abs in Hrm by done.
  apply syscall_inv in Hrm as [(l & e & _ & ? & _)|(l & _ & Hcall)]; [done|].
  rewrite locate_faults, locate_dirs in Hcall by done.
  case_decide as Hpin; [by destruct Hcall|]. destruct Hcall as [-> _].
  assert (¬ pinned s1.2 T) as Hpin1 by done. split; [done|].
  split; [exact (Unmount_table _ _ _ Hd Hc Hun Hpin1)|]. intros p. simpl. rewrite map_lookup_filter. case_decide as Hp.
  - destruct (fs_nodes s1.2 !! p); simpl; [|done]. rewrite option_guard_False; [done|].
    intros [?|(m & Hm & Hpm)]; [done|]. apply Hpin1. exists m. split; [done|]. by trans p.
  - rewrite Hout by (by intros [? _]). destruct (fs_nodes fs !! p); simpl; [|done].
    rewrite option_guard_True; [done|by left].
Qed.
End unpublishing.
