(* ===== verification/CsiNodePublish.v ===== *)
(** * Publishing a volume

    What [NodePublishVolume] of internal/csi/node.go achieves in the cluster: the labels of
    the persistent volume and of the pod, the entry of PodListeners, the Listener that is
    created on the way; that it changes nothing else; and that it composes with the CSI
    controller and with the Service of the reconciler. *)
From S2P Require Import Prelude GoRuntime GoStrings Api GoOs CsiTypes Util Service CsiController.
From S2P Require Import CsiNode CsiNodeFiles.
Import Util.Address Util.Constant NodeServer.

Section publish.
Context {W : Type} `{HC : Client W} `{!ApiServer W} `{!ControllerUtil W} `{!ControllerUtilLaws W}.
Context `{!OperatorGo} `{!MapRange} `{!Mounter} `{!MounterLaws}.

(** ** The parts of a successful run *)

(** The run ended before the file system was touched. *)
Definition stopped {A} (fs : FS) (s' : W * FS) (r : res A) : Prop :=
  s'.2 = fs ∧ ∀ a, r ≠ Ok a.

Lemma bind_api {A B} g (c : M W A) (f : A → M (W * FS) B) w fs s' r :
  (on_error g (api c) ≫= f) (w, fs) = (s', r) →
  stopped fs s' r ∨ ∃ a w1, c w = (w1, Ok a) ∧ f a (w1, fs) = (s', r).
Proof.
  unfold mbind, M_bind, on_error, api, stopped. simpl.
  destruct (c w) as [w1 [a|e|]]; [|intros [= <- <-]; by left..]. eauto.
Qed.

Lemma bind_api_plain {A B} (c : M W A) (f : A → M (W * FS) B) w fs s' r :
  (api c ≫= f) (w, fs) = (s', r) →
  stopped fs s' r ∨ ∃ a w1, c w = (w1, Ok a) ∧ f a (w1, fs) = (s', r).
Proof.
  unfold mbind, M_bind, api, stopped. simpl.
  destruct (c w) as [w1 [a|e|]]; [|intros [= <- <-]; by left..]. eauto.
Qed.

Lemma bind_lift {A B} (c : res A) (f : A → M (W * FS) B) w fs s' r :
  (lift c ≫= f) (w, fs) = (s', r) →
  stopped fs s' r ∨ ∃ a, c = Ok a ∧ f a (w, fs) = (s', r).
Proof.
  unfold mbind, M_bind, lift, stopped. destruct c as [a|e|]; [|intros [= <- <-]; by left..]. eauto.
Qed.

(** The intermediate values of [NodePublishVolume], up to the file system. *)
Record published (request : NodePublishVolumeRequest) (w w' : W)
    (pv0 pv : PersistentVolume) (pod0 pod : Pod) (listener0 listener : Listener)
    (data : list IngressAddress) (w1 w2 w3 : W) : Prop := {
  pb_pv : stored KPersistentVolume w (Key "" (np_volumeId request)) = Some pv0;
  pb_pod : ∃ name ns, map_get (np_volumeContext request) CSI_STORAGE_POD_NAME = Some name ∧
    map_get (np_volumeContext request) CSI_STORAGE_POD_NAMESPACE = Some ns ∧
    stored KPod w (Key ns name) = Some pod0;
  pb_listener : getListener pod0 pv0 (newVolumeContextFromMap (np_volumeContext request)) w
                = (w1, Ok listener0);
  pb_patch_pv : patchPVLabelsWithListener pv0 listener0 w1 = (w2, Ok pv);
  pb_patch_pod : patchPodLabelsWithListener pod0 listener0 w2 = (w3, Ok pod);
  pb_addresses : getAddresses listener0 pod w3 = (w3, Ok (listener, data));
  pb_record : publishPodListener pod pv listener data w3 = (w', Ok ());
}.

(** The calls on the file system at the end of [NodePublishVolume]. *)
Definition publish_files (targetPath : string) (data : list IngressAddress) : M FS () :=
  on_error internal (mount targetPath);; on_error internal (writeData targetPath (Some data)).

Lemma finish_files targetPath data (w : W) fs s' r :
  (on_error internal (os (mount targetPath));;
   on_error internal (os (writeData targetPath (Some data)))) (w, fs) = (s', r) →
  s'.1 = w ∧ publish_files targetPath data fs = (s'.2, r).
Proof.
  unfold publish_files, mbind, M_bind, on_error, os. cbn [fst snd].
  destruct (mount targetPath fs) as [fs1 [[]|e|]]; cbn [fst snd]; [|by intros [= <- <-]..].
  destruct (writeData targetPath (Some data) fs1) as [fs2 []]; by intros [= <- <-].
Qed.

Lemma getNodeAddress_reads pod w w' a :
  getNodeAddressByPod pod w = (w', Ok a) →
  w' = w ∧ ∃ node, stored KNode w (Key "" (pod_nodeName pod)) = Some node ∧
                   GetPriorNodeAddress node = Ok a.
Proof.
  unfold getNodeAddressByPod.
  intros (node & w1 & Hn & [-> Ha]%lift_Ok_inv)%bind_Ok_inv.
  apply (get_Ok KNode) in Hn as [-> Hn]. eauto.
Qed.

(** What [getAddresses] gives: the node's address with the node ports when there are any,
    the addresses of the status otherwise; never an empty list. *)
Definition addresses_of (w : W) (pod : Pod) (listener : Listener) (data : list IngressAddress) : Prop :=
  let status := listener_status listener in
  (map_len (lst_nodePorts status) ≠ 0 ∧
     ∃ node a, stored KNode w (Key "" (pod_nodeName pod)) = Some node ∧
               GetPriorNodeAddress node = Ok a ∧
               data = [ {| ia_info := a; ia_ports := lst_nodePorts status |} ]) ∨
  (map_len (lst_nodePorts status) = 0 ∧ lst_ingressAddresses status ≠ [] ∧
     data = ingress_address <$> lst_ingressAddresses status).

Lemma getAddresses_inv listener0 pod w w' listener data :
  getAddresses listener0 pod w = (w', Ok (listener, data)) →
  w' = w ∧ stored KListener w (key_of (k:=KListener) listener0) = Some listener ∧
  addresses_of w pod listener data.
Proof.
  unfold getAddresses. intros (l & w1 & Hl & Hrun)%bind_Ok_inv.
  apply (get_Ok KListener) in Hl as [-> Hl]. rewrite scoped_namespaced in Hl by done.
  case_bool_decide as Hnp; [|case_bool_decide as Hing].
  - apply bind_Ok_inv in Hrun as (a & w1 & Ha & [-> [= -> ->]]%ret_Ok_inv).
    apply getNodeAddress_reads in Ha as (-> & node & Hn & Ha).
    split_and!; [done..|]. left. split; [done|]. eauto.
  - apply ret_Ok_inv in Hrun as [-> [= -> ->]]. split_and!; [done..|]. right.
    split_and!; [lia| |done]. intros Hnil. by rewrite Hnil in Hing.
  - by apply fail_Ok_inv in Hrun.
Qed.

Lemma addresses_of_nonempty w pod listener data :
  addresses_of w pod listener data → ∃ d, last data = Some d.
Proof.
  intros [(_ & node & a & _ & _ & ->)|(_ & Hne & ->)]; [by eexists|].
  destruct (lst_ingressAddresses _) as [|x l] using rev_ind; [done|].
  rewrite fmap_app, last_app. eauto.
Qed.

(** Every run of [NodePublishVolume] stops before the file system is touched, or gets
    through the calls of the API and goes on with the files. *)
Lemma publish_cases request w fs s' r :
  NodePublishVolume request (w, fs) = (s', r) →
  stopped fs s' r ∨
  ∃ pv0 pv pod0 pod listener0 listener data w1 w2 w3,
    published request w s'.1 pv0 pv pod0 pod listener0 listener data w1 w2 w3 ∧
    publish_files (np_targetPath request) data fs = (s'.2, r).
Proof.
  unfold NodePublishVolume. intros Hrun.
  apply bind_lift in Hrun as [|([] & _ & Hrun)]; [by left|].
  unfold mbind at 1, M_bind at 1 in Hrun.
  case_bool_decide; [injection Hrun as <- <-; by left|]. unfold mret, M_ret in Hrun.
  apply bind_api_plain in Hrun as [|(pv0 & w0 & Hpv & Hrun)]; [by left|].
  apply (get_Ok KPersistentVolume) in Hpv as [-> Hpv].
  apply bind_lift in Hrun as [|(name & Hname%deref_Ok & Hrun)]; [by left|].
  apply bind_lift in Hrun as [|(ns & Hns%deref_Ok & Hrun)]; [by left|].
  apply bind_api in Hrun as [|(pod0 & w0 & Hpod & Hrun)]; [by left|].
  apply (get_Ok KPod) in Hpod as [-> Hpod]. rewrite scoped_namespaced in Hpod by done.
  apply bind_api in Hrun as [|(l0 & w1 & Hl & Hrun)]; [by left|].
  apply bind_api in Hrun as [|(pv & w2 & Hppv & Hrun)]; [by left|].
  apply bind_api in Hrun as [|(pod & w3 & Hppod & Hrun)]; [by left|].
  apply bind_api in Hrun as [|([l data] & w4 & Haddr & Hrun)]; [by left|].
  apply bind_api in Hrun as [|([] & w5 & Hrec & Hrun)]; [by left|].
  apply finish_files in Hrun as [Hw Hfiles]. right.
  pose proof (getAddresses_inv _ _ _ _ _ _ Haddr) as (-> & _). simpl in *. subst w5.
  exists pv0, pv, pod0, pod, l0, l, data, w1, w2, w3. split; [|done]. split; try done.
  by exists name, ns.
Qed.

(** ** The Listener of a volume *)

(** The Listener [createListener] makes for a claim and a pod. *)
Record listener_for (pv : PersistentVolume) (pvc : PersistentVolumeClaim) (pod : Pod)
    (ns : string) (lc : ListenerClass) (l : Listener) : Prop := {
  lf_key : key_of (k:=KListener) l = Key ns (meta_name (pvc_meta pvc));
  lf_labels : meta_labels (listener_meta l) = meta_labels (pvc_meta pvc);
  lf_owner : ∃ ref, ref ∈ meta_owners (listener_meta l) ∧ or_controller ref = true ∧
    or_name ref = meta_name (pv_meta pv) ∧ or_uid ref = meta_uid (pv_meta pv);
  lf_class : ls_className (listener_spec l) = meta_name (lc_meta lc);
  lf_ports : ls_ports (listener_spec l) =
    pod_containers pod ≫= λ c, filter_map container_port (container_ports c);
  lf_publish : ls_publishNotReady (listener_spec l) = Some true;
  lf_extra : map_entries (ls_extraPodSelectorLabels (listener_spec l)) = ∅;
  lf_status : listener_status l = no_status;
}.

Lemma getPodPorts_Ok pod ports :
  getPodPorts pod = Ok ports →
  ports = (pod_containers pod ≫= λ c, filter_map container_port (container_ports c)) ∧ ports ≠ [].
Proof.
  unfold getPodPorts. case_bool_decide as Hl; [done|]. intros [= <-]. split; [done|].
  intros Hnil. by rewrite Hnil in Hl.
Qed.

(** The runs of [createListener] that end with a Listener: it was created, or the one of
    that name is taken as it is. *)
Definition listener_made (pv : PersistentVolume) (pod : Pod) (ns : string) (cn : string)
    (w w' : W) (l : Listener) : Prop :=
  ∃ lc ref pvc,
    stored KListenerClass w (Key "" cn) = Some lc ∧ pv_claimRef pv = Some ref ∧
    stored KPersistentVolumeClaim w (Key (claim_namespace ref) (claim_name ref)) = Some pvc ∧
    ((stored KListener w (key_of (k:=KListener) l) = None ∧ listener_for pv pvc pod ns lc l ∧
      wrote stored KListener (key_of (k:=KListener) l) l w w') ∨
     (w' = w ∧ key_of (k:=KListener) l = Key ns (meta_name (pvc_meta pvc)) ∧
      stored KListener w (key_of (k:=KListener) l) = Some l)).

Lemma createListener_inv ctx pv pod w w' l :
  createListener ctx pv pod w = (w', Ok l) →
  ∃ cn ns, vc_ListenerClassName ctx = Some cn ∧ vc_PodNamespace ctx = Some ns ∧
           listener_made pv pod ns cn w w' l.
Proof.
  unfold createListener. intros Hrun.
  apply bind_Ok_inv in Hrun as (cn & w1 & [-> Hcn%deref_Ok]%lift_Ok_inv & Hrun).
  apply bind_Ok_inv in Hrun as (ns & w1 & [-> Hns%deref_Ok]%lift_Ok_inv & Hrun).
  apply bind_Ok_inv in Hrun as (lc & w1 & Hlc%on_error_Ok & Hrun).
  apply (get_Ok KListenerClass) in Hlc as [-> Hlc].
  apply bind_Ok_inv in Hrun as (ref & w1 & [-> Href%deref_Ok]%lift_Ok_inv & Hrun).
  apply bind_Ok_inv in Hrun as (pvc & w1 & Hpvc%on_error_Ok & Hrun).
  apply (get_Ok KPersistentVolumeClaim) in Hpvc as [-> Hpvc]. rewrite scoped_namespaced in Hpvc by done.
  apply bind_Ok_inv in Hrun as (ports & w1 & [-> Hports]%lift_Ok_inv & Hrun).
  apply bind_Ok_inv in Hrun as (m & w1 & [-> Hm]%lift_Ok_inv & Hrun).
  assert (getPodPorts pod = Ok ports) as [-> _]%getPodPorts_Ok
    by (destruct (getPodPorts pod); simpl in Hports; congruence).
  match type of Hm with on_error_res _ ?c = _ => destruct c as [m'| |] eqn:Hset; simpl in Hm; try done end.
  injection Hm as ->. apply SetControllerReference_spec in Hset as (Hmeta & Howner & _).
  apply bind_Ok_inv in Hrun as (created & w1 & Hc%attempt_Ok_inv & Hrun).
  exists cn, ns. split_and!; [done..|]. exists lc, ref, pvc. split_and!; [done..|].
  destruct created as [l'|e].
  - apply ret_Ok_inv in Hrun as [-> ->]. left.
    apply (create_spec KListener) in Hc as (Hnone & Hdef & Hw).
    rewrite scoped_namespaced in * by done. destruct Hdef as [[] ? ? Hpub Hextra ?]. simpl in *.
    unfold key_of in *. rewrite Hmeta in *. simpl in *.
    replace (meta_namespace (listener_meta l')) with ns by done.
    replace (meta_name (listener_meta l')) with (meta_name (pvc_meta pvc)) by done.
    split_and!; [done| |done]. split; try done.
    + unfold key_of; simpl. congruence.
    + by rewrite md_owners.
    + by apply Hpub.
  - destruct (IsAlreadyExists e) eqn:He; [|by apply fail_Ok_inv in Hrun].
    apply (create_spec KListener) in Hc. destruct (Hc He) as [-> _]. clear Hc.
    apply on_error_Ok, (get_Ok KListener) in Hrun as [-> Hl]. rewrite scoped_namespaced in Hl by done.
    right. pose proof (stored_key KListener _ _ _ Hl) as Hkey. rewrite scoped_namespaced in Hkey by done.
    rewrite Hkey. split_and!; [done| |done]. unfold key_of; simpl. by rewrite Hmeta.
Qed.

Lemma getListener_inv pod pv ctx w w' l :
  getListener pod pv ctx w = (w', Ok l) →
  ∃ ns, vc_PodNamespace ctx = Some ns ∧ meta_namespace (listener_meta l) = ns ∧
    stored KListener w' (key_of (k:=KListener) l) = Some l ∧
    ((∃ name, vc_ListenerName ctx = Some name ∧ w' = w ∧ meta_name (listener_meta l) = name) ∨
     (vc_ListenerName ctx = None ∧
      ∃ cn, vc_ListenerClassName ctx = Some cn ∧ listener_made pv pod ns cn w w' l)).
Proof.
  unfold getListener. destruct (vc_ListenerName ctx) as [name|].
  - intros (ns & w1 & [-> Hns%deref_Ok]%lift_Ok_inv & Hrun)%bind_Ok_inv.
    apply (get_Ok KListener) in Hrun as [-> Hl]. rewrite scoped_namespaced in Hl by done.
    pose proof (stored_key KListener _ _ _ Hl) as Hkey. rewrite scoped_namespaced in Hkey by done.
    exists ns. rewrite Hkey. unfold key_of in Hkey; simpl in Hkey. injection Hkey as ? ?. eauto 8.
  - intros (cn & ns & Hcn & Hns & Hmade)%createListener_inv. exists ns.
    pose proof Hmade as (lc & ref & pvc & _ & _ & _ & [(_ & Hfor & Hw)|(-> & Hkey & Hl)]).
    + pose proof (lf_key _ _ _ _ _ _ Hfor) as Hkey. unfold key_of in Hkey; simpl in Hkey.
      injection Hkey as ? ?. split_and!; [done..|by eapply wrote_same|]. right. eauto.
    + unfold key_of in Hkey; simpl in Hkey. injection Hkey as ? ?. split_and!; [done..|]. right. eauto.
Qed.

(** Getting the Listener touches no other object. *)
Lemma getListener_frame pod pv ctx w w' l k key :
  getListener pod pv ctx w = (w', Ok l) → k ≠ KListener ∨ key ≠ key_of (k:=KListener) l →
  stored k w' key = stored k w key.
Proof.
  intros (ns & _ & _ & _ & [(_ & _ & -> & _)|(_ & cn & _ & Hmade)])%getListener_inv Hk; [done|].
  destruct Hmade as (_ & _ & _ & _ & _ & _ & [(_ & _ & Hw)|(-> & _)]); [|done].
  by eapply wrote_other.
Qed.

(** ** The labels *)

(** The labels of the object after the patch: those copied in, over the ones it had. *)
Definition relabelled (new old : gomap string) (labels : gomap string) : Prop :=
  ∀ x, map_get labels x = match map_get new x with Some v => Some v | None => map_get old x end.

Lemma copied_labels (new old merged : gomap string) x :
  maps_Copy (ensure_map old) new = Ok merged →
  map_get merged x = match map_get new x with Some v => Some v | None => map_get old x end.
Proof. intros Hc. rewrite (maps_Copy_get _ _ _ x Hc). by destruct old. Qed.

Lemma merge_entry_current {V} `{EqDecision V} (o m : option V) : merge_entry o m o = m.
Proof. unfold merge_entry. by case_bool_decide. Qed.

Lemma patchPV_inv pv0 l w w' pv :
  patchPVLabelsWithListener pv0 l w = (w', Ok pv) →
  stored KPersistentVolume w (scoped KPersistentVolume (key_of (k:=KPersistentVolume) pv0)) = Some pv0 →
  wrote stored KPersistentVolume (scoped KPersistentVolume (key_of (k:=KPersistentVolume) pv0)) pv w w' ∧
  pv = with_pv_labels (meta_labels (pv_meta pv)) pv0 ∧
  relabelled (ListenerMetaLabels l) (meta_labels (pv_meta pv0)) (meta_labels (pv_meta pv)).
Proof.
  unfold patchPVLabelsWithListener.
  intros (labels & w1 & [-> Hcopy]%lift_Ok_inv & Hp)%bind_Ok_inv Hst.
  apply (patch_spec KPersistentVolume) in Hp as (c & Hc & Hpat & Hw).
  change (key_of (k:=KPersistentVolume) (with_pv_labels labels pv0))
    with (key_of (k:=KPersistentVolume) pv0) in *.
  rewrite Hst in Hc. injection Hc as <-. destruct (Hpat eq_refl) as [Hn Hlab].
  split_and!; [done..|]. intros x. rewrite Hlab. simpl. rewrite merge_entry_current.
  by apply copied_labels.
Qed.

Lemma patchPod_inv pod0 l w w' pod :
  patchPodLabelsWithListener pod0 l w = (w', Ok pod) →
  stored KPod w (key_of (k:=KPod) pod0) = Some pod0 →
  wrote stored KPod (key_of (k:=KPod) pod0) pod w w' ∧
  pod = with_pod_labels (meta_labels (pod_meta pod)) pod0 ∧
  relabelled (ListenerMountPodLabels l) (meta_labels (pod_meta pod0)) (meta_labels (pod_meta pod)).
Proof.
  unfold patchPodLabelsWithListener.
  intros (labels & w1 & [-> Hcopy]%lift_Ok_inv & Hp)%bind_Ok_inv Hst.
  apply (patch_spec KPod) in Hp as (c & Hc & Hpat & Hw).
  change (key_of (k:=KPod) (with_pod_labels labels pod0)) with (key_of (k:=KPod) pod0) in *.
  rewrite scoped_namespaced in * by done.
  rewrite Hst in Hc. injection Hc as <-. destruct (Hpat eq_refl) as [Hn Hlab].
  split_and!; [done..|]. intros x. rewrite Hlab. simpl. rewrite merge_entry_current.
  by apply copied_labels.
Qed.

(** ** PodListeners *)

(** The PodListeners object of a pod. *)
Definition podlisteners_key (pod : Pod) : ObjectKey :=
  Key (meta_namespace (pod_meta pod)) ("pod-" +:+ meta_uid (pod_meta pod)).

(** The entry for a volume. *)
Definition entry_of (listener : Listener) (data : list IngressAddress) : PodListener :=
  {| pl_scope := determinePodListenerScope listener; pl_listenerIngresses := ingress_spec <$> data |}.

(** [w'] is [w] with the entry [volume] of the pod's PodListeners set to [pl]: the object is
    created when it is missing, and the entries of the other volumes stay. *)
Definition recorded (pod : Pod) (volume : string) (pl : PodListener) (w w' : W) : Prop :=
  ∃ pls, wrote stored KPodListeners (podlisteners_key pod) pls w w' ∧
    map_get (pls_listeners pls) volume = Some pl ∧
    ∀ x, x ≠ volume → map_get (pls_listeners pls) x =
      (old ← stored KPodListeners w (podlisteners_key pod); map_get (pls_listeners old) x).

Lemma build_inv pod l v scope data obj :
  buildPodListenersObject pod l v scope data = Ok obj →
  key_of (k:=KPodListeners) obj = podlisteners_key pod ∧
  pls_listeners obj = Some {[ v := {| pl_scope := scope; pl_listenerIngresses := ingress_spec <$> data |} ]}.
Proof.
  unfold buildPodListenersObject. destruct (SetControllerReference _ _ _) as [m| |] eqn:Hset.
  - intros [= <-]. apply SetControllerReference_spec in Hset as (Hm & _).
    unfold key_of; simpl. by rewrite Hm.
  - by intros [= <-].
  - by apply SetControllerReference_spec in Hset.
Qed.

(** A merge patch that sets one entry of a map of objects. *)
Lemma merge_listener_set o m n : merge_listener o (Some m) o n → n = Some m.
Proof.
  destruct o as [o|]; simpl; [|done]. intros ->. f_equal.
  destruct m as [sc ing], o as [sc' ing']; simpl. repeat case_bool_decide; by subst.
Qed.
Lemma merge_listener_keep o n : merge_listener o o o n → n = o.
Proof.
  destruct o as [[sc ing]|]; simpl; [|done]. intros ->. by rewrite !bool_decide_eq_true_2.
Qed.

Lemma createOrUpdate_inv obj v pl w w' :
  pls_listeners obj = Some {[ v := pl ]} → createOrUpdatePodListeners obj v w = (w', Ok ()) →
  ∃ pls, wrote stored KPodListeners (key_of (k:=KPodListeners) obj) pls w w' ∧
    map_get (pls_listeners pls) v = Some pl ∧
    ∀ x, x ≠ v → map_get (pls_listeners pls) x =
      (old ← stored KPodListeners w (key_of (k:=KPodListeners) obj); map_get (pls_listeners old) x).
Proof.
  intros Hobj Hrun. unfold createOrUpdatePodListeners in Hrun.
  apply bind_Ok_inv in Hrun as (found & w1 & Hfound%attempt_Ok_inv & Hrun).
  destruct found as [old|e].
  - apply (get_Ok KPodListeners) in Hfound as [-> Hold]. rewrite scoped_namespaced in Hold by done.
    pose proof (stored_key KPodListeners _ _ _ Hold) as Hkey. rewrite scoped_namespaced in Hkey by done.
    apply bind_Ok_inv in Hrun as (ls & w2 & [-> Hset]%lift_Ok_inv & Hrun).
    apply bind_Ok_inv in Hrun as (pls & w2 & Hp%on_error_Ok & [-> _]%ret_Ok_inv).
    apply (patch_spec KPodListeners) in Hp as (c & Hc & Hpat & Hw).
    change (key_of (k:=KPodListeners) (with_listeners ls old)) with (key_of (k:=KPodListeners) old) in *.
    rewrite scoped_namespaced, Hkey in * by done. rewrite Hold in Hc. injection Hc as <-.
    destruct (Hpat eq_refl) as [_ Hent]. exists pls. split; [done|].
    assert (∀ x, map_get ls x = if decide (v = x) then Some pl else map_get (pls_listeners old) x) as Hls.
    { intros x. rewrite (map_get_set _ _ _ _ x Hset), Hobj. unfold map_get at 1; simpl.
      rewrite lookup_singleton_eq. simpl. case_decide; [done|]. by destruct (pls_listeners old). }
    split.
    + specialize (Hent v). simpl in Hent. rewrite Hls, decide_True in Hent by done.
      by apply merge_listener_set in Hent.
    + intros x Hx. specialize (Hent x). simpl in Hent. rewrite Hls, decide_False in Hent by done.
      apply merge_listener_keep in Hent. by rewrite Hold.
  - apply (get_spec KPodListeners) in Hfound as [-> Hnf].
    destruct (IsNotFound e) eqn:He; [|by apply fail_Ok_inv in Hrun].
    specialize (Hnf eq_refl). rewrite scoped_namespaced in Hnf by done.
    apply bind_Ok_inv in Hrun as (pls & w2 & Hc%on_error_Ok & [-> _]%ret_Ok_inv).
    apply (create_spec KPodListeners) in Hc as (_ & [_ Hls] & Hw).
    rewrite scoped_namespaced in Hw by done. exists pls. split; [done|].
    unfold map_get. rewrite Hls, Hobj, Hnf. simpl. split; [apply lookup_singleton_eq|].
    intros x Hx. by rewrite lookup_singleton_ne.
Qed.

Lemma publishPodListener_inv pod pv l data w w' :
  publishPodListener pod pv l data w = (w', Ok ()) →
  ∃ ref vol, pv_claimRef pv = Some ref ∧
    List.find (is_volume_of pod (claim_name ref)) (pod_volumes pod) = Some vol ∧
    recorded pod (pv_volume_name vol) (entry_of l data) w w'.
Proof.
  unfold publishPodListener. intros Hrun.
  apply bind_Ok_inv in Hrun as (ref & w1 & [-> Href%deref_Ok]%lift_Ok_inv & Hrun).
  apply bind_Ok_inv in Hrun as (v & w1 & [-> Hv]%lift_Ok_inv & Hrun).
  apply bind_Ok_inv in Hrun as (obj & w1 & [-> Hb]%lift_Ok_inv & Hrun).
  apply build_inv in Hb as [Hkey Hls]. unfold findPodVolumeNameForPVC in Hv.
  destruct (List.find _ _) as [vol|] eqn:Hfind; [|done]. injection Hv as <-.
  exists ref, vol. split_and!; [done..|]. unfold recorded. rewrite <- Hkey.
  by eapply createOrUpdate_inv.
Qed.

(** ** What a published volume means in the cluster *)

(** Where the Listener of the volume comes from. *)
Definition listener_source (request : NodePublishVolumeRequest) (w : W) (pv : PersistentVolume)
    (pod : Pod) (ns : string) (l : Listener) : Prop :=
  let ctx := np_volumeContext request in
  match map_get ctx AnnotationListenerName with
  | Some name => key_of (k:=KListener) l = Key ns name ∧
                 stored KListener w (key_of (k:=KListener) l) = Some l
  | None =>
      ∃ cn lc ref pvc, map_get ctx ListenerClassAnnotation = Some cn ∧
        stored KListenerClass w (Key "" cn) = Some lc ∧ pv_claimRef pv = Some ref ∧
        stored KPersistentVolumeClaim w (Key (claim_namespace ref) (claim_name ref)) = Some pvc ∧
        key_of (k:=KListener) l = Key ns (meta_name (pvc_meta pvc)) ∧
        (stored KListener w (key_of (k:=KListener) l) = Some l ∨
         stored KListener w (key_of (k:=KListener) l) = None ∧ listener_for pv pvc pod ns lc l)
  end.

Record publication (request : NodePublishVolumeRequest) (w w' : W) (name ns : string)
    (pv0 : PersistentVolume) (pod0 : Pod) (l : Listener) (data : list IngressAddress)
    (vol : PodVolume) : Prop := {
  pn_name : map_get (np_volumeContext request) CSI_STORAGE_POD_NAME = Some name;
  pn_ns : map_get (np_volumeContext request) CSI_STORAGE_POD_NAMESPACE = Some ns;
  pn_pv0 : stored KPersistentVolume w (Key "" (np_volumeId request)) = Some pv0;
  pn_pod0 : stored KPod w (Key ns name) = Some pod0;
  pn_source : listener_source request w pv0 pod0 ns l;
  pn_listener : stored KListener w' (key_of (k:=KListener) l) = Some l;
  (* the labels, and only they, change *)
  pn_pv : ∃ labels,
    stored KPersistentVolume w' (Key "" (np_volumeId request)) = Some (with_pv_labels labels pv0) ∧
    relabelled (ListenerMetaLabels l) (meta_labels (pv_meta pv0)) labels;
  pn_pod : ∃ labels,
    stored KPod w' (Key ns name) = Some (with_pod_labels labels pod0) ∧
    relabelled (ListenerMountPodLabels l) (meta_labels (pod_meta pod0)) labels;
  pn_addresses : addresses_of w' pod0 l data;
  (* the entry of the volume, and only it, is set *)
  pn_volume : ∃ ref, pv_claimRef pv0 = Some ref ∧
    List.find (is_volume_of pod0 (claim_name ref)) (pod_volumes pod0) = Some vol;
  pn_entry : ∃ pls, stored KPodListeners w' (podlisteners_key pod0) = Some pls ∧
    map_get (pls_listeners pls) (pv_volume_name vol) = Some (entry_of l data) ∧
    ∀ x, x ≠ pv_volume_name vol → map_get (pls_listeners pls) x =
      (old ← stored KPodListeners w (podlisteners_key pod0); map_get (pls_listeners old) x);
  (* nothing else changes *)
  pn_frame : ∀ k key, (k, key) ≠ (KPersistentVolume, Key "" (np_volumeId request)) →
    (k, key) ≠ (KPod, Key ns name) → (k, key) ≠ (KListener, key_of (k:=KListener) l) →
    (k, key) ≠ (KPodListeners, podlisteners_key pod0) → stored k w' key = stored k w key;
}.

Lemma source_of_run request pod0 pv0 w w1 l ns :
  map_get (np_volumeContext request) CSI_STORAGE_POD_NAMESPACE = Some ns →
  getListener pod0 pv0 (newVolumeContextFromMap (np_volumeContext request)) w = (w1, Ok l) →
  listener_source request w pv0 pod0 ns l ∧ stored KListener w1 (key_of (k:=KListener) l) = Some l.
Proof.
  intros Hns (ns' & Hns' & Hlns & Hl & Hsrc)%getListener_inv. simpl in *.
  rewrite Hns in Hns'. injection Hns' as <-. split; [|done]. unfold listener_source.
  destruct Hsrc as [(lname & -> & -> & Hname)|(-> & cn & -> & Hmade)].
  - split; [|done]. unfold key_of; simpl. congruence.
  - destruct Hmade as (lc & ref & pvc & Hlc & Href & Hpvc & [(Hnone & Hfor & _)|(-> & Hkey & _)]).
    + exists cn, lc, ref, pvc. pose proof (lf_key _ _ _ _ _ _ Hfor). split_and!; eauto.
    + exists cn, lc, ref, pvc. split_and!; eauto.
Qed.

(** The calls of the API that precede the files, together. *)
Lemma published_publication request w w' pv0 pv pod0 pod l0 l data w1 w2 w3 :
  published request w w' pv0 pv pod0 pod l0 l data w1 w2 w3 →
  ∃ name ns vol, publication request w w' name ns pv0 pod0 l data vol.
Proof.
  intros [Hpv0 (name & ns & Hname & Hns & Hpod0) Hget Hppv Hppod Haddr Hrec].
  destruct (source_of_run _ _ _ _ _ _ _ Hns Hget) as [Hsrc Hl1].
  pose proof (λ k key, getListener_frame _ _ _ _ _ _ k key Hget) as Hfr1.
  pose proof (stored_key KPersistentVolume _ _ _ Hpv0) as Hkpv.
  pose proof (stored_key KPod _ _ _ Hpod0) as Hkpod. rewrite scoped_namespaced in Hkpod by done.
  apply patchPV_inv in Hppv as (Hw2 & Hpveq & Hpvl);
    [|rewrite Hkpv; rewrite Hfr1; [done|by left]].
  rewrite Hkpv in Hw2.
  apply patchPod_inv in Hppod as (Hw3 & Hpodeq & Hpodl);
    [|rewrite Hkpod, (wrote_other _ _ _ _ _ _ _ Hw2), Hfr1; [done|by left|by left]].
  rewrite Hkpod in Hw3.
  apply getAddresses_inv in Haddr as (_ & Hl3 & Haddr).
  rewrite (wrote_other _ _ _ _ _ _ _ Hw3), (wrote_other _ _ _ _ _ _ _ Hw2), Hl1 in Hl3 by (by left).
  injection Hl3 as <-.
  apply publishPodListener_inv in Hrec as (ref & vol & Href & Hvol & pls & Hw4 & Hent & Hoth).
  assert (podlisteners_key pod = podlisteners_key pod0) as Hkey by (by rewrite Hpodeq).
  rewrite Hkey in *.
  exists name, ns, vol. split; try done.
  - by rewrite (wrote_other _ _ _ _ _ _ _ Hw4), (wrote_other _ _ _ _ _ _ _ Hw3),
      (wrote_other _ _ _ _ _ _ _ Hw2) by (by left).
  - exists (meta_labels (pv_meta pv)). split; [|done]. rewrite <- Hpveq.
    rewrite (wrote_other _ _ _ _ _ _ _ Hw4), (wrote_other _ _ _ _ _ _ _ Hw3) by (by left).
    by eapply wrote_same.
  - exists (meta_labels (pod_meta pod)). split; [|done]. rewrite <- Hpodeq.
    rewrite (wrote_other _ _ _ _ _ _ _ Hw4) by (by left). by eapply wrote_same.
  - unfold addresses_of in *. rewrite (wrote_other _ _ _ _ _ _ _ Hw4) by (by left).
    by rewrite Hpodeq in Haddr.
  - exists ref. rewrite Hpveq in Href. rewrite Hpodeq in Hvol. done.
  - exists pls. split_and!; [by eapply wrote_same|done|]. intros x Hx. rewrite Hoth by done.
    by rewrite (wrote_other _ _ _ _ _ _ _ Hw3), (wrote_other _ _ _ _ _ _ _ Hw2), Hfr1 by (by left).
  - intros k key Hn1 Hn2 Hn3 Hn4.
    rewrite (wrote_other _ _ _ _ _ _ _ Hw4), (wrote_other _ _ _ _ _ _ _ Hw3),
      (wrote_other _ _ _ _ _ _ _ Hw2), Hfr1; [done|..];
      match goal with |- ?k ≠ ?k0 ∨ ?key ≠ ?key0 =>
        destruct (decide (k = k0)) as [->|]; [right; congruence|by left] end.
Qed.

Lemma publish_Ok_inv request w fs w' fs' :
  NodePublishVolume request (w, fs) = ((w', fs'), Ok ()) →
  ∃ name ns pv0 pod0 l data vol fs1,
    publication request w w' name ns pv0 pod0 l data vol ∧
    mount (np_targetPath request) fs = (fs1, Ok ()) ∧
    writeData (np_targetPath request) (Some data) fs1 = (fs', Ok ()).
Proof.
  intros [[_ Hno]|(pv0 & pv & pod0 & pod & l0 & l & data & w1 & w2 & w3 & Hp & Hf)]%publish_cases;
    [by destruct (Hno ())|]. apply published_publication in Hp as (name & ns & vol & Hp).
  unfold publish_files in Hf. apply bind_Ok_inv in Hf as ([] & fs1 & Hm%on_error_Ok & Hw%on_error_Ok).
  simpl in *. eauto 12.
Qed.

(** C1: A successful [NodePublishVolume] leaves in the cluster exactly what a published volume
    means: the Listener the volume context names, or the one of the claim's name, created
    from the class, the claim and the named ports of the pod when it is missing; its name
    and namespace as labels of the persistent volume; its mount label on the pod; the
    addresses and the scope under the volume's name in the pod's PodListeners.  All other
    labels, fields, entries and objects are as before. *)
Theorem NodePublishVolume_publishes request w fs w' fs' :
  NodePublishVolume request (w, fs) = ((w', fs'), Ok ()) →
  ∃ name ns pv0 pod0 l data vol, publication request w w' name ns pv0 pod0 l data vol.
Proof. intros (? & ? & ? & ? & ? & ? & ? & ? & ? & _)%publish_Ok_inv. eauto 10. Qed.

(** C25: Publishing does its part of the selection: every Service that conforms to the Listener selects
    the pod of a published volume if and only if the pod carries the extra selector labels of the
    Listener's specification; the label for the mount is there.  For a Listener without extra labels
    the pod is always selected. *)
Theorem published_pod_selected request w fs w' fs' :
  NodePublishVolume request (w, fs) = ((w', fs'), Ok ()) →
  ∃ name ns pv0 pod0 l data vol labels,
    publication request w w' name ns pv0 pod0 l data vol ∧
    stored KPod w' (Key ns name) = Some (with_pod_labels labels pod0) ∧
    ∀ lc svc, conforms l lc svc →
      map_entries (svc_selector (svc_spec svc)) ⊆ map_entries labels ↔
      map_entries (ls_extraPodSelectorLabels (listener_spec l)) ⊆ map_entries labels.
Proof.
  intros (name & ns & pv0 & pod0 & l & data & vol & _ & Hp & _)%publish_Ok_inv.
  destruct (pn_pod _ _ _ _ _ _ _ _ _ _ Hp) as (labels & Hpod & Hlab).
  exists name, ns, pv0, pod0, l, data, vol, labels. split_and!; [done..|].
  intros lc svc Hconf. split; intros Hextra; apply map_subseteq_spec; intros k v Hk.
  { eapply map_subseteq_spec in Hextra; [exact Hextra|].
    change (map_get (svc_selector (svc_spec svc)) k = Some v). rewrite (cf_selector _ _ _ Hconf).
    unfold selector_spec. unfold map_get. by rewrite Hk. }
  change (map_get (svc_selector (svc_spec svc)) k = Some v) in Hk.
  rewrite (cf_selector _ _ _ Hconf) in Hk. unfold selector_spec in Hk.
  destruct (map_get (ls_extraPodSelectorLabels (listener_spec l)) k) as [v'|] eqn:He.
  - injection Hk as ->. eapply map_subseteq_spec in Hextra; [exact Hextra|done].
  - case_decide as Hkey; [|done]. injection Hk as <-. subst k.
    change (map_get labels (mount_label (meta_uid (listener_meta l))) = Some (meta_name (listener_meta l))).
    rewrite Hlab. unfold map_get; simpl. by rewrite lookup_singleton_eq.
Qed.

(** ** The files *)

(** Addresses and port names that can be file names, as Kubernetes validates them. *)
Definition names_ok (w : W) : Prop :=
  (∀ key l, stored KListener w key = Some l →
     Forall nameable (ingress_address <$> lst_ingressAddresses (listener_status l)) ∧
     ∀ n p, map_get (lst_nodePorts (listener_status l)) n = Some p → plain n) ∧
  (∀ key node, stored KNode w key = Some node →
     Forall (λ a, plain (na_address a)) (node_addresses node)).

Lemma prior_address_plain node a :
  Forall (λ a, plain (na_address a)) (node_addresses node) → GetPriorNodeAddress node = Ok a →
  plain (Address a).
Proof.
  intros Hall. unfold GetPriorNodeAddress. rewrite prior_address_find.
  destruct (List.find _ _) as [na|] eqn:Hf; [|done]. intros [= <-]. simpl.
  apply find_Some_split in Hf as (_ & l1 & l2 & Heq & _). rewrite Heq in Hall.
  apply Forall_app in Hall as [_ Hall]. by apply Forall_cons in Hall as [? _].
Qed.

Lemma data_nameable request w w' name ns pv0 pod0 l data vol :
  names_ok w → publication request w w' name ns pv0 pod0 l data vol → Forall nameable data.
Proof.
  intros [Hlis Hnode] Hp. assert (stored KListener w (key_of (k:=KListener) l) = Some l ∨
    listener_status l = no_status) as Hl.
  { pose proof (pn_source _ _ _ _ _ _ _ _ _ _ Hp) as Hs. unfold listener_source in Hs. case_match.
    - left. by destruct Hs.
    - destruct Hs as (cn & lc & ref & pvc & _ & _ & _ & _ & _ & [Hst|[_ Hf]]); [by left|].
      right. by eapply lf_status. }
  destruct (pn_addresses _ _ _ _ _ _ _ _ _ _ Hp) as
    [(Hne & node & a & Hn & Ha & ->)|(_ & Hne & ->)]; destruct Hl as [Hl|Hl]; rewrite ?Hl in Hne; try done.
  - apply Forall_cons_2; [|apply Forall_nil_2]. split; simpl; [|by apply (Hlis _ _ Hl)].
    eapply prior_address_plain; [|done]. apply (Hnode (Key "" (pod_nodeName pod0))).
    rewrite <- Hn. symmetry. by eapply pn_frame.
  - by apply (Hlis _ _ Hl).
Qed.

(** An absolute target path in clean form that crosses no link or file. *)
Record good_target (fs : FS) (target : string) (T d : location) (x : string) : Prop := {
  gt_path : target = abs T;
  gt_snoc : T = d ++ [x];
  gt_plain : Forall plain T;
  gt_wf : fs_wf T fs;
  gt_clear : clear (fs_nodes fs) T;
}.

(** The tree of a published volume: the target was not there; the layout of [data] is under
    it; elsewhere only missing directories on the way to the target were made; and the
    target is the last mount. *)
Definition shows (T : location) (data : list IngressAddress) (fs fs' : FS) : Prop :=
  (∀ q, fs_nodes fs !! (T ++ q) = None) ∧
  (∀ q n, q ≠ [] → fs_nodes fs' !! (T ++ q) = Some n ↔ layout data q n) ∧
  dirs (fs_nodes fs') T ∧
  (∀ p, ¬ T `prefix_of` p → fs_nodes fs' !! p = fs_nodes fs !! p ∨
        (p `prefix_of` T ∧ p ≠ [] ∧ fs_nodes fs !! p = None ∧ fs_nodes fs' !! p = Some Dir)) ∧
  fs_mounts fs' = (T, ∅) :: fs_mounts fs.

Lemma fresh_shape T fs : dirs (fs_nodes fs) T → (∀ q, q ≠ [] → fs_nodes fs !! (T ++ q) = None) →
  shape_inv T (fs_nodes fs).
Proof. intros Hd Hn. split; [done|]. intros q n Hq Hx. by rewrite Hn in Hx. Qed.

Lemma put_all_not_under T L t p : ¬ T `prefix_of` p → put_all T L t !! p = t !! p.
Proof. intros Hp. apply put_all_outside. intros e _ ->. by apply Hp, prefix_app_r. Qed.

(** Writing the volume leaves the way to the target alone. *)
Lemma dirs_put_entries T L t : (∀ e, e ∈ L → e.1 ≠ []) → dirs t T → dirs (put_all T L t) T.
Proof.
  intros HL Hd p Hp Hne. rewrite put_all_outside; [by apply Hd|]. intros e He ->.
  by apply (not_below_itself T e.1 _ (HL _ He)) in Hp.
Qed.
Lemma volume_entries_nonempty data dl e :
  last data = Some dl → e ∈ volume_entries data ++ [default_entry dl] → e.1 ≠ [].
Proof.
  intros Hlast He. destruct e as [q n]. apply elem_of_volume_entries in He; [|done]. by eapply layout_nonempty.
Qed.
Lemma dirs_put_all T data dl t :
  last data = Some dl → dirs t T → dirs (put_all T (volume_entries data ++ [default_entry dl]) t) T.
Proof. intros Hlast. apply dirs_put_entries. intros e. by apply volume_entries_nonempty. Qed.

Lemma files_shown target T d x data dl fs fs1 fs' :
  good_target fs target T d x → Forall nameable data → last data = Some dl →
  NoDup ((λ d, Address (ia_info d)) <$> data) →
  mount target fs = (fs1, Ok ()) → writeData target (Some data) fs1 = (fs', Ok ()) →
  shows T data fs fs'.
Proof.
  intros [-> Hsnoc Hplain Hwf Hclear] Hname Hlast Hnd Hm Hw.
  pose proof (T_nonempty T d x Hsnoc) as HTne.
  eapply mount_Ok in Hm as (Hnone & Hg & Hd & Hbelow & Hmounts); [|done..].
  pose proof (fresh_shape _ _ Hd Hbelow) as Hshape.
  eapply writeData_scripted in Hw as [(Hm2 & _) Hnodes]; [|done..]. unfold shows. rewrite Hnodes.
  split_and!; [done| | | |by rewrite Hm2].
  - intros q n Hq. by apply put_all_layout.
  - by apply dirs_put_all.
  - intros p Hp. rewrite put_all_not_under by done. apply Hg.
Qed.

(** C16: The directory of a published volume holds exactly the documented layout: one directory
    per address with the address and a file per port name holding the port number, and
    "default-address" linking to the directory of the last address.  The target did not
    exist before, nothing outside it changed but the directories made on the way to it, and
    it is the mount point of a new file system. *)
Theorem NodePublishVolume_layout request w fs w' fs' T d x :
  NodePublishVolume request (w, fs) = ((w', fs'), Ok ()) →
  good_target fs (np_targetPath request) T d x → names_ok w →
  ∃ name ns pv0 pod0 l data vol,
    publication request w w' name ns pv0 pod0 l data vol ∧
    (NoDup ((λ d, Address (ia_info d)) <$> data) → shows T data fs fs').
Proof.
  intros (name & ns & pv0 & pod0 & l & data & vol & fs1 & Hp & Hm & Hw)%publish_Ok_inv Hgt Hnames.
  destruct (addresses_of_nonempty _ _ _ _ (pn_addresses _ _ _ _ _ _ _ _ _ _ Hp)) as [dl Hlast].
  exists name, ns, pv0, pod0, l, data, vol. split; [done|]. intros Hnd.
  eapply files_shown; eauto. by eapply data_nameable.
Qed.

(** Whatever a publication ends with: directories were made on the way to the target, files were
    written under it, and the target was mounted at most once. *)
Lemma publish_effect request w fs s' r T d x :
  NodePublishVolume request (w, fs) = (s', r) →
  good_target fs (np_targetPath request) T d x → names_ok w →
  (∀ p, ¬ T `prefix_of` p → fs_nodes s'.2 !! p = fs_nodes fs !! p ∨
     (p `prefix_of` T ∧ p ≠ [] ∧ fs_nodes fs !! p = None ∧ fs_nodes s'.2 !! p = Some Dir)) ∧
  clear (fs_nodes s'.2) T ∧
  (fs_mounts s'.2 = fs_mounts fs ∧ r ≠ Ok () ∧ (∀ q, q ≠ [] → fs_nodes s'.2 !! (T ++ q) = fs_nodes fs !! (T ++ q)) ∨
   fs_mounts s'.2 = (T, ∅) :: fs_mounts fs ∧ dirs (fs_nodes s'.2) T).
Proof.
  intros Hrun [Htarget Hsnoc Hplain Hwf Hclear] Hnames.
  apply publish_cases in Hrun as [[-> Hno]|(pv0 & pv & pod0 & pod & l0 & l & data & w1 & w2 & w3 & Hpb & Hf)];
    [by auto 10|]. apply published_publication in Hpb as (name & ns & vol & Hpb).
  destruct (addresses_of_nonempty _ _ _ _ (pn_addresses _ _ _ _ _ _ _ _ _ _ Hpb)) as [dl Hlast].
  rewrite Htarget in Hf. unfold publish_files in Hf.
  apply bind_inv in Hf as [([] & fs1 & Hm%on_error_Ok & Hw)|Hf].
  - pose proof Hm as [Hg _]%(mount_effect T d x); [|done..].
    pose proof Hm as (_ & _ & Hd & Hbelow & Hmounts)%(mount_Ok T d x); [|done..].
    unfold on_error in Hw. destruct (writeData (abs T) (Some data) fs1) as [fs2 r2] eqn:Hwd.
    eapply writeData_scripted in Hwd as [(Hm2 & _) Hn];
      [|done|by eapply T_nonempty|by eapply data_nameable|done|by apply fresh_shape].
    assert (fs2 = s'.2) as <- by (destruct r2; naive_solver).
    assert (∃ L, fs_nodes fs2 = put_all T L (fs_nodes fs1) ∧ ∀ e, e ∈ L → e.1 ≠ []) as (L & -> & HL).
    { destruct r2 as [[]|e|]; [eexists; split; [exact Hn|]|destruct Hn as (_ & L' & [L2 Hpre] & ->)|done].
      - intros e. by apply volume_entries_nonempty.
      - exists L'. split; [done|]. intros e1 He. apply (volume_entries_nonempty data dl); [done|].
        rewrite Hpre. set_solver. }
    pose proof (dirs_put_entries T L _ HL Hd) as Hd2. split_and!.
    + intros p Hp. rewrite put_all_not_under by done. apply Hg.
    + by apply clear_dirs.
    + right. by rewrite Hm2.
  - unfold on_error in Hf. destruct (mount (abs T) fs) as [fs1 r1] eqn:Hm.
    assert (fs1 = s'.2) as <- by (destruct r1; naive_solver).
    eapply mount_effect in Hm as [Hg Hmt]; [|done..]. split_and!.
    + intros p _. apply Hg.
    + by eapply grown_clear.
    + left. destruct Hmt as [->|Hmt]; [naive_solver|]. split_and!; [done|by destruct Hf as [(? & _ & ->)|[_ ->]]|].
      intros q Hq. destruct (Hg (T ++ q)) as [|[Hp _]]; [done|]. by apply (not_below_itself T q (T ++ q) Hq) in Hp.
Qed.

(** Whatever [NodePublishVolume] ends with, it changes no file outside the target but for
    missing directories it makes on the way to it. *)
Lemma NodePublishVolume_confined request w fs s' r T d x p :
  NodePublishVolume request (w, fs) = (s', r) →
  good_target fs (np_targetPath request) T d x → names_ok w → ¬ T `prefix_of` p →
  fs_nodes s'.2 !! p = fs_nodes fs !! p ∨
  (p `prefix_of` T ∧ fs_nodes fs !! p = None ∧ fs_nodes s'.2 !! p = Some Dir).
Proof.
  intros Hrun Hgt Hnames Hp. destruct (publish_effect _ _ _ _ _ _ _ _ Hrun Hgt Hnames) as [Hout _].
  destruct (Hout p Hp); naive_solver.
Qed.

(** A target that is already there is refused, and the file system is left as it was. *)
Lemma publish_refused request w fs s' r T d x :
  NodePublishVolume request (w, fs) = (s', r) →
  np_targetPath request = abs T → T = d ++ [x] → Forall plain T → dirs (fs_nodes fs) T →
  r ≠ Ok () ∧ fs_nodes s'.2 = fs_nodes fs ∧ fs_mounts s'.2 = fs_mounts fs.
Proof.
  intros Hrun Htarget Hsnoc Hplain Hd.
  apply publish_cases in Hrun as [[-> Hno]|(pv0 & pv & pod0 & pod & l0 & l & data & w1 & w2 & w3 & _ & Hf)];
    [done|]. rewrite Htarget in Hf. unfold publish_files, mount, mbind, M_bind, on_error in Hf.
  destruct (PathExists (abs T) fs) as [fs1 [b|e|]] eqn:Hpe.
  - eapply PathExists_dir in Hpe as [(Hn & Hm & _) ->]; [|done..]. injection Hf as <- <-. done.
  - apply PathExists_spec in Hpe as [(Hn & Hm & _) _]. injection Hf as <- <-. done.
  - by apply PathExists_spec in Hpe as [_ ?].
Qed.

(** Unpublishing undoes publishing on the node: when the parent of the target was there,
    the files and the mount table are again those before the volume was published. *)
Lemma publish_unpublish request w fs w' fs' volumeId s2 T d x :
  NodePublishVolume request (w, fs) = ((w', fs'), Ok ()) →
  NodeUnpublishVolume volumeId (np_targetPath request) (w', fs') = (s2, Ok ()) →
  good_target fs (np_targetPath request) T d x → dirs (fs_nodes fs) d → names_ok w →
  s2.1 = w' ∧ fs_nodes s2.2 = fs_nodes fs ∧ fs_mounts s2.2 = fs_mounts fs.
Proof.
  intros (name & ns & pv0 & pod0 & l & data & vol & fs1 & Hp & Hm & Hw)%publish_Ok_inv Hun Hgt Hd Hnames.
  pose proof Hgt as [Htarget Hsnoc Hplain Hwf Hclear]. rewrite Htarget in *.
  destruct (addresses_of_nonempty _ _ _ _ (pn_addresses _ _ _ _ _ _ _ _ _ _ Hp)) as [dl Hlast].
  eapply (mount_Ok T d x) in Hm as (Hnone & Hg & HdT & Hbelow & Hmounts); [|done..].
  eapply writeData_scripted in Hw as [(Hm2 & _) Hn];
    [|done|by eapply T_nonempty|by eapply data_nameable|done|by apply fresh_shape].
  assert (∀ p, ¬ T `prefix_of` p → fs_nodes fs' !! p = fs_nodes fs1 !! p) as Hout.
  { intros p Hnp. rewrite Hn. by apply put_all_not_under. }
  assert (dirs (fs_nodes fs') T) as HdT'.
  { rewrite Hn. apply (dirs_put_all T _ dl); done. }
  eapply (unpublish_inv T d x) in Hun as (Hw2 & _ & Hms & Hnodes); [|done|done| | |].
  - split_and!; [done| |].
    + apply map_eq. intros p. rewrite Hnodes. case_decide as Hpre.
      * destruct Hpre as [q ->]. by rewrite Hnone.
      * rewrite Hout by done. destruct (Hg p) as [->|(HpT & Hne & Hfs & _)]; [done|].
        rewrite Hsnoc in HpT. apply prefix_snoc_cases in HpT as [HpT|HpT].
        -- by rewrite Hd in Hfs.
        -- rewrite <- Hsnoc in HpT. by subst p.
    + rewrite Hms, Hm2, Hmounts. simpl. by rewrite bool_decide_eq_true_2.
  - unfold mounts_wf. rewrite Hm2, Hmounts. apply Forall_cons_2; [|by destruct Hwf].
    simpl. intros p [? Hx]. by rewrite lookup_empty in Hx.
  - rewrite Hsnoc in HdT'. by apply dirs_snoc in HdT' as [? _].
  - by apply clear_dirs.
Qed.
End publish.
