(* ===== verification/CsiNodeSafety.v ===== *)
(** * Panics, retries and liveness of the CSI node service

    When [NodePublishVolume] of internal/csi/node.go panics on a nil pointer and when it
    cannot; that the volume context the controller service returns is enough; that writing
    the files succeeds on a healthy file system; and what unpublishing guarantees. *)
From S2P Require Import Prelude GoRuntime GoStrings Api GoOs CsiTypes Util Service Reconciler.
From S2P Require Import CsiController CsiNode CsiNodeFiles CsiNodePublish.
Import Util.Address Util.Constant ListenerReconciler NodeServer.

(** ** Computations that never panic *)

Definition panic_free {S A} (c : M S A) (s : S) : Prop := ∀ s', c s ≠ (s', Panic).
Definition safe {S A} (c : M S A) : Prop := ∀ s, panic_free c s.

Section safe.
Context {S : Type}.

Lemma safe_ret {A} (a : A) : safe (mret a : M S A).
Proof. done. Qed.
Lemma safe_fail {A} e : safe (fail e : M S A).
Proof. done. Qed.
Lemma safe_bind {A B} (c : M S A) (f : A → M S B) : safe c → (∀ a, safe (f a)) → safe (c ≫= f).
Proof.
  intros Hc Hf s s' [(a & s1 & _ & H)|[(e & _ & ?)|[H _]]]%bind_inv;
    [by apply Hf in H|done|by apply Hc in H].
Qed.
Lemma safe_on_error {A} g (c : M S A) : safe c → safe (on_error g c).
Proof. intros Hc s s'. unfold on_error. specialize (Hc s). unfold panic_free in Hc. destruct (c s) as [? []]; naive_solver. Qed.
Lemma safe_attempt {A} (c : M S A) : safe c → safe (attempt c).
Proof. intros Hc s s'. unfold attempt. specialize (Hc s). unfold panic_free in Hc. destruct (c s) as [? []]; naive_solver. Qed.
Lemma safe_lift {A} (r : res A) : r ≠ Panic → safe (lift r : M S A).
Proof. intros Hr s s'. unfold lift. naive_solver. Qed.
Lemma safe_for_each {A} (f : A → M S ()) l : (∀ x, safe (f x)) → safe (for_each f l).
Proof.
  intros Hf. induction l as [|x l IH]; [apply safe_ret|]. apply safe_bind; [apply Hf|done].
Qed.
Lemma safe_if {A} (b : bool) (c1 c2 : M S A) : safe c1 → safe c2 → safe (if b then c1 else c2).
Proof. by destruct b. Qed.
End safe.
#[export] Hint Resolve safe_ret safe_fail safe_on_error safe_attempt safe_if : golang.

(** Go through the sequence of calls. *)
Ltac safe_steps :=
  repeat first [ progress cbv zeta | solve [eauto with golang] | apply safe_bind; [|intros ?]
               | apply safe_for_each; intros ? ].

Lemma safe_syscall {A} p (call : FS → FS * (Errno + A)) : safe (syscall p call).
Proof.
  intros fs fs' [(l & e & _ & ? & _)|(l & _ & H)]%syscall_inv; [done|].
  destruct (call (with_faults l fs)) as [? []]; naive_solver.
Qed.
#[export] Hint Resolve safe_syscall : golang.

Lemma safe_MkdirAll s : safe (MkdirAll s).
Proof.
  unfold MkdirAll. generalize (rev (elements s).2). intros rsegs.
  induction rsegs as [|x rsegs IH]; cbn [mkdir_all]; apply safe_bind;
    try (by apply safe_attempt, safe_syscall); intros [[]|]; try done.
  all: apply safe_bind; [|intros _; apply safe_bind; [by apply safe_attempt, safe_syscall|]].
  all: try (intros [|]; [done|]; apply safe_bind; [by apply safe_attempt, safe_syscall|];
            intros [[]|]; done).
  - done.
  - by destruct (_ || _).
Qed.
Lemma safe_WriteFile s data : safe (WriteFile s data).
Proof. apply safe_syscall. Qed.
Lemma safe_Symlink o n : safe (Symlink o n).
Proof. apply safe_syscall. Qed.
Lemma safe_RemoveAll s : safe (RemoveAll s).
Proof. apply safe_syscall. Qed.
#[export] Hint Resolve safe_MkdirAll safe_WriteFile safe_Symlink safe_RemoveAll : golang.

Section files.
Context `{!MapRange} `{!Mounter} `{!MounterLaws}.

Lemma safe_PathExists s : safe (PathExists s).
Proof. by intros fs fs' [_ ?]%PathExists_spec. Qed.
Lemma safe_Mount src s opts : safe (mounter_Mount src s "tmpfs" opts).
Proof. by intros fs fs' ?%Mount_spec. Qed.
Lemma safe_Unmount s : safe (mounter_Unmount s).
Proof. by intros fs fs' ?%Unmount_spec. Qed.
Hint Resolve safe_PathExists safe_Mount : golang.

Lemma safe_mount target : safe (mount target).
Proof. unfold mount. safe_steps. destruct a; safe_steps. Qed.

Lemma safe_writeAddress path d : safe (writeAddress path d).
Proof. unfold writeAddress. safe_steps. destruct x; safe_steps. Qed.
Hint Resolve safe_writeAddress : golang.

Lemma safe_write_addresses path dflt data : safe (write_addresses path dflt data).
Proof. revert dflt. induction data as [|d data IH]; intros dflt; cbn [write_addresses]; safe_steps. Qed.
Hint Resolve safe_write_addresses : golang.

Lemma safe_writeData target data : safe (writeData target data).
Proof.
  destruct data as [data|]; [|apply safe_fail]. unfold writeData, symlinkToDefaultAddress. safe_steps.
Qed.
End files.
#[export] Hint Resolve safe_mount safe_writeData safe_Unmount : golang.

(** A request whose volume context does not identify the pod. *)
Definition pod_unidentified (request : NodePublishVolumeRequest) : Prop :=
  map_get (np_volumeContext request) CSI_STORAGE_POD_NAME = None ∨
  map_get (np_volumeContext request) CSI_STORAGE_POD_NAMESPACE = None.

(** Nothing is mounted at or under [T], nothing is left there, and nothing else changed. *)
Definition cleared (T : list string) (fs fs' : FS) : Prop :=
  ¬ pinned fs' T ∧
  ∀ p, fs_nodes fs' !! p = if decide (T `prefix_of` p) then None else fs_nodes fs !! p.

(** The target does not exist and nothing is mounted there. *)
Definition target_gone (T : list string) (fs : FS) : Prop := fs_nodes fs !! T = None ∧ ¬ pinned fs T.

(** A directory with nothing in it. *)
Definition empty_dir (T : list string) (fs : FS) : Prop :=
  dirs (fs_nodes fs) T ∧ ∀ q, q ≠ [] → fs_nodes fs !! (T ++ q) = None.

(** What lies under [T] is exactly the layout of the addresses. *)
Definition laid_out (T : list string) (data : list IngressAddress) (fs : FS) : Prop :=
  ∀ q n, q ≠ [] → fs_nodes fs !! (T ++ q) = Some n ↔ layout data q n.

Section publish.
Context {W : Type} `{HC : Client W} `{!ApiServer W} `{!ControllerUtil W} `{!ControllerUtilLaws W}.
Context `{!OperatorGo} `{!MapRange} `{!Mounter} `{!MounterLaws}.

Lemma safe_get k key : safe (client_get k key : M W _).
Proof. by intros w w' [_ ?]%get_spec. Qed.
Lemma safe_create k o : safe (client_create k o : M W _).
Proof. by intros w w' ?%create_spec. Qed.
Lemma safe_patch k o m : safe (client_patch k o m : M W _).
Proof. by intros w w' ?%patch_spec. Qed.
Hint Extern 0 (safe (client_get ?k _)) => apply (safe_get k) : golang.
Hint Extern 0 (safe (client_create ?k _)) => apply (safe_create k) : golang.
Hint Extern 0 (safe (client_patch ?k _ _)) => apply (safe_patch k) : golang.

Lemma safe_api {A} (c : M W A) : safe c → safe (api c).
Proof.
  intros Hc [w fs] s'. unfold api. simpl. specialize (Hc w). unfold panic_free in Hc.
  destruct (c w) as [w1 r]. intros [= <- ->]. by apply (Hc w1).
Qed.
Lemma safe_os {A} (c : M FS A) : safe c → safe (os c : M (W * FS) A).
Proof.
  intros Hc [w fs] s'. unfold os. simpl. specialize (Hc fs). unfold panic_free in Hc.
  destruct (c fs) as [fs1 r]. intros [= <- ->]. by apply (Hc fs1).
Qed.
Hint Resolve safe_api safe_os : golang.

Lemma safe_copy (old new : gomap string) : safe (lift (maps_Copy (ensure_map old) new) : M W _).
Proof. apply safe_lift. by destruct old. Qed.
Hint Resolve safe_copy : golang.

Lemma safe_patchPV pv l : safe (patchPVLabelsWithListener pv l : M W _).
Proof. unfold patchPVLabelsWithListener. safe_steps. Qed.
Lemma safe_patchPod pod l : safe (patchPodLabelsWithListener pod l : M W _).
Proof. unfold patchPodLabelsWithListener. safe_steps. Qed.

Lemma safe_getAddresses l pod : safe (getAddresses l pod : M W _).
Proof.
  unfold getAddresses, getNodeAddressByPod. safe_steps. apply safe_if; safe_steps.
  apply safe_lift. unfold GetPriorNodeAddress. rewrite prior_address_find. by case_match.
Qed.

Lemma safe_createListener ctx pv pod :
  is_Some (vc_ListenerClassName ctx) → is_Some (vc_PodNamespace ctx) → is_Some (pv_claimRef pv) →
  safe (createListener ctx pv pod : M W _).
Proof.
  intros [cn Hcn] [ns Hns] [ref Href]. unfold createListener, getPVC. rewrite Hcn, Hns, Href.
  safe_steps; try (by apply safe_lift).
  - apply safe_lift. unfold getPodPorts. by case_bool_decide.
  - apply safe_lift. destruct (SetControllerReference _ _ _) eqn:Hs; try done.
    by apply SetControllerReference_spec in Hs.
  - case_match; safe_steps.
Qed.

Lemma safe_getListener ctx pv pod :
  is_Some (vc_PodNamespace ctx) → is_Some (pv_claimRef pv) →
  is_Some (vc_ListenerClassName ctx) ∨ is_Some (vc_ListenerName ctx) →
  safe (getListener pod pv ctx : M W _).
Proof.
  intros [ns Hns] Href Hone. unfold getListener. destruct (vc_ListenerName ctx) as [name|].
  - rewrite Hns. safe_steps. by apply safe_lift.
  - destruct Hone as [Hc|[? ?]]; [|done]. apply safe_createListener; [done| |done]. by rewrite Hns.
Qed.

Lemma safe_publishPodListener pod pv l data :
  is_Some (pv_claimRef pv) → safe (publishPodListener pod pv l data : M W _).
Proof.
  intros [ref Href]. unfold publishPodListener, createOrUpdatePodListeners. rewrite Href.
  safe_steps; try (by apply safe_lift).
  - apply safe_lift. unfold findPodVolumeNameForPVC. by case_match.
  - apply safe_lift. unfold buildPodListenersObject.
    destruct (SetControllerReference _ _ _) eqn:Hs; try done.
    by apply SetControllerReference_spec in Hs.
  - match goal with a : _ + error |- _ => destruct a as [old|e] end; safe_steps.
    + apply safe_lift. by destruct (pls_listeners old).
    + apply safe_if; safe_steps.
Qed.

Lemma panic_api {A B} g (c : M W A) (f : A → M (W * FS) B) w fs s' :
  safe c → (on_error g (api c) ≫= f) (w, fs) = (s', Panic) →
  ∃ a w1, c w = (w1, Ok a) ∧ f a (w1, fs) = (s', Panic).
Proof.
  intros Hc. unfold mbind, M_bind, on_error, api. simpl. specialize (Hc w). unfold panic_free in Hc.
  destruct (c w) as [w1 [a|e|]]; [eauto|done|]. by destruct (Hc w1).
Qed.

(** A volume context with the pod's name and namespace and with one of the annotations, and
    a bound volume: no pointer the call follows is nil. *)
Record complete (request : NodePublishVolumeRequest) (w : W) : Prop := {
  cp_podname : is_Some (map_get (np_volumeContext request) CSI_STORAGE_POD_NAME);
  cp_podns : is_Some (map_get (np_volumeContext request) CSI_STORAGE_POD_NAMESPACE);
  cp_one : is_Some (map_get (np_volumeContext request) ListenerClassAnnotation) ∨
           is_Some (map_get (np_volumeContext request) AnnotationListenerName);
  cp_bound : ∀ pv, stored KPersistentVolume w (Key "" (np_volumeId request)) = Some pv →
             is_Some (pv_claimRef pv);
}.

(** The volume does not carry the label the reconciler's watch looks up. *)
Definition unwatched (pv : PersistentVolume) : Prop :=
  map_get (meta_labels (pv_meta pv)) AnnotationListenerName = None.

Lemma complete_never_panics request w fs :
  complete request w → panic_free (NodePublishVolume request) (w, fs).
Proof.
  intros [[name Hname] [ns Hns] Hone Hbound] s' Hrun. unfold NodePublishVolume in Hrun.
  assert (validateNodePublishVolumeRequest request ≠ Panic) as Hval.
  { unfold validateNodePublishVolumeRequest. repeat case_match; done. }
  unfold mbind at 1, M_bind at 1, lift at 1 in Hrun.
  destruct (validateNodePublishVolumeRequest request) as [[]| |]; [|done..].
  unfold mbind at 1, M_bind at 1 in Hrun. case_bool_decide; [done|]. unfold mret, M_ret in Hrun.
  apply bind_inv in Hrun as [(pv0 & s1 & Hpv & Hrun)|[(? & _ & ?)|[Hpv _]]]; [|done|].
  2: { revert Hpv. apply safe_api, (safe_get KPersistentVolume). }
  unfold api in Hpv. simpl in Hpv. destruct (getPV _ w) as [w0 r0] eqn:Hget. injection Hpv as <- ->.
  apply (get_Ok KPersistentVolume) in Hget as [-> Hpv0]. specialize (Hbound _ Hpv0).
  simpl in Hrun. rewrite Hname, Hns in Hrun. unfold lift at 1, deref, mbind at 1, M_bind at 1 in Hrun.
  unfold lift at 1, mbind at 1, M_bind at 1 in Hrun.
  apply panic_api in Hrun as (pod0 & w0 & Hpod & Hrun); [|apply (safe_get KPod)].
  apply (get_Ok KPod) in Hpod as [-> _].
  apply panic_api in Hrun as (l0 & w1 & Hl & Hrun);
    [|apply safe_getListener; simpl; [by rewrite Hns|done|done]].
  apply panic_api in Hrun as (pv & w2 & Hppv & Hrun); [|apply safe_patchPV].
  apply patchPV_inv in Hppv as (_ & Hpveq & _).
  2: { pose proof (stored_key KPersistentVolume _ _ _ Hpv0) as ->.
       rewrite (getListener_frame _ _ _ _ _ _ _ _ Hl); [done|by left]. }
  apply panic_api in Hrun as (pod & w3 & _ & Hrun); [|apply safe_patchPod].
  apply panic_api in Hrun as ([l data] & w4 & _ & Hrun); [|apply safe_getAddresses].
  apply panic_api in Hrun as ([] & w5 & _ & Hrun);
    [|apply safe_publishPodListener; by rewrite Hpveq].
  revert Hrun. apply (safe_bind (S:=W*FS)); [|intros []];
    apply safe_on_error, safe_os; [apply safe_mount|apply safe_writeData].
Qed.

(** C24: The volume context the controller service returns is enough for the node: when the
    kubelet adds the pod's name and namespace to the context of a volume [CreateVolume]
    provisioned, publishing the bound volume never panics, whatever the API server and the
    file system answer. *)
Theorem provisioned_volume_never_panics creq w0 w0' v request w fs :
  CreateVolume creq w0 = (w0', Ok v) →
  map_entries (vol_context v) ⊆ map_entries (np_volumeContext request) →
  is_Some (map_get (np_volumeContext request) CSI_STORAGE_POD_NAME) →
  is_Some (map_get (np_volumeContext request) CSI_STORAGE_POD_NAMESPACE) →
  (∀ pv, stored KPersistentVolume w (Key "" (np_volumeId request)) = Some pv → is_Some (pv_claimRef pv)) →
  panic_free (NodePublishVolume request) (w, fs).
Proof.
  intros Hcreate Hsub Hname Hns Hbound. apply complete_never_panics.
  apply Build_complete; try done.
  apply CreateVolume_annotated in Hcreate as [[x Hx]|[x Hx]]; [left|right]; exists x;
    by eapply map_subseteq_spec in Hsub.
Qed.

(** C37: A request that passes the validation but whose volume context lacks the pod's name or
    namespace makes the node server panic: the pointers are followed unchecked. *)
Theorem NodePublishVolume_panics `{!ReliableReads W} request w fs pv :
  validateNodePublishVolumeRequest request = Ok () →
  stored KPersistentVolume w (Key "" (np_volumeId request)) = Some pv →
  pod_unidentified request →
  NodePublishVolume request (w, fs) = ((w, fs), Panic).
Proof.
  intros Hval Hpv Hnone. unfold pod_unidentified in Hnone. unfold NodePublishVolume. rewrite Hval.
  assert (np_targetPath request ≠ "") as Ht.
  { unfold validateNodePublishVolumeRequest in Hval. by repeat case_bool_decide. }
  unfold mbind, M_bind, lift, mret, M_ret. rewrite bool_decide_eq_false_2 by done.
  unfold api at 1, getPV. simpl.
  rewrite (get_found KPersistentVolume (Key "" (np_volumeId request)) w pv) by done.
  unfold newVolumeContextFromMap; simpl.
  destruct (map_get (np_volumeContext request) CSI_STORAGE_POD_NAME); [|done]. simpl.
  destruct Hnone as [?|Hns]; [done|]. by rewrite Hns.
Qed.

(** ** Unpublishing *)

(** C27: Although an error of the unmount is only logged, [NodeUnpublishVolume] never reports
    success while something is still mounted at or under the target: then nothing is left
    there, and nothing else was touched. *)
Theorem NodeUnpublishVolume_clean volumeId (w : W) fs s' T d x :
  NodeUnpublishVolume volumeId (abs T) (w, fs) = (s', Ok ()) →
  T = d ++ [x] → Forall plain T → mounts_wf fs → dirs (fs_nodes fs) d → clear (fs_nodes fs) T →
  s'.1 = w ∧ cleared T fs s'.2.
Proof.
  intros Hrun HT Hp Hwf Hd Hc.
  by apply (unpublish_inv T d x) in Hrun as (? & ? & _ & ?).
Qed.

(** [NodeUnpublishVolume] can be repeated: for a target that is gone it succeeds and
    changes nothing, on a file system without faults. *)
Lemma NodeUnpublishVolume_absent volumeId (w : W) fs T d x :
  volumeId ≠ "" → T = d ++ [x] → Forall plain T → fs_wf T fs → dirs (fs_nodes fs) d → quiet fs →
  target_gone T fs →
  ∃ fs', NodeUnpublishVolume volumeId (abs T) (w, fs) = ((w, fs'), Ok ()) ∧ same_fs fs fs'.
Proof.
  intros Hid HT Hp Hwf Hd Hq [Hnone Hpin].
  assert (clear (fs_nodes fs) T) as Hc.
  { intros p Hpre Hne. rewrite HT in Hpre. apply prefix_snoc_cases in Hpre as [?|Heq];
      [right; by apply Hd|]. left. rewrite <- HT in Heq. by subst p. }
  unfold NodeUnpublishVolume. rewrite !bool_decide_eq_false_2 by done.
  unfold mbind, M_bind, attempt, os. cbn [fst snd].
  destruct (mounter_Unmount (abs T) fs) as [fs1 r1] eqn:Hun. apply Unmount_spec in Hun.
  assert (∃ e, r1 = Fail e ∧ same_fs fs fs1) as (e & -> & Hsame).
  { destruct r1 as [[]|e|]; [|by exists e|done].
    destruct Hun as (q & hidden & rest & Hloc & [Hin _]%take_mount_elem & _).
    rewrite elements_abs, (locate_dirs T d x HT Hp fs) in Hloc by done. injection Hloc as <-.
    exfalso. apply Hpin. by exists (T, hidden). }
  pose proof Hsame as (Hn & Hm & Hcw & Hq1). specialize (Hq1 Hq).
  unfold on_error, RemoveAll, syscall. rewrite elements_abs by done. unfold quiet in Hq1.
  cbn [fst snd]. rewrite Hq1. rewrite (locate_dirs T d x HT Hp fs1) by (by rewrite Hn).
  assert (¬ pinned fs1 T) as Hpin1 by (intros (m & Hmin & ?); apply Hpin; exists m; by rewrite <- Hm).
  rewrite decide_False by done. eexists. split; [done|]. split_and!; [|done..|by unfold quiet].
  cbn [fs_nodes with_nodes]. rewrite Hn. apply map_filter_id. intros p n Hpn. left.
  intros [q Heq]. cbn [fst] in Heq. subst p. destruct (decide (q = [])) as [->|Hqne].
  - rewrite app_nil_r in Hpn. congruence.
  - rewrite (wf_nothing_below T d x HT fs q Hwf) in Hpn; congruence.
Qed.

(** Without an address the link to the default address has an empty target, which is refused. *)
Lemma writeData_empty T fs :
  ∃ fs' e, writeData (abs T) (Some []) fs = (fs', Fail e).
Proof.
  assert (∀ s fs1, ∃ fs2 e, Symlink "" s fs1 = (fs2, Fail e)) as Hlink.
  { intros s fs1. unfold Symlink, syscall. destruct (fs_faults fs1) as [|[] l]; by eexists _, _. }
  unfold writeData, mbind, M_bind. cbn [write_addresses].
  destruct (MkdirAll _ fs) as [fs1 r1] eqn:Hmk. destruct r1 as [[]|e|]; [|by eexists _, _|].
  - unfold mret, M_ret, symlinkToDefaultAddress. rewrite !TrimPrefix_empty. apply Hlink.
  - by apply safe_MkdirAll in Hmk.
Qed.

(** C28: On an empty target directory and a file system without faults, with distinct addresses and
    names that can be file names, [writeData] succeeds exactly when there is an address to write,
    and then leaves exactly the documented layout under the target; without one it fails. *)
Theorem writeData_total data T fs :
  T ≠ [] → Forall plain T → Forall nameable data →
  NoDup ((λ d, Address (ia_info d)) <$> data) → quiet fs →
  empty_dir T fs →
  ∃ fs' r, writeData (abs T) (Some data) fs = (fs', r) ∧
    match data with
    | [] => ∃ e, r = Fail e
    | _ => r = Ok () ∧ laid_out T data fs'
    end.
Proof.
  intros HT Hp Hname Hnd Hq [Hd Hnone].
  destruct (last data) as [dl|] eqn:Hlast.
  - destruct (writeData (abs T) (Some data) fs) as [fs' r] eqn:Hrun.
    eapply writeData_scripted in Hrun as [_ Hr]; [|done..|by apply fresh_shape].
    destruct r as [[]|e|]; [|by destruct Hr|done]. exists fs', (Ok ()). split; [done|].
    destruct data as [|d data]; [done|]. split; [done|]. intros q n Hqne. rewrite Hr. by apply put_all_layout.
  - apply last_None in Hlast as ->. destruct (writeData_empty T fs) as (fs' & e & Hrun). by exists fs', (Fail e); eauto.
Qed.

(** ** Watching the persistent volumes *)

(** C40: The labels the node server puts on a persistent volume do not enqueue its Listener: with
    operator-go's key listeners.kubedoop.dev/listenerName, which the reconciler looks up, a volume
    that did not carry that key before gives no request, since the name is put under a label that
    is spelled differently. *)
Theorem labelled_pv_not_enqueued pv l labels :
  AnnotationListenerName = "listeners.kubedoop.dev/listenerName" →
  relabelled (ListenerMetaLabels l) (meta_labels (pv_meta pv)) labels →
  unwatched pv →
  handlePVChanges (with_pv_labels labels pv) = [].
Proof.
  intros Hkey Hlab Hnone.
  assert (AnnotationListenerName ≠ LabelListenerName) as Hname by (by rewrite Hkey).
  assert (AnnotationListenerName ≠ LabelListenerNamespace) as Hnamespace by (by rewrite Hkey).
  unfold handlePVChanges. simpl. rewrite !Hlab. unfold unwatched in Hnone. rewrite Hnone.
  assert (map_get (ListenerMetaLabels l) AnnotationListenerName = None) as ->.
  { unfold ListenerMetaLabels, map_get, map_entries, from_option, id.
    rewrite lookup_insert_ne by done. by apply lookup_singleton_ne. }
  by repeat case_match.
Qed.
End publish.
