(* ===== verification/CsiNodeRecovery.v ===== *)
(** * Recovering from a failed publication

    [NodePublishVolume] of internal/csi/node.go can fail after any of its file operations and
    leave a mount and a part of the files behind; it refuses a target that exists, so a retry
    needs the target cleaned up.  Here: unpublishing always does that, and repeating the
    call never does. *)
From S2P Require Import Prelude GoRuntime GoStrings Api GoOs CsiTypes Util Service Reconciler.
From S2P Require Import CsiController CsiNode CsiNodeFiles CsiNodePublish CsiNodeSafety.
Import NodeServer.

(** [Unmount] takes a mounted file system off when the system calls work. *)
Class ReliableUnmount `{Mounter} : Prop :=
  unmount_mounted : ∀ s fs q, locate fs true (elements s) = inr q →
    is_Some (take_mount q (fs_mounts fs)) → quiet fs → ∃ fs', mounter_Unmount s fs = (fs', Ok ()).

#[export] Instance fake_reliable_unmount : ReliableUnmount.
Proof. intros s fs q Hloc [[hidden rest] Ht] _. simpl. rewrite Hloc, Ht. by eexists. Qed.

Lemma take_mount_None q fs : ¬ pinned fs q → take_mount q (fs_mounts fs) = None.
Proof.
  intros Hp. destruct (take_mount q (fs_mounts fs)) as [[hidden rest]|] eqn:Ht; [|done].
  exfalso. apply Hp. apply take_mount_elem in Ht as [Hin _]. by exists (q, hidden).
Qed.

Section recovery.
Context {W : Type} `{HC : Client W} `{!ApiServer W} `{!ControllerUtil W} `{!ControllerUtilLaws W}.
Context `{!OperatorGo} `{!MapRange} `{!Mounter} `{!MounterLaws} `{!ReliableUnmount}.

Section target.
Context (T d : location) (x : string).
Hypothesis HT : T = d ++ [x].
Hypothesis Hplain : Forall plain T.

Lemma RemoveAll_total fs :
  dirs (fs_nodes fs) d → clear (fs_nodes fs) T → quiet fs → ¬ pinned fs T →
  ∃ fs', RemoveAll (abs T) fs = (fs', Ok ()).
Proof.
  intros Hd Hc Hq Hpin. unfold RemoveAll, syscall. rewrite elements_abs by done. unfold quiet in Hq.
  rewrite Hq, (locate_dirs T d x HT Hplain fs) by done. rewrite decide_False by done. by eexists.
Qed.

(** After the unmount, of one mount or of none, nothing is mounted on the target. *)
Lemma Unmount_unpins fs ms fs' r :
  dirs (fs_nodes fs) d → clear (fs_nodes fs) T → quiet fs → mounts_wf fs →
  (fs_mounts fs = ms ∨ fs_mounts fs = (T, ∅) :: ms) → (∀ m, m ∈ ms → ¬ T `prefix_of` m.1) →
  mounter_Unmount (abs T) fs = (fs', r) →
  r ≠ Panic ∧ ¬ pinned fs' T ∧ quiet fs' ∧ dirs (fs_nodes fs') d ∧ clear (fs_nodes fs') T.
Proof.
  intros Hd Hc Hq Hwf Hms Hfree Hun. pose proof (λ p, Unmount_outside T d x HT Hplain _ _ _ p Hwf Hd Hc Hun) as Hout.
  assert (locate fs true (elements (abs T)) = inr T) as Hloc
    by (rewrite elements_abs by done; by apply (locate_dirs T d x HT Hplain)).
  assert (take_mount T ms = None) as Hnone.
  { destruct (take_mount T ms) as [[hidden rest]|] eqn:Ht; [|done].
    apply take_mount_elem in Ht as [Hin _]. by apply Hfree in Hin. }
  assert (r ≠ Panic ∧ quiet fs' ∧ fs_mounts fs' = ms) as (Hr & Hq' & Hms').
  { destruct Hms as [Hms|Hms].
    - apply Unmount_spec in Hun. destruct r as [[]|e|];
        [|destruct Hun as (_ & Hm & _ & Hqq); split_and!; [done|by apply Hqq|congruence]|done].
      destruct Hun as (q & hidden & rest & Hq1 & Htake & _). rewrite Hloc in Hq1. injection Hq1 as <-.
      by rewrite Hms, Hnone in Htake.
    - assert (take_mount T (fs_mounts fs) = Some (∅, ms)) as Htake
        by (rewrite Hms; simpl; by rewrite bool_decide_eq_true_2).
      destruct (unmount_mounted _ fs T Hloc) as [fs1 Hok]; [by rewrite Htake|done|].
      rewrite Hok in Hun. injection Hun as <- <-. apply Unmount_spec in Hok as (q & hidden & rest & Hq1 & Ht & Hs).
      rewrite Hloc in Hq1. injection Hq1 as <-. rewrite Htake in Ht. injection Ht as <- <-.
      destruct Hs as (_ & Hm & _ & Hqq). split_and!; [done|by apply Hqq|done]. }
  split_and!; [done| |done| |].
  - intros (m & Hm & Hpre). rewrite Hms' in Hm. by apply (Hfree m).
  - intros p Hp Hne. rewrite Hout; [by apply Hd|]. apply (not_below_prefix T).
    rewrite HT. by apply prefix_app_r.
  - intros p Hp Hne. rewrite Hout; [by apply Hc|]. by apply (not_below_prefix T).
Qed.

Lemma unpublish_total volumeId (w : W) fs ms :
  volumeId ≠ "" → dirs (fs_nodes fs) d → clear (fs_nodes fs) T → quiet fs → mounts_wf fs →
  (fs_mounts fs = ms ∨ fs_mounts fs = (T, ∅) :: ms) → (∀ m, m ∈ ms → ¬ T `prefix_of` m.1) →
  ∃ s', NodeUnpublishVolume volumeId (abs T) (w, fs) = (s', Ok ()).
Proof.
  intros Hid Hd Hc Hq Hwf Hms Hfree. unfold NodeUnpublishVolume.
  assert (abs T ≠ "") as Habs.
  { intros He. pose proof (elements_abs T Hplain) as Hel. rewrite He in Hel. done. }
  rewrite !bool_decide_eq_false_2 by done. unfold mbind, M_bind, attempt, os. cbn [fst snd].
  destruct (mounter_Unmount (abs T) fs) as [fs1 r1] eqn:Hun.
  destruct (Unmount_unpins _ _ _ _ Hd Hc Hq Hwf Hms Hfree Hun) as (Hr & Hpin & Hq1 & Hd1 & Hc1).
  destruct (RemoveAll_total fs1) as [fs2 Hrm]; [done..|].
  destruct r1 as [[]|e|]; [| |done]; unfold on_error; simpl; rewrite Hrm; by eexists.
Qed.
End target.

(** C13: A publication that failed, at whatever point, can be undone: when the target was not there
    before, then once the faults are over [NodeUnpublishVolume] succeeds and the files and the
    mount table of the node are those before the publication.  The same holds after a publication
    that succeeded, and after one that did not get as far as the node. *)
Theorem publish_recovers request w fs w' fs' r volumeId T d x :
  NodePublishVolume request (w, fs) = ((w', fs'), r) →
  good_target fs (np_targetPath request) T d x → dirs (fs_nodes fs) d → names_ok w →
  target_gone T fs → volumeId ≠ "" → quiet fs' →
  ∃ fs2, NodeUnpublishVolume volumeId (np_targetPath request) (w', fs') = ((w', fs2), Ok ()) ∧
    fs_nodes fs2 = fs_nodes fs ∧ fs_mounts fs2 = fs_mounts fs.
Proof.
  intros Hrun Hgt Hd Hnames [Hnone Hpin] Hid Hq. pose proof Hgt as [Htarget HT Hplain Hwf Hclear].
  destruct (publish_effect _ _ _ _ _ _ _ _ Hrun Hgt Hnames) as (Hout & Hc & Hms). cbn [fst snd] in *.
  assert (∀ p, ¬ T `prefix_of` p → fs_nodes fs' !! p = fs_nodes fs !! p) as Hsame.
  { intros p Hp. destruct (Hout p Hp) as [?|(HpT & Hne & Hp0 & _)]; [done|]. exfalso.
    rewrite HT in HpT. apply prefix_snoc_cases in HpT as [HpT|HpT]; [by rewrite Hd in Hp0|].
    apply Hp. by rewrite HT, HpT. }
  assert (dirs (fs_nodes fs') d) as Hd'.
  { intros p Hp Hne. rewrite Hsame; [by apply Hd|]. intros HTp. subst T.
    apply (prefix_length (d ++ [x])) in HTp. apply prefix_length in Hp. rewrite length_app in HTp. simpl in HTp. lia. }
  assert (mounts_wf fs') as Hmwf.
  { unfold mounts_wf. destruct Hwf as [_ Hwf]. destruct Hms as [(-> & _)|[-> _]]; [done|].
    apply Forall_cons_2; [|done]. simpl. intros p [? Hx]. by rewrite lookup_empty in Hx. }
  rewrite Htarget. destruct (unpublish_total T d x HT Hplain volumeId w' fs' (fs_mounts fs)) as [[w2 fs2] Hun];
    [done..|tauto| |].
  { intros m Hm Hpre. apply Hpin. by exists m. }
  exists fs2. pose proof Hun as Hinv.
  apply (unpublish_inv T d x) in Hinv as (Hw2 & _ & Hm2 & Hn2); [|done..]. cbn [fst snd] in *. subst w2.
  split_and!; [done| |].
  - apply map_eq. intros p. rewrite Hn2. case_decide as Hp; [|by apply Hsame].
    destruct Hp as [q ->]. destruct (decide (q = [])) as [->|Hqne]; [by rewrite app_nil_r|].
    symmetry. apply (wf_nothing_below T d x HT); [done|by rewrite Hnone|done].
  - rewrite Hm2. pose proof (take_mount_None _ _ Hpin) as Ht.
    destruct Hms as [(-> & _)|[-> _]]; simpl; [by rewrite Ht|by rewrite bool_decide_eq_true_2].
Qed.

(** ** Retries without cleaning up *)

(** What the kubelet does with a volume that is not published: it repeats the same call, with
    whatever results.  In between the cluster changes, and so do the faults of the node. *)
Inductive attempts (request : NodePublishVolumeRequest) : list (res ()) → W * FS → W * FS → Prop :=
| attempts_nil s : attempts request [] s s
| attempts_call s1 s2 s3 r rs :
    NodePublishVolume request s1 = (s2, r) → attempts request rs s2 s3 → attempts request (r :: rs) s1 s3
| attempts_cluster w w' fs s rs :
    attempts request rs (w', fs) s → attempts request rs (w, fs) s
| attempts_faults w fs l s rs :
    attempts request rs (w, with_faults l fs) s → attempts request rs (w, fs) s.

Lemma attempts_refused request rs s s' T d x :
  attempts request rs s s' →
  np_targetPath request = abs T → T = d ++ [x] → Forall plain T → dirs (fs_nodes s.2) T →
  Forall (λ r, r ≠ Ok ()) rs ∧ fs_nodes s'.2 = fs_nodes s.2 ∧ fs_mounts s'.2 = fs_mounts s.2.
Proof.
  intros Hat Htarget HT Hplain.
  induction Hat as [s|[w fs] s2 s3 r rs Hrun _ IH|w w' fs s rs _ IH|w fs l s rs _ IH]; intros Hd; [done|..|by auto|by auto].
  destruct (publish_refused _ _ _ _ _ _ _ _ Hrun Htarget HT Hplain Hd) as (Hr & Hn & Hm). simpl in *.
  rewrite Hn, Hm in IH. destruct IH as (Hrs & Hn3 & Hm3); [done|]. by split_and!; [constructor|..].
Qed.

(** The target of a publication that mounted it, whether it went on to succeed or not. *)
Lemma mounted_target_dirs request w fs s' r T d x :
  NodePublishVolume request (w, fs) = (s', r) →
  good_target fs (np_targetPath request) T d x → names_ok w →
  r = Ok () ∨ fs_mounts s'.2 ≠ fs_mounts fs → dirs (fs_nodes s'.2) T.
Proof.
  intros Hrun Hgt Hnames Hr. destruct (publish_effect _ _ _ _ _ _ _ _ Hrun Hgt Hnames) as (_ & _ & [(Hsame & Hno & _)|[_ Hd]]);
    [|done]. by destruct Hr.
Qed.

(** C38: Publishing is not idempotent: after a call that mounted the target, whether it succeeded or
    failed later while it wrote the files, every repetition of the call fails, however often and
    in whatever cluster it is repeated, and changes nothing on the node.  Only unpublishing gets
    the volume out of this state. *)
Theorem publish_not_idempotent request w fs s r rs s' T d x :
  NodePublishVolume request (w, fs) = (s, r) →
  good_target fs (np_targetPath request) T d x → names_ok w →
  r = Ok () ∨ fs_mounts s.2 ≠ fs_mounts fs →
  attempts request rs s s' →
  Forall (λ r, r ≠ Ok ()) rs ∧ fs_nodes s'.2 = fs_nodes s.2 ∧ fs_mounts s'.2 = fs_mounts s.2.
Proof.
  intros Hrun Hgt Hnames Hr Hat. pose proof (mounted_target_dirs _ _ _ _ _ _ _ _ Hrun Hgt Hnames Hr) as Hd.
  destruct Hgt as [Htarget HT Hplain _ _]. by eapply attempts_refused.
Qed.
End recovery.
