(* ===== verification/CsiNodeExamples.v ===== *)
(** * Examples of the CSI node service

    A pod that mounts a claim whose Listener is ready, and the witnesses of the theorems on
    [NodePublishVolume] and [NodeUnpublishVolume]. *)
From S2P Require Import Prelude GoRuntime GoStrings Api GoOs CsiTypes Util FakeClient Fixtures.
From S2P Require Import Service Reconciler CsiController CsiNode CsiNodeFiles CsiNodePublish CsiNodeSafety CsiNodeRecovery.
Import Util.Address Util.Constant ListenerReconciler NodeServer.

#[export] Instance fake_map_range : MapRange :=
  {| map_range := λ V m, map_to_list m; map_range_perm := λ V m, reflexivity _ |}.

Definition test_pod : Pod :=
  {| pod_meta := test_meta "web-0" "default" "pod-uid";
     pod_nodeName := "node-1";
     pod_containers := [ {| container_name := "main"; container_ports :=
       [ {| cp_name := "http"; cp_protocol := "TCP"; cp_containerPort := 8080 |};
         {| cp_name := ""; cp_protocol := "TCP"; cp_containerPort := 9999 |} ] |} ];
     pod_volumes := [ {| pv_volume_name := "config"; pv_claim_name := None; pv_ephemeral := false |};
                      {| pv_volume_name := "listener"; pv_claim_name := Some "data-0";
                         pv_ephemeral := false |} ] |}.

Definition test_pv : PersistentVolume :=
  {| pv_meta := test_meta "pvc-0a1b2c3d-0123-4567-89ab-0123456789ab" "" "pv-uid";
     pv_claimRef := Some {| claim_name := "data-0"; claim_namespace := "default" |} |}.

(** The Listener of the claim, as the reconciler left it. *)
Definition ready_listener : Listener :=
  {| listener_meta := test_meta "data-0" "default" "7f1c2a9e-0b1d-4c55-9d3e-8a7b6c5d4e3f";
     listener_spec := {| ls_className := "external";
       ls_ports := [ {| port_name := "http"; port_protocol := "TCP"; port_port := 8080 |} ];
       ls_publishNotReady := Some true; ls_extraPodSelectorLabels := None |};
     listener_status := {| lst_serviceName := "data-0"; lst_ingressAddresses := [];
                           lst_nodePorts := Some {[ "http" := 30080%Z ]} |} |}.

Definition node_cluster : cluster :=
  add KPod test_pod (add KPersistentVolume test_pv (add KListener ready_listener
    (add KNode (test_node "node-1" "192.168.0.1") claim_cluster))).

Definition target : location :=
  ["var"; "lib"; "kubelet"; "pods"; "pod-uid"; "volumes"; "listener"; "mount"].
Definition target_parent : location :=
  ["var"; "lib"; "kubelet"; "pods"; "pod-uid"; "volumes"; "listener"].

Definition node_fs : FS :=
  {| fs_nodes := list_to_map ((λ n, (take n target_parent, Dir)) <$> seq 1 7);
     fs_mounts := []; fs_cwd := []; fs_faults := [] |}.

Definition test_publish : NodePublishVolumeRequest :=
  {| np_volumeId := "pvc-0a1b2c3d-0123-4567-89ab-0123456789ab";
     np_targetPath := abs target;
     np_volumeCapability := Some {| vc_accessType := Some (Mount "");
                                    vc_accessMode := Some SINGLE_NODE_WRITER |};
     np_volumeContext := Some (<[ CSI_STORAGE_POD_NAME := "web-0" ]>
       (<[ CSI_STORAGE_POD_NAMESPACE := "default" ]> {[ ListenerClassAnnotation := "external" ]})) |}.

Definition after_publish : cluster * FS := (NodePublishVolume test_publish (node_cluster, node_fs)).1.

Example publish_succeeds :
  (NodePublishVolume test_publish (node_cluster, node_fs)).2 = Ok ().
Proof. vm_compute. reflexivity. Qed.

(** The files of the volume. *)
Example published_files :
  let t := fs_nodes after_publish.2 in
  (λ q, t !! (target ++ q)) <$>
    [["addresses"; "192.168.0.1"; "address"]; ["addresses"; "192.168.0.1"; "ports"; "http"];
     ["default-address"]] =
  [Some (File "192.168.0.1"); Some (File "30080"); Some (Link "addresses/192.168.0.1")].
Proof. vm_compute. reflexivity. Qed.

(** ** The hypotheses of the theorems hold *)

Lemma node_fs_node q n :
  fs_nodes node_fs !! q = Some n → ∃ k, 1 ≤ k ≤ 7 ∧ q = take k target_parent.
Proof.
  intros (k & [= -> _] & Hk%elem_of_seq)%elem_of_list_to_map_2%list_elem_of_fmap.
  exists k. split; [lia|done].
Qed.

Lemma node_fs_take k : 1 ≤ k ≤ 7 → fs_nodes node_fs !! take k target_parent = Some Dir.
Proof.
  intros Hk. assert (k ∈ seq 1 7) as Hin by (apply elem_of_seq; lia).
  assert (Forall (λ k, fs_nodes node_fs !! take k target_parent = Some Dir) (seq 1 7)) as Hall.
  { repeat (apply Forall_cons_2; [vm_compute; reflexivity|]). apply Forall_nil_2. }
  by apply (proj1 (Forall_forall _ _) Hall).
Qed.

Lemma prefix_is_take {A} (p l : list A) : p `prefix_of` l → p = take (length p) l.
Proof. intros [k ->]. by rewrite take_app_length. Qed.

Lemma node_fs_dirs : dirs (fs_nodes node_fs) target_parent.
Proof.
  intros p Hp Hne. rewrite (prefix_is_take _ _ Hp). apply node_fs_take.
  apply prefix_length in Hp. simpl in Hp. destruct p; [done|]. simpl in *. lia.
Qed.

Lemma node_fs_wf : fs_wf target node_fs.
Proof.
  split; [|apply Forall_nil_2].
  intros p x _ [n (k & Hk & Heq)%node_fs_node] r Hr Hne. apply node_fs_dirs; [|done].
  trans p; [done|]. trans (p ++ [x]); [by apply prefix_app_r|]. rewrite Heq.
  exists (drop k target_parent). by rewrite take_drop.
Qed.

Lemma plain_target : Forall plain target.
Proof. apply (bool_decide_unpack _). vm_compute. reflexivity. Qed.

Lemma node_fs_clear : clear (fs_nodes node_fs) target.
Proof.
  change target with (target_parent ++ ["mount"]). intros p [Hp| ->]%prefix_snoc_cases Hne.
  - right. by apply node_fs_dirs.
  - left. vm_compute. reflexivity.
Qed.

Lemma test_good_target : good_target node_fs (np_targetPath test_publish) target target_parent "mount".
Proof. split; [done..|apply plain_target|apply node_fs_wf|apply node_fs_clear]. Qed.

Lemma stored_in_entries k w key (o : Obj k) : stored k w key = Some o → o ∈ entries k w.
Proof.
  intros Hs. apply elem_of_entries. pose proof (stored_key k _ _ _ Hs) as Hk. rewrite Hk. exact Hs.
Qed.

Lemma node_listeners : entries KListener node_cluster = [test_listener; ready_listener].
Proof. vm_compute. reflexivity. Qed.
Lemma node_nodes : entries KNode node_cluster = [test_node "node-1" "192.168.0.1"].
Proof. vm_compute. reflexivity. Qed.

Lemma test_names_ok : names_ok node_cluster.
Proof.
  split.
  - intros key l Hl%stored_in_entries. rewrite node_listeners in Hl.
    apply elem_of_cons in Hl as [->|Hl%list_elem_of_singleton]; [|subst l]; simpl;
      (split; [apply Forall_nil_2|]); intros n p Hn; unfold map_get in Hn; simpl in Hn.
    + by rewrite lookup_empty in Hn.
    + apply lookup_singleton_Some in Hn as [<- _]. by apply (bool_decide_unpack _).
  - intros key node Hn%stored_in_entries. rewrite node_nodes in Hn.
    apply list_elem_of_singleton in Hn as ->. apply (bool_decide_unpack _). vm_compute. reflexivity.
Qed.

Lemma run_outcome_pair {S1 S2 A} (c : M (S1 * S2) A) s r :
  (c s).2 = r → c s = (((c s).1.1, (c s).1.2), r).
Proof. intros <-. by destruct (c s) as [[? ?] ?]. Qed.

Lemma publish_run :
  NodePublishVolume test_publish (node_cluster, node_fs) =
  ((after_publish.1, after_publish.2), Ok ()).
Proof.
  unfold after_publish.
  exact (run_outcome_pair (NodePublishVolume test_publish) (node_cluster, node_fs) (Ok ()) publish_succeeds).
Qed.

Lemma publish_run_state :
  NodePublishVolume test_publish (node_cluster, node_fs) = (after_publish, Ok ()).
Proof.
  unfold after_publish.
  exact (run_outcome (NodePublishVolume test_publish) (node_cluster, node_fs) (Ok ()) publish_succeeds).
Qed.

Definition after_unpublish : cluster * FS :=
  (NodeUnpublishVolume (np_volumeId test_publish) (abs target) (after_publish.1, after_publish.2)).1.

Example unpublish_succeeds :
  (NodeUnpublishVolume (np_volumeId test_publish) (abs target) (after_publish.1, after_publish.2)).2
  = Ok ().
Proof. vm_compute. reflexivity. Qed.

Lemma unpublish_run :
  NodeUnpublishVolume (np_volumeId test_publish) (abs target) (after_publish.1, after_publish.2) =
  (after_unpublish, Ok ()).
Proof.
  unfold after_unpublish.
  exact (run_outcome (NodeUnpublishVolume (np_volumeId test_publish) (abs target))
           (after_publish.1, after_publish.2) (Ok ()) unpublish_succeeds).
Qed.

(** ** Witnesses *)

#[local] Opaque after_publish after_unpublish.

Lemma NodePublishVolume_publishes_witness :
  ∃ name ns pv0 pod0 l data vol,
    publication test_publish node_cluster after_publish.1 name ns pv0 pod0 l data vol.
Proof. apply (NodePublishVolume_publishes _ _ _ _ _ publish_run). Defined.

Lemma published_pod_selected_witness :
  ∃ name ns pv0 pod0 l data vol labels,
    publication test_publish node_cluster after_publish.1 name ns pv0 pod0 l data vol ∧
    stored KPod after_publish.1 (Key ns name) = Some (with_pod_labels labels pod0) ∧
    ∀ lc svc, conforms l lc svc →
      map_entries (svc_selector (svc_spec svc)) ⊆ map_entries labels ↔
      map_entries (ls_extraPodSelectorLabels (listener_spec l)) ⊆ map_entries labels.
Proof.
  exact (published_pod_selected test_publish node_cluster node_fs after_publish.1 after_publish.2 publish_run).
Defined.

Lemma NodePublishVolume_layout_witness :
  ∃ name ns pv0 pod0 l data vol,
    publication test_publish node_cluster after_publish.1 name ns pv0 pod0 l data vol ∧
    (NoDup ((λ d, Address (ia_info d)) <$> data) → shows target data node_fs after_publish.2).
Proof.
  exact (NodePublishVolume_layout _ _ _ _ _ _ _ _ publish_run test_good_target test_names_ok).
Defined.

Lemma etc_outside : ¬ target `prefix_of` ["etc"].
Proof. apply (bool_decide_unpack _). vm_compute. reflexivity. Qed.

Example NodePublishVolume_confined_example :
  fs_nodes after_publish.2 !! ["etc"] = fs_nodes node_fs !! ["etc"] ∨
  (["etc"] `prefix_of` target ∧ fs_nodes node_fs !! ["etc"] = None ∧
   fs_nodes after_publish.2 !! ["etc"] = Some Dir).
Proof.
  exact (NodePublishVolume_confined test_publish node_cluster node_fs
    after_publish (Ok ()) target target_parent "mount" ["etc"]
    publish_run_state test_good_target test_names_ok etc_outside).
Qed.

(** A node on which the target is already there. *)
Definition occupied_fs : FS := with_nodes (<[target := Dir]> (fs_nodes node_fs)) node_fs.

Lemma occupied_dirs : dirs (fs_nodes occupied_fs) target.
Proof.
  apply (dirs_snoc _ target_parent "mount"). split; [|vm_compute; reflexivity].
  apply dirs_insert; [apply node_fs_dirs|]. apply (bool_decide_unpack _). vm_compute. reflexivity.
Qed.

Lemma publish_unpublish_witness :
  after_unpublish.1 = after_publish.1 ∧ fs_nodes after_unpublish.2 = fs_nodes node_fs ∧
  fs_mounts after_unpublish.2 = fs_mounts node_fs.
Proof.
  exact (publish_unpublish test_publish node_cluster node_fs after_publish.1 after_publish.2
    (np_volumeId test_publish) after_unpublish target target_parent "mount"
    publish_run unpublish_run test_good_target node_fs_dirs test_names_ok).
Defined.

(** *** A fault while the files are written *)

(** The ninth system call fails: a part of the files is there by then. *)
Definition faulty_fs : FS := with_faults (replicate 8 false ++ [true]) node_fs.
Definition after_fault : (cluster * FS) * res () := NodePublishVolume test_publish (node_cluster, faulty_fs).

Example fault_outcome :
  (match after_fault.2 with Fail (StatusError Internal _) => true | _ => false end,
   (λ q, fs_nodes after_fault.1.2 !! (target ++ q)) <$> [[]; ["addresses"]; ["default-address"]],
   fst <$> fs_mounts after_fault.1.2) =
  (true, [Some Dir; Some Dir; None], [target]).
Proof. vm_compute. reflexivity. Qed.

Lemma faulty_good_target : good_target faulty_fs (np_targetPath test_publish) target target_parent "mount".
Proof. split; [done..|apply plain_target|exact node_fs_wf|apply node_fs_clear]. Qed.

Lemma publish_recovers_witness :
  ∃ fs2, NodeUnpublishVolume (np_volumeId test_publish) (np_targetPath test_publish)
           (after_fault.1.1, after_fault.1.2) = ((after_fault.1.1, fs2), Ok ()) ∧
         fs_nodes fs2 = fs_nodes faulty_fs ∧ fs_mounts fs2 = fs_mounts faulty_fs.
Proof.
  apply (publish_recovers test_publish node_cluster faulty_fs after_fault.1.1 after_fault.1.2 after_fault.2
    (np_volumeId test_publish) target target_parent "mount").
  - change (after_fault = ((after_fault.1.1, after_fault.1.2), after_fault.2)). by destruct after_fault as [[]].
  - exact faulty_good_target.
  - exact node_fs_dirs.
  - exact test_names_ok.
  - split; [vm_compute; reflexivity|]. intros (m & Hm & _). by apply elem_of_nil in Hm.
  - done.
  - vm_compute. reflexivity.
Defined.

(** The fault is over, and the kubelet tries again. *)
Definition retried_publish : (cluster * FS) * res () :=
  NodePublishVolume test_publish (after_fault.1.1, with_faults [] after_fault.1.2).

Lemma retry_attempts : attempts test_publish [retried_publish.2] after_fault.1 retried_publish.1.
Proof.
  rewrite (surjective_pairing after_fault.1). apply (attempts_faults _ _ _ []).
  eapply attempts_call; [|apply attempts_nil]. exact (surjective_pairing retried_publish).
Qed.

Lemma publish_not_idempotent_witness : Forall (λ r, r ≠ Ok ()) [retried_publish.2].
Proof.
  apply (publish_not_idempotent test_publish node_cluster faulty_fs after_fault.1 after_fault.2
    _ retried_publish.1 target target_parent "mount").
  - exact (surjective_pairing after_fault).
  - exact faulty_good_target.
  - exact test_names_ok.
  - right. intros Heq%(f_equal length). vm_compute in Heq. discriminate Heq.
  - exact retry_attempts.
Defined.

Lemma create_run : CreateVolume test_create_request claim_cluster =
  ((CreateVolume test_create_request claim_cluster).1, Ok test_volume).
Proof. apply run_outcome. vm_compute. reflexivity. Qed.

Lemma node_pv_bound pv :
  stored KPersistentVolume node_cluster (Key "" (np_volumeId test_publish)) = Some pv →
  is_Some (pv_claimRef pv).
Proof.
  assert (stored KPersistentVolume node_cluster (Key "" (np_volumeId test_publish)) = Some test_pv) as ->
    by (vm_compute; reflexivity).
  intros [= <-]. by eexists.
Qed.

Lemma provisioned_volume_never_panics_witness :
  panic_free (NodePublishVolume test_publish) (node_cluster, node_fs).
Proof.
  apply (provisioned_volume_never_panics _ _ _ _ test_publish node_cluster node_fs create_run).
  - apply (bool_decide_unpack _). vm_compute. reflexivity.
  - by exists "web-0".
  - by exists "default".
  - apply node_pv_bound.
Defined.

(** The same request without the pod's name and namespace. *)
Definition bare_publish : NodePublishVolumeRequest :=
  {| np_volumeId := np_volumeId test_publish; np_targetPath := np_targetPath test_publish;
     np_volumeCapability := np_volumeCapability test_publish;
     np_volumeContext := Some {[ ListenerClassAnnotation := "external" ]} |}.

Lemma NodePublishVolume_panics_witness :
  NodePublishVolume bare_publish (node_cluster, node_fs) = ((node_cluster, node_fs), Panic).
Proof.
  apply (NodePublishVolume_panics bare_publish node_cluster node_fs test_pv).
  - vm_compute. reflexivity.
  - vm_compute. reflexivity.
  - left. vm_compute. reflexivity.
Defined.

(** A node with a mounted volume. *)
Definition mounted_fs : FS :=
  with_mounts [(target, ∅)]
    (with_nodes (<[target ++ ["addresses"] := Dir]> (fs_nodes occupied_fs)) occupied_fs).

Lemma mounted_dirs : dirs (fs_nodes mounted_fs) target.
Proof.
  apply dirs_insert; [apply occupied_dirs|]. apply (bool_decide_unpack _). vm_compute. reflexivity.
Qed.

Lemma mounted_wf : mounts_wf mounted_fs.
Proof.
  apply Forall_cons_2; [|apply Forall_nil_2]. intros p [n Hn]. simpl in Hn. by rewrite lookup_empty in Hn.
Qed.

Definition unmounted : cluster * FS :=
  (NodeUnpublishVolume "pvc-1" (abs target) (node_cluster, mounted_fs)).1.

Example unmount_succeeds :
  (NodeUnpublishVolume "pvc-1" (abs target) (node_cluster, mounted_fs)).2 = Ok ().
Proof. vm_compute. reflexivity. Qed.

Lemma unmount_run :
  NodeUnpublishVolume "pvc-1" (abs target) (node_cluster, mounted_fs) = (unmounted, Ok ()).
Proof.
  unfold unmounted.
  exact (run_outcome (NodeUnpublishVolume "pvc-1" (abs target)) (node_cluster, mounted_fs) (Ok ())
           unmount_succeeds).
Qed.

Lemma NodeUnpublishVolume_clean_witness :
  unmounted.1 = node_cluster ∧ cleared target mounted_fs unmounted.2.
Proof.
  apply (NodeUnpublishVolume_clean "pvc-1" node_cluster mounted_fs unmounted target target_parent "mount"
    unmount_run eq_refl plain_target mounted_wf).
  - apply (dirs_snoc _ target_parent "mount"), mounted_dirs.
  - apply clear_dirs, mounted_dirs.
Defined.

Lemma node_not_pinned : ¬ pinned node_fs target.
Proof. intros (m & Hm & _). by apply not_elem_of_nil in Hm. Qed.

Lemma NodeUnpublishVolume_absent_witness :
  ∃ fs', NodeUnpublishVolume "pvc-1" (abs target) (node_cluster, node_fs) = ((node_cluster, fs'), Ok ()) ∧
         same_fs node_fs fs'.
Proof.
  apply (NodeUnpublishVolume_absent "pvc-1" node_cluster node_fs target target_parent "mount").
  - discriminate.
  - reflexivity.
  - apply plain_target.
  - apply node_fs_wf.
  - apply node_fs_dirs.
  - reflexivity.
  - split; [vm_compute; reflexivity|apply node_not_pinned].
Defined.

(** Two addresses, one of them with a port. *)
Definition test_data : list IngressAddress :=
  [ {| ia_info := {| Address := "192.168.0.1"; AddressType := AddressTypeIP |};
       ia_ports := Some {[ "http" := 30080%Z ]} |};
    {| ia_info := {| Address := "lb.example.com"; AddressType := AddressTypeHostname |};
       ia_ports := None |} ].

Lemma test_data_nameable : Forall nameable test_data.
Proof.
  apply Forall_cons_2; [|apply Forall_cons_2; [|apply Forall_nil_2]];
    (split; [apply (bool_decide_unpack _); vm_compute; reflexivity|]);
    intros n p Hn; unfold map_get in Hn; simpl in Hn.
  - apply lookup_singleton_Some in Hn as [<- _]. by apply (bool_decide_unpack _).
  - by rewrite lookup_empty in Hn.
Qed.

Lemma occupied_below q : q ≠ [] → fs_nodes occupied_fs !! (target ++ q) = None.
Proof.
  intros Hq. unfold occupied_fs. cbn [fs_nodes with_nodes]. rewrite lookup_insert_ne.
  - apply (wf_nothing_below target target_parent "mount" eq_refl node_fs q node_fs_wf); [|done].
    by vm_compute.
  - intros Heq. by apply (not_below_itself target q target Hq) in Heq.
Qed.

Lemma writeData_total_witness :
  ∃ fs', writeData (abs target) (Some test_data) occupied_fs = (fs', Ok ()) ∧
         laid_out target test_data fs'.
Proof.
  destruct (writeData_total test_data target occupied_fs) as (fs' & r & Hrun & -> & Hlaid).
  - discriminate.
  - apply plain_target.
  - apply test_data_nameable.
  - apply (bool_decide_unpack _). vm_compute. reflexivity.
  - reflexivity.
  - split; [apply occupied_dirs|apply occupied_below].
  - exists fs'. exact (conj Hrun Hlaid).
Defined.

Lemma labelled_pv_not_enqueued_witness :
  handlePVChanges (with_pv_labels (ListenerMetaLabels ready_listener) test_pv) = [].
Proof.
  apply (labelled_pv_not_enqueued test_pv ready_listener).
  - reflexivity.
  - intros x. destruct (map_get (ListenerMetaLabels ready_listener) x); reflexivity.
  - reflexivity.
Defined.
