(* ===== verification/NodeVolumes.v ===== *)
(** * The volumes of a node

    The kubelet calls [NodePublishVolume] and [NodeUnpublishVolume] of internal/csi/node.go for
    many volumes, one after the other and with any results, while the cluster changes and system
    calls fail.  Here the node is a state machine over these calls: its invariant is that the
    calls for one volume stay in its target, and that nothing is left of a volume that was
    unpublished. *)
From S2P Require Import Prelude GoRuntime GoStrings Api GoOs CsiTypes Util Service Reconciler.
From S2P Require Import CsiController CsiNode CsiNodeFiles CsiNodePublish CsiNodeSafety CsiNodeRecovery.
Import NodeServer.

(** ** The effect of a call on the node *)

(** A call for the target [T] leaves what is not under the target; the target is a directory, or
    there is nothing of it; and the target was mounted, unmounted, or neither. *)
Record affects (T : location) (fs fs' : FS) : Prop := {
  af_outside : ∀ p, ¬ T `prefix_of` p → fs_nodes fs' !! p = fs_nodes fs !! p;
  af_target : fs_nodes fs' !! T = Some Dir ∨ ∀ q, fs_nodes fs' !! (T ++ q) = None;
  af_mounts :
    (fs_mounts fs' = fs_mounts fs ∧ (pinned fs T → fs_nodes fs !! T = Some Dir → fs_nodes fs' !! T = Some Dir)) ∨
    (fs_mounts fs' = (T, ∅) :: fs_mounts fs ∧ fs_nodes fs !! T = None ∧ fs_nodes fs' !! T = Some Dir) ∨
    (∃ hidden, take_mount T (fs_mounts fs) = Some (hidden, fs_mounts fs'));
}.

Section calls.
Context {W : Type} `{HC : Client W} `{!ApiServer W} `{!ControllerUtil W} `{!ControllerUtilLaws W}.
Context `{!OperatorGo} `{!MapRange} `{!Mounter} `{!MounterLaws}.
Context (T d : location) (x : string).
Hypothesis HT : T = d ++ [x].
Hypothesis Hplain : Forall plain T.

(** Nothing happened. *)
Lemma affects_refl fs fs' :
  fs_nodes fs' = fs_nodes fs → fs_mounts fs' = fs_mounts fs →
  fs_nodes fs !! T = Some Dir ∨ (∀ q, fs_nodes fs !! (T ++ q) = None) → affects T fs fs'.
Proof. intros Hn Hm Ht. split; rewrite ?Hn; [done..|]. by left. Qed.

Lemma absent_clear fs : dirs (fs_nodes fs) d → fs_nodes fs !! T = Some Dir ∨ fs_nodes fs !! T = None →
  clear (fs_nodes fs) T.
Proof.
  intros Hd Ht p Hp Hne. rewrite HT in Hp. apply prefix_snoc_cases in Hp as [Hp| ->].
  - right. by apply Hd.
  - rewrite <- HT. naive_solver.
Qed.

Lemma publish_affects request w fs s' r :
  NodePublishVolume request (w, fs) = (s', r) → np_targetPath request = abs T → names_ok w →
  dirs (fs_nodes fs) d → mounts_wf fs →
  fs_nodes fs !! T = Some Dir ∨ (∀ q, fs_nodes fs !! (T ++ q) = None) →
  affects T fs s'.2.
Proof.
  intros Hrun Htarget Hnames Hd Hwf Ht. destruct (decide (fs_nodes fs !! T = Some Dir)) as [Hdir|Hnot].
  { assert (dirs (fs_nodes fs) T) as HdT by (rewrite HT in *; by apply dirs_snoc).
    destruct (publish_refused _ _ _ _ _ _ _ _ Hrun Htarget HT Hplain HdT) as (_ & Hn & Hm). by apply affects_refl. }
  destruct Ht as [?|Hnone]; [done|]. assert (fs_nodes fs !! T = None) as HnT by (by rewrite <- (app_nil_r T)).
  assert (good_target fs (np_targetPath request) T d x) as Hgt.
  { split; [done..| |apply absent_clear; auto]. split; [|done]. intros p y [q Hq] Hs. rewrite Hq, Hnone in Hs. by destruct Hs. }
  destruct (publish_effect _ _ _ _ _ _ _ _ Hrun Hgt Hnames) as (Hout & Hc & Hms).
  assert (∀ p, ¬ T `prefix_of` p → fs_nodes s'.2 !! p = fs_nodes fs !! p) as Hsame.
  { intros p Hp. destruct (Hout p Hp) as [?|(HpT & Hne & Hp0 & _)]; [done|]. exfalso.
    rewrite HT in HpT. apply prefix_snoc_cases in HpT as [HpT|HpT]; [by rewrite Hd in Hp0|].
    apply Hp. by rewrite HT, HpT. }
  assert (T ≠ []) as HTne by (rewrite HT; by destruct d).
  destruct Hms as [(Hm & _ & Hbelow)|[Hm HdT]].
  - split; [done| |left; split; [done|congruence]]. destruct (Hc T) as [HT'|HT']; [done..| |by left].
    right. intros q. destruct (decide (q = [])) as [->|Hq]; [by rewrite app_nil_r|]. by rewrite Hbelow.
  - assert (fs_nodes s'.2 !! T = Some Dir) as HT' by (by apply HdT). split; [done|by left|]. right. left. done.
Qed.

(** [RemoveAll] of the target: a fault, or a mounted target that stays, or nothing is left. *)
Lemma RemoveAll_cases fs fs' r :
  RemoveAll (abs T) fs = (fs', r) → dirs (fs_nodes fs) d → clear (fs_nodes fs) T →
  fs_mounts fs' = fs_mounts fs ∧ (∀ p, ¬ T `prefix_of` p → fs_nodes fs' !! p = fs_nodes fs !! p) ∧
  (∀ p, fs_nodes fs !! p = None → fs_nodes fs' !! p = None) ∧
  (r ≠ Ok () ∧ (fs_nodes fs' = fs_nodes fs ∨ pinned fs T ∧ fs_nodes fs' !! T = fs_nodes fs !! T) ∨
   r = Ok () ∧ ¬ pinned fs T ∧ ∀ q, fs_nodes fs' !! (T ++ q) = None).
Proof.
  intros Hrm Hd Hc. unfold RemoveAll in Hrm. rewrite elements_abs in Hrm by done.
  apply syscall_inv in Hrm as [(l & e & -> & -> & _)|(l & _ & Hcall)]; [by split_and!; auto|].
  rewrite locate_faults, (locate_dirs T d x) in Hcall by done.
  assert (∀ p, ¬ T `prefix_of` p →
    filter (λ kv, ¬ T `prefix_of` kv.1 ∨ pinned (with_faults l fs) kv.1) (fs_nodes fs) !! p = fs_nodes fs !! p) as Hout.
  { intros p Hp. rewrite map_lookup_filter. destruct (fs_nodes fs !! p); simpl; [|done]. rewrite option_guard_True; auto. }
  case_decide as Hpin; [destruct Hcall as [-> ->]..]; split_and!; try done;
    try (intros p Hp; simpl; by rewrite map_lookup_filter, Hp); [left|right].
  - split; [done|]. right. split; [done|]. simpl. rewrite map_lookup_filter.
    destruct (fs_nodes fs !! T); simpl; [|done]. by rewrite option_guard_True by auto.
  - split_and!; [done..|]. intros q. simpl. rewrite map_lookup_filter.
    destruct (fs_nodes fs !! (T ++ q)); simpl; [|done]. rewrite option_guard_False; [done|].
    intros [Hp|(m & Hm & Hp)]; [by apply Hp, prefix_app_r|]. apply Hpin. exists m. split; [done|].
    trans (T ++ q); [by apply prefix_app_r|done].
Qed.

Lemma unpublish_affects volumeId (w : W) fs s' r :
  NodeUnpublishVolume volumeId (abs T) (w, fs) = (s', r) →
  dirs (fs_nodes fs) d → mounts_wf fs →
  fs_nodes fs !! T = Some Dir ∨ (∀ q, fs_nodes fs !! (T ++ q) = None) →
  (∀ hidden, (T, hidden) ∈ fs_mounts fs → fs_nodes fs !! T = Some Dir) →
  s'.1 = w ∧ affects T fs s'.2 ∧ (r = Ok () → ¬ pinned s'.2 T ∧ ∀ q, fs_nodes s'.2 !! (T ++ q) = None).
Proof.
  intros Hrun Hd Hwf Ht Hmounted. unfold NodeUnpublishVolume in Hrun.
  case_bool_decide; [injection Hrun as <- <-; split_and!; [done|by apply affects_refl|done]|].
  case_bool_decide; [injection Hrun as <- <-; split_and!; [done|by apply affects_refl|done]|].
  assert (T ≠ []) as HTne by (rewrite HT; by destruct d).
  assert (clear (fs_nodes fs) T) as Hc.
  { apply absent_clear; [done|]. destruct Ht as [?|Hn]; [by left|right]. by rewrite <- (app_nil_r T). }
  unfold mbind, M_bind, attempt, os in Hrun. cbn [fst snd] in Hrun.
  destruct (mounter_Unmount (abs T) fs) as [fs1 r1] eqn:Hun.
  pose proof (λ p, Unmount_outside T d x HT Hplain _ _ _ p Hwf Hd Hc Hun) as Hout1.
  assert (dirs (fs_nodes fs1) d) as Hd1.
  { intros p Hp Hne. rewrite Hout1; [by apply Hd|]. apply (not_below_prefix T). rewrite HT. by apply prefix_app_r. }
  assert (fs_nodes fs1 !! T = fs_nodes fs !! T) as HT1 by (apply Hout1; by apply (not_below_prefix T)).
  assert (clear (fs_nodes fs1) T) as Hc1.
  { intros p Hp Hne. rewrite Hout1; [by apply Hc|]. by apply (not_below_prefix T). }
  destruct (RemoveAll (abs T) fs1) as [fs2 r2] eqn:Hrm.
  assert (r1 ≠ Panic) as Hr1 by (intros ->; by apply Unmount_spec in Hun).
  assert (s' = (w, fs2) ∧ (r = Ok () ↔ r2 = Ok ())) as [-> Hr].
  { unfold on_error in Hrun. destruct r1 as [[]|e|]; [| |done]; simpl in Hrun; rewrite Hrm in Hrun;
      destruct r2; naive_solver. }
  destruct (RemoveAll_cases _ _ _ Hrm Hd1 Hc1) as (Hm2 & Hout2 & Hsub & Hcases). cbn [fst snd]. split; [done|].
  assert ((∃ hidden, take_mount T (fs_mounts fs) = Some (hidden, fs_mounts fs1)) ∨
    fs_nodes fs1 = fs_nodes fs ∧ fs_mounts fs1 = fs_mounts fs) as Hmt.
  { apply Unmount_spec in Hun. destruct r1 as [[]|e|]; [left|right; by destruct Hun as (? & ? & _)|done].
    destruct Hun as (q & hidden & rest & Hloc & Htake & (_ & Hm & _)). simpl in Hm.
    rewrite elements_abs, (locate_dirs T d x) in Hloc by done. injection Hloc as <-. exists hidden. by rewrite Hm. }
  assert (fs_nodes fs2 !! T = Some Dir ∨ ∀ q, fs_nodes fs2 !! (T ++ q) = None) as Htarget.
  { destruct (decide (fs_nodes fs !! T = Some Dir)) as [Hdir|Hno].
    - destruct Hcases as [(_ & [Heq|[_ Heq]])|(_ & _ & ?)]; [left; by rewrite Heq, HT1|left; by rewrite Heq, HT1|by right].
    - destruct Ht as [?|Hn]; [done|]. right. intros q. apply Hsub. destruct Hmt as [[h Ht]|[-> _]]; [|done].
      apply take_mount_elem in Ht as [Hin _]. by apply Hmounted in Hin. }
  split.
  - split; [|done|].
    + intros p Hp. rewrite Hout2 by done. apply Hout1. by intros [? _].
    + rewrite Hm2. destruct Hmt as [?|[Hn Hm]]; [by auto|]. left. split; [done|]. intros Hpin Hdir.
      assert (pinned fs1 T) as Hpin1 by (destruct Hpin as (m & ? & ?); exists m; by rewrite Hm).
      destruct Hcases as [(_ & [Heq|[_ Heq]])|(_ & ? & _)]; [by rewrite Heq, HT1..|done].
  - intros Hok%Hr. destruct Hcases as [[? _]|(_ & Hpin & Hn)]; [done|]. split; [|done].
    intros (m & Hin & Hp). apply Hpin. exists m. by rewrite <- Hm2.
Qed.
End calls.

(** ** The node as a state machine *)

Inductive volume_call := Published (r : res ()) | Unpublished (r : res ()).

Section node.
Context {W : Type} `{HC : Client W} `{!ApiServer W} `{!ControllerUtil W} `{!ControllerUtilLaws W}.
Context `{!OperatorGo} `{!MapRange} `{!Mounter} `{!MounterLaws}.

(** The targets of the volumes of the node: clean paths, none inside another. *)
Context (vols : list location).
Hypothesis vols_plain : ∀ T, T ∈ vols → T ≠ [] ∧ Forall plain T.
Hypothesis vols_apart : ∀ T T', T ∈ vols → T' ∈ vols → T `prefix_of` T' → T = T'.

(** A call of the kubelet for one of the volumes, with its result; or the cluster changes, or the
    system calls that are to fail do. *)
Inductive node_step : list (location * volume_call) → W * FS → W * FS → Prop :=
| step_publish request w fs s r T :
    T ∈ vols → np_targetPath request = abs T → names_ok w →
    NodePublishVolume request (w, fs) = (s, r) → node_step [(T, Published r)] (w, fs) s
| step_unpublish volumeId w fs s r T :
    T ∈ vols → NodeUnpublishVolume volumeId (abs T) (w, fs) = (s, r) →
    node_step [(T, Unpublished r)] (w, fs) s
| step_cluster w w' fs : node_step [] (w, fs) (w', fs)
| step_faults w fs l : node_step [] (w, fs) (w, with_faults l fs).

Inductive node_run : list (location * volume_call) → W * FS → W * FS → Prop :=
| node_run_nil s : node_run [] s s
| node_run_step es1 es2 s1 s2 s3 :
    node_step es1 s1 s2 → node_run es2 s2 s3 → node_run (es1 ++ es2) s1 s3.

(** A node on which none of the volumes is published: the kubelet made their directories. *)
Record fresh_node (fs : FS) : Prop := {
  fn_parents : ∀ T d x, T ∈ vols → T = d ++ [x] → dirs (fs_nodes fs) d;
  fn_absent : ∀ T q, T ∈ vols → fs_nodes fs !! (T ++ q) = None;
  fn_unpinned : ∀ T, T ∈ vols → ¬ pinned fs T;
  fn_wf : mounts_wf fs;
}.

(** The invariant: outside the targets the node is as it was; a target is a directory or gone; the
    mounts of the volumes lie over those that were there, at most one for each. *)
Record tidy (fs0 fs : FS) : Prop := {
  td_outside : ∀ p, (∀ T, T ∈ vols → ¬ T `prefix_of` p) → fs_nodes fs !! p = fs_nodes fs0 !! p;
  td_target : ∀ T, T ∈ vols → fs_nodes fs !! T = Some Dir ∨ ∀ q, fs_nodes fs !! (T ++ q) = None;
  td_mounts : ∃ ms, NoDup ms ∧ (∀ T, T ∈ ms → T ∈ vols ∧ fs_nodes fs !! T = Some Dir) ∧
    fs_mounts fs = ((λ T, (T, ∅)) <$> ms) ++ fs_mounts fs0;
}.

Lemma fresh_tidy fs : fresh_node fs → tidy fs fs.
Proof.
  intros [_ Habs _ _]. split; [done|by auto|]. exists []. split_and!; [constructor| |done].
  by intros T ?%not_elem_of_nil.
Qed.

Lemma filter_all {A} (P : A → Prop) `{!∀ x, Decision (P x)} (l : list A) : (∀ x, x ∈ l → P x) → filter P l = l.
Proof.
  induction l as [|x l IH]; intros Hl; [done|]. rewrite filter_cons_True, IH; [done|set_solver..].
Qed.

(** Taking the mount of a volume off the table. *)
Lemma take_volume T ms ms0 :
  NoDup ms → (∀ m, m ∈ ms0 → m.1 ≠ T) →
  take_mount T (((λ T, (T, ∅)) <$> ms) ++ ms0) =
  if decide (T ∈ ms) then Some (∅, ((λ T, (T, ∅)) <$> filter (λ T', T' ≠ T) ms) ++ ms0) else None.
Proof.
  intros Hnd Hms0. induction Hnd as [|T' ms Hin Hnd IH].
  - rewrite decide_False by (by apply not_elem_of_nil). simpl. induction ms0 as [|[q h] ms0 IH]; [done|]. simpl.
    rewrite bool_decide_eq_false_2; [|apply (Hms0 (q, h)); set_solver]. rewrite IH by set_solver. done.
  - csimpl. case_bool_decide as HT.
    + subst T'. rewrite decide_True by set_solver. f_equal. f_equal. f_equal. rewrite filter_cons_False by auto.
      f_equal. symmetry. apply filter_all. intros T' HT' ->. done.
    + rewrite IH. destruct (decide (T ∈ ms)) as [HTms|HTms].
      * rewrite decide_True by set_solver. by rewrite filter_cons_True by auto.
      * by rewrite decide_False by set_solver.
Qed.

Section reached.
Context (fs0 : FS).
Hypothesis fresh0 : fresh_node fs0.

Lemma tidy_parent fs T d x : tidy fs0 fs → T ∈ vols → T = d ++ [x] → dirs (fs_nodes fs) d.
Proof.
  intros Htidy HTv HT p Hp Hne. rewrite (td_outside _ _ Htidy).
  - by apply (fn_parents _ fresh0 T d x).
  - intros T' HT'v HT'. assert (T' = T) as ->.
    { apply vols_apart; [done..|]. rewrite HT. trans p; [done|]. trans d; [done|by apply prefix_app_r]. }
    apply prefix_length in HT', Hp. rewrite HT, length_app in HT'. simpl in HT'. lia.
Qed.

Lemma tidy_unpinned T m : T ∈ vols → m ∈ fs_mounts fs0 → m.1 ≠ T.
Proof. intros HT Hm <-. apply (fn_unpinned _ fresh0 _ HT). by exists m. Qed.

Lemma tidy_mounts_wf fs : tidy fs0 fs → mounts_wf fs.
Proof.
  intros [_ _ (ms & _ & _ & Hms)]. unfold mounts_wf. rewrite Hms. apply Forall_app_2; [|apply (fn_wf _ fresh0)].
  apply Forall_fmap, Forall_forall. intros T _ p [n Hn]. simpl in Hn. by rewrite lookup_empty in Hn.
Qed.

Lemma tidy_mounted fs T hidden : tidy fs0 fs → T ∈ vols → (T, hidden) ∈ fs_mounts fs → fs_nodes fs !! T = Some Dir.
Proof.
  intros [_ _ (ms & _ & Hin & Hms)] HT Hm. rewrite Hms in Hm.
  apply elem_of_app in Hm as [(T' & [= -> _] & HT')%list_elem_of_fmap|Hm]; [by apply Hin|].
  by apply (tidy_unpinned T) in Hm.
Qed.

(** A call for one of the volumes keeps the invariant. *)
Lemma affects_tidy fs fs' T : T ∈ vols → tidy fs0 fs → affects T fs fs' → tidy fs0 fs'.
Proof.
  intros HT Htidy [Hout Htarget Hmt]. pose proof Htidy as [Hout0 Htarget0 (ms & Hnd & Hin & Hms)].
  assert (∀ T', T' ∈ vols → T' ≠ T → ∀ q, fs_nodes fs' !! (T' ++ q) = fs_nodes fs !! (T' ++ q)) as Hother.
  { intros T' HT' Hne q. apply Hout. intros Hp. destruct (prefix_weak_total T T' (T' ++ q)) as [Hp'|Hp'];
      [done|by apply prefix_app_r|..]; apply Hne; [symmetry|]; by apply vols_apart. }
  assert (∀ T', T' ∈ vols → T' ≠ T → fs_nodes fs' !! T' = fs_nodes fs !! T') as Hother0.
  { intros T' HT' Hne. rewrite <- (app_nil_r T'). by apply Hother. }
  split.
  - intros p Hp. rewrite Hout by (by apply Hp). by apply Hout0.
  - intros T' HT'. destruct (decide (T' = T)) as [->|Hne]; [done|].
    rewrite Hother0 by done. destruct (Htarget0 T' HT') as [?|Hn]; [by left|right]. intros q. by rewrite Hother.
  - destruct Hmt as [[Hm Hstay]|[(Hm & Habs & Hdir)|(hidden & Htake)]].
    + exists ms. split_and!; [done| |by rewrite Hm]. intros T' HT'. destruct (Hin T' HT') as [HT'v HT'd]. split; [done|].
      destruct (decide (T' = T)) as [->|Hne]; [|by rewrite Hother0]. apply Hstay; [|done].
      exists (T, ∅). split; [|done]. rewrite Hms. apply elem_of_app. left. by apply (list_elem_of_fmap_2 (λ T, (T, ∅))).
    + exists (T :: ms). split_and!; [|intros T' [->|HT']%elem_of_cons; [done|]|by rewrite Hm, Hms].
      * apply NoDup_cons. split; [|done]. intros HTms. apply Hin in HTms as [_ ?]. congruence.
      * destruct (Hin T' HT') as [HT'v HT'd]. split; [done|]. destruct (decide (T' = T)) as [->|Hne]; [done|by rewrite Hother0].
    + rewrite Hms, take_volume in Htake; [|done|intros m; by apply tidy_unpinned]. case_decide as HTms; [|done].
      injection Htake as <- Hm. exists (filter (λ T', T' ≠ T) ms). split_and!; [by apply NoDup_filter| |done].
      intros T' [Hne HT']%list_elem_of_filter. destruct (Hin T' HT') as [? ?]. by rewrite Hother0.
Qed.

Lemma step_cases es s s' :
  node_step es s s' → tidy fs0 s.2 →
  (es = [] ∧ fs_nodes s'.2 = fs_nodes s.2 ∧ fs_mounts s'.2 = fs_mounts s.2) ∨
  ∃ T c, es = [(T, c)] ∧ T ∈ vols ∧ affects T s.2 s'.2 ∧
    (c = Unpublished (Ok ()) → ∀ q, fs_nodes s'.2 !! (T ++ q) = None).
Proof.
  intros Hstep Htidy. pose proof (tidy_mounts_wf _ Htidy) as Hwf.
  assert (∀ T, T ∈ vols → ∃ d x, T = d ++ [x] ∧ Forall plain T ∧ dirs (fs_nodes s.2) d) as Hplace.
  { intros T HT. destruct (vols_plain T HT) as [Hne Hp]. destruct T as [|x d _] using rev_ind; [done|].
    exists d, x. split_and!; [done..|]. by eapply tidy_parent. }
  destruct Hstep as [request w fs s' r T HT Htarget Hnames Hrun|volumeId w fs s' r T HT Hrun|w w' fs|w fs l];
    cbn [fst snd] in *; [right|right|by left..]; destruct (Hplace T HT) as (d & x & HTd & Hp & Hd);
    exists T; eexists; (split_and!; [done..| |]).
  - eapply publish_affects; [done..|]. by apply (td_target _ _ Htidy).
  - done.
  - eapply unpublish_affects; [done..|by apply (td_target _ _ Htidy)|]. intros hidden. by apply tidy_mounted.
  - intros [= ->]. eapply unpublish_affects; [done..|by apply (td_target _ _ Htidy)| |done].
    intros hidden. by apply tidy_mounted.
Qed.

Lemma step_tidy es s s' : node_step es s s' → tidy fs0 s.2 → tidy fs0 s'.2.
Proof.
  intros Hstep Htidy. destruct (step_cases _ _ _ Hstep Htidy) as [(_ & Hn & Hm)|(T & c & _ & HT & Haff & _)].
  - destruct Htidy as [Hout Ht Hms]. split; rewrite ?Hn, ?Hm; done.
  - by eapply affects_tidy.
Qed.

Lemma run_tidy es s s' : node_run es s s' → tidy fs0 s.2 → tidy fs0 s'.2.
Proof. induction 1; [done|]. eauto using step_tidy. Qed.

(** A call leaves the other volumes alone. *)
Lemma affects_other fs fs' T T' q :
  T ∈ vols → T' ∈ vols → T' ≠ T → affects T fs fs' → fs_nodes fs' !! (T' ++ q) = fs_nodes fs !! (T' ++ q).
Proof.
  intros HT HT' Hne Haff. apply (af_outside _ _ _ Haff). intros Hp.
  destruct (prefix_weak_total T T' (T' ++ q)) as [Hp'|Hp']; [done|by apply prefix_app_r|..];
    apply Hne; [symmetry|]; by apply vols_apart.
Qed.

Lemma run_other es s s' T :
  node_run es s s' → tidy fs0 s.2 → T ∈ vols → T ∉ es.*1 →
  ∀ q, fs_nodes s'.2 !! (T ++ q) = fs_nodes s.2 !! (T ++ q).
Proof.
  intros Hrun Htidy HT. induction Hrun as [s|es1 es2 s1 s2 s3 Hstep _ IH]; intros Hno q; [done|].
  rewrite fmap_app in Hno. apply not_elem_of_app in Hno as [Hno1 Hno2].
  rewrite IH by (eauto using step_tidy). destruct (step_cases _ _ _ Hstep Htidy) as [(_ & -> & _)|(T' & c & -> & HT' & Haff & _)]; [done|].
  eapply affects_other; [exact HT'|done| |done]. intros ->. set_solver.
Qed.

(** The last call for [T], if any. *)
Definition last_call (T : location) (es : list (location * volume_call)) : option volume_call :=
  snd <$> last (filter (λ e, e.1 = T) es).

Lemma last_call_app T es1 es2 :
  last_call T (es1 ++ es2) = match last_call T es2 with Some c => Some c | None => last_call T es1 end.
Proof. unfold last_call. rewrite filter_app, last_app. by destruct (last (filter _ es2)). Qed.

Lemma last_call_None T es : last_call T es = None → T ∉ es.*1.
Proof.
  unfold last_call. intros Hl%fmap_None%last_None (e & -> & He)%list_elem_of_fmap.
  apply (not_elem_of_nil e). rewrite <- Hl. by apply list_elem_of_filter.
Qed.

Lemma run_unpublished es s s' T :
  node_run es s s' → tidy fs0 s.2 → T ∈ vols → last_call T es = Some (Unpublished (Ok ())) →
  ∀ q, fs_nodes s'.2 !! (T ++ q) = None.
Proof.
  intros Hrun Htidy HT. induction Hrun as [s|es1 es2 s1 s2 s3 Hstep Hrun IH]; intros Hlast q; [done|].
  rewrite last_call_app in Hlast. pose proof (step_tidy _ _ _ Hstep Htidy) as Htidy2.
  destruct (last_call T es2) as [c|] eqn:Hl2; [by apply IH|].
  rewrite (run_other _ _ _ T Hrun) by (by auto using last_call_None).
  destruct (step_cases _ _ _ Hstep Htidy) as [(-> & _)|(T' & c & -> & HT' & _ & Hgone)]; [done|].
  unfold last_call in Hlast. destruct (decide (T' = T)) as [->|Hne].
  - rewrite filter_cons_True in Hlast by done. injection Hlast as ->. by apply Hgone.
  - rewrite filter_cons_False in Hlast by done. done.
Qed.
End reached.

(** C12: The volumes of a node do not disturb each other: after any history of calls, with any
    results, the files of a volume stay as they are until the next call for that very volume,
    whatever is published or unpublished elsewhere and whatever fails; and the files outside the
    targets are those of the node before the first call. *)
Theorem volumes_isolated fs0 w0 es1 s es2 s' :
  fresh_node fs0 → node_run es1 (w0, fs0) s → node_run es2 s s' →
  (∀ T q, T ∈ vols → T ∉ es2.*1 → fs_nodes s'.2 !! (T ++ q) = fs_nodes s.2 !! (T ++ q)) ∧
  (∀ p, (∀ T, T ∈ vols → ¬ T `prefix_of` p) → fs_nodes s'.2 !! p = fs_nodes fs0 !! p).
Proof.
  intros Hfresh Hrun1 Hrun2. pose proof (run_tidy fs0 Hfresh _ _ _ Hrun1 (fresh_tidy _ Hfresh)) as Htidy.
  split; [intros T q HT Hno; by eapply run_other|].
  apply (td_outside _ _ (run_tidy fs0 Hfresh _ _ _ Hrun2 Htidy)).
Qed.

(** C11: The node leaks nothing: after any history of publications and unpublications of any volumes,
    with any results and faults on the way, when the last call for each volume, if there was one,
    was an unpublication that succeeded, the files and the mount table of the node are those
    before the first call. *)
Theorem node_left_clean fs0 w0 es s :
  fresh_node fs0 → node_run es (w0, fs0) s →
  (∀ T, T ∈ vols → last_call T es = None ∨ last_call T es = Some (Unpublished (Ok ()))) →
  fs_nodes s.2 = fs_nodes fs0 ∧ fs_mounts s.2 = fs_mounts fs0.
Proof.
  intros Hfresh Hrun Hlast. pose proof (fresh_tidy _ Hfresh) as Htidy0.
  pose proof (run_tidy fs0 Hfresh _ _ _ Hrun Htidy0) as [Hout _ (ms & _ & Hms & Hmounts)].
  assert (∀ T q, T ∈ vols → fs_nodes s.2 !! (T ++ q) = None) as Hgone.
  { intros T q HT. destruct (Hlast T HT) as [Hn|Hu]; [|by eapply run_unpublished].
    rewrite (run_other fs0 Hfresh _ _ _ T Hrun) by (by auto using last_call_None). by apply (fn_absent _ Hfresh). }
  split.
  - apply map_eq. intros p. destruct (decide (Exists (λ T, T `prefix_of` p) vols)) as [(T & HT & q & ->)%Exists_exists|Hno].
    + by rewrite Hgone, (fn_absent _ Hfresh).
    + apply Hout. intros T HT Hp. apply Hno, Exists_exists. by exists T.
  - rewrite Hmounts. destruct ms as [|T ms]; [done|]. destruct (Hms T) as [HT HTd]; [set_solver|].
    by rewrite <- (app_nil_r T), Hgone in HTd.
Qed.
End node.
