(* ===== verification/NodeVolumesExamples.v ===== *)
(** * Examples of a node with two volumes

    The pod of CsiNodeExamples.v mounts its volume, the kubelet cleans up after another one that
    was never published, and then unpublishes the first. *)
From S2P Require Import Prelude GoRuntime GoStrings Api GoOs CsiTypes Util FakeClient Fixtures.
From S2P Require Import Service Reconciler CsiController CsiNode CsiNodeFiles CsiNodePublish.
From S2P Require Import CsiNodeSafety CsiNodeRecovery CsiNodeExamples NodeVolumes.
Import NodeServer.

(** The target of a second volume of the pod. *)
Definition other : location := target_parent ++ ["other"].
Definition volumes : list location := [target; other].

Lemma volumes_plain T : T ∈ volumes → T ≠ [] ∧ Forall plain T.
Proof.
  intros [->|HT%list_elem_of_singleton]%elem_of_cons; [split; [done|apply plain_target]|].
  subst T. split; [done|]. apply (bool_decide_unpack _). vm_compute. reflexivity.
Qed.

Lemma volumes_apart T T' : T ∈ volumes → T' ∈ volumes → T `prefix_of` T' → T = T'.
Proof.
  intros [->|HT%list_elem_of_singleton]%elem_of_cons [->|HT'%list_elem_of_singleton]%elem_of_cons;
    subst; [done| | |done]; intros Hp; apply (bool_decide_pack _) in Hp; vm_compute in Hp; done.
Qed.

Lemma volumes_last T d x : T ∈ volumes → T = d ++ [x] → d = target_parent.
Proof.
  intros [->|HT%list_elem_of_singleton]%elem_of_cons; [|subst T].
  - change target with (target_parent ++ ["mount"]). by intros [<- _]%app_inj_tail.
  - by intros [<- _]%app_inj_tail.
Qed.

Lemma volumes_absent T q : T ∈ volumes → fs_nodes node_fs !! (T ++ q) = None.
Proof.
  intros HT. destruct (fs_nodes node_fs !! (T ++ q)) as [n|] eqn:Hn; [|done]. exfalso.
  apply node_fs_node in Hn as (k & Hk & Heq%(f_equal length)). rewrite length_app, length_take in Heq.
  assert (length T = 8) as HTl.
  { apply elem_of_cons in HT as [->|HT%list_elem_of_singleton]; [done|by subst T]. }
  rewrite HTl in Heq. simpl in Heq. lia.
Qed.

Lemma volumes_fresh : fresh_node volumes node_fs.
Proof.
  split.
  - intros T d x HT Hd. rewrite (volumes_last _ _ _ HT Hd). exact node_fs_dirs.
  - exact volumes_absent.
  - intros T _ (m & Hm & _). by apply not_elem_of_nil in Hm.
  - apply Forall_nil_2.
Qed.

(** The kubelet cleans up after the second volume. *)
Definition after_other : (cluster * FS) * res () :=
  NodeUnpublishVolume "pvc-other" (abs other) (after_publish.1, after_publish.2).

Example other_unpublished : after_other.2 = Ok ().
Proof. vm_compute. reflexivity. Qed.

#[local] Opaque after_publish after_unpublish.

Lemma run_one vols T c s s' : node_step vols [(T, c)] s s' → node_run vols [(T, c)] s s'.
Proof. intros Hs. exact (node_run_step _ [_] [] _ _ _ Hs (node_run_nil _ _)). Qed.

Lemma published_step : node_step volumes [(target, Published (Ok ()))] (node_cluster, node_fs) after_publish.
Proof.
  eapply (step_publish _ test_publish); [by left|done|exact test_names_ok|exact publish_run_state].
Qed.

Lemma other_step : node_step volumes [(other, Unpublished after_other.2)] after_publish after_other.1.
Proof.
  rewrite (surjective_pairing after_publish). eapply (step_unpublish _ "pvc-other"); [by right; left|].
  exact (surjective_pairing after_other).
Qed.

Lemma unpublished_step : node_step volumes [(target, Unpublished (Ok ()))] after_publish after_unpublish.
Proof.
  rewrite (surjective_pairing after_publish).
  eapply (step_unpublish _ (np_volumeId test_publish)); [by left|exact unpublish_run].
Qed.

Lemma volumes_isolated_witness :
  fs_nodes after_other.1.2 !! (target ++ ["default-address"]) =
    fs_nodes after_publish.2 !! (target ++ ["default-address"]) ∧
  fs_nodes after_other.1.2 !! ["etc"] = fs_nodes node_fs !! ["etc"].
Proof.
  destruct (volumes_isolated volumes volumes_plain volumes_apart node_fs node_cluster _ after_publish _ after_other.1
    volumes_fresh (run_one _ _ _ _ _ published_step) (run_one _ _ _ _ _ other_step)) as [Hkept Hout]. split.
  - apply Hkept; [by left|]. intros Hin%list_elem_of_singleton. discriminate Hin.
  - apply Hout. intros T [->|HT%list_elem_of_singleton]%elem_of_cons; [apply etc_outside|subst T].
    apply (bool_decide_unpack _). vm_compute. reflexivity.
Defined.

Lemma node_left_clean_witness :
  fs_nodes after_unpublish.2 = fs_nodes node_fs ∧ fs_mounts after_unpublish.2 = fs_mounts node_fs.
Proof.
  apply (node_left_clean volumes volumes_plain volumes_apart node_fs node_cluster _ after_unpublish volumes_fresh
    (node_run_step _ _ _ _ _ _ published_step (run_one _ _ _ _ _ unpublished_step))).
  intros T [->|HT%list_elem_of_singleton]%elem_of_cons; [right; reflexivity|left; subst T; reflexivity].
Defined.
