(* ===== verification/Server.v ===== *)
(** * The gRPC server and the driver

    Models pkg/server/server.go (the non-blocking server: its listener, its wait group and
    the once-guarded close) and internal/csi/driver.go ([Driver.Run]).  The methods run
    concurrently: each is the sequence of its atomic steps, and a state holds the shared
    fields with the remaining steps of every running call.  gRPC and the network are not in
    the repository; the steps that call them follow their documentation.  Remote calls come in
    while the server serves and has not been told to stop; [GracefulStop] waits for those that
    are pending; [Serve] returns once the server was stopped, or when accepting breaks. *)
From stdpp Require Import relations.
From S2P Require Import Prelude GoRuntime GoStrings Util GoOs CsiTypes.
Import Util.Net.

(** ** Creating the listener *)

(** [net.Listen]: a parameter. *)
Class Network := { net_Listen : string → string → M FS () }.

Section listener.
Context `{!Network}.

Definition removeUnixSocket (addr : string) : M FS () :=
  removed ← attempt (Remove addr);
  match removed with
  | inr err => if negb (IsNotExist err) then fail err else mret ()
  | inl _ => mret ()
  end.

Definition createListener (endpoint : string) : M FS () :=
  parsed ← lift (on_error_res (Wrap (Lit "failed to parse endpoint: ")) (ParseEndpoint endpoint));
  let '(proto, addr0) := parsed in
  let addr := if bool_decide (proto = "unix") then "/" +:+ addr0 else addr0 in
  (if bool_decide (proto = "unix")
   then on_error (Wrap (Lit "failed to remove existing unix socket: ")) (removeUnixSocket addr)
   else mret ());;
  on_error (Wrap (Cat (Lit "failed to listen on ")
                 (Cat (Lit proto) (Cat (Lit "://") (Cat (Lit addr) (Lit ": "))))))
    (net_Listen proto addr).
End listener.

(** After [os.Remove] succeeded, or found nothing, the path is free and the rest is as before. *)
Lemma Remove_frees s fs fs' r q :
  Remove s fs = (fs', r) → locate fs false (elements s) = inr q → q ≠ [] →
  (∀ e, r = Fail e → IsNotExist e = true) → r ≠ Panic →
  fs_nodes fs' !! q = None ∧ ∀ p, p ≠ q → fs_nodes fs' !! p = fs_nodes fs !! p.
Proof.
  intros Hrun Hloc Hq Hne Hnp.
  assert (∀ l, node_at (fs_nodes (with_faults l fs)) q = fs_nodes fs !! q) as Hnode by (by destruct q).
  destruct r as [[]|e|]; [| |done].
  - apply syscall_inv in Hrun as [(l & e & _ & ? & _)|(l & _ & Hcall)]; [done|].
    rewrite locate_faults, Hloc, Hnode in Hcall.
    repeat case_match; destruct Hcall as [-> ?]; simplify_eq; simpl;
      (split; [apply lookup_delete_eq|intros p Hp; by apply lookup_delete_ne]).
  - apply syscall_error in Hrun as [[-> _]|(l & errno & Hcall & ->)]; [by specialize (Hne _ eq_refl)|].
    specialize (Hne _ eq_refl). apply bool_decide_eq_true in Hne as ->.
    rewrite locate_faults, Hloc, Hnode in Hcall.
    repeat case_match; simplify_eq. done.
Qed.

Section listener_lemmas.
Context `{!Network}.

(** A stale socket never blocks the server: when [createListener] listens on a unix
    endpoint, the socket path is free at that moment, and nothing else was removed. *)
Lemma createListener_frees_socket endpoint addr fs fs' q :
  createListener endpoint fs = (fs', Ok ()) → ParseEndpoint endpoint = Ok ("unix", addr) →
  locate fs false (elements ("/" +:+ addr)) = inr q → q ≠ [] →
  ∃ fs1, net_Listen "unix" ("/" +:+ addr) fs1 = (fs', Ok ()) ∧ fs_nodes fs1 !! q = None ∧
         ∀ p, p ≠ q → fs_nodes fs1 !! p = fs_nodes fs !! p.
Proof.
  intros Hrun Hparse Hloc Hq. unfold createListener in Hrun. rewrite Hparse in Hrun.
  apply bind_Ok_inv in Hrun as ([proto addr'] & fs0 & [-> [= <- <-]]%lift_Ok_inv & Hrun).
  simpl in Hrun. apply bind_Ok_inv in Hrun as ([] & fs1 & Hrm%on_error_Ok & Hl%on_error_Ok).
  exists fs1. split; [done|]. unfold removeUnixSocket in Hrm.
  apply bind_Ok_inv in Hrm as (removed & fs2 & Ha%attempt_Ok_inv & Hrm).
  destruct removed as [[]|e].
  - apply ret_Ok_inv in Hrm as [-> _]. by apply (Remove_frees _ _ _ _ q) in Ha.
  - destruct (IsNotExist e) eqn:He; simpl in Hrm; [|by apply fail_Ok_inv in Hrm].
    apply ret_Ok_inv in Hrm as [-> _]. apply (Remove_frees _ _ _ _ q) in Ha; try done. by intros ? [= <-].
Qed.
End listener_lemmas.

(** ** Calls as sequences of steps *)

(** The services of the CSI specification. *)
Inductive CsiService := NodeService | IdentityService | ControllerService.
#[export] Instance CsiService_eq_dec : EqDecision CsiService.
Proof. solve_decision. Defined.

Inductive instr :=
| Register (c : CsiService)   (* csi.RegisterNodeServer and the like, on s.server *)
| Listen        (* listener, err := s.createListener(); s.listener = listener *)
| Add           (* s.wg.Add(1) *)
| Go            (* go func() of Start *)
| Serve         (* s.server.Serve(s.listener) is entered *)
| Serving       (* and returns *)
| Done          (* s.wg.Done() *)
| Graceful      (* s.server.GracefulStop() is entered *)
| Drain         (* and returns *)
| Force         (* s.server.Stop() *)
| WaitWg        (* s.wg.Wait() *)
| CloseOnce     (* s.closeListener() *)
| GoStop        (* go func() of Driver.Run *)
| CtxDone.      (* <-ctx.Done() *)

Definition Start : list instr := [Listen; Add; Go].
Definition serve_goroutine : list instr := [Serve; Done].
Definition Stop : list instr := [Graceful; Drain; WaitWg; CloseOnce].
Definition ForceStop : list instr := [Force; CloseOnce].
Definition Wait : list instr := [WaitWg; CloseOnce].
Definition stop_goroutine : list instr := CtxDone :: Stop.

(** The services in the order in which [RegisterService] registers them. *)
Definition csi_services : list CsiService := [NodeService; IdentityService; ControllerService].

(** [Driver.Run] after the check of the node ID: an error of Start ends it. *)
Definition Run_calls : list instr := (Register <$> csi_services) ++ Start ++ GoStop :: Wait.

Record shared := {
  registered : list CsiService; (* the services registered with gRPC *)
  listener : option bool;       (* the listener, and whether it is still open *)
  wg : Z;                       (* the counter of the wait group *)
  once : bool;                  (* s.once has run *)
  closes : nat;                 (* calls of s.listener.Close() by closeListener *)
  served : bool;                (* s.server.Serve was entered *)
  quit : bool;                  (* the gRPC server was told to stop *)
  stopped : bool;               (* the gRPC server has stopped *)
  rpcs : nat;                   (* remote calls that are pending *)
  broken : bool;                (* accepting connections failed *)
  cancelled : bool;             (* the context is done *)
  fatal : bool;                 (* gRPC ended the process *)
}.

Definition set_registered cs s :=
  {| registered := cs; listener := listener s; wg := wg s; once := once s; closes := closes s;
     served := served s; quit := quit s; stopped := stopped s; rpcs := rpcs s; broken := broken s;
     cancelled := cancelled s; fatal := fatal s |}.
Definition set_listener l s :=
  {| registered := registered s; listener := l; wg := wg s; once := once s; closes := closes s;
     served := served s; quit := quit s; stopped := stopped s; rpcs := rpcs s; broken := broken s;
     cancelled := cancelled s; fatal := fatal s |}.
Definition set_wg n s :=
  {| registered := registered s; listener := listener s; wg := n; once := once s;
     closes := closes s; served := served s; quit := quit s; stopped := stopped s; rpcs := rpcs s;
     broken := broken s; cancelled := cancelled s; fatal := fatal s |}.
Definition set_served s :=
  {| registered := registered s; listener := listener s; wg := wg s; once := once s;
     closes := closes s; served := true; quit := quit s; stopped := stopped s; rpcs := rpcs s;
     broken := broken s; cancelled := cancelled s; fatal := fatal s |}.
Definition set_quit s :=
  {| registered := registered s; listener := listener s; wg := wg s; once := once s;
     closes := closes s; served := served s; quit := true; stopped := stopped s; rpcs := rpcs s;
     broken := broken s; cancelled := cancelled s; fatal := fatal s |}.
Definition set_stopped s :=
  {| registered := registered s; listener := listener s; wg := wg s; once := once s;
     closes := closes s; served := served s; quit := true; stopped := true; rpcs := rpcs s;
     broken := broken s; cancelled := cancelled s; fatal := fatal s |}.
Definition set_rpcs n s :=
  {| registered := registered s; listener := listener s; wg := wg s; once := once s;
     closes := closes s; served := served s; quit := quit s; stopped := stopped s; rpcs := n;
     broken := broken s; cancelled := cancelled s; fatal := fatal s |}.
Definition set_broken s :=
  {| registered := registered s; listener := listener s; wg := wg s; once := once s;
     closes := closes s; served := served s; quit := quit s; stopped := stopped s; rpcs := rpcs s;
     broken := true; cancelled := cancelled s; fatal := fatal s |}.
Definition set_cancelled s :=
  {| registered := registered s; listener := listener s; wg := wg s; once := once s;
     closes := closes s; served := served s; quit := quit s; stopped := stopped s; rpcs := rpcs s;
     broken := broken s; cancelled := true; fatal := fatal s |}.
Definition set_fatal s :=
  {| registered := registered s; listener := listener s; wg := wg s; once := once s;
     closes := closes s; served := served s; quit := quit s; stopped := stopped s; rpcs := rpcs s;
     broken := broken s; cancelled := cancelled s; fatal := true |}.

(** The body of [once.Do]: the listener is closed if there is one. *)
Definition close_first s :=
  {| registered := registered s; listener := (λ _, false) <$> listener s; wg := wg s;
     once := true; closes := match listener s with Some _ => S (closes s) | None => closes s end;
     served := served s; quit := quit s; stopped := stopped s; rpcs := rpcs s; broken := broken s;
     cancelled := cancelled s; fatal := fatal s |}.

(** gRPC closes the listener it was given by the time [Serve] returns. *)
Definition grpc_closes s := set_listener ((λ _, false) <$> listener s) s.

(** One step of a call: the shared fields, what remains of the call, and the goroutine it
    starts.  gRPC ends the process when a service is registered twice or after [Serve]; [Serve]
    returns at once when the server was told to stop before, and otherwise when accepting fails,
    or when the call that stops the server is through; [GracefulStop] is through when no remote
    call is pending, or when [Stop] closed the connections meanwhile. *)
Inductive exec : instr → list instr → shared → shared → list instr → list (list instr) → Prop :=
| ex_register c k s : c ∉ registered s → served s = false →
    exec (Register c) k s (set_registered (registered s ++ [c]) s) k []
| ex_register_fatal c k s : c ∈ registered s ∨ served s = true → exec (Register c) k s (set_fatal s) [] []
| ex_listen k s : exec Listen k s (set_listener (Some true) s) k []
| ex_listen_error k s : exec Listen k s s [] []
| ex_add k s : exec Add k s (set_wg (wg s + 1) s) k []
| ex_go k s : exec Go k s s k [serve_goroutine]
| ex_serve k s : quit s = false → exec Serve k s (set_served s) (Serving :: k) []
| ex_serve_late k s : quit s = true → exec Serve k s (grpc_closes (set_served s)) k []
| ex_serving k s : stopped s = true → exec Serving k s (grpc_closes s) k []
| ex_serving_broken k s : broken s = true → quit s = false → exec Serving k s (grpc_closes s) k []
| ex_done k s : exec Done k s (set_wg (wg s - 1) s) k []
| ex_graceful k s : exec Graceful k s (set_quit s) k []
| ex_drain k s : rpcs s = 0 ∨ stopped s = true → exec Drain k s (set_stopped s) k []
| ex_force k s : exec Force k s (set_stopped s) k []
| ex_wait k s : wg s = 0%Z → exec WaitWg k s s k []
| ex_close k s : once s = false → exec CloseOnce k s (close_first s) k []
| ex_close_again k s : once s = true → exec CloseOnce k s s k []
| ex_go_stop k s : exec GoStop k s s k [stop_goroutine]
| ex_ctx k s : cancelled s = true → exec CtxDone k s s k [].

Definition state : Type := shared * list (list instr).

(** A step of one of the running calls, or of a remote call: it returns. *)
Inductive thread_step : state → state → Prop :=
| do_step s s' i k k' new ts1 ts2 :
    exec i k s s' k' new → thread_step (s, ts1 ++ (i :: k) :: ts2) (s', ts1 ++ k' :: ts2 ++ new)
| rpc_returns s ts : 0 < rpcs s → thread_step (s, ts) (set_rpcs (pred (rpcs s)) s, ts).

(** A step of the environment: the context is cancelled, accepting connections breaks, or a remote
    call comes in. *)
Inductive outside_step : shared → shared → Prop :=
| out_cancel s : outside_step s (set_cancelled s)
| out_break s : outside_step s (set_broken s)
| out_rpc s : served s = true → quit s = false → outside_step s (set_rpcs (S (rpcs s)) s).

(** A step of the program: a running call moves, a method is called, or the environment does
    something. *)
Inductive step : state → state → Prop :=
| step_thread st st' : thread_step st st' → step st st'
| step_call s ts call : call ∈ [Start; Stop; ForceStop; Wait; Run_calls] → step (s, ts) (s, ts ++ [call])
| step_outside s s' ts : outside_step s s' → step (s, ts) (s', ts).

Definition initial : state :=
  ({| registered := []; listener := None; wg := 0; once := false; closes := 0; served := false; quit := false;
      stopped := false; rpcs := 0; broken := false; cancelled := false; fatal := false |}, []).

Definition reachable (st : state) : Prop := rtc step initial st.

(** ** The invariant *)

#[export] Instance instr_eq_dec : EqDecision instr.
Proof. solve_decision. Defined.

Fixpoint tails {A} (l : list A) : list (list A) :=
  l :: match l with [] => [] | _ :: l' => tails l' end.

(** What can remain of a call or a goroutine. *)
Definition known (t : list instr) : Prop :=
  t ∈ [Start; Stop; ForceStop; Wait; Run_calls; serve_goroutine; [Serving; Done]; stop_goroutine] ≫= tails.

(** A goroutine of [Start] that runs, or that is counted and about to be started. *)
Definition in_flight (t : list instr) : Prop := Done ∈ t ∨ head t = Some Go.
#[export] Instance in_flight_dec t : Decision (in_flight t).
Proof. unfold in_flight. apply _. Defined.

Definition count (ts : list (list instr)) : Z := Z.of_nat (length (filter in_flight ts)).

(** [WaitGroup] counts the goroutines; [closeListener] closes only in the first [once.Do]. *)
Record server_inv (st : state) : Prop := {
  si_known : Forall known st.2;
  si_wg : wg st.1 = count st.2;
  si_once : closes st.1 ≤ if once st.1 then 1 else 0;
}.

Ltac known_cases H :=
  unfold known in H; vm_compute in H;
  repeat (apply elem_of_cons in H as [H|H]; [simplify_eq|]); [..|by apply not_elem_of_nil in H].

Lemma known_computed t : bool_decide (known t) = true → known t.
Proof. apply bool_decide_eq_true. Qed.

(** A step keeps the shape of the calls and moves the counter with the goroutines. *)
Lemma exec_known i k s s' k' new :
  known (i :: k) → exec i k s s' k' new →
  known k' ∧ Forall known new ∧
  (wg s' - wg s = count [k'] + count new - count [i :: k])%Z.
Proof.
  intros Hk He. known_cases Hk; inversion He; subst;
    (split; [apply known_computed; vm_compute; reflexivity|]);
    (split; [repeat constructor; apply known_computed; vm_compute; reflexivity|]);
    unfold count; simpl; lia.
Qed.

Lemma count_app ts1 ts2 : count (ts1 ++ ts2) = (count ts1 + count ts2)%Z.
Proof. unfold count. rewrite filter_app, length_app. lia. Qed.

Lemma exec_once i k s s' k' new :
  exec i k s s' k' new → closes s ≤ (if once s then 1 else 0) → closes s' ≤ if once s' then 1 else 0.
Proof.
  intros He. destruct He as [| | | | | | | | | | | | | | |k s Ho| | |]; simpl; try done. rewrite Ho. intros.
  destruct (listener s); lia.
Qed.

Lemma thread_step_inv st st' : thread_step st st' → server_inv st → server_inv st'.
Proof.
  intros [s s' i k k' new ts1 ts2 He|s ts Hn] [Hk Hw Ho]; [|by split]. simpl in *.
  apply Forall_app in Hk as [Hk1 Hk2]. apply Forall_cons in Hk2 as [Hik Hk2].
  destruct (exec_known _ _ _ _ _ _ Hik He) as (Hk' & Hnew & Hwg). split; simpl.
  - apply Forall_app_2; [done|]. apply Forall_cons_2; [done|]. by apply Forall_app_2.
  - change ((i :: k) :: ts2) with ([i :: k] ++ ts2) in Hw.
    change (k' :: ts2 ++ new) with ([k'] ++ ts2 ++ new). rewrite !count_app in *. lia.
  - by eapply exec_once.
Qed.

Lemma outside_step_inv s s' ts : outside_step s s' → server_inv (s, ts) → server_inv (s', ts).
Proof. by intros [?|?|? ? ?] [Hk Hw Ho]; split. Qed.

Lemma step_inv st st' : step st st' → server_inv st → server_inv st'.
Proof.
  intros [??|s ts call Hcall|s s' ts Hs] Hi; [by eapply thread_step_inv| |by eapply outside_step_inv].
  destruct Hi as [Hk Hw Ho]. simpl in *. split; simpl; [| |done].
  - apply Forall_app_2; [done|]. apply Forall_cons_2; [|apply Forall_nil_2].
    known_cases Hcall; apply known_computed; vm_compute; reflexivity.
  - rewrite count_app, Hw. known_cases Hcall; vm_compute (count [_]); lia.
Qed.

Lemma rtc_inv {A} (R : relation A) (P : A → Prop) x y :
  (∀ a b, R a b → P a → P b) → rtc R x y → P x → P y.
Proof. intros HR Hr. induction Hr; eauto. Qed.

Lemma reachable_inv st : reachable st → server_inv st.
Proof. intros Hr. eapply rtc_inv; [apply step_inv|exact Hr|by split]. Qed.

(** ** Progress *)

(** The calls that have steps left and cannot move. *)
Definition blocked (s : shared) (t : list instr) : Prop :=
  match t with
  | WaitWg :: _ => wg s ≠ 0%Z
  | Serving :: _ => stopped s = false
  | Drain :: _ => rpcs s ≠ 0 ∧ stopped s = false
  | CtxDone :: _ => cancelled s = false
  | _ => False
  end.

Definition ready (s : shared) (t : list instr) : Prop :=
  ∃ i k s' k' new, t = i :: k ∧ exec i k s s' k' new.

Lemma exec_ready i k s s' k' new : exec i k s s' k' new → ready s (i :: k).
Proof. intros He. by exists i, k, s', k', new. Qed.

Lemma thread_cases s t : t = [] ∨ ready s t ∨ blocked s t.
Proof.
  destruct t as [|i k]; [by left|]. right.
  destruct i as [c| | | | | | | | | | | | |]; simpl; try (left; eapply exec_ready; constructor; fail).
  - left. destruct (decide (c ∈ registered s)); [eapply exec_ready, ex_register_fatal; by left|].
    destruct (served s) eqn:Hs; [eapply exec_ready, ex_register_fatal; by right|by eapply exec_ready, ex_register].
  - left. destruct (quit s) eqn:Hq; [by eapply exec_ready, ex_serve_late|by eapply exec_ready, ex_serve].
  - destruct (stopped s) eqn:Hs; [left; by eapply exec_ready, ex_serving|by right].
  - destruct (decide (rpcs s = 0)); [left; eapply exec_ready, ex_drain; by left|].
    destruct (stopped s) eqn:Hs; [left; eapply exec_ready, ex_drain; by right|by right].
  - destruct (decide (wg s = 0%Z)); [left; by eapply exec_ready, ex_wait|by right].
  - left. destruct (once s) eqn:Ho; [by eapply exec_ready, ex_close_again|by eapply exec_ready, ex_close].
  - destruct (cancelled s) eqn:Hc; [left; by eapply exec_ready, ex_ctx|by right].
Qed.

Lemma ready_step s ts t : t ∈ ts → ready s t → ∃ st', thread_step (s, ts) st'.
Proof.
  intros (ts1 & ts2 & ->)%list_elem_of_split (i & k & s' & k' & new & -> & He).
  eexists. by constructor.
Qed.

(** Some call is still going to stop the gRPC server. *)
Definition will_stop (ts : list (list instr)) : Prop :=
  ∃ t : list instr, t ∈ ts ∧ (Drain ∈ t ∨ GoStop ∈ t).

Definition finished (st : state) : Prop := Forall (λ t, t = []) st.2.

Lemma threads_cases s (ts : list (list instr)) :
  (∃ t, t ∈ ts ∧ ready s t) ∨ ∀ t, t ∈ ts → t = [] ∨ blocked s t.
Proof.
  induction ts as [|t ts IH]; [right; by intros t ?%not_elem_of_nil|].
  destruct IH as [(t' & Ht & Hr)|IH]; [left; exists t'; split; [by apply list_elem_of_further|done]|].
  destruct (thread_cases s t) as [?|[?|?]];
    [right|left; exists t; split; [apply list_elem_of_here|done]|right];
    intros t' [->|Ht]%elem_of_cons; auto.
Qed.

(** With nothing blocked but waits, a goroutine is still counted; it is not blocked. *)
Lemma blocked_wait s ts :
  server_inv (s, ts) → cancelled s = true → stopped s = true →
  (∀ t, t ∈ ts → t = [] ∨ blocked s t) → finished (s, ts).
Proof.
  intros [Hk Hw _] Hc Hs Hall. simpl in *. rewrite Forall_forall in Hk.
  assert (filter in_flight ts = []) as Hnil.
  { apply elem_of_nil_inv. intros t [Hf Ht]%list_elem_of_filter. specialize (Hk t Ht).
    destruct (Hall t Ht) as [->|Hb]; [by destruct Hf as [?%not_elem_of_nil|?]|].
    destruct t as [|[] k]; simpl in Hb; try done; try (destruct Hb; congruence); try congruence.
    known_cases Hk; (destruct Hf as [Hf|Hf]; [set_solver|done]). }
  apply Forall_forall. intros t Ht. destruct (Hall t Ht) as [->|Hb]; [done|].
  destruct t as [|[] k]; simpl in Hb; try done; try (destruct Hb; congruence); try congruence.
  exfalso. apply Hb. rewrite Hw. unfold count. by rewrite Hnil.
Qed.

Lemma progress s ts :
  server_inv (s, ts) → cancelled s = true → stopped s = true ∨ will_stop ts →
  finished (s, ts) ∨ ∃ st', thread_step (s, ts) st'.
Proof.
  intros Hi Hc Hstop. destruct (decide (rpcs s = 0)) as [Hrpc|Hrpc];
    [|right; eexists; apply rpc_returns; lia].
  destruct (threads_cases s ts) as [(t & Ht & Hr)|Hall]; [right; by eapply ready_step|]. left.
  destruct (stopped s) eqn:Hs; [by apply blocked_wait|].
  destruct Hstop as [?|(t & Ht & Hg)]; [done|]. exfalso.
  pose proof (proj1 (Forall_forall _ _) (si_known _ Hi) t Ht) as Hk.
  destruct (Hall t Ht) as [->|Hb]; [by destruct Hg as [?%not_elem_of_nil|?%not_elem_of_nil]|].
  destruct t as [|[] k]; simpl in Hb; try done; try congruence; try (by destruct Hb); known_cases Hk; set_solver.
Qed.

(** ** Termination *)

Definition instr_cost (i : instr) : nat := match i with Go => 4 | GoStop => 6 | Serve => 2 | _ => 1 end.
Definition call_cost (t : list instr) : nat := sum_list (instr_cost <$> t).
Definition cost (st : state) : nat := rpcs st.1 + sum_list (call_cost <$> st.2).

Lemma sum_list_fmap_app {A} (f : A → nat) l1 l2 :
  sum_list (f <$> l1 ++ l2) = sum_list (f <$> l1) + sum_list (f <$> l2).
Proof. induction l1 as [|x l1 IH]; csimpl; [done|]. rewrite IH. lia. Qed.

Lemma exec_cost i k s s' k' new :
  exec i k s s' k' new →
  rpcs s' = rpcs s ∧ call_cost k' + sum_list (call_cost <$> new) < call_cost (i :: k).
Proof.
  intros He. assert (sum_list (call_cost <$> [serve_goroutine]) = 3) by reflexivity.
  assert (sum_list (call_cost <$> [stop_goroutine]) = 5) by reflexivity.
  unfold call_cost in *. inversion He; subst; (split; [done|]); csimpl; simpl in *; lia.
Qed.

Lemma thread_step_cost st st' : thread_step st st' → cost st' < cost st.
Proof.
  intros [s s' i k k' new ts1 ts2 He|s ts Hn]; unfold cost; simpl; [|lia].
  apply exec_cost in He as [-> He].
  change ((i :: k) :: ts2) with ([i :: k] ++ ts2). change (k' :: ts2 ++ new) with ([k'] ++ ts2 ++ new).
  rewrite !sum_list_fmap_app. simpl. lia.
Qed.

Lemma nsteps_cost n st st' : nsteps thread_step n st st' → n + cost st' ≤ cost st.
Proof. induction 1 as [|n x y z Hs%thread_step_cost _ IH]; lia. Qed.

(** A set of states from which the calls can always move on can be left only by finishing. *)
Lemma run_to_end (P : state → Prop) st :
  (∀ st st', P st → thread_step st st' → P st') →
  (∀ st, P st → finished st ∨ ∃ st', thread_step st st') →
  P st → ∃ st', rtc thread_step st st' ∧ finished st'.
Proof.
  intros Hpres Hprog. induction st as [st IH] using (well_founded_induction
    (Wf_nat.well_founded_ltof _ cost)); unfold Wf_nat.ltof in IH. intros HP.
  destruct (Hprog st HP) as [Hf|(st1 & Hs)]; [by exists st|].
  destruct (IH st1) as (st2 & Hr & Hf); [by apply thread_step_cost|by eapply Hpres|].
  exists st2. split; [by eapply rtc_l|done].
Qed.

(** ** Theorems *)

(** With the counter at zero no goroutine serves. *)
Lemma wg_zero_idle s ts :
  server_inv (s, ts) → wg s = 0%Z → ∀ t, t ∈ ts → Serve ∉ t ∧ Serving ∉ t ∧ Done ∉ t.
Proof.
  intros [Hk Hw _] H0 t Ht. simpl in *. assert (Done ∉ t) as Hd.
  { intros Hd. assert (t ∈ filter in_flight ts) as Hin by (apply list_elem_of_filter; by split; [left|]).
    rewrite H0 in Hw. unfold count in Hw. destruct (filter in_flight ts); [by apply not_elem_of_nil in Hin|].
    simpl in Hw. lia. }
  pose proof (proj1 (Forall_forall _ _) Hk t Ht) as Hkt. known_cases Hkt; set_solver.
Qed.

(** C26: The wait group is exact: in every reachable state, whatever calls run concurrently, its
    counter is the number of server goroutines started and not finished.  So it is never
    negative, and a [Wait] that goes on does so when no goroutine serves any more. *)
Theorem wait_group_exact s ts :
  reachable (s, ts) →
  wg s = count ts ∧ (0 ≤ wg s)%Z ∧ (wg s = 0%Z → ∀ t, t ∈ ts → Serve ∉ t ∧ Serving ∉ t ∧ Done ∉ t).
Proof.
  intros Hi%reachable_inv. pose proof (si_wg _ Hi) as Hw. simpl in Hw.
  split_and!; [done|unfold count in Hw; lia|by apply wg_zero_idle].
Qed.

(** Whatever calls of Stop, ForceStop, Wait and Run race, [closeListener] closes the listener at
    most once. *)
Lemma listener_closed_once s ts : reachable (s, ts) → closes s ≤ 1.
Proof. intros [_ _ Ho]%reachable_inv. simpl in Ho. destruct (once s); lia. Qed.

(** ** Witnesses *)

(** A server that was started. *)
Lemma reach_call st st' call :
  reachable st → call ∈ [Start; Stop; ForceStop; Wait; Run_calls] → st' = (st.1, st.2 ++ [call]) →
  reachable st'.
Proof. intros Hr Hc ->. destruct st as [s ts]. eapply rtc_r; [done|]. by constructor. Qed.

Lemma reach_step st st' : reachable st → thread_step st st' → reachable st'.
Proof. intros Hr Hs. eapply rtc_r; [done|]. by constructor. Qed.

Definition started : shared :=
  set_wg 1 (set_listener (Some true) initial.1).

Lemma started_reachable : reachable (started, [[]; serve_goroutine]).
Proof.
  assert (reachable (initial.1, [Start])) as Hcall.
  { eapply reach_call; [apply rtc_refl| |reflexivity]. set_solver. }
  assert (reachable (set_listener (Some true) initial.1, [[Add; Go]])) as Hlisten
    by exact (reach_step _ _ Hcall (do_step _ _ Listen [Add; Go] _ [] [] [] (ex_listen _ _))).
  assert (reachable (started, [[Go]])) as Hadd
    by exact (reach_step _ _ Hlisten (do_step _ _ Add [Go] _ [] [] [] (ex_add _ _))).
  exact (reach_step _ _ Hadd (do_step _ _ Go [] _ [serve_goroutine] [] [] (ex_go _ _))).
Qed.

Lemma wait_group_exact_witness : wg started = count [[]; serve_goroutine].
Proof. apply (wait_group_exact started [[]; serve_goroutine] started_reachable). Defined.

#[local] Instance fake_network : Network := {| net_Listen := λ _ _, mret () |}.
Definition socket_fs : FS :=
  {| fs_nodes := <[["tmp"; "csi.sock"] := File ""]> {[ ["tmp"] := Dir ]};
     fs_mounts := []; fs_cwd := []; fs_faults := [] |}.

Example createListener_frees_socket_example :
  ∃ fs1, net_Listen "unix" "/tmp/csi.sock" fs1 =
           ((createListener "unix://tmp/csi.sock" socket_fs).1, Ok ()) ∧
         fs_nodes fs1 !! ["tmp"; "csi.sock"] = None ∧
         ∀ p, p ≠ ["tmp"; "csi.sock"] → fs_nodes fs1 !! p = fs_nodes socket_fs !! p.
Proof.
  apply (createListener_frees_socket "unix://tmp/csi.sock" "tmp/csi.sock" socket_fs).
  - apply run_outcome. vm_compute. reflexivity.
  - vm_compute. reflexivity.
  - vm_compute. reflexivity.
  - discriminate.
Qed.
