(* ===== verification/ServerRun.v ===== *)
(** * One run of the driver

    [Driver.Run] of internal/csi/driver.go calls the server of [Server]: here are the states that
    one such run can reach while remote calls come and go, with the invariant of main's goroutine
    and the goroutines it starts: the services are registered before the server listens, the
    listener is closed, and a run whose context is cancelled comes to its end. *)
From stdpp Require Import relations.
From S2P Require Import Prelude GoRuntime GoStrings Util GoOs CsiTypes Server.

Inductive driver_step : state → state → Prop :=
| drv_thread st st' : thread_step st st' → driver_step st st'
| drv_outside s s' ts : outside_step s s' → driver_step (s, ts) (s', ts).

(** The states of a run that makes the calls [calls]. *)
Definition run_reachable (calls : list instr) (st : state) : Prop := rtc driver_step (initial.1, [calls]) st.

(** ** The invariant *)

(** The goroutines a run of the driver starts. *)
Definition background (t : list instr) : Prop :=
  t ∈ tails serve_goroutine ++ [[Serving; Done]] ++ tails stop_goroutine.

(** [s.once] and the listener: closed by the first [closeListener], and counted. *)
Definition listening (s : shared) : Prop :=
  registered s = csi_services ∧ is_Some (listener s) ∧
  if once s then listener s = Some false ∧ closes s = 1 else closes s = 0.

(** Where main's goroutine is, and what the shared fields are there: it has registered the first
    [n] services, failed to listen, or listens. *)
Inductive main_at (s : shared) : list instr → Prop :=
| at_register n : n ≤ 3 → registered s = take n csi_services → listener s = None → once s = false →
    closes s = 0 → served s = false → main_at s (drop n Run_calls)
| at_error : listener s = None → served s = false → main_at s []
| at_serving t : listening s → t ∈ [[Add; Go; GoStop; WaitWg; CloseOnce]; [Go; GoStop; WaitWg; CloseOnce];
    [GoStop; WaitWg; CloseOnce]; [WaitWg; CloseOnce]] → main_at s t
| at_close : listening s → wg s = 0%Z → main_at s [CloseOnce]
| at_end : listening s → once s = true → wg s = 0%Z → main_at s [].

(** Until the gRPC server has stopped, there is a call left that stops it. *)
Record run_inv (st : state) : Prop := {
  ri_server : server_inv st;
  ri_fatal : fatal st.1 = false;
  ri_rpcs : 0 < rpcs st.1 → served st.1 = true;
  ri_threads : ∃ t ts, st.2 = t :: ts ∧ main_at st.1 t ∧ Forall background ts ∧
    (listener st.1 = None → ts = []) ∧
    (listener st.1 = None ∨ stopped st.1 = true ∨ will_stop st.2);
}.

Lemma background_computed t : bool_decide (background t) = true → background t.
Proof. apply bool_decide_eq_true. Qed.

Ltac background_cases H :=
  unfold background in H; vm_compute in H;
  repeat (apply elem_of_cons in H as [H|H]; [simplify_eq|]); [..|by apply not_elem_of_nil in H].

Lemma listening_some s : listening s → listener s ≠ None.
Proof. by intros (_ & [? ->] & _). Qed.

Lemma close_listening s : listening s → once s = false → listening (close_first s) ∧ once (close_first s) = true.
Proof.
  intros (Hr & [b Hb] & Hl) Ho. rewrite Ho in Hl. unfold listening. simpl. rewrite Hb, Hl. split; [|done].
  split_and!; [done|by eexists|done..].
Qed.

Lemma grpc_closes_listening s : listening s → listening (grpc_closes s).
Proof.
  intros (Hr & [b Hb] & Hl). unfold listening. simpl. rewrite Hb in *. split_and!; [done|by eexists|].
  destruct (once s); [|done]. by destruct Hl.
Qed.

(** The registration of the services goes through, one by one. *)
Lemma register_step n i k s s' k' new :
  n ≤ 3 → registered s = take n csi_services → listener s = None → once s = false → closes s = 0 →
  served s = false → drop n Run_calls = i :: k → exec i k s s' k' new →
  main_at s' k' ∧ new = [] ∧ fatal s' = fatal s ∧ (listener s' = None ∨ GoStop ∈ k').
Proof.
  intros Hn Hr Hl Ho Hc Hs Ht He.
  assert (i = Listen ∧ n = 3 ∨ ∃ c, i = Register c ∧ n < 3 ∧ c ∉ take n csi_services ∧
    take n csi_services ++ [c] = take (S n) csi_services ∧ k = drop (S n) Run_calls) as [[-> ->]|(c & -> & Hn3 & Hc' & Htake & ->)].
  { destruct n as [|[|[|[|n]]]]; [..|lia]; injection Ht as <- <-; [right..|by left];
      (eexists; split_and!; [done|lia| |done|done]); apply (bool_decide_unpack _); by vm_compute. }
  - injection Ht as <-. inversion He; subst; (split; [|split_and!; [done|done|set_solver]]); [|by apply at_error].
    apply at_serving; [|set_solver]. unfold listening. simpl. rewrite Ho. by split_and!; [|eexists|].
  - inversion He as [? ? ? Hnew|? ? ? Hbad| | | | | | | | | | | | | | | | |]; subst;
      [|rewrite Hr, Hs in Hbad; by destruct Hbad]. split; [|by auto].
    apply at_register; [lia|simpl; by rewrite Hr|done..].
Qed.

(** A step of main's goroutine. *)
Lemma main_step i k s s' k' new ts :
  main_at s (i :: k) → exec i k s s' k' new → Forall background ts → (listener s = None → ts = []) →
  main_at s' k' ∧ Forall background (ts ++ new) ∧ (listener s' = None → ts ++ new = []) ∧ fatal s' = fatal s.
Proof.
  intros Hm He Hts Hnil. remember (i :: k) as t eqn:Ht.
  destruct Hm as [n Hn Hr Hl Ho Hc Hs|Hl Hs|t Hl Hin|Hl Hw|Hl Ho Hw]; [| done | | |done].
  - destruct (register_step n i k s s' k' new) as (Hm & -> & Hf & _); [done..|]. rewrite app_nil_r. by rewrite (Hnil Hl).
  - pose proof (listening_some _ Hl) as Hsome.
    repeat (apply elem_of_cons in Hin as [Hin|Hin]; [rewrite Hin in Ht; injection Ht as <- <-; inversion He; subst; simpl|]);
      [..|by apply not_elem_of_nil in Hin]; rewrite ?app_nil_r.
    + split_and!; [apply at_serving; [exact Hl|set_solver]|done|by intros ?%Hsome|done].
    + split_and!; [apply at_serving; [exact Hl|set_solver]| |by intros ?%Hsome|done].
      apply Forall_app_2; [done|]. apply Forall_singleton, background_computed. by vm_compute.
    + split_and!; [apply at_serving; [exact Hl|set_solver]| |by intros ?%Hsome|done].
      apply Forall_app_2; [done|]. apply Forall_singleton, background_computed. by vm_compute.
    + split_and!; [by apply at_close|done|by intros ?%Hsome|done].
  - pose proof (listening_some _ Hl) as Hsome. injection Ht as <- <-.
    inversion He as [| | | | | | | | | | | | | | |? ? Hof|? ? Hot| |]; subst; rewrite app_nil_r.
    + destruct (close_listening _ Hl Hof) as [Hl' Ho']. split_and!; [by apply at_end|done| |done].
      by intros ?%(listening_some _ Hl').
    + split_and!; [by apply at_end|done|by intros ?%Hsome|done].
Qed.

(** A step of a goroutine leaves main where it is. *)
Lemma background_step i k s s' k' new t :
  main_at s t → listener s ≠ None → background (i :: k) → exec i k s s' k' new → (wg s = 0%Z → i ≠ Done) →
  main_at s' t ∧ background k' ∧ new = [] ∧ listener s' ≠ None ∧ fatal s' = fatal s.
Proof.
  intros Hm Hsome Hb He Hw.
  assert (background k' ∧ new = [] ∧ fatal s' = fatal s) as (Hk' & -> & Hf).
  { background_cases Hb; inversion He; subst; (split_and!; [apply background_computed; by vm_compute|done..]). }
  assert (listener s' ≠ None) as Hsome'.
  { background_cases Hb; inversion He; subst; try done; simpl; by destruct (listener s). }
  split; [|done]. assert (listening s → listening s') as Hl.
  { intros Hl. background_cases Hb; inversion He; subst; try done; try (by apply grpc_closes_listening); by apply close_listening. }
  assert (once s = true → once s' = true) as Hon by (background_cases Hb; inversion He; subst; done).
  assert (wg s = 0%Z → wg s' = 0%Z) as Hwg.
  { intros H0. specialize (Hw H0). background_cases Hb; inversion He; subst; done. }
  destruct Hm as [? ? ? ? ? ? ?|? ?|? ? ?|? ?|? ? ?]; [done|done|apply at_serving|apply at_close|apply at_end]; auto.
Qed.

(** A step keeps the promise that the server is stopped. *)
Lemma exec_stops i k s s' k' new ts1 ts2 :
  listener s ≠ None → main_at s (i :: k) ∨ background (i :: k) → exec i k s s' k' new →
  stopped s = true ∨ will_stop (ts1 ++ (i :: k) :: ts2) →
  stopped s' = true ∨ will_stop (ts1 ++ k' :: ts2 ++ new).
Proof.
  intros Hl Hik He [Hs|(t & Ht & Hg)]; [left; inversion He; subst; done|].
  apply elem_of_app in Ht as [Ht|[->|Ht]%elem_of_cons].
  1,3: right; exists t; split; [set_solver|done].
  destruct (decide (i = Drain)) as [->|Hng]; [left; by inversion He|]. right.
  destruct (decide (i = GoStop)) as [->|Hns].
  - inversion He; subst. exists stop_goroutine. split; [set_solver|]. left. vm_compute. set_solver.
  - exists k'. split; [set_solver|]. destruct Hik as [Hm|Hb]; [|background_cases Hb; inversion He; subst; set_solver].
    remember (i :: k) as t eqn:Ht. destruct Hm as [? ? ? ? ? ? ?|? ?|t ? Hin|? ?|? ? ?]; [done|done| | |done].
    + repeat (apply elem_of_cons in Hin as [Hin|Hin]; [rewrite Hin in Ht; injection Ht as <- <-; inversion He; subst; set_solver|]);
        by apply not_elem_of_nil in Hin.
    + injection Ht as <- <-. inversion He; subst; set_solver.
Qed.

(** The first step with a listener leaves main about to start the goroutine that stops the server. *)
Lemma main_listens i k s s' k' new :
  main_at s (i :: k) → exec i k s s' k' new → listener s = None → listener s' = None ∨ GoStop ∈ k'.
Proof.
  intros Hm He Hl. remember (i :: k) as t eqn:Ht.
  destruct Hm as [n Hn Hr _ Ho Hc Hs|_ _|t Hl' _|Hl' _|Hl' _ _]; [|done|by apply listening_some in Hl'..].
  by destruct (register_step n i k s s' k' new) as (_ & _ & _ & ?).
Qed.

Lemma exec_served i k s s' k' new : exec i k s s' k' new → rpcs s' = rpcs s ∧ (served s = true → served s' = true).
Proof. by destruct 1. Qed.

Lemma exec_inv s s' i k k' new ts1 ts2 :
  exec i k s s' k' new → run_inv (s, ts1 ++ (i :: k) :: ts2) → run_inv (s', ts1 ++ k' :: ts2 ++ new).
Proof.
  intros He [Hi Hf Hrpc (t & ts & Hts & Hm & Hb & Hnil & Hstop)].
  split; [by eapply thread_step_inv; [apply do_step|]| | |]; simpl in *.
  - destruct ts1 as [|t1 ts1]; injection Hts as <- <-.
    + by destruct (main_step _ _ _ _ _ _ _ Hm He Hb Hnil) as (_ & _ & _ & ->).
    + assert (listener s ≠ None) as Hsome by (intros ?%Hnil; by destruct ts1).
      apply Forall_app in Hb as [_ [Hik _]%Forall_cons]. background_cases Hik; inversion He; subst; done.
  - apply exec_served in He as [-> Hs]. auto.
  - destruct ts1 as [|t1 ts1]; injection Hts as <- <-.
    + destruct (main_step _ _ _ _ _ _ _ Hm He Hb Hnil) as (Hm' & Hb' & Hnil' & _). exists k', (ts2 ++ new).
      split_and!; [done..|]. destruct (decide (listener s = None)) as [Hl|Hl].
      * destruct (main_listens _ _ _ _ _ _ Hm He Hl) as [?|?]; [by left|]. right. right. exists k'. split; [set_solver|by right].
      * destruct Hstop as [?|Hstop]; [done|]. right. by eapply (exec_stops _ _ _ _ _ _ [] ts2 Hl (or_introl Hm) He).
    + assert (listener s ≠ None) as Hsome by (intros ?%Hnil; by destruct ts1).
      apply Forall_app in Hb as [Hb1 Hb2]. apply Forall_cons in Hb2 as [Hik Hb2].
      destruct (background_step _ _ _ _ _ _ _ Hm Hsome Hik He) as (Hm' & Hk' & -> & Hsome' & _).
      { intros H0 ->. destruct Hi as [_ Hw _]. simpl in Hw. rewrite H0 in Hw. revert Hw.
        change (t1 :: ts1 ++ (Done :: k) :: ts2) with ((t1 :: ts1) ++ [Done :: k] ++ ts2).
        rewrite !count_app. unfold count at 2. rewrite filter_cons_True by (left; set_solver).
        unfold count. simpl. lia. }
      exists t1, (ts1 ++ k' :: ts2 ++ []). split_and!; [done..| |done|].
      * apply Forall_app_2; [done|]. apply Forall_cons_2; [done|]. by rewrite app_nil_r.
      * destruct Hstop as [?|Hstop]; [done|]. right.
        by eapply (exec_stops _ _ _ _ _ _ (t1 :: ts1) ts2 Hsome (or_intror Hik) He).
Qed.

(** Main's place depends on these fields only. *)
Lemma main_at_frame s s' t :
  registered s' = registered s → listener s' = listener s → once s' = once s → closes s' = closes s →
  served s' = served s → wg s' = wg s → main_at s t → main_at s' t.
Proof.
  intros Hr Hl Ho Hc Hs Hw Hm. assert (listening s → listening s') as Hli by (unfold listening; by rewrite Hr, Hl, Ho, Hc).
  destruct Hm; [apply at_register; congruence|apply at_error; congruence|apply at_serving; auto
    |apply at_close; [auto|congruence]|apply at_end; [auto|congruence..]].
Qed.

Lemma driver_step_inv st st' : driver_step st st' → run_inv st → run_inv st'.
Proof.
  intros [st1 st2 [s s' i k k' new ts1 ts2 He|s ts Hn]|s s' ts Hout] Hi; [by eapply exec_inv|..].
  - pose proof Hi as [Hs Hf Hrpc (t & ts' & Hts & Hm & Hb & Hnil & Hstop)]. split; simpl in *; [|done|by auto|].
    + eapply thread_step_inv; [by apply rpc_returns|done].
    + exists t, ts'. split_and!; try done. by eapply main_at_frame; [..|exact Hm].
  - destruct Hi as [Hs Hf Hrpc (t & ts' & Hts & Hm & Hb & Hnil & Hstop)].
    assert (main_at s' t) as Hm' by (by eapply main_at_frame; [..|exact Hm]; destruct Hout).
    split; [by eapply outside_step_inv|by destruct Hout|by destruct Hout; auto|].
    exists t, ts'. by destruct Hout; split_and!.
Qed.

(** What [Run] calls: with a node ID, and without. *)
Lemma run_initial calls : calls ∈ [Run_calls; []] → run_inv (initial.1, [calls]).
Proof.
  intros Hc. split; simpl; [|done|lia|].
  - split; simpl; [| |lia]; known_cases Hc;
      [apply Forall_singleton, known_computed; by vm_compute..|by vm_compute|by vm_compute].
  - exists calls, []. split_and!; [done| |constructor|done|by left].
    apply elem_of_cons in Hc as [->|Hc%list_elem_of_singleton]; [|subst calls; by apply at_error].
    by apply (at_register _ 0); [lia|..].
Qed.

Lemma run_reachable_inv calls st : calls ∈ [Run_calls; []] → run_reachable calls st → run_inv st.
Proof. intros Hc Hr. eapply rtc_inv; [apply driver_step_inv|exact Hr|by apply run_initial]. Qed.

(** ** What the invariant gives *)

Lemma run_inv_registered st :
  run_inv st → listener st.1 ≠ None ∨ 0 < rpcs st.1 → registered st.1 = csi_services ∧ is_Some (listener st.1).
Proof.
  intros [_ _ Hrpc (t & ts & _ & Hm & _)] Hl.
  destruct Hm as [? ? ? ? ? ? ?|? ?|? (? & ? & _) ?|(? & ? & _) ?|(? & ? & _) ? ?]; try done;
    destruct Hl as [?|?%Hrpc]; congruence.
Qed.

(** A run whose context is cancelled is never stuck: every step it makes brings it nearer to its
    end, and from every state it reaches it can get there, when the pending calls return. *)
Lemma run_finishes st :
  run_inv st → cancelled st.1 = true → ∃ st', rtc thread_step st st' ∧ finished st'.
Proof.
  intros Hi Hc. apply (run_to_end (λ st, run_inv st ∧ cancelled st.1 = true)); [| |done].
  - intros x y [Hx Hcx] Hs. split; [by eapply driver_step_inv; [apply drv_thread|]|].
    destruct Hs as [s s' i k k' new ts1 ts2 He|]; [|done]. simpl in *. by inversion He; subst.
  - intros [s ts] [[Hx _ _ (t & ts' & Hts & Hm & Hb & Hnil & Hstop)] Hcx]. simpl in *. subst ts.
    destruct Hstop as [Hl|Hstop]; [|by apply progress]. rewrite (Hnil Hl).
    destruct (threads_cases s [t]) as [(t' & Ht' & Hr)|Hall]; [right; by eapply ready_step|left].
    apply Forall_singleton. destruct (Hall t) as [?|Hbl]; [set_solver|done|]. exfalso.
    destruct Hm as [n Hn ? ? ? ? ?|? ?|? Hli ?|Hli ?|Hli ? ?]; try (by apply listening_some in Hli); [|done].
    by destruct n as [|[|[|[|n]]]]; [..|lia].
Qed.
