(* ===== verification/Interleaving.v ===== *)
(** * Interleaved programs

    The operator and the node plugins run at the same time and share the cluster: between two
    API calls of one of them any other may write.  The models of the handlers are functions
    over the state of the cluster; here the same functions are run over a state of recorded
    answers ([replay]), where a call without an answer suspends the run.  So every handler
    becomes, unchanged, a program of atomic API calls, and a system state is a cluster with
    the programs that run on it.

    [simulates]: run alone, call by call, a handler does what its atomic model does.
    [emits]: which calls a handler can send at all, whatever it was answered. *)
From stdpp Require Import relations.
From S2P Require Import Prelude GoRuntime GoStrings Api.

(** ** Calls and answers *)

Inductive call :=
| CGet (k : Kind) (key : ObjectKey)
| CList (k : Kind) (opts : ListOptions)
| CCreate (k : Kind) (o : Obj k)
| CUpdate (k : Kind) (o : Obj k)
| CPatch (k : Kind) (o m : Obj k)
| CStatusUpdate (l : Listener).

Inductive answer :=
| AObject (k : Kind) (o : Obj k)
| AObjects (k : Kind) (os : list (Obj k))
| AError (e : error)
| APanic.

Definition object_of (k : Kind) (a : answer) : res (Obj k) :=
  match a with
  | AObject k' o => match decide (k' = k) with left e => Ok (eq_rect k' Obj o k e) | right _ => Panic end
  | AError e => Fail e
  | _ => Panic
  end.
Definition objects_of (k : Kind) (a : answer) : res (list (Obj k)) :=
  match a with
  | AObjects k' os =>
      match decide (k' = k) with
      | left e => Ok (eq_rect k' (λ k, list (Obj k)) os k e) | right _ => Panic end
  | AError e => Fail e
  | _ => Panic
  end.

Definition answer_object (k : Kind) (r : res (Obj k)) : answer :=
  match r with Ok o => AObject k o | Fail e => AError e | Panic => APanic end.
Definition answer_objects (k : Kind) (r : res (list (Obj k))) : answer :=
  match r with Ok os => AObjects k os | Fail e => AError e | Panic => APanic end.

Lemma object_of_answer k r : object_of k (answer_object k r) = r.
Proof.
  destruct r as [o|e|]; simpl; try done. destruct (decide (k = k)) as [e|]; [|done].
  by rewrite (proof_irrel e eq_refl).
Qed.
Lemma objects_of_answer k r : objects_of k (answer_objects k r) = r.
Proof.
  destruct r as [os|e|]; simpl; try done. destruct (decide (k = k)) as [e|]; [|done].
  by rewrite (proof_irrel e eq_refl).
Qed.

(** One call on the shared cluster. *)
Definition perform {W} `{Client W} (c : call) (w : W) : W * answer :=
  match c with
  | CGet k key => let '(w', r) := client_get k key w in (w', answer_object k r)
  | CList k opts => let '(w', r) := client_list k opts w in (w', answer_objects k r)
  | CCreate k o => let '(w', r) := client_create k o w in (w', answer_object k r)
  | CUpdate k o => let '(w', r) := client_update k o w in (w', answer_object k r)
  | CPatch k o m => let '(w', r) := client_patch k o m w in (w', answer_object k r)
  | CStatusUpdate l => let '(w', r) := client_status_update l w in (w', answer_object KListener r)
  end.

(** ** Running over recorded answers *)

(** The answers not yet consumed, and the call the run is suspended at. *)
Record replay := Replay { answers : list answer; pending : option call }.

(** A call takes the next answer; without one the run is suspended, which ends it as a panic
    does: no handler catches panics. *)
Definition ask {A} (c : call) (decode : answer → res A) : M replay A := λ r,
  match answers r with
  | a :: rest => (Replay rest (pending r), decode a)
  | [] => (Replay [] (Some c), Panic)
  end.

#[export] Instance replay_client : Client replay := {
  client_get k key := ask (CGet k key) (object_of k);
  client_list k opts := ask (CList k opts) (objects_of k);
  client_create k o := ask (CCreate k o) (object_of k);
  client_update k o := ask (CUpdate k o) (object_of k);
  client_patch k o m := ask (CPatch k o m) (object_of k);
  client_status_update l := ask (CStatusUpdate l) (object_of KListener);
}.

(** [retry.RetryOnConflict] with a number of retries. *)
Fixpoint retry {S} (retries : nat) (f : M S ()) : M S () := λ s,
  match f s, retries with
  | (s', Fail e), Datatypes.S retries => if IsConflict e then retry retries f s' else (s', Fail e)
  | out, _ => out
  end.

(** The helpers of controller-runtime on top of the calls, as documented: [retry.DefaultRetry]
    makes five attempts. *)
Definition DefaultRetry : nat := 4.
#[export] Instance replay_controller_util {W} `{ControllerUtil W} : ControllerUtil replay := {
  SetControllerReference := SetControllerReference (W:=W);
  CreateOrUpdate obj f :=
    found ← attempt (client_get KService (key_of (k:=KService) obj));
    match found with
    | inl existing =>
        o ← lift (f existing);
        if bool_decide (semantic_equal o existing) then mret OperationResultNone
        else client_update KService o ≫= λ _, mret OperationResultUpdated
    | inr e =>
        if IsNotFound e
        then o ← lift (f obj); client_create KService o ≫= λ _, mret OperationResultCreated
        else fail e
    end;
  RetryOnConflict := retry DefaultRetry;
}.

(** ** What a handler can send *)

(** A handler works on the cluster ([M W]), or on the cluster and the files of its node
    ([M (W * FS)]): [of_r] and [of_w] put the local part [L] beside the answers or the
    cluster. *)
Section emits.
Context {L SR : Type} (of_r : replay → L → SR) (P : list answer → call → Prop).

(** Given the answers [h], after those the caller got before ([h0]), the handler is suspended
    at most at a call that [P] allows after the answers so far. *)
Definition emits_from {A} (h0 h : list answer) (l : L) (c : M SR A) : Prop :=
  ∃ used h' l' p r, h = used ++ h' ∧ c (of_r (Replay h None) l) = (of_r (Replay h' p) l', r) ∧
  match p with Some cl => r = Panic ∧ h' = [] ∧ P (h0 ++ used) cl | None => True end.

(** Whatever it is answered. *)
Definition emits {A} (c : M SR A) : Prop := ∀ h0 h l, emits_from h0 h l c.

Lemma emits_lift {A} (r : res A) : emits (lift r).
Proof. intros h0 h l. by exists [], h, l, None, r. Qed.
Lemma emits_ret {A} (a : A) : emits (mret a).
Proof. apply (emits_lift (Ok a)). Qed.
Lemma emits_fail {A} e : emits (fail e : M SR A).
Proof. apply (emits_lift (Fail e)). Qed.

(** The rest may rely on the part before having ended with its value, and on the answers this
    took. *)
Lemma emits_from_bind {A B} h0 h l (c : M SR A) (f : A → M SR B) :
  emits_from h0 h l c →
  (∀ used h' l' a, h = used ++ h' → c (of_r (Replay h None) l) = (of_r (Replay h' None) l', Ok a) →
     emits_from (h0 ++ used) h' l' (f a)) →
  emits_from h0 h l (c ≫= f).
Proof.
  intros (used & h1 & l1 & p & r & -> & Hrun & Hp) Hf. unfold emits_from, mbind, M_bind.
  rewrite Hrun. destruct p as [cl|].
  - destruct Hp as (-> & -> & Hp). by exists used, [], l1, (Some cl), Panic.
  - destruct r as [a|e|]; [|by exists used, h1, l1, None, (Fail e)|by exists used, h1, l1, None, Panic].
    destruct (Hf _ _ _ _ eq_refl Hrun) as (used' & h2 & l2 & p & r & -> & Hrun2 & Hp2).
    exists (used ++ used'), h2, l2, p, r. by rewrite <- !app_assoc in *.
Qed.

Lemma emits_bind {A B} (c : M SR A) (f : A → M SR B) :
  emits c → (∀ a, emits (f a)) → emits (c ≫= f).
Proof. intros Hc Hf h0 h l. apply emits_from_bind; [apply Hc|]. intros. apply Hf. Qed.

(** Handlers that only change the result of a call. *)
Lemma emits_result {A B} (c : M SR A) (c' : M SR B) (g : res A → res B) :
  (∀ s, c' s = ((c s).1, g (c s).2)) → g Panic = Panic → emits c → emits c'.
Proof.
  intros Hc' Hg Hc h0 h l. destruct (Hc h0 h l) as (used & h1 & l1 & p & r & -> & Hrun & Hp).
  exists used, h1, l1, p, (g r). rewrite Hc', Hrun. split_and!; [done..|].
  destruct p; [|done]. by destruct Hp as (-> & -> & ?).
Qed.

Lemma emits_on_error {A} g (c : M SR A) : emits c → emits (on_error g c).
Proof.
  apply (emits_result _ _ (λ r, match r with Fail x => Fail (g x) | _ => r end)); [|done].
  intros s. unfold on_error. by destruct (c s) as [? []].
Qed.

Lemma emits_attempt {A} (c : M SR A) : emits c → emits (attempt c).
Proof.
  apply (emits_result _ _ (λ r, match r with
    | Ok a => Ok (inl a) | Fail x => Ok (inr x) | Panic => Panic end)); [|done].
  intros s. unfold attempt. by destruct (c s) as [? []].
Qed.

Lemma emits_collect {A B} (f : A → M SR B) xs : (∀ x, emits (f x)) → emits (collect f xs).
Proof.
  intros Hf. induction xs as [|x xs IH]; [apply emits_ret|]. apply emits_bind; [apply Hf|].
  intros y. apply emits_bind; [done|]. intros ys. apply emits_ret.
Qed.

(** [retry] is a bind on the outcome. *)
Lemma retry_attempt {S} n (f : M S ()) s :
  retry n f s = match n with
                | 0 => f s
                | Datatypes.S n => (o ← attempt f; match o with
                           | inl _ => mret ()
                           | inr e => if IsConflict e then retry n f else fail e end) s
                end.
Proof.
  destruct n; cbn [retry]; unfold mbind, M_bind, attempt; destruct (f s) as [? [[]|e|]]; try done.
  by destruct (IsConflict e).
Qed.

Lemma emits_ext {A} (c c' : M SR A) : (∀ s, c' s = c s) → emits c → emits c'.
Proof. intros Heq. apply (emits_result _ _ id); [|done]. intros s. rewrite Heq. by destruct (c s). Qed.

Lemma emits_retry (f : M SR ()) n : emits f → emits (retry n f).
Proof.
  intros Hf. induction n as [|n IH]; (eapply emits_ext; [intros s; by rewrite retry_attempt|]); [done|].
  apply emits_bind; [by apply emits_attempt|]. intros [a|e]; [apply emits_ret|].
  destruct (IsConflict e); [done|apply emits_fail].
Qed.
End emits.

Lemma emits_weaken {L SR A} (of_r : replay → L → SR) (P Q : list answer → call → Prop) (c : M SR A) :
  emits of_r P c → (∀ h cl, P h cl → Q h cl) → emits of_r Q c.
Proof.
  intros Hc HPQ h0 h l. destruct (Hc h0 h l) as (used & h1 & l1 & p & r & -> & Hrun & Hp).
  exists used, h1, l1, p, r. split_and!; [done..|]. destruct p; [|done]. destruct Hp as (? & ? & ?). auto.
Qed.

(** A handler of the cluster alone has no local part. *)
Definition alone {S} (s : S) (_ : ()) : S := s.

Lemma emits_from_ask {A} (P : list answer → call → Prop) h0 h c (decode : answer → res A) :
  P h0 c → emits_from alone P h0 h () (ask c decode).
Proof.
  intros Hc. destruct h as [|a h].
  - exists [], [], (), (Some c), Panic. by rewrite (app_nil_r h0).
  - by exists [a], h, (), None, (decode a).
Qed.
Lemma emits_ask {A} (P : list answer → call → Prop) c (decode : answer → res A) :
  (∀ h, P h c) → emits alone P (ask c decode).
Proof. intros Hc h0 h []. by apply emits_from_ask. Qed.

Create HintDb calls discriminated.
#[export] Hint Constants Opaque : calls.
#[export] Hint Resolve emits_lift emits_ret emits_fail emits_on_error emits_attempt : calls.

(** ** What a handler does when nothing interferes *)

Section simulates.
Context {W L SR SW : Type} `{Client W} (of_r : replay → L → SR) (of_w : W → L → SW).

(** From the answers [h] on, the calls of [c] are answered by the cluster: the answers [as]
    take it from [w] to [w']. *)
Inductive answered {A} (c : M SR A) (l : L) : list answer → W → list answer → W → Prop :=
| answered_nil h w : answered c l h w [] w
| answered_call h w cl h' l' w1 a as_ w' :
    c (of_r (Replay h None) l) = (of_r (Replay h' (Some cl)) l', Panic) →
    perform cl w = (w1, a) → answered c l (h ++ [a]) w1 as_ w' →
    answered c l h w (a :: as_) w'.

Definition simulates {A} (c : M SR A) (d : M SW A) : Prop :=
  emits of_r (λ _ _, True) c ∧
  ∀ w l, ∃ w' l' r as_, d (of_w w l) = (of_w w' l', r) ∧ answered c l [] w as_ w' ∧
    ∀ rest, c (of_r (Replay (as_ ++ rest) None) l) = (of_r (Replay rest None) l', r).

Lemma simulates_lift {A} (r : res A) : simulates (lift r) (lift r).
Proof.
  split; [apply emits_lift|]. intros w l. exists w, l, r, []. split; [done|]. split; [constructor|done].
Qed.
Lemma simulates_ret {A} (a : A) : simulates (mret a) (mret a).
Proof. apply (simulates_lift (Ok a)). Qed.
Lemma simulates_fail {A} e : simulates (fail e : M SR A) (fail e).
Proof. apply (simulates_lift (Fail e)). Qed.

(** A suspended run is suspended in every context that passes panics on. *)
Lemma answered_context {A B} (c : M SR A) (c' : M SR B) l h w as_ w' :
  (∀ h h' l' cl, c (of_r (Replay h None) l) = (of_r (Replay h' (Some cl)) l', Panic) →
                 c' (of_r (Replay h None) l) = (of_r (Replay h' (Some cl)) l', Panic)) →
  answered c l h w as_ w' → answered c' l h w as_ w'.
Proof. intros Hctx. induction 1; econstructor; eauto. Qed.

Lemma answered_app {A} (c : M SR A) l h w as1 w1 as2 w2 :
  answered c l h w as1 w1 → answered c l (h ++ as1) w1 as2 w2 → answered c l h w (as1 ++ as2) w2.
Proof.
  intros Ha. revert as2 w2. induction Ha as [h w|h w cl h' l' w1 a as1 w' Hc Hp _ IH]; intros as2 w2 H2.
  - by rewrite app_nil_r in H2.
  - simpl. econstructor; [done..|]. apply IH. by rewrite <- app_assoc.
Qed.

(** After a completed part the rest runs as it does on its own. *)
Lemma answered_after {A} (c f : M SR A) l l1 as1 h w as2 w' :
  (∀ rest, c (of_r (Replay (as1 ++ rest) None) l) = f (of_r (Replay rest None) l1)) →
  answered f l1 h w as2 w' → answered c l (as1 ++ h) w as2 w'.
Proof.
  intros Heq. induction 1 as [|h w cl h' l' w1 a as2 w' Hf Hp _ IH]; [constructor|].
  econstructor; [by rewrite Heq|done|]. by rewrite <- app_assoc.
Qed.

Lemma simulates_bind {A B} (c : M SR A) (d : M SW A) (f : A → M SR B) (g : A → M SW B) :
  simulates c d → (∀ a, simulates (f a) (g a)) → simulates (c ≫= f) (d ≫= g).
Proof.
  intros [He Hc] Hf. split; [apply emits_bind; [done|intros a; apply Hf]|]. intros w l.
  destruct (Hc w l) as (w1 & l1 & r1 & as1 & Hd & Ha & Hr).
  assert (answered (c ≫= f) l [] w as1 w1) as Ha1.
  { eapply answered_context; [|exact Ha]. intros h h' l' cl Hs. by apply bind_panic. }
  destruct r1 as [a|e|].
  - destruct (proj2 (Hf a) w1 l1) as (w2 & l2 & r2 & as2 & Hg & Ha2 & Hr2).
    assert (∀ rest, (c ≫= f) (of_r (Replay (as1 ++ rest) None) l) = f a (of_r (Replay rest None) l1))
      as Hgo by (intros rest; apply bind_step, Hr).
    exists w2, l2, r2, (as1 ++ as2). split; [by rewrite (bind_step _ _ _ _ _ Hd)|]. split.
    + eapply answered_app; [exact Ha1|]. rewrite <- (app_nil_r ([] ++ as1)). simpl.
      by eapply answered_after.
    + intros rest. by rewrite <- app_assoc, Hgo.
  - exists w1, l1, (Fail e), as1. split; [by apply bind_fail|]. split; [done|].
    intros rest. by apply bind_fail.
  - exists w1, l1, Panic, as1. split; [by apply bind_panic|]. split; [done|].
    intros rest. by apply bind_panic.
Qed.

(** Handlers that only change the result of a call. *)
Lemma simulates_result {A B} (c : M SR A) (d : M SW A) (c' : M SR B) (d' : M SW B) (g : res A → res B) :
  (∀ s, c' s = ((c s).1, g (c s).2)) → (∀ s, d' s = ((d s).1, g (d s).2)) → g Panic = Panic →
  simulates c d → simulates c' d'.
Proof.
  intros Hc' Hd' Hg [He Hc]. split; [by eapply emits_result|].
  intros w l. destruct (Hc w l) as (w1 & l1 & r1 & as1 & Hd & Ha & Hr).
  exists w1, l1, (g r1), as1. split; [by rewrite Hd', Hd|]. split; [|intros; by rewrite Hc', Hr].
  eapply answered_context; [|exact Ha]. intros h h' l' cl Hs. rewrite Hc', Hs. simpl. by rewrite Hg.
Qed.

Lemma simulates_on_error {A} e (c : M SR A) (d : M SW A) :
  simulates c d → simulates (on_error e c) (on_error e d).
Proof.
  apply (simulates_result _ _ _ _ (λ r, match r with Fail x => Fail (e x) | _ => r end));
    [| |done]; intros s; unfold on_error; [destruct (c s) as [? []]|destruct (d s) as [? []]]; done.
Qed.

Lemma simulates_attempt {A} (c : M SR A) (d : M SW A) :
  simulates c d → simulates (attempt c) (attempt d).
Proof.
  apply (simulates_result _ _ _ _ (λ r, match r with
    | Ok a => Ok (inl a) | Fail x => Ok (inr x) | Panic => Panic end));
    [| |done]; intros s; unfold attempt; [destruct (c s) as [? []]|destruct (d s) as [? []]]; done.
Qed.

Lemma simulates_collect {A B} (f : A → M SR B) (g : A → M SW B) xs :
  (∀ x, simulates (f x) (g x)) → simulates (collect f xs) (collect g xs).
Proof.
  intros Hf. induction xs as [|x xs IH]; [apply simulates_ret|].
  apply simulates_bind; [apply Hf|]. intros y. apply simulates_bind; [done|].
  intros ys. apply simulates_ret.
Qed.

Lemma simulates_ext {A} (c c' : M SR A) (d d' : M SW A) :
  (∀ s, c' s = c s) → (∀ s, d' s = d s) → simulates c d → simulates c' d'.
Proof.
  intros Hc Hd. apply (simulates_result _ _ _ _ id); [| |done]; intros s;
    [rewrite Hc; by destruct (c s)|rewrite Hd; by destruct (d s)].
Qed.

Lemma simulates_retry n (f : M SR ()) (g : M SW ()) :
  simulates f g → simulates (retry n f) (retry n g).
Proof.
  intros Hf. induction n as [|n IH].
  - eapply simulates_ext; [intros s; by rewrite retry_attempt..|]. done.
  - eapply simulates_ext; [intros s; by rewrite retry_attempt..|]. cbv iota.
    apply simulates_bind; [by apply simulates_attempt|]. intros [a|e]; [apply simulates_ret|].
    destruct (IsConflict e); [done|apply simulates_fail].
Qed.
End simulates.

#[export] Hint Resolve simulates_lift simulates_ret simulates_fail simulates_on_error
  simulates_attempt : calls.

(** ** The calls themselves *)

Section calls.
Context {W : Type} `{HC : Client W}.

Lemma simulates_ask {A} c (decode : answer → res A) (d : M W A) :
  (∀ w, ∃ w' a r, d w = (w', r) ∧ perform c w = (w', a) ∧ decode a = r) →
  simulates alone alone (ask c decode) d.
Proof.
  intros Hd. split; [by apply emits_ask|]. intros w []. destruct (Hd w) as (w' & a & r & Hrun & Hp & Hr).
  exists w', (), r, [a]. split; [done|]. split; [|intros rest; unfold ask, alone; simpl; by rewrite Hr].
  eapply (answered_call _ _ _ [] w c [] ()); [done|exact Hp|constructor].
Qed.

Ltac one_call := apply simulates_ask; intros w; simpl;
  match goal with |- context [let '(_, _) := ?d in _] => rewrite (surjective_pairing d) end;
  do 3 eexists; split_and!; [reflexivity|reflexivity|];
  first [apply object_of_answer | apply objects_of_answer | apply (object_of_answer KListener)].

Lemma simulates_get k key : simulates alone alone (client_get k key) (client_get (W:=W) k key).
Proof. one_call. Qed.
Lemma simulates_list k opts : simulates alone alone (client_list k opts) (client_list (W:=W) k opts).
Proof. one_call. Qed.
Lemma simulates_create k o : simulates alone alone (client_create k o) (client_create (W:=W) k o).
Proof. one_call. Qed.
Lemma simulates_update k o : simulates alone alone (client_update k o) (client_update (W:=W) k o).
Proof. one_call. Qed.
Lemma simulates_patch k o m : simulates alone alone (client_patch k o m) (client_patch (W:=W) k o m).
Proof. one_call. Qed.
Lemma simulates_status l :
  simulates alone alone (client_status_update l) (client_status_update (W:=W) l).
Proof. one_call. Qed.
End calls.
