(* ===== verification/HandlerLogic.v ===== *)
(** * A logic for handlers

    A weakest-precondition calculus for handlers that run over recorded answers
    ([Interleaving]).  It is relative to what the answers of the cluster are known to satisfy
    ([Q]), to what every call has to satisfy ([P]), and to whether the handler may panic
    ([crash]); one rule per construct of the effect monad. *)
From stdpp Require Import relations.
From S2P Require Import Prelude GoRuntime GoStrings Api Interleaving.

Section wp.
Context {L SR : Type} (of_r : replay → L → SR).
Context (Q : call → answer → Prop) (P : call → Prop) (crash : Prop).

(** Every answer of [h] is one that [Q] allows for the call it answers. *)
Definition consistent {A} (c : M SR A) (l : L) (h : list answer) : Prop :=
  ∀ h1 a h2 cl h' l', h = h1 ++ a :: h2 →
  c (of_r (Replay h1 None) l) = (of_r (Replay h' (Some cl)) l', Panic) → Q cl a.

(** Given answers that [Q] allows, the handler waits for the answer to a call that [P] allows,
    fails, or ends with a value that satisfies [Φ], whatever is left of the answers; it panics
    only if it may. *)
Definition wp {A} (c : M SR A) (l : L) (Φ : A → L → Prop) : Prop := ∀ h, consistent c l h →
  ∃ used h' l' p r, h = used ++ h' ∧ c (of_r (Replay h None) l) = (of_r (Replay h' p) l', r) ∧
  match p with
  | Some cl => r = Panic ∧ P cl
  | None => (∀ rest, c (of_r (Replay (used ++ rest) None) l) = (of_r (Replay rest None) l', r)) ∧
            match r with Ok a => Φ a l' | Fail _ => True | Panic => crash end
  end.

Lemma wp_lift {A} (r : res A) l (Φ : A → L → Prop) :
  match r with Ok a => Φ a l | Fail _ => True | Panic => crash end → wp (lift r) l Φ.
Proof. intros Hr h _. by exists [], h, l, None, r. Qed.
Lemma wp_ret {A} (a : A) l (Φ : A → L → Prop) : Φ a l → wp (mret a) l Φ.
Proof. apply (wp_lift (Ok a)). Qed.
Lemma wp_fail {A} e l (Φ : A → L → Prop) : wp (fail e) l Φ.
Proof. by apply (wp_lift (Fail e)). Qed.

Lemma wp_mono {A} (c : M SR A) l (Φ Ψ : A → L → Prop) :
  wp c l Φ → (∀ a l', Φ a l' → Ψ a l') → wp c l Ψ.
Proof.
  intros Hc HΦ h Hh. destruct (Hc h Hh) as (used & h' & l' & p & r & -> & Hrun & Hp).
  exists used, h', l', p, r. split_and!; [done..|]. destruct p; [done|]. destruct Hp as [Hrest Hr].
  split; [done|]. destruct r; auto.
Qed.

Lemma wp_bind {A B} (c : M SR A) (f : A → M SR B) l (Φ : B → L → Prop) :
  wp c l (λ a l', wp (f a) l' Φ) → wp (c ≫= f) l Φ.
Proof.
  intros Hc h Hh. destruct (Hc h) as (used & h' & l' & p & r & -> & Hrun & Hp).
  { intros h1 a h2 cl h' l' -> Hs. eapply Hh; [done|]. by apply bind_panic. }
  destruct p as [cl|].
  { destruct Hp as [-> Hp]. exists used, h', l', (Some cl), Panic. split_and!; [done| |done|done]. by apply bind_panic. }
  destruct Hp as [Hrest Hr].
  destruct r as [a|e|]; [|exists used, h', l', None, (Fail e)|exists used, h', l', None, Panic].
  - destruct (Hr h') as (used' & h2 & l2 & p & r & -> & Hrun2 & Hp2).
    { intros h1 x h2 cl h3 l3 -> Hs. eapply (Hh (used ++ h1)); [by rewrite <- app_assoc|].
      by rewrite (bind_step _ _ _ _ _ (Hrest h1)). }
    exists (used ++ used'), h2, l2, p, r. split_and!; [by rewrite <- app_assoc|by rewrite (bind_step _ _ _ _ _ Hrun)|].
    destruct p; [done|]. destruct Hp2 as [Hrest2 Hr2]. split; [|done].
    intros rest. by rewrite <- app_assoc, (bind_step _ _ _ _ _ (Hrest _)).
  - split_and!; [done|by apply bind_fail|intros rest; by apply bind_fail|done].
  - split_and!; [done|by apply bind_panic|intros rest; by apply bind_panic|done].
Qed.

(** Handlers that only change the result of a call. *)
Lemma wp_result {A B} (c : M SR A) (c' : M SR B) (g : res A → res B) l Φ (Ψ : B → L → Prop) :
  (∀ s, c' s = ((c s).1, g (c s).2)) → g Panic = Panic → wp c l Φ →
  (∀ a l', Φ a l' → match g (Ok a) with Ok b => Ψ b l' | Fail _ => True | Panic => False end) →
  (∀ e l', match g (Fail e) with Ok b => Ψ b l' | Fail _ => True | Panic => False end) → wp c' l Ψ.
Proof.
  intros Hc' Hg Hc HOk HFail h Hh. destruct (Hc h) as (used & h' & l' & p & r & -> & Hrun & Hp).
  { intros h1 a h2 cl h' l' -> Hs. eapply Hh; [done|]. rewrite Hc', Hs. simpl. by rewrite Hg. }
  exists used, h', l', p, (g r). split_and!; [done|by rewrite Hc', Hrun|]. destruct p.
  { by destruct Hp as [-> Hp]. }
  destruct Hp as [Hrest Hr]. split; [intros rest; by rewrite Hc', Hrest|]. destruct r as [a|e|].
  - specialize (HOk a l' Hr). by destruct (g (Ok a)).
  - specialize (HFail e l'). by destruct (g (Fail e)).
  - by rewrite Hg.
Qed.

Lemma wp_on_error {A} e (c : M SR A) l Φ : wp c l Φ → wp (on_error e c) l Φ.
Proof.
  intros Hc. apply (wp_result c _ (λ r, match r with Fail x => Fail (e x) | _ => r end) _ Φ); try done.
  intros s. unfold on_error. by destruct (c s) as [? []].
Qed.
Lemma wp_attempt {A} (c : M SR A) l (Φ : A + error → L → Prop) :
  wp c l (λ a l', Φ (inl a) l') → (∀ e l', Φ (inr e) l') → wp (attempt c) l Φ.
Proof.
  intros Hc He. apply (wp_result c _ (λ r, match r with
    | Ok a => Ok (inl a) | Fail x => Ok (inr x) | Panic => Panic end) _ (λ a l', Φ (inl a) l')); try done.
  intros s. unfold attempt. by destruct (c s) as [? []].
Qed.

Lemma wp_if {A} (b : bool) (c1 c2 : M SR A) l Φ : wp c1 l Φ → wp c2 l Φ → wp (if b then c1 else c2) l Φ.
Proof. by destruct b. Qed.
Lemma wp_ext {A} (c c' : M SR A) l Φ : (∀ s, c' s = c s) → wp c l Φ → wp c' l Φ.
Proof.
  intros Heq Hc. apply (wp_result c _ id _ Φ); try done. intros s. rewrite Heq. by destruct (c s).
Qed.

(** A pure step whose result the rest may rely on. *)
Lemma wp_lift_bind {A B} (r : res A) (f : A → M SR B) l Φ :
  (∀ a, r = Ok a → wp (f a) l Φ) → (r = Panic → crash) → wp (lift r ≫= f) l Φ.
Proof. intros Hf Hr. apply wp_bind, wp_lift. destruct r as [a|e|]; auto. Qed.

Lemma wp_collect {A B} (f : A → M SR B) (R : B → Prop) xs l :
  (∀ x l', wp (f x) l' (λ y _, R y)) → wp (collect f xs) l (λ ys _, Forall R ys).
Proof.
  intros Hf. revert l. induction xs as [|x xs IH]; intros l; [by apply wp_ret|].
  apply wp_bind. eapply wp_mono; [apply Hf|]. intros y l' Hy.
  apply wp_bind. eapply wp_mono; [apply IH|]. intros ys l2 Hys. apply wp_ret. by constructor.
Qed.

Lemma wp_retry n (f : M SR ()) l :
  (∀ l', wp f l' (λ _ _, True)) → wp (retry n f) l (λ _ _, True).
Proof.
  intros Hf. revert l. induction n as [|n IH]; intros l; (eapply wp_ext; [intros s; by rewrite retry_attempt|]);
    [apply Hf|]. apply wp_bind, wp_attempt.
  - eapply wp_mono; [apply Hf|]. intros [] l' _. by apply wp_ret.
  - intros e l'. apply wp_if; [apply IH|apply wp_fail].
Qed.
End wp.

Lemma wp_ask {A} Q (P : call → Prop) (crash : Prop) c (decode : answer → res A) (Φ : A → () → Prop) :
  P c →
  (∀ a, Q c a → match decode a with Ok x => Φ x () | Fail _ => True | Panic => crash end) →
  wp alone Q P crash (ask c decode) () Φ.
Proof.
  intros HP Hc [|a h] Hh.
  - by exists [], [], (), (Some c), Panic.
  - exists [a], h, (), None, (decode a). split_and!; [done..|]. apply Hc. by eapply (Hh [] a h c [] ()).
Qed.

Lemma object_of_object k o : object_of k (AObject k o) = Ok o.
Proof. apply (object_of_answer k (Ok o)). Qed.
Lemma objects_of_objects k os : objects_of k (AObjects k os) = Ok os.
Proof. apply (objects_of_answer k (Ok os)). Qed.
