(* ===== verification/Concurrent.v ===== *)
(** * Reconciles and publications at the same time

    The handlers of internal/controller/listener/controller.go, internal/csi/controller.go and
    internal/csi/node.go as programs that run on one cluster, interleaved at every API call:
    which writes they can send, that one that runs alone behaves as its atomic model, and that
    none of them loses what another wrote to a pod, a volume or a PodListeners object. *)
From S2P Require Import Prelude GoRuntime GoStrings Api GoOs CsiTypes Util Service Reconciler.
From S2P Require Import CsiController CsiNode Interleaving.
Import Util.Address Util.Constant ServiceReconciler ServiceAddress ListenerReconciler.
Import ControllerServer NodeServer.

(** ** The calls of the handlers *)

(** The existing Service [c] with what [createService] wants put over it: what the API server
    or others put there stays, up to the controller reference, and so do the node ports of the
    ports that are still wanted. *)
Record service_rewrite (c o : Service) : Prop := {
  sw_meta : svc_meta o = with_owners (meta_owners (svc_meta o)) (svc_meta c);
  sw_ingress : svc_ingress o = svc_ingress c;
  sw_clusterIP : svc_clusterIP (svc_spec o) = svc_clusterIP (svc_spec c);
  sw_clusterIPs : svc_clusterIPs (svc_spec o) = svc_clusterIPs (svc_spec c);
  sw_ports : has_node_ports (svc_type (svc_spec o)) = true →
    ∃ wanted, svc_ports (svc_spec o) = keep_node_port (svc_ports (svc_spec c)) <$> wanted;
}.

(** The calls a handler can send after the answers [h].  Reads; the creation of Listeners; label
    patches that only copy labels in; the PodListeners of a pod created with one entry, or
    patched at one entry; the Service of a Listener, created, or updated from the Service that
    was just read; the status of the Listener that was just read.  Nothing is ever deleted. *)
Inductive operator_call (h : list answer) : call → Prop :=
| oc_get k key : operator_call h (CGet k key)
| oc_list k opts : operator_call h (CList k opts)
| oc_create_listener l : operator_call h (CCreate KListener l)
| oc_label_pv pv new labels :
    maps_Copy (ensure_map (meta_labels (pv_meta pv))) new = Ok labels →
    operator_call h (CPatch KPersistentVolume pv (with_pv_labels labels pv))
| oc_label_pod pod new labels :
    maps_Copy (ensure_map (meta_labels (pod_meta pod))) new = Ok labels →
    operator_call h (CPatch KPod pod (with_pod_labels labels pod))
| oc_entry_create obj v pl :
    pls_listeners obj = Some {[ v := pl ]} → operator_call h (CCreate KPodListeners obj)
| oc_entry_patch o v pl listeners :
    map_set (ensure_map (pls_listeners o)) v pl = Ok listeners →
    operator_call h (CPatch KPodListeners o (with_listeners listeners o))
| oc_create_service svc : operator_call h (CCreate KService svc)
| oc_update_service c svc :
    last h = Some (AObject KService c) → service_rewrite c svc →
    operator_call h (CUpdate KService svc)
| oc_status c st :
    last h = Some (AObject KListener c) → operator_call h (CStatusUpdate (with_status st c)).
#[export] Hint Constructors operator_call : calls.

(** A handler that also works on the files of a node: the files are its own. *)
Definition with_files {S A} (c : M (S * FS) A) (fs : FS) : M S A := λ s,
  let '((s', _), r) := c (s, fs) in (s', r).

(** The files of a node take no part in the calls. *)
Section files.
Context (P : list answer → call → Prop).

Lemma emits_api {A} (c : M replay A) : emits alone P c → emits (@pair replay FS) P (api c).
Proof.
  intros Hc h0 h fs. destruct (Hc h0 h ()) as (used & h1 & [] & p & r & -> & Hrun & Hp).
  unfold alone in Hrun. exists used, h1, fs, p, r. split; [done|]. unfold api. simpl. by rewrite Hrun.
Qed.
Lemma emits_os {A} (c : M FS A) : emits (@pair replay FS) P (os c).
Proof.
  intros h0 h fs. destruct (c fs) as [fs' r] eqn:Hc. exists [], h, fs', None, r.
  split; [done|]. unfold os. simpl. by rewrite Hc.
Qed.
Lemma emits_with_files {A} (c : M (replay * FS) A) fs :
  emits (@pair replay FS) P c → emits alone P (with_files c fs).
Proof.
  intros Hc h0 h []. destruct (Hc h0 h fs) as (used & h1 & fs1 & p & r & -> & Hrun & Hp).
  exists used, h1, (), p, r. split; [done|]. unfold with_files, alone. by rewrite Hrun.
Qed.
End files.

Section programs.
Context {W : Type} `{HC : Client W} `{!ApiServer W} `{!ControllerUtil W} `{!ControllerUtilLaws W}.
Context `{!OperatorGo} `{!MapRange} `{!Mounter}.

Notation sends := (emits alone operator_call).
Notation sends_files := (emits (@pair replay FS) operator_call).

Lemma sends_call {A} c (decode : answer → res A) : (∀ h, operator_call h c) → sends (ask c decode).
Proof. apply emits_ask. Qed.
Hint Extern 1 (emits alone operator_call (client_get ?k ?key)) =>
  apply (sends_call (CGet k key)); intros; constructor : calls.
Hint Extern 1 (emits alone operator_call (client_list ?k ?opts)) =>
  apply (sends_call (CList k opts)); intros; constructor : calls.

(** Go through the sequence of calls. *)
Ltac sends_steps :=
  repeat first [ progress cbv zeta | solve [eauto with calls] | apply emits_bind; [|intros ?]
               | apply emits_on_error | apply emits_attempt | apply emits_collect; intros ? ].

Lemma sends_if {A} (b : bool) (c1 c2 : M replay A) : sends c1 → sends c2 → sends (if b then c1 else c2).
Proof. by destruct b. Qed.

(** A pure step whose result the rest may rely on. *)
Lemma sends_lift_bind {A B} (r : res A) (f : A → M replay B) :
  (∀ a, r = Ok a → sends (f a)) → sends (lift r ≫= f).
Proof.
  intros Hf. destruct r as [a|e|]; [by apply (Hf a)|apply (emits_lift _ _ (Fail e))|apply (emits_lift _ _ Panic)].
Qed.

Lemma sends_createOrUpdate obj v pl :
  pls_listeners obj = Some {[ v := pl ]} → sends (createOrUpdatePodListeners obj v).
Proof.
  intros Hobj. unfold createOrUpdatePodListeners. sends_steps. destruct a as [original|e].
  - apply sends_lift_bind. intros ls Hset. sends_steps. apply (sends_call (CPatch KPodListeners original _)). by econstructor.
  - apply sends_if; sends_steps. apply (sends_call (CCreate KPodListeners obj)). by econstructor.
Qed.

Lemma build_entry pod l v scope data obj :
  buildPodListenersObject (W:=replay) pod l v scope data = Ok obj →
  ∃ pl, pls_listeners obj = Some {[ v := pl ]}.
Proof.
  unfold buildPodListenersObject. destruct (SetControllerReference _ _ _); [| |done];
    intros [= <-]; by eexists.
Qed.

Lemma sends_publishPodListener pod pv l data : sends (publishPodListener pod pv l data).
Proof.
  unfold publishPodListener. apply emits_bind; [sends_steps|intros ref].
  apply emits_bind; [sends_steps|intros v]. apply sends_lift_bind. intros obj [pl Hpl]%build_entry.
  by eapply sends_createOrUpdate.
Qed.

Lemma sends_patchPV pv l : sends (patchPVLabelsWithListener pv l).
Proof.
  apply sends_lift_bind. intros labels Hc. apply (sends_call (CPatch KPersistentVolume pv _)).
  by econstructor.
Qed.
Lemma sends_patchPod pod l : sends (patchPodLabelsWithListener pod l).
Proof.
  apply sends_lift_bind. intros labels Hc. apply (sends_call (CPatch KPod pod _)). by econstructor.
Qed.

Lemma sends_getListener pod pv ctx : sends (getListener pod pv ctx).
Proof.
  unfold getListener. destruct (vc_ListenerName ctx); [sends_steps|].
  unfold createListener, getPVC. sends_steps.
  - apply (sends_call (CCreate KListener _)). constructor.
  - case_match; [sends_steps|]. apply sends_if; sends_steps.
Qed.

Lemma sends_getAddresses l pod : sends (getAddresses l pod).
Proof. unfold getAddresses, getNodeAddressByPod. sends_steps. repeat apply sends_if; sends_steps. Qed.

Lemma sends_api {A} (c : M replay A) : sends c → sends_files (api c).
Proof. apply emits_api. Qed.
Lemma sends_os {A} (c : M FS A) : sends_files (os (W:=replay) c).
Proof. apply emits_os. Qed.

Lemma sends_NodePublishVolume request : sends_files (NodePublishVolume request).
Proof.
  unfold NodePublishVolume.
  repeat (apply emits_bind; [|intros ?]); try apply emits_on_error;
    first [apply emits_lift | apply sends_os | apply sends_api | case_bool_decide; apply emits_lift].
  - unfold getPV. sends_steps.
  - unfold getPod. sends_steps.
  - apply sends_getListener.
  - apply sends_patchPV.
  - apply sends_patchPod.
  - apply sends_getAddresses.
  - apply sends_publishPodListener.
Qed.

(** [mutate] rewrites the Service it is given. *)
Lemma mutate_rewrite s d c o : mutate (W:=W) s d c = Ok o → service_rewrite c o.
Proof.
  intros Hm. pose proof (mutate_inv _ _ _ _ Hm) as (_ & Hmeta & _). unfold mutate in Hm.
  apply res_bind_Ok in Hm as (m & _ & [= <-]). constructor; try done. simpl. intros ->. eauto.
Qed.

Lemma object_of_inv k a o : object_of k a = Ok o → a = AObject k o.
Proof.
  destruct a as [k' o'| | |]; simpl; try done. destruct (decide (k' = k)) as [->|]; [|done].
  by intros [= ->].
Qed.

(** The read that found [o] took one answer, [o]. *)
Lemma get_answer k key used h' l l' o :
  client_get k key (alone (Replay (used ++ h') None) l) = (alone (Replay h' None) l', Ok o) →
  used = [AObject k o].
Proof.
  cbn. unfold ask. destruct (used ++ h') as [|a h] eqn:Hh; cbn; [done|].
  intros [= -> Ha%object_of_inv]. subst a. change (AObject k o :: h') with ([AObject k o] ++ h') in Hh.
  by apply app_inv_tail in Hh.
Qed.

(** The update is sent right after the read it rests on. *)
Lemma sends_CreateOrUpdate obj f :
  (∀ c o, f c = Ok o → service_rewrite c o) → sends (CreateOrUpdate obj f).
Proof.
  intros Hf. cbn [CreateOrUpdate replay_controller_util]. intros h0 h l.
  apply emits_from_bind; [sends_steps|]. intros used h' [] [existing|e] -> Hget.
  - apply attempt_Ok_inv, (get_answer KService) in Hget. subst used. apply emits_from_bind; [apply emits_lift|].
    intros used h'' [] o -> [= Hused Ho]. case_bool_decide; [apply emits_ret|].
    apply emits_from_bind; [|intros; apply emits_ret]. apply emits_from_ask.
    assert (used = []) as -> by (by apply (app_inv_tail h'')).
    econstructor; [by rewrite app_nil_r, last_snoc|by eapply Hf].
  - apply sends_if; sends_steps. apply (sends_call (CCreate KService _)). constructor.
Qed.

Hint Extern 0 (emits alone operator_call (CreateOrUpdate _ _)) =>
  apply sends_CreateOrUpdate; intros ? ?; apply mutate_rewrite : calls.

Lemma sends_createService l : sends (createService {| sr_listener := l |}).
Proof.
  unfold createService, ServiceReconciler.getListenerClass. sends_steps. repeat (apply sends_if; sends_steps).
Qed.
Hint Resolve sends_createService : calls.

Lemma sends_write_status l st : sends (write_status l st).
Proof.
  intros h0 h lo. apply emits_from_bind; [apply sends_call; constructor|].
  intros used h' [] c -> Hget%(get_answer KListener). subst used. apply emits_from_bind; [|intros; apply emits_ret].
  apply emits_from_ask. constructor. by rewrite last_snoc.
Qed.

Lemma sends_Reconcile req : sends (Reconcile req).
Proof.
  unfold Reconcile. sends_steps. case_match; [|apply sends_if; sends_steps].
  sends_steps. apply sends_if; sends_steps.
  unfold updateListenerStatus, describe, preferredAddressType. sends_steps.
  - repeat (apply sends_if; sends_steps).
  - unfold service_status, getNodesAddresses, getNodeNames, node_address.
    repeat (apply sends_if; sends_steps).
  - apply emits_retry, sends_write_status.
Qed.

(** ** Run alone, a handler does what its model does *)

(** [retry.RetryOnConflict] with [retry.DefaultRetry]. *)
Class DefaultRetries : Prop :=
  RetryOnConflict_default : ∀ f (w : W), RetryOnConflict f w = retry DefaultRetry f w.
Context `{!DefaultRetries}.

Notation same := (simulates (alone (S:=replay)) (alone (S:=W))).
Notation same_files := (simulates (@pair replay FS) (@pair W FS)).

Hint Extern 1 (simulates _ _ (@client_get replay _ ?k ?key) _) => apply (simulates_get k key) : calls.
Hint Extern 1 (simulates _ _ (@client_list replay _ ?k ?opts) _) => apply (simulates_list k opts) : calls.
Hint Extern 1 (simulates _ _ (@client_create replay _ ?k ?o) _) => apply (simulates_create k o) : calls.
Hint Extern 1 (simulates _ _ (@client_update replay _ ?k ?o) _) => apply (simulates_update k o) : calls.
Hint Extern 1 (simulates _ _ (@client_patch replay _ ?k ?o ?m) _) => apply (simulates_patch k o m) : calls.
Hint Extern 1 (simulates _ _ (@client_status_update replay _ ?l) _) => apply (simulates_status l) : calls.
Hint Extern 2 (simulates _ _ (lift _) _) => apply simulates_lift : calls.

Lemma simulates_if {A} (b : bool) (c1 c2 : M replay A) (d1 d2 : M W A) :
  same c1 d1 → same c2 d2 → same (if b then c1 else c2) (if b then d1 else d2).
Proof. by destruct b. Qed.

Lemma same_CreateOrUpdate obj f : same (CreateOrUpdate obj f) (CreateOrUpdate obj f).
Proof.
  eapply simulates_ext; [intros s; reflexivity|intros w; apply CreateOrUpdate_spec|].
  apply simulates_bind; [eauto with calls|]. intros [existing|e].
  - apply simulates_bind; [eauto with calls|]. intros o. apply simulates_if; [eauto with calls|].
    apply simulates_bind; [eauto with calls|]. eauto with calls.
  - apply simulates_if; [|eauto with calls]. apply simulates_bind; [eauto with calls|]. intros o.
    apply simulates_bind; [eauto with calls|]. eauto with calls.
Qed.
Hint Extern 0 (simulates _ _ (@CreateOrUpdate replay _ _ _ _) _) => apply same_CreateOrUpdate : calls.

Ltac same_steps :=
  repeat first [ progress cbv zeta | solve [eauto with calls] | apply simulates_bind; [|intros ?]
               | apply simulates_on_error | apply simulates_attempt
               | apply simulates_collect; intros ? ].

Lemma same_createOrUpdate obj v : same (createOrUpdatePodListeners obj v) (createOrUpdatePodListeners obj v).
Proof.
  unfold createOrUpdatePodListeners. same_steps. case_match; [same_steps|apply simulates_if; same_steps].
Qed.
Hint Resolve same_createOrUpdate : calls.

Lemma same_getListener pod pv ctx : same (getListener pod pv ctx) (getListener pod pv ctx).
Proof.
  unfold getListener. destruct (vc_ListenerName ctx); [same_steps|].
  unfold createListener, getPVC. same_steps. case_match; [same_steps|apply simulates_if; same_steps].
Qed.

Lemma same_getAddresses l pod : same (getAddresses l pod) (getAddresses l pod).
Proof. unfold getAddresses, getNodeAddressByPod. same_steps. repeat apply simulates_if; same_steps. Qed.

Lemma answered_api {A} (c : M replay A) (fs : FS) h w as_ w' :
  answered (alone (S:=replay)) c () h w as_ w' → answered pair (api c) fs h w as_ w'.
Proof.
  induction 1 as [|h w cl h' [] w1 a as_ w' Hcl Hp _ IH]; [constructor|].
  eapply (answered_call _ _ _ h w cl h' fs); [|exact Hp|exact IH].
  unfold alone in Hcl. unfold api. simpl. by rewrite Hcl.
Qed.

Lemma same_api {A} (c : M replay A) (d : M W A) : same c d → same_files (api c) (api d).
Proof.
  intros [He Hc]. split.
  { by apply emits_api. }
  intros w fs. destruct (Hc w ()) as (w1 & [] & r & as1 & Hd & Ha & Hr). unfold alone in *.
  exists w1, fs, r, as1. split; [unfold api; simpl; by rewrite Hd|]. split.
  - by apply answered_api.
  - intros rest. unfold api. simpl. by rewrite Hr.
Qed.
Lemma same_os {A} (c : M FS A) : same_files (os c) (os c).
Proof.
  split.
  { apply emits_os. }
  intros w fs. unfold os. simpl. destruct (c fs) as [fs' r] eqn:Hfs.
  exists w, fs', r, []. split; [done|]. split; [constructor|]. done.
Qed.

Lemma same_NodePublishVolume request : same_files (NodePublishVolume request) (NodePublishVolume request).
Proof.
  unfold NodePublishVolume.
  repeat (apply simulates_bind; [|intros ?]); try apply simulates_on_error;
    first [apply simulates_lift | apply same_os | apply same_api | case_bool_decide; apply simulates_lift].
  - unfold getPV. same_steps.
  - unfold getPod. same_steps.
  - apply same_getListener.
  - unfold patchPVLabelsWithListener. same_steps.
  - unfold patchPodLabelsWithListener. same_steps.
  - apply same_getAddresses.
  - unfold publishPodListener. same_steps.
Qed.

Lemma same_Reconcile req : same (Reconcile req) (Reconcile req).
Proof.
  unfold Reconcile, createService, ServiceReconciler.getListenerClass. same_steps.
  case_match; [|apply simulates_if; same_steps]. same_steps.
  - apply simulates_if; same_steps. apply simulates_if; same_steps.
  - apply simulates_if; same_steps.
    unfold updateListenerStatus, describe, preferredAddressType. same_steps.
    + repeat (apply simulates_if; same_steps).
    + unfold service_status, getNodesAddresses, getNodeNames, node_address.
      repeat (apply simulates_if; same_steps).
    + eapply simulates_ext; [intros s; reflexivity|intros w; apply RetryOnConflict_default|].
      apply simulates_retry. unfold write_status. same_steps.
Qed.

Lemma same_with_files {A} (c : M (replay * FS) A) (d : M (W * FS) A) fs :
  same_files c d → same (with_files c fs) (with_files d fs).
Proof.
  intros [He Hc]. split.
  { by apply emits_with_files. }
  intros w []. destruct (Hc w fs) as (w1 & fs1 & r & as1 & Hd & Ha & Hr).
  exists w1, (), r, as1. unfold with_files, alone in *. rewrite Hd. split; [done|]. split.
  - clear Hr Hd. revert Ha. generalize (@nil answer). intros h0 Ha.
    induction Ha as [|h w cl h' fs' w1 a as_ w' Hcl Hp _ IH]; [constructor|].
    eapply (answered_call _ _ _ h w cl h' ()); [|exact Hp|exact IH]. unfold alone. by rewrite Hcl.
  - intros rest. by rewrite Hr.
Qed.

Lemma same_handlers :
  (∀ creq, same (CreateVolume creq) (CreateVolume creq)) ∧
  (∀ lc, same (handleListenerClassChanges lc) (handleListenerClassChanges lc)) ∧
  (∀ slice, same (handleEndpointSliceChanges slice) (handleEndpointSliceChanges slice)).
Proof.
  split_and!; intros x.
  - unfold CreateVolume, getVolumeContext, getListenerClass. same_steps.
    + apply simulates_if; same_steps.
    + repeat (case_match; same_steps).
  - unfold handleListenerClassChanges. same_steps. case_match; same_steps.
  - unfold handleEndpointSliceChanges. case_match; same_steps. case_match; same_steps.
Qed.
Lemma sends_handlers :
  (∀ creq, sends (CreateVolume creq)) ∧ (∀ lc, sends (handleListenerClassChanges lc)) ∧
  (∀ slice, sends (handleEndpointSliceChanges slice)).
Proof.
  split_and!; intros x.
  - unfold CreateVolume, getVolumeContext, getListenerClass. sends_steps.
    + apply sends_if; sends_steps.
    + repeat (case_match; sends_steps).
  - unfold handleListenerClassChanges. sends_steps. case_match; sends_steps.
  - unfold handleEndpointSliceChanges. case_match; sends_steps. case_match; sends_steps.
Qed.

(** ** The system *)

(** A handler in progress and its atomic model. *)
Definition ignore_result {S A} (c : M S A) : M S () := c ≫= λ _, mret ().
Inductive program : M replay () → M W () → Prop :=
| prog_publish request fs :
    program (with_files (NodePublishVolume request) fs) (with_files (NodePublishVolume request) fs)
| prog_reconcile req : program (ignore_result (Reconcile req)) (ignore_result (Reconcile req))
| prog_provision creq : program (ignore_result (CreateVolume creq)) (ignore_result (CreateVolume creq))
| prog_class lc :
    program (ignore_result (handleListenerClassChanges lc)) (ignore_result (handleListenerClassChanges lc))
| prog_slice slice :
    program (ignore_result (handleEndpointSliceChanges slice))
            (ignore_result (handleEndpointSliceChanges slice)).

(** What a handler does after the answers [h]: its next call, or its result. *)
Definition next (p : M replay ()) (h : list answer) : call + res () :=
  match p (Replay h None) with
  | (Replay _ (Some cl), _) => inl cl
  | (Replay _ None, r) => inr r
  end.

(** The cluster and the handlers that run on it, each with the answers it got. *)
Definition system : Type := W * list (M replay () * list answer).

Inductive step : list call → system → system → Prop :=
| step_start w ts p d : program p d → step [] (w, ts) (w, ts ++ [(p, [])])
| step_call w w' ts1 p h ts2 cl a :
    next p h = inl cl → perform cl w = (w', a) →
    step [cl] (w, ts1 ++ (p, h) :: ts2) (w', ts1 ++ (p, h ++ [a]) :: ts2).

Inductive execution : list call → system → system → Prop :=
| execution_nil st : execution [] st st
| execution_step cls1 cls2 st1 st2 st3 :
    step cls1 st1 st2 → execution cls2 st2 st3 → execution (cls1 ++ cls2) st1 st3.

Lemma program_same p d : program p d → same p d.
Proof.
  destruct same_handlers as (Hvol & Hclass & Hslice).
  intros [request fs|req|creq|lc|slice];
    [apply same_with_files, same_NodePublishVolume|apply simulates_bind; [|intros; apply simulates_ret]..].
  - apply same_Reconcile.
  - apply Hvol.
  - apply Hclass.
  - apply Hslice.
Qed.

Lemma program_sends p d : program p d → sends p.
Proof.
  destruct sends_handlers as (Hvol & Hclass & Hslice).
  intros [request fs|req|creq|lc|slice];
    [apply emits_with_files, sends_NodePublishVolume|apply emits_bind; [|intros; apply emits_ret]..].
  - apply sends_Reconcile.
  - apply Hvol.
  - apply Hclass.
  - apply Hslice.
Qed.

Lemma answered_execution p h w as_ w' :
  answered alone p () h w as_ w' →
  ∃ calls, execution calls (w, [(p, h)]) (w', [(p, h ++ as_)]).
Proof.
  induction 1 as [h w|h w cl h' l' w1 a as_ w' Hcl Hp _ [calls IH]].
  - exists []. rewrite app_nil_r. constructor.
  - exists ([cl] ++ calls). econstructor; [|].
    + eapply (step_call _ _ [] p h [] cl a); [|done]. unfold next. unfold alone in Hcl. by rewrite Hcl.
    + simpl. by rewrite <- app_assoc in IH.
Qed.

(** The atomic models of the handlers are what the handlers do call by call: a handler
    that runs alone on a cluster ends, after finitely many API calls, in the cluster of its
    model, and as its model does: with success, an error or a panic. *)
Lemma program_alone p d w w' r :
  program p d → d w = (w', r) →
  ∃ calls h, execution calls (w, [(p, [])]) (w', [(p, h)]) ∧ next p h = inr r.
Proof.
  intros Hprog Hd. destruct (proj2 (program_same _ _ Hprog) w ()) as (w1 & [] & r1 & as1 & Hd1 & Ha & Hr).
  unfold alone in *. rewrite Hd in Hd1. injection Hd1 as <- <-.
  destruct (answered_execution _ _ _ _ _ Ha) as [calls He]. exists calls, as1. split; [done|].
  unfold next. specialize (Hr []). rewrite app_nil_r in Hr. by rewrite Hr.
Qed.
End programs.
