(* ===== verification/NoLostUpdate.v ===== *)
(** * No lost updates

    Any number of reconciles, publications and provisioning calls run at the same time on one
    cluster ([Concurrent]).  The handlers read an object, compute on the copy and write it back,
    so a write may rest on a stale copy.  The theorems show that this is harmless: label patches
    and PodListeners patches are merges that name only the keys they change, nothing is deleted,
    and only the status of a Listener is ever updated. *)
From S2P Require Import Prelude GoRuntime GoStrings Api GoOs CsiTypes Util Service Reconciler.
From S2P Require Import CsiController CsiNode FakeClient Fixtures Interleaving Concurrent.
Import NodeServer.

(** ** What is looked at *)

(** The call writes the entry of the volume [v] in the PodListeners [key]. *)
Definition writes_entry (cl : call) (key : ObjectKey) (v : string) : bool :=
  match cl with
  | CCreate k o =>
      match k as k return Obj k → bool with
      | KPodListeners => λ o, bool_decide (key_of (k:=KPodListeners) o = key ∧
                                           is_Some (map_get (pls_listeners o) v))
      | _ => λ _, false
      end o
  | CPatch k o m =>
      match k as k return Obj k → Obj k → bool with
      | KPodListeners => λ o m, bool_decide (key_of (k:=KPodListeners) m = key ∧
                                  map_get (pls_listeners m) v ≠ map_get (pls_listeners o) v)
      | _ => λ _ _, false
      end o m
  | _ => false
  end.

(** The call writes the label [x] of the pod, or of the persistent volume, [key]. *)
Definition writes_label (kind : Kind) (cl : call) (key : ObjectKey) (x : string) : bool :=
  match cl with
  | CPatch k o m =>
      bool_decide (k = kind ∧ scoped k (key_of m) = key ∧
                   map_get (meta_labels (meta_of k m)) x ≠ map_get (meta_labels (meta_of k o)) x)
  | _ => false
  end.

(** ** Effects of calls *)

Section effects.
Context {W : Type} `{HC : Client W} `{!ApiServer W}.

(** Nothing, or what the call is for. *)
Definition effect (cl : call) (w w' : W) : Prop :=
  w' = w ∨
  match cl with
  | CGet _ _ | CList _ _ => False
  | CCreate k o => ∃ o', stored k w (scoped k (key_of o)) = None ∧ defaulted k o o' ∧
      wrote stored k (scoped k (key_of o)) o' w w'
  | CUpdate k o => ∃ o', is_Some (stored k w (scoped k (key_of o))) ∧ defaulted k o o' ∧
      wrote stored k (scoped k (key_of o)) o' w w'
  | CPatch k o m => ∃ c n, stored k w (scoped k (key_of m)) = Some c ∧ patched k o m c n ∧
      wrote stored k (scoped k (key_of m)) n w w'
  | CStatusUpdate l => ∃ c, stored KListener w (key_of (k:=KListener) l) = Some c ∧
      wrote stored KListener (key_of (k:=KListener) l) (with_status (listener_status l) c) w w'
  end.

(** A request is atomic: one that is answered with an error (a timeout, say) was carried out,
    or it was not. *)
Class AtomicWrites : Prop :=
  failed_effect : ∀ cl w w' e, perform cl w = (w', AError e) → effect cl w w'.

Context `{!AtomicWrites}.

Lemma perform_effect cl w w' a : perform cl w = (w', a) → effect cl w w'.
Proof.
  intros Hp. destruct cl as [k key|k opts|k o|k o|k o m|l]; simpl in Hp.
  - left. destruct (client_get k key w) as [w1 r] eqn:Hg. injection Hp as <- _.
    by apply get_state in Hg as [? _].
  - left. destruct (client_list k opts w) as [w1 r] eqn:Hg. injection Hp as <- _.
    by apply list_spec in Hg as [? _].
  - destruct (client_create k o w) as [w1 [o'|e|]] eqn:Hg; injection Hp as <- <-.
    + right. apply create_spec in Hg as (? & ? & ?). by exists o'.
    + apply (failed_effect (CCreate k o) w w1 e). simpl. by rewrite Hg.
    + by apply create_spec in Hg.
  - destruct (client_update k o w) as [w1 [o'|e|]] eqn:Hg; injection Hp as <- <-.
    + right. apply update_spec in Hg as (? & ? & ?). by exists o'.
    + apply (failed_effect (CUpdate k o) w w1 e). simpl. by rewrite Hg.
    + by apply update_spec in Hg.
  - destruct (client_patch k o m w) as [w1 [o'|e|]] eqn:Hg; injection Hp as <- <-.
    + right. apply patch_spec in Hg as (c & ? & ? & ?). by exists c, o'.
    + apply (failed_effect (CPatch k o m) w w1 e). simpl. by rewrite Hg.
    + by apply patch_spec in Hg.
  - destruct (client_status_update l w) as [w1 [o'|e|]] eqn:Hg; injection Hp as <- <-.
    + right. apply status_update_spec in Hg as (c & ? & -> & ?). by exists c.
    + apply (failed_effect (CStatusUpdate l) w w1 e). simpl. by rewrite Hg.
    + by apply status_update_spec in Hg.
Qed.

(** The entry of a volume in a PodListeners object, a label of an object. *)
Definition entry_at (w : W) (key : ObjectKey) (v : string) : option PodListener :=
  o ← stored KPodListeners w key; map_get (pls_listeners o) v.
Definition label_at (k : Kind) (w : W) (key : ObjectKey) (x : string) : option string :=
  o ← stored k w key; map_get (meta_labels (meta_of k o)) x.

(** A call of the handlers leaves the object, creates it where it is missing, or is one of the
    three writes to existing objects: a patch, a status, an updated Service. *)
Lemma effect_cases h cl w w' k key :
  operator_call h cl → effect cl w w' →
  stored k w' key = stored k w key ∨ stored k w key = None ∨
  (∃ o m c n, cl = CPatch k o m ∧ scoped k (key_of m) = key ∧ stored k w key = Some c ∧
     patched k o m c n ∧ stored k w' key = Some n) ∨
  (k = KListener ∧ ∃ l c, cl = CStatusUpdate l ∧ stored KListener w key = Some c ∧
     stored KListener w' key = Some (with_status (listener_status l) c)) ∨
  (∃ o n, cl = CUpdate k o ∧ k = KService ∧ scoped k (key_of o) = key ∧ is_Some (stored k w key) ∧
     defaulted k o n ∧ stored k w' key = Some n).
Proof.
  intros Hop [->|Heff]; [by left|].
  assert (∀ k0 key0 (o0 : Obj k0), wrote stored k0 key0 o0 w w' →
            stored k w' key = stored k w key ∨ k0 = k ∧ key0 = key) as Hframe.
  { intros k0 key0 o0 [_ Hf]. destruct (decide (k0 = k)) as [->|]; [|left; apply Hf; by left].
    destruct (decide (key0 = key)) as [->|]; [by right|]. left. apply Hf. by right. }
  destruct cl as [k0 key0|k0 opts|k0 o|k0 o|k0 o m|l]; [done..| | | |].
  - destruct Heff as (o' & Hnone & _ & Hw). destruct (Hframe _ _ _ Hw) as [?|[<- <-]]; auto.
  - destruct Heff as (o' & Hsome & Hd & Hw). destruct (Hframe _ _ _ Hw) as [?|[<- <-]]; [auto|].
    right; right; right; right. exists o, o'. split_and!; try done; [by inversion Hop|].
    by apply wrote_same in Hw.
  - destruct Heff as (c & n & Hc & Hpat & Hw). destruct (Hframe _ _ _ Hw) as [?|[<- <-]]; [auto|].
    right; right; left. exists o, m, c, n. split_and!; try done. by apply wrote_same in Hw.
  - destruct Heff as (c & Hc & Hw). destruct (Hframe _ _ _ Hw) as [?|[<- <-]]; [auto|].
    right; right; right; left. split; [done|]. exists l, c. split_and!; try done. by apply wrote_same in Hw.
Qed.

(** The patches: labels are copied in, one entry is set. *)
Definition patch_shape (k : Kind) : Obj k → Obj k → Prop :=
  match k return Obj k → Obj k → Prop with
  | KPod => λ o m, ∃ new ls, maps_Copy (ensure_map (meta_labels (pod_meta o))) new = Ok ls ∧
                             m = with_pod_labels ls o
  | KPersistentVolume => λ o m, ∃ new ls,
      maps_Copy (ensure_map (meta_labels (pv_meta o))) new = Ok ls ∧ m = with_pv_labels ls o
  | KPodListeners => λ o m, ∃ v pl ls,
      map_set (ensure_map (pls_listeners o)) v pl = Ok ls ∧ m = with_listeners ls o
  | _ => λ _ _, False
  end.

Lemma operator_patch h cl :
  operator_call h cl → match cl with CPatch k o m => patch_shape k o m | _ => True end.
Proof. destruct 1; simpl; eauto. Qed.

Lemma ensure_map_get {V} (m : gomap V) x : map_get (ensure_map m) x = map_get m x.
Proof. by destruct m. Qed.

(** A merge patch of one entry leaves every entry there is, the others as they are. *)
Lemma entry_merged o m c n v pl ls x e :
  map_set (ensure_map (pls_listeners o)) v pl = Ok ls → m = with_listeners ls o →
  patched KPodListeners o m c n → map_get (pls_listeners c) x = Some e →
  ∃ e', map_get (pls_listeners n) x = Some e' ∧
        (map_get (pls_listeners m) x = map_get (pls_listeners o) x → e' = e).
Proof.
  intros Hset -> Hpat He. destruct (Hpat eq_refl) as [_ Hm]. specialize (Hm x). simpl in *.
  rewrite He, (map_get_set _ _ _ _ x Hset), ensure_map_get in *.
  case_decide as Hx; destruct (map_get (pls_listeners o) x) as [[sc ing]|]; simpl in Hm; eauto;
    rewrite Hm; eexists; (split; [reflexivity|]); intros Heq; try done;
    [injection Heq as ->|]; simpl; rewrite !bool_decide_eq_true_2 by done; by destruct e.
Qed.

Lemma label_merged (o m c : option string) new :
  m = match new with Some v => Some v | None => o end → is_Some c →
  is_Some (merge_entry o m c) ∧ (m = o → merge_entry o m c = c).
Proof.
  unfold merge_entry. intros -> Hc. case_bool_decide as Heq; [done|]. split; [|done].
  destruct new; [done|]. by destruct Heq.
Qed.

(** One call leaves every entry, exactly as it is unless the call writes that entry. *)
Lemma step_entry h cl w w' key v e :
  operator_call h cl → effect cl w w' → entry_at w key v = Some e →
  ∃ e', entry_at w' key v = Some e' ∧ (writes_entry cl key v = false → e' = e).
Proof.
  intros Hop Heff He. unfold entry_at in *.
  destruct (effect_cases _ _ _ _ KPodListeners key Hop Heff)
    as [->|[Hnone|[(o & m & c & n & -> & Hk & Hc & Hpat & ->)|[[? _]|(? & ? & ? & ? & _)]]]]; try done.
  - by exists e.
  - by rewrite Hnone in He.
  - rewrite Hc in He. simpl in *. apply operator_patch in Hop as (v0 & pl & ls & Hset & Hm).
    destruct (entry_merged o m c n v0 pl ls v e Hset Hm Hpat He) as (e' & Hn & Heq).
    exists e'. split; [done|]. rewrite scoped_namespaced in Hk by done.
    intros Hno%bool_decide_eq_false. apply Heq.
    destruct (decide (map_get (pls_listeners m) v = map_get (pls_listeners o) v)); [done|].
    exfalso. by apply Hno.
Qed.

Lemma step_label h k cl w w' key x y :
  k = KPod ∨ k = KPersistentVolume →
  operator_call h cl → effect cl w w' → label_at k w key x = Some y →
  ∃ y', label_at k w' key x = Some y' ∧ (writes_label k cl key x = false → y' = y).
Proof.
  intros Hkind Hop Heff Hy. unfold label_at in *.
  destruct (effect_cases _ _ _ _ k key Hop Heff)
    as [->|[Hnone|[(o & m & c & n & -> & Hk & Hc & Hpat & ->)|[[-> _]|(? & ? & ? & -> & _)]]]];
    [by exists y|by rewrite Hnone in Hy| |by destruct Hkind..].
  rewrite Hc in Hy. cbn [mbind option_bind] in *. apply operator_patch in Hop.
  assert (is_Some (map_get (meta_labels (meta_of k n)) x) ∧
          (map_get (meta_labels (meta_of k m)) x = map_get (meta_labels (meta_of k o)) x →
           map_get (meta_labels (meta_of k n)) x = map_get (meta_labels (meta_of k c)) x)) as [[y' Hy'] Hsame].
  { destruct Hkind as [->| ->]; destruct Hop as (new & ls & Hcopy & ->);
      destruct (Hpat eq_refl) as [_ Hm]; simpl in *; rewrite Hm;
      apply (label_merged _ _ _ (map_get new x)); try done;
      by rewrite (maps_Copy_get _ _ _ x Hcopy), ensure_map_get. }
  exists y'. split; [done|]. intros Hno%bool_decide_eq_false. rewrite Hsame, Hy in Hy'; [by injection Hy'|].
  destruct (decide (map_get (meta_labels (meta_of k m)) x = map_get (meta_labels (meta_of k o)) x)); [done|].
  exfalso. by apply Hno.
Qed.

(** A Listener keeps its metadata and its specification. *)
Lemma step_listener h cl w w' key l :
  operator_call h cl → effect cl w w' → stored KListener w key = Some l →
  ∃ st, stored KListener w' key = Some (with_status st l).
Proof.
  intros Hop Heff Hl.
  destruct (effect_cases _ _ _ _ KListener key Hop Heff)
    as [->|[Hnone|[(o & m & c & n & -> & _)|[(_ & l0 & c & -> & Hc & Hn)|(? & ? & ? & ? & _)]]]]; try done.
  - exists (listener_status l). rewrite Hl. by destruct l.
  - by rewrite Hnone in Hl.
  - by apply operator_patch in Hop.
  - rewrite Hl in Hc. injection Hc as <-. eauto.
Qed.
End effects.
Arguments AtomicWrites W {_ _}.

(** ** Executions *)

Section executions.
Context {W : Type} `{HC : Client W} `{!ApiServer W} `{!ControllerUtil W}
  `{!ControllerUtilLaws W} `{!AtomicWrites W}.
Context `{!OperatorGo} `{!MapRange} `{!Mounter}.

(** The calls of an execution, one after the other on the cluster. *)
Inductive chain : list call → W → W → Prop :=
| chain_nil w : chain [] w w
| chain_cons h cl cls w w1 w2 :
    operator_call h cl → effect cl w w1 → chain cls w1 w2 → chain (cl :: cls) w w2.

(** The running handlers are those of the operator and of the plugin. *)
Definition running (ts : list (M replay () * list answer)) : Prop :=
  Forall (λ t, ∃ d : M W (), program t.1 d) ts.

Lemma next_operator_call p (d : M W ()) h cl : program p d → next p h = inl cl → operator_call h cl.
Proof.
  intros Hp Hn. destruct (program_sends _ _ Hp [] h ()) as (used & h' & [] & pd & r & -> & Hrun & Hpd).
  unfold alone in Hrun. unfold next in Hn. rewrite Hrun in Hn.
  destruct pd; [|done]. injection Hn as <-. destruct Hpd as (_ & -> & Hpd). by rewrite app_nil_r.
Qed.

Lemma execution_chain calls st st' :
  execution calls st st' → running st.2 → chain calls st.1 st'.1.
Proof.
  induction 1 as [|cls1 cls2 st1 st2 st3 Hstep _ IH]; intros Hrun; [constructor|].
  destruct Hstep as [w ts p d Hp|w w' ts1 p h ts2 cl a Hn Hperf]; simpl in *.
  - apply IH. apply Forall_app_2; [done|]. by apply Forall_cons_2; [exists d|].
  - apply Forall_app in Hrun as [Hts1 Hrest]. apply Forall_cons in Hrest as [[d Hd] Hts2].
    econstructor; [by eapply next_operator_call|by eapply perform_effect|]. apply IH.
    apply Forall_app_2; [done|]. apply Forall_cons_2; [by exists d|done].
Qed.

Lemma chain_entry calls w w' key v e :
  chain calls w w' → entry_at w key v = Some e →
  ∃ e', entry_at w' key v = Some e' ∧
        (Forall (λ cl, writes_entry cl key v = false) calls → e' = e).
Proof.
  intros Hc. revert e. induction Hc as [w|h cl cls w w1 w2 Hop Heff _ IH]; intros e He; [by exists e|].
  destruct (step_entry _ _ _ _ _ _ _ Hop Heff He) as (e1 & He1 & Heq1).
  destruct (IH _ He1) as (e2 & He2 & Heq2). exists e2. split; [done|].
  intros [Hcl Hcls]%Forall_cons. by rewrite Heq2, Heq1.
Qed.

Lemma chain_label k calls w w' key x y :
  k = KPod ∨ k = KPersistentVolume → chain calls w w' → label_at k w key x = Some y →
  ∃ y', label_at k w' key x = Some y' ∧
        (Forall (λ cl, writes_label k cl key x = false) calls → y' = y).
Proof.
  intros Hk Hc. revert y. induction Hc as [w|h cl cls w w1 w2 Hop Heff _ IH]; intros y Hy; [by exists y|].
  destruct (step_label _ _ _ _ _ _ _ _ Hk Hop Heff Hy) as (y1 & Hy1 & Heq1).
  destruct (IH _ Hy1) as (y2 & Hy2 & Heq2). exists y2. split; [done|].
  intros [Hcl Hcls]%Forall_cons. by rewrite Heq2, Heq1.
Qed.

Lemma chain_listener calls w w' key l :
  chain calls w w' → stored KListener w key = Some l →
  ∃ st, stored KListener w' key = Some (with_status st l).
Proof.
  intros Hc. revert l. induction Hc as [w|h cl cls w w1 w2 Hop Heff _ IH]; intros l Hl.
  - exists (listener_status l). rewrite Hl. by destruct l.
  - destruct (step_listener _ _ _ _ _ _ Hop Heff Hl) as [st Hl1]. destruct (IH _ Hl1) as [st2 Hl2].
    by exists st2.
Qed.

(** C4: Nothing is lost when handlers run at the same time: however reconciles, publications
    and provisioning calls are interleaved, and whichever of their calls fail, every entry of a
    PodListeners object and every label of a pod or volume stays, with the value it has unless
    a call writes that very entry or label; and a Listener keeps its metadata and its
    specification. *)
Theorem no_lost_update calls w ts w' ts' :
  execution calls (w, ts) (w', ts') → running ts →
  (∀ key v e, entry_at w key v = Some e → ∃ e', entry_at w' key v = Some e' ∧
     (Forall (λ cl, writes_entry cl key v = false) calls → e' = e)) ∧
  (∀ k key x y, k = KPod ∨ k = KPersistentVolume → label_at k w key x = Some y →
     ∃ y', label_at k w' key x = Some y' ∧
     (Forall (λ cl, writes_label k cl key x = false) calls → y' = y)) ∧
  (∀ key l, stored KListener w key = Some l → ∃ st, stored KListener w' key = Some (with_status st l)).
Proof.
  intros Hex Hrun. pose proof (execution_chain _ _ _ Hex Hrun) as Hchain. simpl in Hchain. split_and!.
  - intros key v e. by eapply chain_entry.
  - intros k key x y Hk. by eapply chain_label.
  - intros key l. by eapply chain_listener.
Qed.
End executions.
