(* ===== verification/ConcurrentExamples.v ===== *)
(** * Examples of interleaved handlers

    Two volumes of one pod are published at the same time, while the operator reconciles: a
    schedule that alternates the handlers at every API call, and the witnesses of the theorems
    of [Concurrent] and [NoLostUpdate]. *)
From S2P Require Import Prelude GoRuntime GoStrings Api GoOs CsiTypes Util FakeClient Fixtures.
From S2P Require Import Service Reconciler CsiController CsiNode CsiNodeExamples.
From S2P Require Import Interleaving Concurrent NoLostUpdate.
Import ListenerReconciler NodeServer.

(** ** The laws hold for the in-memory API server *)

#[export] Instance fake_default_retries : DefaultRetries (W:=cluster).
Proof.
  intros f w. simpl. unfold DefaultRetry. generalize 4. intros n. revert w.
  induction n as [|n IH]; intros w; simpl; destruct (f w) as [w' [a|e|]]; done.
Qed.

#[export] Instance fake_atomic_writes : AtomicWrites cluster.
Proof.
  intros cl w w' e Hp. left. destruct cl as [k key|k opts|k o|k o|k o m|l]; simpl in Hp;
    repeat case_match; by simplify_eq/=.
Qed.

(** ** Schedules *)

Section schedule.
Context {W : Type} `{HC : Client W} `{!ControllerUtil W}.
Context `{!OperatorGo} `{!MapRange} `{!Mounter}.

(** The call of the thread [i], if it has one. *)
Definition turn (i : nat) (st : system (W:=W)) : list call * system :=
  match st.2 !! i with
  | Some (p, h) =>
      match next p h with
      | inl cl => ([cl], ((perform cl st.1).1, <[i := (p, h ++ [(perform cl st.1).2])]> st.2))
      | inr _ => ([], st)
      end
  | None => ([], st)
  end.

Fixpoint schedule (order : list nat) (st : system) : list call * system :=
  match order with
  | [] => ([], st)
  | i :: order => let '(cls1, st1) := turn i st in
                  let '(cls2, st2) := schedule order st1 in (cls1 ++ cls2, st2)
  end.

Lemma schedule_execution order st : execution (schedule order st).1 st (schedule order st).2.
Proof.
  revert st. induction order as [|i order IH]; intros st; simpl; [constructor|].
  destruct (turn i st) as [cls1 st1] eqn:Ht. specialize (IH st1).
  destruct (schedule order st1) as [cls2 st2]. simpl in *. unfold turn in Ht. destruct st as [w ts].
  simpl in Ht. destruct (ts !! i) as [[p h]|] eqn:Hi; [|injection Ht as <- <-; exact IH].
  destruct (next p h) as [cl|r] eqn:Hn; injection Ht as <- <-; [|exact IH].
  eapply execution_step; [|exact IH].
  rewrite <- (take_drop_middle ts i (p, h) Hi) at 1.
  rewrite (insert_take_drop _ _ _ (lookup_lt_Some _ _ _ Hi)).
  eapply step_call; [exact Hn|]. apply surjective_pairing.
Qed.
End schedule.

(** ** Two volumes of one pod *)

Definition two_volumes_pod : Pod :=
  {| pod_meta := pod_meta test_pod; pod_nodeName := "node-1";
     pod_containers := pod_containers test_pod;
     pod_volumes := pod_volumes test_pod ++
       [ {| pv_volume_name := "admin"; pv_claim_name := Some "admin-0"; pv_ephemeral := false |} ] |}.

Definition admin_pv : PersistentVolume :=
  {| pv_meta := test_meta "pvc-ffffffff-0123-4567-89ab-0123456789ab" "" "admin-pv-uid";
     pv_claimRef := Some {| claim_name := "admin-0"; claim_namespace := "default" |} |}.

Definition admin_listener : Listener :=
  {| listener_meta := test_meta "admin-0" "default" "00000000-0b1d-4c55-9d3e-8a7b6c5d4e3f";
     listener_spec := listener_spec ready_listener;
     listener_status := {| lst_serviceName := "admin-0"; lst_ingressAddresses := [];
                           lst_nodePorts := Some {[ "http" := 30081%Z ]} |} |}.

(** The PodListeners of the pod, with the entry of a volume published before. *)
Definition pod_key : ObjectKey := Key "default" "pod-pod-uid".
Definition early_entry : PodListener := {| pl_scope := PodlistenerClusterScope; pl_listenerIngresses := [] |}.
Definition early_listeners : PodListeners :=
  {| pls_meta := test_meta "pod-pod-uid" "default" "pls-uid";
     pls_listeners := Some {[ "early" := early_entry ]} |}.

Definition busy_cluster : cluster :=
  add KPod two_volumes_pod (add KPersistentVolume admin_pv (add KListener admin_listener
    (add KPodListeners early_listeners node_cluster))).

Definition admin_publish : NodePublishVolumeRequest :=
  {| np_volumeId := "pvc-ffffffff-0123-4567-89ab-0123456789ab";
     np_targetPath := "/var/lib/kubelet/pods/pod-uid/volumes/listener/admin";
     np_volumeCapability := np_volumeCapability test_publish;
     np_volumeContext := Some (<[ CSI_STORAGE_POD_NAME := "web-0" ]>
       (<[ CSI_STORAGE_POD_NAMESPACE := "default" ]> {[ AnnotationListenerName := "admin-0" ]})) |}.

Definition busy : system :=
  (busy_cluster,
   [ (with_files (NodePublishVolume test_publish) node_fs, []);
     (with_files (NodePublishVolume admin_publish) node_fs, []);
     (ignore_result (Reconcile (Key "default" "data-0")), []) ]).

(** The second publication is overtaken between its read of the PodListeners and its patch:
    the other two handlers run to their end in turns, then it goes on. *)
Definition overtaken : list nat := replicate 8 1 ++ mjoin (replicate 14 [0; 2]) ++ [1].
Definition busy_calls : list call := (schedule overtaken busy).1.
Definition busy_end : system := (schedule overtaken busy).2.

Definition is_patch (cl : call) : bool := match cl with CPatch KPodListeners _ _ => true | _ => false end.
Example busy_overtaken :
  (λ '(p, h), match next p h with inl cl => is_patch cl | inr _ => false end)
    <$> (schedule (replicate 8 1) busy).2.2 = [false; true; false].
Proof. vm_compute. reflexivity. Qed.

Example busy_done : (λ '(p, h), next p h) <$> busy_end.2 = [inr (Ok ()); inr (Ok ()); inr (Ok ())].
Proof. vm_compute. reflexivity. Qed.

(** The late patch rests on a stale copy, and yet all three entries are there. *)
Example busy_entries :
  (λ v, pl_scope <$> entry_at busy_end.1 pod_key v) <$> ["early"; "listener"; "admin"] =
  [Some PodlistenerClusterScope; Some PodlistenerNodeScope; Some PodlistenerNodeScope].
Proof. vm_compute. reflexivity. Qed.

(** ** Witnesses *)

Lemma busy_running : running (W:=cluster) busy.2.
Proof.
  apply Forall_cons_2; [eexists; apply prog_publish|].
  apply Forall_cons_2; [eexists; apply prog_publish|].
  apply Forall_cons_2; [eexists; apply prog_reconcile|apply Forall_nil_2].
Qed.

Lemma busy_spares_early : Forall (λ cl, writes_entry cl pod_key "early" = false) busy_calls.
Proof. apply (bool_decide_unpack _). vm_compute. reflexivity. Qed.

Lemma no_lost_update_witness : entry_at busy_end.1 pod_key "early" = Some early_entry.
Proof.
  destruct (no_lost_update busy_calls busy_cluster busy.2 busy_end.1 busy_end.2) as (He & _ & _).
  - change (busy_cluster, busy.2) with busy. rewrite <- (surjective_pairing busy_end).
    exact (schedule_execution overtaken busy).
  - exact busy_running.
  - destruct (He pod_key "early" early_entry) as (e' & He' & Heq); [vm_compute; reflexivity|].
    rewrite <- (Heq busy_spares_early). exact He'.
Defined.

Example program_alone_example :
  ∃ calls h, execution calls (node_cluster, [(with_files (NodePublishVolume test_publish) node_fs, [])])
    (after_publish.1, [(with_files (NodePublishVolume test_publish) node_fs, h)]) ∧
    next (with_files (NodePublishVolume test_publish) node_fs) h = inr (Ok ()).
Proof.
  apply (program_alone _ (with_files (NodePublishVolume test_publish) node_fs)).
  - apply prog_publish.
  - unfold with_files. rewrite publish_run. by rewrite (surjective_pairing after_publish).
Qed.
