(* ===== verification/StaleCache.v ===== *)
(** * Reads from the cache

    The client of a controller-runtime manager answers reads from an informer cache that lags
    behind the API server; writes go to the server.  Here the handlers of [Concurrent] run
    against such a client, next to other clients of the cluster: a read is answered from any
    cluster there has been, and the server accepts an update only of the object as it is stored
    (the resource version), answering [Conflict] otherwise.

    The writes of the handlers are then still safe, however old the copies are they rest on:
    nothing stored is deleted, and what the API server, the users or the other handlers put
    into Services, Listeners, pods, volumes and PodListeners survives. *)
From stdpp Require Import relations.
From S2P Require Import Prelude GoRuntime GoStrings Api GoOs CsiTypes Util Service Reconciler.
From S2P Require Import CsiController CsiNode Interleaving Concurrent NoLostUpdate.
Import Util.Address Util.Constant ServiceReconciler.

(** ** What a write keeps *)

(** The first of the ports with the name and the protocol of [p]. *)
Definition first_port (p : ServicePort) (ports : list ServicePort) : option ServicePort :=
  List.find (λ e, bool_decide (same_port p e)) ports.

Record service_kept (c n : Service) : Prop := {
  sk_name : meta_name (svc_meta n) = meta_name (svc_meta c);
  sk_namespace : meta_namespace (svc_meta n) = meta_namespace (svc_meta c);
  sk_uid : meta_uid (svc_meta c) ≠ "" → meta_uid (svc_meta n) = meta_uid (svc_meta c);
  sk_labels : meta_labels (svc_meta n) = meta_labels (svc_meta c);
  sk_annotations : meta_annotations (svc_meta n) = meta_annotations (svc_meta c);
  sk_clusterIP : svc_clusterIP (svc_spec c) ≠ "" →
    svc_clusterIP (svc_spec n) = svc_clusterIP (svc_spec c);
  sk_clusterIPs : svc_clusterIPs (svc_spec c) ≠ [] →
    svc_clusterIPs (svc_spec n) = svc_clusterIPs (svc_spec c);
  sk_nodePort : ∀ p e, has_node_ports (svc_type (svc_spec n)) = true →
    p ∈ svc_ports (svc_spec n) → first_port p (svc_ports (svc_spec c)) = Some e →
    sp_nodePort e ≠ 0%Z → sp_nodePort p = sp_nodePort e;
}.

Lemma first_port_same p q ports :
  sp_name p = sp_name q → sp_protocol p = sp_protocol q → first_port p ports = first_port q ports.
Proof.
  intros Hn Hp. unfold first_port. induction ports as [|e ports IH]; simpl; [done|].
  rewrite (bool_decide_ext (same_port p e) (same_port q e)) by (unfold same_port; by rewrite Hn, Hp).
  by rewrite IH.
Qed.

(** A rewritten Service, as the server stores it. *)
Lemma rewrite_kept c o n : service_rewrite c o → svc_defaulted o n → service_kept c n.
Proof.
  intros [Hmeta _ Hip Hips Hports] Hd. pose proof (sd_meta _ _ Hd) as Hm. rewrite Hmeta in Hm.
  destruct Hm as [Hn Hns Hu Hl Ha _]. constructor; try done.
  - rewrite <- Hip. apply Hd.
  - rewrite <- Hips. apply Hd.
  - intros p e Hty Hp He Hne. rewrite (sd_type _ _ Hd) in Hty. destruct (Hports Hty) as [wanted Hw].
    pose proof (sd_ports _ _ Hd) as Hall. rewrite Hw in Hall.
    apply list_elem_of_lookup in Hp as [i Hi].
    destruct (Forall2_lookup_r _ _ _ _ _ Hall Hi) as (q & Hq & [Hqn Hqp _ _ Hqnp]).
    rewrite list_lookup_fmap in Hq. destruct (wanted !! i) as [d|]; [|done]. injection Hq as <-.
    assert (first_port d (svc_ports (svc_spec c)) = Some e) as Hd'.
    { rewrite <- He. unfold keep_node_port in Hqn, Hqp. apply first_port_same; by case_match. }
    unfold keep_node_port in Hqnp. unfold first_port in Hd'. rewrite Hd' in Hqnp.
    by destruct Hqnp as [|[? _]].
Qed.

Section keeps.
Context {W : Type} `{HC : Client W} `{!ApiServer W}.

(** What is stored in [w] and survives in [w']. *)
Record keeps (w w' : W) : Prop := {
  keeps_stored : ∀ k key, is_Some (stored k w key) → is_Some (stored k w' key);
  keeps_service : ∀ key c, stored KService w key = Some c →
    ∃ n, stored KService w' key = Some n ∧ (n = c ∨ service_kept c n);
  keeps_listener : ∀ key l, stored KListener w key = Some l →
    ∃ st, stored KListener w' key = Some (with_status st l);
  keeps_pod : ∀ key pod, stored KPod w key = Some pod →
    ∃ labels, stored KPod w' key = Some (with_pod_labels labels pod);
  keeps_pv : ∀ key pv, stored KPersistentVolume w key = Some pv →
    ∃ labels, stored KPersistentVolume w' key = Some (with_pv_labels labels pv);
  keeps_label : ∀ k key x y, k = KPod ∨ k = KPersistentVolume →
    label_at k w key x = Some y → is_Some (label_at k w' key x);
  keeps_entry : ∀ key v e, entry_at w key v = Some e → is_Some (entry_at w' key v);
  keeps_others : ∀ k key, k ∈ [KNode; KListenerClass; KPersistentVolumeClaim; KEndpointSlice] →
    stored k w' key = stored k w key;
}.

(** The server takes an update only of the object as it is stored: the object that was read. *)
Definition fresh (h : list answer) (cl : call) (w : W) : Prop :=
  match cl with
  | CUpdate k o => ∀ c, last h = Some (AObject k c) → stored k w (scoped k (key_of o)) = Some c
  | CStatusUpdate l => ∀ c, last h = Some (AObject KListener c) →
      stored KListener w (key_of (k:=KListener) l) = Some c
  | _ => True
  end.

Lemma operator_update h cl :
  operator_call h cl →
  match cl with
  | CUpdate k o => match k return Obj k → Prop with
      | KService => λ o, ∃ c, last h = Some (AObject KService c) ∧ service_rewrite c o
      | _ => λ _, False
      end o
  | _ => True
  end.
Proof. destruct 1; simpl; eauto. Qed.

Lemma fresh_service h cl w w' key c :
  operator_call h cl → fresh h cl w → effect cl w w' → stored KService w key = Some c →
  ∃ n, stored KService w' key = Some n ∧ (n = c ∨ service_kept c n).
Proof.
  intros Hop Hfresh Heff Hc. destruct (effect_cases _ _ _ _ KService key Hop Heff)
    as [->|[Hnone|[(o & m & c0 & n & -> & _)|[[? _]|(o & n & -> & _ & Hk & _ & Hd & Hn)]]]]; try done.
  - by eauto.
  - by rewrite Hnone in Hc.
  - by apply operator_patch in Hop.
  - exists n. split; [done|]. right. destruct (operator_update _ _ Hop) as (c1 & Hlast & Hrw).
    pose proof (Hfresh _ Hlast) as Hc1. rewrite Hk, Hc in Hc1. injection Hc1 as <-.
    by eapply rewrite_kept.
Qed.

(** Pods and persistent volumes change in their labels only. *)
Lemma patch_keeps_rest k o m c n :
  patch_shape k o m → patched k o m c n →
  match k return Obj k → Obj k → Prop with
  | KPod => λ c n, ∃ labels, n = with_pod_labels labels c
  | KPersistentVolume => λ c n, ∃ labels, n = with_pv_labels labels c
  | KPodListeners => λ _ _, True
  | _ => λ _ _, False
  end c n.
Proof.
  destruct k; simpl; try done; intros (new & ls & _ & ->) Hpat; destruct (Hpat eq_refl) as [Hn _]; eauto.
Qed.

Lemma fresh_stored h cl w w' k key :
  operator_call h cl → effect cl w w' → is_Some (stored k w key) → is_Some (stored k w' key).
Proof.
  intros Hop Heff [o Ho]. destruct (effect_cases _ _ _ _ k key Hop Heff)
    as [->|[Hnone|[(? & ? & ? & n & _ & _ & _ & _ & ->)|[(-> & ? & ? & _ & _ & ->)|(? & ? & _ & _ & _ & _ & _ & ->)]]]];
    try done. by rewrite Hnone in Ho.
Qed.

Lemma fresh_patched h cl w w' k key o :
  k = KPod ∨ k = KPersistentVolume →
  operator_call h cl → effect cl w w' → stored k w key = Some o →
  stored k w' key = Some o ∨ ∃ o0 m n, patch_shape k o0 m ∧ patched k o0 m o n ∧ stored k w' key = Some n.
Proof.
  intros Hk Hop Heff Ho. destruct (effect_cases _ _ _ _ k key Hop Heff)
    as [->|[Hnone|[(o0 & m & c & n & -> & _ & Hc & Hpat & Hn)|[[-> _]|(? & ? & _ & -> & _)]]]];
    [by left|by rewrite Hnone in Ho| |by destruct Hk..].
  right. exists o0, m, n. apply operator_patch in Hop. rewrite Ho in Hc. by injection Hc as <-.
Qed.

Lemma fresh_keeps h cl w w' :
  operator_call h cl → fresh h cl w → effect cl w w' → keeps w w'.
Proof.
  intros Hop Hfresh Heff. constructor.
  - intros k key. by eapply fresh_stored.
  - intros key c. by eapply fresh_service.
  - intros key l. by eapply step_listener.
  - intros key pod Hpod.
    destruct (fresh_patched _ _ _ _ KPod _ _ (or_introl eq_refl) Hop Heff Hpod) as [Hsame|(o & m & n & Hs & Hp & Hn)].
    + exists (meta_labels (pod_meta pod)). rewrite Hsame. by destruct pod as [[]].
    + destruct (patch_keeps_rest KPod _ _ _ _ Hs Hp) as [labels ->]. by exists labels.
  - intros key pv Hpv.
    destruct (fresh_patched _ _ _ _ KPersistentVolume _ _ (or_intror eq_refl) Hop Heff Hpv)
      as [Hsame|(o & m & n & Hs & Hp & Hn)].
    + exists (meta_labels (pv_meta pv)). rewrite Hsame. by destruct pv as [[]].
    + destruct (patch_keeps_rest KPersistentVolume _ _ _ _ Hs Hp) as [labels ->]. by exists labels.
  - intros k key x y Hk Hy. destruct (step_label _ _ _ _ _ _ _ _ Hk Hop Heff Hy) as (y' & -> & _). by eexists.
  - intros key v e He. destruct (step_entry _ _ _ _ _ _ _ Hop Heff He) as (e' & -> & _). by eexists.
  - intros k key Hk. destruct Hop; destruct Heff as [->|Heff]; try done;
      repeat match goal with H : ∃ _, _ |- _ => destruct H | H : _ ∧ _ |- _ => destruct H end;
      match goal with H : wrote _ _ _ _ _ _ |- _ => apply H; left; intros ->; set_solver end.
Qed.
End keeps.

(** ** Executions with a cache *)

Section stale.
Context {W : Type} `{HC : Client W} `{!ApiServer W} `{!ControllerUtil W}
  `{!ControllerUtilLaws W} `{!AtomicWrites W}.
Context `{!OperatorGo} `{!MapRange} `{!Mounter}.

(** What the other clients of the cluster do: the kubelet, the controllers of Kubernetes, the
    users. *)
Variable other : relation W.

(** The clusters there have been, the present one first, and the running handlers. *)
Record cached_system := {
  present : W;
  past : list W;
  threads : list (M replay () * list answer);
}.

Definition reads (cl : call) : bool := match cl with CGet _ _ | CList _ _ => true | _ => false end.
Definition updates (cl : call) : bool :=
  match cl with CUpdate _ _ | CStatusUpdate _ => true | _ => false end.

(** A write of a handler: the call, the cluster before it and the cluster after it. *)
Definition event : Type := call * W * W.

Inductive cached_step : list event → cached_system → cached_system → Prop :=
| cached_start w hist ts p (d : M W ()) :
    program p d →
    cached_step [] {| present := w; past := hist; threads := ts |}
                   {| present := w; past := hist; threads := ts ++ [(p, [])] |}
(* a read sees the cluster as the cache has it *)
| cached_read w hist ts1 p h ts2 cl w0 w1 a :
    next p h = inl cl → reads cl = true → w0 ∈ w :: hist → perform cl w0 = (w1, a) →
    cached_step [] {| present := w; past := hist; threads := ts1 ++ (p, h) :: ts2 |}
                   {| present := w; past := hist; threads := ts1 ++ (p, h ++ [a]) :: ts2 |}
| cached_write w hist ts1 p h ts2 cl w' a :
    next p h = inl cl → reads cl = false → fresh h cl w → perform cl w = (w', a) →
    cached_step [(cl, w, w')]
                {| present := w; past := hist; threads := ts1 ++ (p, h) :: ts2 |}
                {| present := w'; past := w :: hist; threads := ts1 ++ (p, h ++ [a]) :: ts2 |}
(* the copy is not what is stored any more *)
| cached_conflict w hist ts1 p h ts2 cl e :
    next p h = inl cl → updates cl = true → IsConflict e = true →
    cached_step [] {| present := w; past := hist; threads := ts1 ++ (p, h) :: ts2 |}
                   {| present := w; past := hist; threads := ts1 ++ (p, h ++ [AError e]) :: ts2 |}
| cached_other w hist ts w' :
    other w w' →
    cached_step [] {| present := w; past := hist; threads := ts |}
                   {| present := w'; past := w :: hist; threads := ts |}.

Inductive cached_execution : list event → cached_system → cached_system → Prop :=
| cached_nil st : cached_execution [] st st
| cached_cons es1 es2 st1 st2 st3 :
    cached_step es1 st1 st2 → cached_execution es2 st2 st3 → cached_execution (es1 ++ es2) st1 st3.

Lemma running_middle (ts1 ts2 : list (M replay () * list answer)) p h h' :
  running (W:=W) (ts1 ++ (p, h) :: ts2) →
  (∃ d : M W (), program p d) ∧ running (W:=W) (ts1 ++ (p, h') :: ts2).
Proof.
  intros [Hts1 [Hp Hts2]%Forall_cons]%Forall_app. split; [done|].
  by apply Forall_app_2; [|apply Forall_cons_2].
Qed.

(** One step keeps the handlers those of the operator and of the plugin, and its write is safe. *)
Lemma cached_step_safe es st st' :
  cached_step es st st' → running (W:=W) (threads st) →
  running (W:=W) (threads st') ∧ Forall (λ '(_, w, w'), keeps w w') es.
Proof.
  destruct 1 as [w hist ts p d Hp|w hist ts1 p h ts2 cl w0 w1 a _ _ _ _
    |w hist ts1 p h ts2 cl w' a Hn _ Hfresh Hperf|w hist ts1 p h ts2 cl e _ _ _|w hist ts w' _]; simpl; intros Hrun;
    try (by split; [eapply running_middle|constructor]).
  - split; [|constructor]. apply Forall_app_2; [done|]. by apply Forall_cons_2; [exists d|].
  - destruct (running_middle _ _ _ _ (h ++ [a]) Hrun) as [[d Hd] Hrun']. split; [done|].
    apply Forall_singleton. eapply fresh_keeps; [by eapply next_operator_call|done|by eapply perform_effect].
  - by split.
Qed.

Lemma cached_execution_safe es st st' :
  cached_execution es st st' → running (W:=W) (threads st) → Forall (λ '(_, w, w'), keeps w w') es.
Proof.
  induction 1 as [|es1 es2 st1 st2 st3 Hstep _ IH]; intros Hrun; [constructor|].
  destruct (cached_step_safe _ _ _ Hstep Hrun) as [Hrun' Hes]. by apply Forall_app_2; [|apply IH].
Qed.

(** C3: Stale reads do no harm: handlers whose reads are answered from a cache, however far it
    lags behind and whatever other clients do in between, never write over what they have not
    seen.  Each of their writes deletes nothing; leaves a stored Service its identity, labels,
    annotations, cluster IPs and the node ports of the ports it still has; a Listener its
    metadata and specification; a pod or volume everything but labels, of which none is removed;
    every entry of the PodListeners; and all objects of other kinds. *)
Theorem stale_writes_safe es st st' cl w w' :
  cached_execution es st st' → running (W:=W) (threads st) → (cl, w, w') ∈ es → keeps w w'.
Proof.
  intros Hex Hrun Hin. pose proof (cached_execution_safe _ _ _ Hex Hrun) as Hall.
  rewrite Forall_forall in Hall. by apply (Hall (cl, w, w')).
Qed.
End stale.
