(* ===== verification/CrashFree.v ===== *)
(** * Publications that run at the same time do not crash

    A panic in a handler of the plugin ends the plugin, and with it every call that is being
    served.  [NodePublishVolume] follows pointers it does not check.  Here the handlers run call
    by call, next to each other and to other clients, their reads answered from a cache
    ([StaleCache]): the logic for handlers ([HandlerLogic]) shows that none of the calls that are made with a complete volume context meets a nil pointer, as long
    as the persistent volumes of the cluster are bound. *)
From stdpp Require Import relations.
From S2P Require Import Prelude GoRuntime GoStrings Api GoOs CsiTypes Util Service Reconciler.
From S2P Require Import CsiController CsiNode CsiNodeFiles CsiNodePublish CsiNodeSafety.
From S2P Require Import Interleaving HandlerLogic Concurrent NoLostUpdate StaleCache.
Import Util.Address Util.Constant ListenerReconciler ControllerServer NodeServer.

(** ** Handlers that also work on the files of the node *)

Section files.
Context (Q : call → answer → Prop) (P : call → Prop) (crash : Prop).

Lemma wp_of_api {A} (c : M replay A) fs (Φ : A → FS → Prop) :
  wp alone Q P crash c () (λ a _, Φ a fs) → wp (@pair replay FS) Q P crash (api c) fs Φ.
Proof.
  intros Hc h Hh. destruct (Hc h) as (used & h' & [] & p & r & -> & Hrun & Hp).
  { intros h1 a h2 cl h' l' -> Hs. eapply Hh; [done|]. unfold alone in Hs. unfold api. simpl. by rewrite Hs. }
  unfold alone in *. exists used, h', fs, p, r. split_and!; [done|unfold api; simpl; by rewrite Hrun|].
  destruct p; [done|]. destruct Hp as [Hrest Hr]. split; [|by destruct r].
  intros rest. unfold api. simpl. by rewrite Hrest.
Qed.
Lemma wp_of_os {A} (c : M FS A) fs : safe c → wp (@pair replay FS) Q P crash (os c) fs (λ _ _, True).
Proof.
  intros Hc h _. destruct (c fs) as [fs' r] eqn:Hrun. exists [], h, fs', None, r.
  split_and!; [done|unfold os; simpl; by rewrite Hrun|intros rest; unfold os; simpl; by rewrite Hrun|].
  destruct r; [done..|]. by apply Hc in Hrun.
Qed.
Lemma wp_with_files {A} (c : M (replay * FS) A) fs :
  wp (@pair replay FS) Q P crash c fs (λ _ _, True) → wp alone Q P crash (with_files c fs) () (λ _ _, True).
Proof.
  intros Hc h Hh. destruct (Hc h) as (used & h' & fs' & p & r & -> & Hrun & Hp).
  { intros h1 a h2 cl h' l' -> Hs. eapply (Hh _ _ _ _ h' ()); [done|]. unfold with_files, alone. by rewrite Hs. }
  exists used, h', (), p, r. unfold with_files, alone. split_and!; [done|by rewrite Hrun|].
  destruct p; [done|]. destruct Hp as [Hrest Hr]. split; [|by destruct r]. intros rest. by rewrite Hrest.
Qed.
End files.

(** ** The answers a running handler got *)

Lemma consistent_snoc (Q : call → answer → Prop) p h cl a :
  consistent alone Q p () h → next p h = inl cl → Q cl a → consistent alone Q p () (h ++ [a]).
Proof.
  intros Hh Hn Ha h1 a1 h2 cl1 h' l' Heq Hs. destruct h2 as [|a2 h2 _] using rev_ind.
  - apply app_inj_tail in Heq as [<- <-]. unfold next in Hn. unfold alone in Hs. rewrite Hs in Hn.
    by injection Hn as ->.
  - change (a1 :: h2 ++ [a2]) with ((a1 :: h2) ++ [a2]) in Heq. rewrite app_assoc in Heq.
    apply app_inj_tail in Heq as [-> _]. by eapply Hh.
Qed.

Lemma wp_next Q P crash p h :
  wp alone Q P crash p () (λ _ _, True) → consistent alone Q p () h →
  match next p h with inl cl => P cl | inr Panic => crash | inr _ => True end.
Proof.
  intros Hp Hh. destruct (Hp h Hh) as (used & h' & [] & pd & r & -> & Hrun & Hr). unfold alone in Hrun.
  unfold next. rewrite Hrun. destruct pd; [by destruct Hr|]. destruct Hr as [_ Hr]. by destruct r.
Qed.

(** ** The answers of a cluster whose volumes are bound *)

Definition bound_object (k : Kind) : Obj k → Prop :=
  match k return Obj k → Prop with
  | KPersistentVolume => λ pv, is_Some (pv_claimRef pv)
  | _ => λ _, True
  end.

(** An error, or objects of the kind that was asked for. *)
Definition bound_answer (cl : call) (a : answer) : Prop :=
  (∃ e, a = AError e) ∨
  match cl with
  | CGet k _ | CCreate k _ | CUpdate k _ | CPatch k _ _ => ∃ o, a = AObject k o ∧ bound_object k o
  | CList k _ => ∃ os, a = AObjects k os
  | CStatusUpdate _ => ∃ o, a = AObject KListener o
  end.

Notation wp_api := (wp alone bound_answer (λ _, True) False).

Section calls.
Lemma wp_get k key Φ : (∀ o, bound_object k o → Φ o ()) → wp_api (client_get k key) () Φ.
Proof.
  intros HΦ. apply wp_ask; [done|]. intros a [[e ->]|(o & -> & Ho)]; [done|]. rewrite object_of_object. auto.
Qed.
Lemma wp_list k opts Φ : (∀ os, Φ os ()) → wp_api (client_list k opts) () Φ.
Proof.
  intros HΦ. apply wp_ask; [done|]. intros a [[e ->]|(os & ->)]; [done|]. by rewrite objects_of_objects.
Qed.
Lemma wp_create k o Φ : (∀ o, Φ o ()) → wp_api (client_create k o) () Φ.
Proof.
  intros HΦ. apply wp_ask; [done|]. intros a [[e ->]|(o' & -> & _)]; [done|]. by rewrite object_of_object.
Qed.
Lemma wp_patch k o m Φ : (∀ n, bound_object k n → Φ n ()) → wp_api (client_patch k o m) () Φ.
Proof.
  intros HΦ. apply wp_ask; [done|]. intros a [[e ->]|(n & -> & Hn)]; [done|]. rewrite object_of_object. auto.
Qed.
End calls.

(** Handlers that do not panic, whatever the values they end with. *)
Definition calm {A} (c : M replay A) : Prop := wp_api c () (λ _ _, True).

Lemma calm_bind {A B} (c : M replay A) (f : A → M replay B) :
  calm c → (∀ a, calm (f a)) → calm (c ≫= f).
Proof. intros Hc Hf. apply wp_bind. eapply wp_mono; [exact Hc|]. intros a [] _. apply Hf. Qed.
Lemma calm_lift {A} (r : res A) : r ≠ Panic → calm (lift r).
Proof. intros Hr. apply wp_lift. by destruct r. Qed.
Lemma calm_ret {A} (a : A) : calm (mret a).
Proof. by apply wp_ret. Qed.
Lemma calm_fail {A} e : calm (fail e : M replay A).
Proof. apply wp_fail. Qed.
Lemma calm_on_error {A} e (c : M replay A) : calm c → calm (on_error e c).
Proof. apply wp_on_error. Qed.
Lemma calm_attempt {A} (c : M replay A) : calm c → calm (attempt c).
Proof. intros Hc. by apply wp_attempt. Qed.
Lemma calm_if {A} (b : bool) (c1 c2 : M replay A) : calm c1 → calm c2 → calm (if b then c1 else c2).
Proof. by destruct b. Qed.
Lemma calm_get k key : calm (client_get k key).
Proof. by apply wp_get. Qed.
Lemma calm_list k opts : calm (client_list k opts).
Proof. by apply wp_list. Qed.
Lemma calm_create k o : calm (client_create k o).
Proof. by apply wp_create. Qed.
Lemma calm_patch k o m : calm (client_patch k o m).
Proof. by apply wp_patch. Qed.

Create HintDb calm discriminated.
#[export] Hint Resolve calm_ret calm_fail calm_on_error calm_attempt calm_if : calm.
#[export] Hint Extern 1 (calm (client_get ?k ?key)) => apply (calm_get k key) : calm.
#[export] Hint Extern 1 (calm (client_list ?k ?opts)) => apply (calm_list k opts) : calm.
#[export] Hint Extern 1 (calm (client_create ?k ?o)) => apply (calm_create k o) : calm.
#[export] Hint Extern 1 (calm (client_patch ?k ?o ?m)) => apply (calm_patch k o m) : calm.

Ltac calm_steps :=
  repeat first [ progress cbv zeta | solve [eauto with calm] | apply calm_bind; [|intros ?]
               | apply calm_on_error | apply calm_attempt | apply calm_if ].

(** ** The handlers *)

Section handlers.
Context {W : Type} `{HC : Client W} `{!ApiServer W} `{!ControllerUtil W} `{!ControllerUtilLaws W}.
Context `{!OperatorGo} `{!MapRange} `{!Mounter} `{!MounterLaws}.

(** The controller reference of an object in preparation. *)
Ltac no_panic :=
  apply calm_lift; simpl; try match goal with |- context [SetControllerReference ?k ?o ?m] =>
    destruct (SetControllerReference k o m) eqn:Hs; try done; by apply SetControllerReference_spec in Hs end.

Lemma calm_copy (old new : gomap string) : calm (lift (maps_Copy (ensure_map old) new)).
Proof. apply calm_lift. by destruct old. Qed.
Hint Resolve calm_copy : calm.

Lemma calm_getAddresses l pod : calm (getAddresses l pod).
Proof.
  unfold getAddresses, getNodeAddressByPod. calm_steps.
  apply calm_lift. unfold GetPriorNodeAddress. rewrite prior_address_find. by case_match.
Qed.

Lemma calm_createListener ctx pv pod :
  is_Some (vc_ListenerClassName ctx) → is_Some (vc_PodNamespace ctx) → is_Some (pv_claimRef pv) →
  calm (createListener ctx pv pod).
Proof.
  intros [cn Hcn] [ns Hns] [ref Href]. unfold createListener, getPVC. rewrite Hcn, Hns, Href.
  calm_steps; try (by apply calm_lift).
  - apply calm_lift. unfold getPodPorts. by case_bool_decide.
  - no_panic.
  - case_match; calm_steps.
Qed.

Lemma calm_getListener ctx pv pod :
  is_Some (vc_PodNamespace ctx) → is_Some (pv_claimRef pv) →
  is_Some (vc_ListenerClassName ctx) ∨ is_Some (vc_ListenerName ctx) → calm (getListener pod pv ctx).
Proof.
  intros Hns Href Hone. unfold getListener. destruct (vc_ListenerName ctx) as [name|].
  - destruct Hns as [ns ->]. calm_steps; by apply calm_lift.
  - destruct Hone as [Hc|[? ?]]; [|done]. by apply calm_createListener.
Qed.

Lemma calm_publishPodListener pod pv l data :
  is_Some (pv_claimRef pv) → calm (publishPodListener pod pv l data).
Proof.
  intros [ref Href]. unfold publishPodListener, createOrUpdatePodListeners. rewrite Href.
  calm_steps; try (by apply calm_lift).
  - apply calm_lift. unfold findPodVolumeNameForPVC. by case_match.
  - unfold buildPodListenersObject. no_panic.
  - match goal with a : _ + error |- _ => destruct a as [old|e] end; calm_steps.
    apply calm_lift. by destruct (pls_listeners old).
Qed.

Lemma calm_handlers :
  (∀ creq, calm (CreateVolume creq)) ∧ (∀ lc, calm (handleListenerClassChanges lc)) ∧
  (∀ slice, calm (handleEndpointSliceChanges slice)).
Proof.
  split_and!; intros x.
  - unfold CreateVolume, getVolumeContext, getListenerClass. calm_steps.
    + apply calm_lift. unfold validateCreateVolumeRequest. by repeat case_match.
    + apply calm_lift. unfold newCreateVolumeRequestParamsFromMap. by repeat case_match.
    + repeat case_match; calm_steps.
  - unfold handleListenerClassChanges. calm_steps. case_match; calm_steps.
  - unfold handleEndpointSliceChanges. case_match; calm_steps. case_match; calm_steps.
Qed.

(** *** Publication *)

Notation wp_files := (wp (@pair replay FS) bound_answer (λ _, True) False).

Lemma wp_of_calm {A} (c : M replay A) fs (Φ : A → FS → Prop) :
  calm c → (∀ a, Φ a fs) → wp_files (api c) fs Φ.
Proof. intros Hc HΦ. apply wp_of_api. by eapply wp_mono; [exact Hc|]. Qed.

(** The volume context names the pod and has one of the two annotations. *)
Definition complete_context (request : NodePublishVolumeRequest) : Prop :=
  is_Some (map_get (np_volumeContext request) CSI_STORAGE_POD_NAME) ∧
  is_Some (map_get (np_volumeContext request) CSI_STORAGE_POD_NAMESPACE) ∧
  (is_Some (map_get (np_volumeContext request) ListenerClassAnnotation) ∨
   is_Some (map_get (np_volumeContext request) AnnotationListenerName)).

(** A call whose value is of no account. *)
Ltac next_call := apply wp_bind, wp_on_error; apply wp_of_calm; [|intros ?].

Lemma wp_NodePublishVolume request fs :
  complete_context request → wp_files (NodePublishVolume request) fs (λ _ _, True).
Proof.
  intros ([name Hname] & [ns Hns] & Hone). unfold NodePublishVolume.
  apply wp_bind, wp_lift. destruct (validateNodePublishVolumeRequest request) as [[]|e|] eqn:Hval; [|done|].
  2: { unfold validateNodePublishVolumeRequest in Hval. by repeat case_match. }
  apply wp_bind. case_bool_decide; [apply wp_fail|]. apply wp_ret.
  apply wp_bind, wp_of_api, (wp_get KPersistentVolume). intros pv0 Hpv0. simpl. rewrite Hname, Hns.
  apply wp_bind, wp_lift. simpl. apply wp_bind, wp_lift. simpl.
  next_call; [apply (calm_get KPod)|].
  next_call; [apply calm_getListener; simpl; [by rewrite Hns|done|done]|].
  apply wp_bind, wp_on_error, wp_of_api, wp_bind. eapply wp_mono; [apply calm_copy|]. intros labels [] _.
  apply (wp_patch KPersistentVolume). intros pv Hpv.
  next_call; [unfold patchPodLabelsWithListener; calm_steps|].
  next_call; [apply calm_getAddresses|].
  next_call; [by apply calm_publishPodListener|].
  apply wp_bind, wp_on_error. eapply wp_mono; [apply wp_of_os, safe_mount|]. intros [] fs' _.
  apply wp_on_error. apply wp_of_os, safe_writeData.
Qed.

Lemma calm_with_files {A} (c : M (replay * FS) A) fs :
  wp_files c fs (λ _ _, True) → calm (with_files c fs).
Proof. apply wp_with_files. Qed.
End handlers.

(** ** The system *)

Section system.
Context {W : Type} `{HC : Client W} `{!ApiServer W} `{!ControllerUtil W} `{!ControllerUtilLaws W}.
Context `{!AtomicWrites W} `{!OperatorGo} `{!MapRange} `{!Mounter} `{!MounterLaws}.

(** Every persistent volume of the cluster is bound to a claim. *)
Definition bound (w : W) : Prop :=
  ∀ key pv, stored KPersistentVolume w key = Some pv → is_Some (pv_claimRef pv).

(** The handlers write to persistent volumes their labels only. *)
Lemma effect_bound h cl w w' : operator_call h cl → effect cl w w' → bound w → bound w'.
Proof.
  intros Hop Heff Hb key pv Hpv. destruct (stored KPersistentVolume w key) as [pv0|] eqn:Hpv0.
  - destruct (fresh_patched _ _ _ _ KPersistentVolume _ _ (or_intror eq_refl) Hop Heff Hpv0)
      as [Hsame|(o & m & n & Hs & Hp & Hn)].
    + rewrite Hsame in Hpv. injection Hpv as <-. by eapply Hb.
    + destruct (patch_keeps_rest KPersistentVolume _ _ _ _ Hs Hp) as [labels Heq].
      rewrite Hn in Hpv. injection Hpv as <-. rewrite Heq. exact (Hb _ _ Hpv0).
  - exfalso. destruct Heff as [->|Heff]; [congruence|].
    destruct Hop; try done; repeat match goal with H : ∃ _, _ |- _ => destruct H | H : _ ∧ _ |- _ => destruct H end;
      match goal with H : wrote _ ?k _ _ _ _ |- _ => destruct H as [Hsame Hframe] end;
      try (rewrite Hframe in Hpv by (by left); congruence).
    match goal with H : stored KPersistentVolume w ?k0 = Some _ |- _ => destruct (decide (key = k0)) as [->|Hne] end;
      [congruence|]. rewrite Hframe in Hpv by (by right). congruence.
Qed.

Lemma perform_bound h cl w w' a :
  operator_call h cl → bound w → perform cl w = (w', a) → bound_answer cl a.
Proof.
  intros Hop Hb Hp. destruct cl as [k key|k opts|k o|k o|k o m|l]; simpl in Hp.
  - destruct (client_get k key w) as [w1 r] eqn:Hg. injection Hp as <- <-. apply get_spec in Hg as [_ Hr].
    destruct r as [o|e|]; [right; exists o|left; by exists e|done]. split; [done|].
    destruct k; simpl; try done. by eapply Hb.
  - destruct (client_list k opts w) as [w1 r] eqn:Hg. injection Hp as <- <-. apply list_spec in Hg as [_ Hr].
    destruct r as [os|e|]; [right; by exists os|left; by exists e|done].
  - destruct (client_create k o w) as [w1 r] eqn:Hg. injection Hp as <- <-. apply create_spec in Hg.
    destruct r as [o'|e|]; [right; exists o'|left; by exists e|done]. split; [done|].
    destruct k; try done. by inversion Hop.
  - destruct (client_update k o w) as [w1 r] eqn:Hg. injection Hp as <- <-. apply update_spec in Hg.
    destruct r as [o'|e|]; [right; exists o'|left; by exists e|done]. split; [done|].
    destruct k; try done. by inversion Hop.
  - destruct (client_patch k o m w) as [w1 r] eqn:Hg. injection Hp as <- <-. apply patch_spec in Hg.
    destruct r as [n|e|]; [right; exists n|left; by exists e|done]. split; [done|].
    destruct Hg as (c & Hc & Hpat & _). apply operator_patch in Hop.
    pose proof (patch_keeps_rest _ _ _ _ _ Hop Hpat) as Hrest. destruct k; try done.
    destruct Hrest as [labels ->]. exact (Hb _ _ Hc).
  - destruct (client_status_update l w) as [w1 r] eqn:Hg. injection Hp as <- <-. apply status_update_spec in Hg.
    destruct r as [n|e|]; [right; by exists n|left; by exists e|done].
Qed.

(** The handlers a crash of which is excluded. *)
Inductive served : M replay () → Prop :=
| served_publish request fs :
    complete_context request → served (with_files (NodePublishVolume request) fs)
| served_provision creq : served (ignore_result (CreateVolume creq))
| served_class lc : served (ignore_result (handleListenerClassChanges lc))
| served_slice slice : served (ignore_result (handleEndpointSliceChanges slice)).

Lemma served_calm p : served p → calm p.
Proof.
  destruct calm_handlers as (Hvol & Hclass & Hslice). destruct 1 as [request fs Hc|creq|lc|slice];
    [by apply calm_with_files, wp_NodePublishVolume|apply calm_bind; [|intros; apply calm_ret]..].
  - apply Hvol.
  - apply Hclass.
  - apply Hslice.
Qed.

(** Every handler got answers to its calls from a cluster with bound volumes. *)
Record calm_system (st : cached_system (W:=W)) : Prop := {
  cs_running : running (W:=W) (threads st);
  cs_bound : Forall bound (present st :: past st);
  cs_answers : Forall (λ '(p, h), consistent alone bound_answer p () h) (threads st);
}.

Lemma calm_thread w hist ts1 p h ts2 a w' hist' :
  calm_system {| present := w; past := hist; threads := ts1 ++ (p, h) :: ts2 |} →
  Forall bound (w' :: hist') →
  (∀ cl, (∃ h, operator_call h cl) → next p h = inl cl → bound_answer cl a) →
  (∃ cl, next p h = inl cl) →
  calm_system {| present := w'; past := hist'; threads := ts1 ++ (p, h ++ [a]) :: ts2 |}.
Proof.
  intros [Hrun _ Hans] Hb Ha [cl Hn]. destruct (running_middle _ _ _ _ (h ++ [a]) Hrun) as [[d Hd] Hrun'].
  constructor; [done..|]. apply Forall_app in Hans as [Hts1 [Hh Hts2]%Forall_cons].
  apply Forall_app_2; [done|]. apply Forall_cons_2; [|done]. eapply consistent_snoc; [done..|].
  apply Ha; [|done]. exists h. by eapply next_operator_call.
Qed.

Lemma calm_step es st st' :
  cached_step (λ _ w', bound w') es st st' → calm_system st → calm_system st'.
Proof.
  destruct 1 as [w hist ts p d Hp|w hist ts1 p h ts2 cl w0 w1 a Hn _ Hw0 Hperf
    |w hist ts1 p h ts2 cl w' a Hn _ _ Hperf|w hist ts1 p h ts2 cl e Hn _ _|w hist ts w' Hw'];
    intros Hst; pose proof Hst as [Hrun Hb Hans]; cbn [present past threads] in *.
  - constructor; [|done|].
    + apply Forall_app_2; [done|]. by apply Forall_cons_2; [exists d|].
    + apply Forall_app_2; [done|]. apply Forall_cons_2; [|done]. by intros [] ? ? ? ? ? ?.
  - eapply calm_thread; [exact Hst|done| |by eexists]. intros cl1 [h1 Hop] Hn1. rewrite Hn in Hn1. injection Hn1 as <-.
    eapply perform_bound; [exact Hop| |exact Hperf]. rewrite Forall_forall in Hb. by apply Hb.
  - apply Forall_cons in Hb as Hb1. destruct Hb1 as [Hw Hhist].
    destruct (running_middle _ _ _ _ h Hrun) as [[d Hd] _].
    pose proof (next_operator_call _ _ _ _ Hd Hn) as Hop0.
    eapply calm_thread; [exact Hst| | |by eexists].
    + apply Forall_cons_2; [|done]. eapply effect_bound; [done|by eapply perform_effect|done].
    + intros cl1 [h1 Hop] Hn1. rewrite Hn in Hn1. injection Hn1 as <-. by eapply perform_bound.
  - eapply calm_thread; [exact Hst|done| |by eexists]. intros cl1 _ _. left. by exists e.
  - constructor; [done| |done]. by apply Forall_cons_2.
Qed.

Lemma calm_execution es st st' :
  cached_execution (λ _ w', bound w') es st st' → calm_system st → calm_system st'.
Proof. induction 1; [done|]. intros Hst. by eauto using calm_step. Qed.

Lemma calm_next p h : calm p → consistent alone bound_answer p () h → next p h ≠ inr Panic.
Proof. intros Hp Hh Hn. pose proof (wp_next _ _ _ _ _ Hp Hh) as Hw. by rewrite Hn in Hw. Qed.

(** C5: No publication crashes the plugin: however its API calls are interleaved with those of
    other handlers and other clients, however old the cached objects are it reads, and whichever
    calls fail, a [NodePublishVolume] whose volume context is complete meets no nil pointer while
    the persistent volumes are bound; nor do [CreateVolume] and the handlers of events. *)
Theorem concurrent_never_panics es st st' p h :
  cached_execution (λ _ w', bound w') es st st' →
  running (W:=W) (threads st) → Forall bound (present st :: past st) →
  Forall (λ t, t.2 = []) (threads st) →
  (p, h) ∈ threads st' → served p → next p h ≠ inr Panic.
Proof.
  intros Hex Hrun Hb Hnew Hin Hp. assert (calm_system st') as [_ _ Hans].
  { eapply calm_execution; [done|]. constructor; [done..|]. eapply Forall_impl; [exact Hnew|].
    intros [p0 h0] Hh. simpl in Hh. subst h0. by intros [] ? ? ? ? ? ?. }
  rewrite Forall_forall in Hans. apply calm_next; [by apply served_calm|by apply (Hans (p, h))].
Qed.
End system.
