(* ===== verification/Schema.v ===== *)
(** * The schemas of the custom resources

    The schemas of config/crd/bases (the enumerations, the required fields and the integer
    formats of ListenerClass, Listener and PodListeners) as predicates on the objects, with what
    Kubernetes asks of the types and policies of Services.  The theorem is one of type
    preservation: handlers that read objects of the schemas, however old, send objects of the
    schemas only, so that the API server rejects none of their writes for its shape. *)
From stdpp Require Import relations.
From S2P Require Import Prelude GoRuntime GoStrings Api GoOs CsiTypes Util Service Reconciler.
From S2P Require Import CsiController CsiNode CsiNodeFiles CsiNodePublish CsiNodeSafety.
From S2P Require Import Interleaving HandlerLogic Concurrent NoLostUpdate StaleCache CrashFree.
Import Util.Address Util.Constant ServiceReconciler ServiceAddress ListenerReconciler.
Import ControllerServer NodeServer.

(** ** The schemas *)

Definition int32 (n : Z) : Prop := (-2147483648 ≤ n ≤ 2147483647)%Z.
#[export] Instance int32_dec n : Decision (int32 n).
Proof. unfold int32. apply _. Defined.
Definition int32_values (m : gomap Z) : Prop := map_Forall (λ _ n, int32 n) (map_entries m).

(** listeners.kubedoop.dev_listenerclasses.yaml: the service type is required, the other two
    have defaults. *)
Record class_schema (s : ListenerClassSpec) : Prop := {
  cs_serviceType : lcs_serviceType s ∈
    Some <$> [ServiceTypeLoadBalancer; ServiceTypeNodePort; ServiceTypeClusterIP];
  cs_preferred : lcs_preferredAddressType s ∈
    [AddressTypeHostnameConservative; AddressTypeHostname; AddressTypeIP];
  cs_policy : lcs_externalTrafficPolicy s ∈ [ExternalTrafficPolicyLocal; ExternalTrafficPolicyCluster];
}.

(** The items of the ingress addresses: a nil map would be written as null, which is no object. *)
Record ingress_schema (i : IngressAddressSpec) : Prop := {
  is_addressType : ias_addressType i ∈ [AddressTypeHostname; AddressTypeIP];
  is_ports : is_Some (ias_ports i);
  is_values : int32_values (ias_ports i);
}.

(** listeners.kubedoop.dev_listeners.yaml *)
Record status_schema (st : ListenerStatus) : Prop := {
  ss_ingresses : Forall ingress_schema (lst_ingressAddresses st);
  ss_nodePorts : int32_values (lst_nodePorts st);
}.
Record listener_schema (l : Listener) : Prop := {
  lsc_ports : Forall (λ p, int32 (port_port p)) (ls_ports (listener_spec l));
  lsc_status : status_schema (listener_status l);
}.

(** listeners.kubedoop.dev_podlisteners.yaml: listenerIngresses is required; the code makes it with
    [make], so it is never the nil slice, and a list stands for it here. *)
Record entry_schema (e : PodListener) : Prop := {
  ps_scope : pl_scope e ∈ [PodlistenerNodeScope; PodlistenerClusterScope];
  ps_ingresses : Forall ingress_schema (pl_listenerIngresses e);
}.
Definition podlisteners_schema (o : PodListeners) : Prop :=
  is_Some (pls_listeners o) ∧ map_Forall (λ _ e, entry_schema e) (map_entries (pls_listeners o)).

(** The Services and pods of Kubernetes. *)
Record service_schema (s : Service) : Prop := {
  svs_type : svc_type (svc_spec s) ∈ [ServiceTypeLoadBalancer; ServiceTypeNodePort; ServiceTypeClusterIP];
  svs_policy : svc_externalTrafficPolicy (svc_spec s) ∈
    [""; ExternalTrafficPolicyLocal; ExternalTrafficPolicyCluster];
  svs_ports : Forall (λ p, int32 (sp_port p) ∧ int32 (sp_nodePort p)) (svc_ports (svc_spec s));
}.
Definition pod_schema (p : Pod) : Prop :=
  Forall (λ c, Forall (λ port, int32 (cp_containerPort port)) (container_ports c)) (pod_containers p).

(** A Service that was not written by the operator may be of a type it does not know. *)
Definition stored_schema (k : Kind) : Obj k → Prop :=
  match k return Obj k → Prop with
  | KListenerClass => λ lc, class_schema (lc_spec lc)
  | KListener => listener_schema
  | KPodListeners => podlisteners_schema
  | KService => λ s, Forall (λ p, int32 (sp_port p) ∧ int32 (sp_nodePort p)) (svc_ports (svc_spec s))
  | KPod => pod_schema
  | _ => λ _, True
  end.
Definition written_schema (k : Kind) : Obj k → Prop :=
  match k return Obj k → Prop with
  | KService => service_schema
  | k => stored_schema k
  end.

(** The schemas can be checked. *)
Ltac decide_fields P :=
  destruct (decide P) as [Hd|Hd]; [left; destruct_and! Hd; by constructor|right; intros []; naive_solver].

#[export] Instance class_schema_dec s : Decision (class_schema s).
Proof.
  decide_fields (lcs_serviceType s ∈ Some <$> [ServiceTypeLoadBalancer; ServiceTypeNodePort; ServiceTypeClusterIP] ∧
    lcs_preferredAddressType s ∈ [AddressTypeHostnameConservative; AddressTypeHostname; AddressTypeIP] ∧
    lcs_externalTrafficPolicy s ∈ [ExternalTrafficPolicyLocal; ExternalTrafficPolicyCluster]).
Defined.
#[export] Instance ingress_schema_dec i : Decision (ingress_schema i).
Proof.
  decide_fields (ias_addressType i ∈ [AddressTypeHostname; AddressTypeIP] ∧ is_Some (ias_ports i) ∧
    map_Forall (λ _ n, int32 n) (map_entries (ias_ports i))).
Defined.
#[export] Instance status_schema_dec st : Decision (status_schema st).
Proof.
  decide_fields (Forall ingress_schema (lst_ingressAddresses st) ∧
    map_Forall (λ _ n, int32 n) (map_entries (lst_nodePorts st))).
Defined.
#[export] Instance listener_schema_dec l : Decision (listener_schema l).
Proof.
  decide_fields (Forall (λ p, int32 (port_port p)) (ls_ports (listener_spec l)) ∧ status_schema (listener_status l)).
Defined.
#[export] Instance entry_schema_dec e : Decision (entry_schema e).
Proof.
  decide_fields (pl_scope e ∈ [PodlistenerNodeScope; PodlistenerClusterScope] ∧
    Forall ingress_schema (pl_listenerIngresses e)).
Defined.
#[export] Instance stored_schema_dec k (o : Obj k) : Decision (stored_schema k o).
Proof. destruct k; simpl; try apply _; unfold pod_schema, podlisteners_schema; apply _. Defined.

(** The objects a call sends. *)
Definition call_schema (cl : call) : Prop :=
  match cl with
  | CGet _ _ | CList _ _ => True
  | CCreate k o | CUpdate k o => written_schema k o
  | CPatch k _ m => written_schema k m
  | CStatusUpdate l => listener_schema l
  end.

(** The objects of an answer. *)
Definition answer_schema (cl : call) (a : answer) : Prop :=
  (∃ e, a = AError e) ∨
  match cl with
  | CGet k _ | CCreate k _ | CUpdate k _ | CPatch k _ _ => ∃ o, a = AObject k o ∧ stored_schema k o
  | CList k _ => ∃ os, a = AObjects k os
  | CStatusUpdate _ => ∃ o, a = AObject KListener o ∧ listener_schema o
  end.

(** ** Values the operator computes *)

Lemma int32_0 : int32 0. Proof. unfold int32. lia. Qed.

Lemma port_map_int32 value ports :
  Forall (λ p, int32 (value p)) ports → map_Forall (λ _ n, int32 n) (port_map value ports).
Proof.
  unfold port_map. intros Hp. assert (map_Forall (λ (_ : string) n, int32 n) ∅) as H0 by apply map_Forall_empty.
  revert H0. generalize (∅ : gmap string Z). induction Hp as [|p ports Hv _ IH]; intros m Hm; simpl; [done|].
  apply IH. case_bool_decide; [done|]. by apply map_Forall_insert_2.
Qed.

Lemma pick_schema preferred ports a i :
  is_Some ports → int32_values ports → pick_ingress preferred ports a = Ok i → ingress_schema i.
Proof.
  intros Hs Hv (b & Hb & [= <-])%res_bind_Ok. destruct (Pick a preferred) as [b'|] eqn:Hpick; [|done].
  injection Hb as <-. constructor; simpl; [|done..]. rewrite (Pick_type _ _ _ Hpick).
  case_bool_decide; set_solver.
Qed.

Lemma picks_schema preferred ports addresses ingresses :
  is_Some ports → int32_values ports →
  collect_res (pick_ingress preferred ports) addresses = Ok ingresses → Forall ingress_schema ingresses.
Proof.
  intros Hs Hv. revert ingresses. induction addresses as [|a addresses IH]; simpl; intros ingresses.
  - by intros [= <-].
  - intros (i & Hi & Hrest)%res_bind_Ok. apply res_bind_Ok in Hrest as (rest & Hrest & [= <-]).
    constructor; [by eapply pick_schema|by apply IH].
Qed.

Lemma service_ports_int32 ports :
  Forall (λ p, int32 (port_port p)) ports →
  Forall (λ p, int32 (sp_port p) ∧ int32 (sp_nodePort p)) (service_ports ports).
Proof.
  intros Hp. apply Forall_forall. intros p (q & Hq & Hs)%list_elem_of_omap. unfold service_port in Hs.
  rewrite Forall_forall in Hp. case_bool_decide; [|done]. injection Hs as <-. simpl.
  split; [by apply Hp|apply int32_0].
Qed.

Section handlers.
Context {W : Type} `{HC : Client W} `{!ApiServer W} `{!ControllerUtil W} `{!ControllerUtilLaws W}.
Context `{!OperatorGo} `{!MapRange} `{!Mounter} `{!MounterLaws}.

Lemma desired_schema s lc ports d :
  class_schema (lc_spec lc) → Forall (λ p, int32 (sp_port p) ∧ int32 (sp_nodePort p)) ports →
  desired_service s lc ports = Ok d → service_schema d.
Proof.
  intros [(t & Ht & Hin)%list_elem_of_fmap _ Hpol] Hports Hd. unfold desired_service in Hd.
  apply res_bind_Ok in Hd as (sel & _ & Hd). rewrite Ht in Hd. simpl in Hd.
  apply res_bind_Ok in Hd as (policy & Hp & [= <-]). constructor; simpl; [done| |done].
  unfold getExternalTrafficPolicyFromListenerClass in Hp. rewrite Ht in Hp. simpl in Hp.
  destruct (_ || _); injection Hp as <-; simpl; set_solver.
Qed.

Lemma mutate_schema s d c o :
  service_schema d → stored_schema KService c → mutate (W:=W) s d c = Ok o → service_schema o.
Proof.
  intros [Ht Hpol Hp] Hc (m & _ & [= <-])%res_bind_Ok. constructor; simpl; [done..|].
  destruct (has_node_ports _); [|done]. apply Forall_fmap. eapply Forall_impl; [exact Hp|].
  intros p [Hport Hnode]. simpl. unfold keep_node_port.
  destruct (List.find _ _) as [e|] eqn:Hf; [|done]. split; [done|]. simpl.
  apply List.find_some in Hf as [Hin _]. simpl in Hc. rewrite List.Forall_forall in Hc. by apply Hc.
Qed.

(** ** The calls *)

Notation typed := (wp alone answer_schema call_schema True).

Lemma typed_get k key Φ : (∀ o, stored_schema k o → Φ o ()) → typed (client_get k key) () Φ.
Proof.
  intros HΦ. apply wp_ask; [done|]. intros a [[e ->]|(o & -> & Ho)]; [done|]. rewrite object_of_object. auto.
Qed.
Lemma typed_list k opts Φ : (∀ os, Φ os ()) → typed (client_list k opts) () Φ.
Proof.
  intros HΦ. apply wp_ask; [done|]. intros a [[e ->]|(os & ->)]; [done|]. by rewrite objects_of_objects.
Qed.
Lemma typed_create k o Φ :
  written_schema k o → (∀ o', stored_schema k o' → Φ o' ()) → typed (client_create k o) () Φ.
Proof.
  intros Ho HΦ. apply wp_ask; [done|]. intros a [[e ->]|(o' & -> & Ho')]; [done|].
  rewrite object_of_object. auto.
Qed.
Lemma typed_update k o Φ : written_schema k o → (∀ o', Φ o' ()) → typed (client_update k o) () Φ.
Proof.
  intros Ho HΦ. apply wp_ask; [done|]. intros a [[e ->]|(o' & -> & _)]; [done|].
  by rewrite object_of_object.
Qed.
Lemma typed_patch k o m Φ :
  written_schema k m → (∀ n, stored_schema k n → Φ n ()) → typed (client_patch k o m) () Φ.
Proof.
  intros Hm HΦ. apply wp_ask; [done|]. intros a [[e ->]|(n & -> & Hn)]; [done|].
  rewrite object_of_object. auto.
Qed.
Lemma typed_status l Φ : listener_schema l → (∀ l', Φ l' ()) → typed (client_status_update l) () Φ.
Proof.
  intros Hl HΦ. apply wp_ask; [done|]. intros a [[e ->]|(l' & -> & _)]; [done|].
  rewrite (object_of_object KListener). apply HΦ.
Qed.

(** ** The reconciler *)

Lemma typed_createService l :
  listener_schema l → typed (createService {| sr_listener := l |}) () (λ _ _, True).
Proof.
  intros Hl. unfold createService, ServiceReconciler.getListenerClass.
  apply wp_bind, (typed_get KListenerClass). intros lc Hlc. cbv zeta. apply wp_if; [apply wp_fail|].
  apply wp_lift_bind; [|done]. intros d Hd.
  assert (service_schema d) as Hds by (eapply desired_schema; [done| |done]; apply service_ports_int32, Hl).
  apply wp_bind, wp_mono with (Φ := λ _ _, True); [|intros r [] _; apply wp_if; by apply wp_ret].
  cbn [CreateOrUpdate replay_controller_util]. apply wp_bind, wp_attempt.
  - apply (typed_get KService). intros c Hc. apply wp_lift_bind; [|done]. intros o Ho.
    apply wp_if; [by apply wp_ret|]. apply wp_bind, (typed_update KService); [|intros; by apply wp_ret].
    by eapply mutate_schema.
  - intros e []. apply wp_if; [|apply wp_fail]. apply wp_lift_bind; [|done]. intros o Ho.
    apply wp_bind, (typed_create KService); [|intros; by apply wp_ret].
    eapply (mutate_schema _ d d); [done|apply Hds|done].
Qed.

Lemma getPorts_schema svc :
  stored_schema KService svc →
  is_Some (getPorts (NewServiceAddress svc)) ∧ int32_values (getPorts (NewServiceAddress svc)).
Proof.
  intros Hs. split; [by eexists|]. apply port_map_int32. eapply Forall_impl; [exact Hs|]. by intros p [? _].
Qed.
Lemma getNodePorts_schema svc ports :
  stored_schema KService svc → getNodePorts (NewServiceAddress svc) = Ok ports →
  is_Some ports ∧ int32_values ports.
Proof.
  intros Hs. unfold getNodePorts. case_bool_decide; [done|]. intros [= <-]. split; [by eexists|].
  apply port_map_int32. eapply Forall_impl; [exact Hs|]. by intros p [_ ?].
Qed.

Lemma typed_service_status l svc preferred :
  stored_schema KService svc → typed (service_status l svc preferred) () (λ st _, status_schema st).
Proof.
  intros Hs. destruct (getPorts_schema svc Hs) as [Hsome Hvals]. unfold service_status. cbv zeta.
  repeat apply wp_if.
  - apply wp_lift_bind; [|done]. intros ports Hp. apply (getNodePorts_schema _ _ Hs) in Hp as [Hp1 Hp2].
    apply wp_bind, wp_mono with (Φ := λ _ _, True).
    + unfold getNodesAddresses, getNodeNames, node_address. apply wp_bind, wp_bind, wp_on_error, (typed_list KEndpointSlice).
      intros slices. apply wp_if; apply wp_ret;
        (eapply wp_mono; [apply (wp_collect _ _ _ _ _ (λ _, True))|done]); intros n [];
        apply wp_bind, (typed_get KNode); intros node _; apply wp_lift; by destruct (GetPriorNodeAddress node).
    + intros addresses [] _. apply wp_lift_bind; [|done]. intros ings Hi. apply wp_ret.
      constructor; [by eapply picks_schema|done].
  - apply wp_lift_bind; [|done]. intros addresses _. apply wp_lift_bind; [|done]. intros ings Hi.
    apply wp_ret. constructor; [by eapply picks_schema|apply map_Forall_empty].
  - apply wp_lift_bind; [|done]. intros addresses _. apply wp_lift_bind; [|done]. intros ings Hi.
    apply wp_ret. constructor; [by eapply picks_schema|apply map_Forall_empty].
  - apply wp_ret. constructor; simpl; [|apply map_Forall_empty].
    apply Forall_singleton. constructor; simpl; [set_solver|done..].
  - apply wp_fail.
Qed.

Lemma typed_Reconcile req : typed (Reconcile req) () (λ _ _, True).
Proof.
  unfold Reconcile. apply wp_bind, wp_attempt.
  2: { intros e []. apply wp_if; [by apply wp_ret|apply wp_fail]. }
  apply (typed_get KListener). intros l Hl. cbv zeta.
  apply wp_bind. eapply wp_mono; [by apply typed_createService|]. intros result [] _.
  apply wp_if; [by apply wp_ret|]. apply wp_bind, wp_mono with (Φ := λ _ _, True); [|intros; by apply wp_ret].
  unfold updateListenerStatus, describe, preferredAddressType.
  apply wp_bind, (typed_get KService). intros svc Hsvc.
  apply wp_bind, wp_mono with (Φ := λ _ _, True).
  { apply wp_bind, (typed_get KListenerClass). intros lc _. cbv zeta. apply wp_if; [|by apply wp_ret].
    apply wp_lift_bind; [|done]. intros t _. apply wp_if; by apply wp_ret. }
  intros preferred [] _. apply wp_bind. eapply wp_mono; [by apply typed_service_status|]. intros st [] Hst.
  apply wp_retry. intros []. unfold write_status. apply wp_bind, (typed_get KListener). intros cur [Hports _].
  apply wp_bind, typed_status; [|intros; by apply wp_ret]. by constructor.
Qed.

(** ** The node service *)

Lemma getPodPorts_schema pod ports :
  pod_schema pod → getPodPorts pod = Ok ports → Forall (λ p, int32 (port_port p)) ports.
Proof.
  intros Hpod. unfold getPodPorts. case_bool_decide; [done|]. intros [= <-].
  apply Forall_forall. intros p (c & Hp & Hc)%list_elem_of_bind.
  apply list_elem_of_omap in Hp as (q & Hq & Hs). unfold container_port in Hs.
  case_bool_decide; [|done]. injection Hs as <-. simpl.
  unfold pod_schema in Hpod. rewrite Forall_forall in Hpod. specialize (Hpod c Hc).
  rewrite Forall_forall in Hpod. by apply Hpod.
Qed.

Lemma no_status_schema : status_schema no_status.
Proof. constructor; [constructor|apply map_Forall_empty]. Qed.

Lemma typed_getListener pod pv ctx :
  pod_schema pod → typed (getListener pod pv ctx) () (λ l _, listener_schema l).
Proof.
  intros Hpod. unfold getListener. destruct (vc_ListenerName ctx) as [name|].
  - apply wp_lift_bind; [|done]. intros ns _. by apply (typed_get KListener).
  - unfold createListener, getPVC. apply wp_lift_bind; [|done]. intros cn _.
    apply wp_lift_bind; [|done]. intros ns _. apply wp_bind, wp_on_error, (typed_get KListenerClass). intros lc _.
    apply wp_lift_bind; [|done]. intros ref _.
    apply wp_bind, wp_on_error, (typed_get KPersistentVolumeClaim). intros pvc _.
    apply wp_lift_bind; [|done]. intros ports Hports.
    assert (Forall (λ p, int32 (port_port p)) ports) as Hp.
    { destruct (getPodPorts pod) as [ports'|e|] eqn:Hg; [|done..]. injection Hports as <-. by eapply getPodPorts_schema. }
    cbv zeta. apply wp_lift_bind; [|done]. intros meta _. apply wp_bind, wp_attempt.
    + apply (typed_create KListener); [|intros; by apply wp_ret]. constructor; [done|apply no_status_schema].
    + intros e []. apply wp_if; [|apply wp_fail]. by apply wp_on_error, (typed_get KListener).
Qed.

(** The addresses of a volume are items of the schema. *)
Definition data_schema (data : list IngressAddress) : Prop := Forall (λ a, ingress_schema (ingress_spec a)) data.

Lemma typed_getAddresses l pod :
  typed (getAddresses l pod) () (λ r _, data_schema r.2).
Proof.
  unfold getAddresses. apply wp_bind, (typed_get KListener). intros l' [_ [Hing Hnp]]. cbv zeta.
  case_bool_decide as Hlen; [|apply wp_if; [|apply wp_fail]].
  - unfold getNodeAddressByPod. apply wp_bind, wp_bind, (typed_get KNode). intros node _.
    apply wp_lift. destruct (GetPriorNodeAddress node) as [a|e|] eqn:Ha; [|done..].
    apply wp_ret, Forall_singleton. constructor; simpl; [|by destruct (lst_nodePorts _)|done].
    unfold GetPriorNodeAddress in Ha. rewrite prior_address_find in Ha. case_match; [|done].
    injection Ha as <-. simpl. case_bool_decide; set_solver.
  - apply wp_ret. simpl. apply Forall_fmap. eapply Forall_impl; [exact Hing|]. by intros [] [].
Qed.

Lemma typed_publishPodListener pod pv l data :
  data_schema data → typed (publishPodListener pod pv l data) () (λ _ _, True).
Proof.
  intros Hdata. unfold publishPodListener. apply wp_lift_bind; [|done]. intros ref _.
  apply wp_lift_bind; [|done]. intros v _. cbv zeta. apply wp_lift_bind; [|done]. intros obj Hobj.
  set (e := {| pl_scope := determinePodListenerScope l; pl_listenerIngresses := ingress_spec <$> data |}).
  assert (entry_schema e) as He.
  { constructor; simpl; [unfold determinePodListenerScope; case_bool_decide; set_solver|by apply Forall_fmap]. }
  assert (pls_listeners obj = Some {[ v := e ]}) as Hls.
  { unfold buildPodListenersObject in Hobj. destruct (SetControllerReference _ _ _); by simplify_eq. }
  unfold createOrUpdatePodListeners. apply wp_bind, wp_attempt.
  - apply (typed_get KPodListeners). intros original [[m Hm] Hall]. rewrite Hm in Hall. cbv zeta. apply wp_lift_bind; [|done].
    intros ls Hset. apply wp_bind, wp_on_error, (typed_patch KPodListeners); [|intros; by apply wp_ret].
    rewrite Hm, Hls in Hset. unfold map_get, map_entries in Hset. simpl in Hset.
    rewrite lookup_singleton_eq in Hset. injection Hset as <-. split; [by eexists|].
    by apply map_Forall_insert_2.
  - intros err []. apply wp_if; [|apply wp_fail].
    apply wp_bind, wp_on_error, (typed_create KPodListeners); [|intros; by apply wp_ret].
    split; rewrite Hls; [by eexists|]. by apply map_Forall_singleton.
Qed.

Lemma typed_NodePublishVolume request fs :
  wp (@pair replay FS) answer_schema call_schema True (NodePublishVolume request) fs (λ _ _, True).
Proof.
  unfold NodePublishVolume. apply wp_lift_bind; [|done]. intros [] _. cbv zeta.
  apply wp_bind, wp_if; [apply wp_fail|apply wp_ret].
  apply wp_bind, wp_of_api, (typed_get KPersistentVolume). intros pv0 _.
  apply wp_lift_bind; [|done]. intros podName _. apply wp_lift_bind; [|done]. intros ns _.
  apply wp_bind, wp_on_error, wp_of_api, (typed_get KPod). intros pod0 Hpod0.
  apply wp_bind, wp_on_error, wp_of_api. eapply wp_mono; [by apply typed_getListener|]. intros l0 [] Hl0.
  apply wp_bind, wp_on_error, wp_of_api. unfold patchPVLabelsWithListener. cbv zeta.
  apply wp_lift_bind; [|done]. intros labels _. apply (typed_patch KPersistentVolume); [done|]. intros pv _.
  apply wp_bind, wp_on_error, wp_of_api. unfold patchPodLabelsWithListener. cbv zeta.
  apply wp_lift_bind; [|done]. intros labels' _. apply (typed_patch KPod); [exact Hpod0|]. intros pod Hpod.
  apply wp_bind, wp_on_error, wp_of_api. eapply wp_mono; [apply typed_getAddresses|]. intros [l data] [] Hdata.
  apply wp_bind, wp_on_error, wp_of_api. eapply wp_mono; [by apply typed_publishPodListener|]. intros [] [] _.
  apply wp_bind, wp_on_error. eapply wp_mono; [apply wp_of_os, safe_mount|]. intros [] fs' _.
  apply wp_on_error. apply wp_of_os, safe_writeData.
Qed.

Lemma typed_handlers :
  (∀ creq, typed (CreateVolume creq) () (λ _ _, True)) ∧
  (∀ lc, typed (handleListenerClassChanges lc) () (λ _ _, True)) ∧
  (∀ slice, typed (handleEndpointSliceChanges slice) () (λ _ _, True)).
Proof.
  split_and!; intros x.
  - unfold CreateVolume. apply wp_lift_bind; [|done]. intros [] _. apply wp_bind, wp_ret.
    apply wp_lift_bind; [|done]. intros params _. apply wp_bind, wp_on_error. unfold getVolumeContext.
    apply wp_bind, wp_on_error, (typed_get KPersistentVolumeClaim). intros pvc _. cbv zeta.
    apply wp_if; [apply wp_fail|]. apply wp_ret, wp_bind, wp_on_error. unfold getListenerClass.
    destruct (map_get _ AnnotationListenerName);
      [apply wp_bind, wp_on_error, (typed_get KListener); intros l _
      |destruct (map_get _ ListenerClassAnnotation); [|apply wp_fail]];
      apply wp_on_error, (typed_get KListenerClass); intros lc _; by apply wp_ret.
  - unfold handleListenerClassChanges. apply wp_bind, wp_attempt; [apply (typed_list KListener); intros os|intros e []];
      by apply wp_ret.
  - unfold handleEndpointSliceChanges. case_match; [|by apply wp_ret].
    apply wp_bind, wp_attempt; [apply (typed_list KListener); intros os|intros e []]; by apply wp_ret.
Qed.

Lemma typed_program p (d : M W ()) : program p d → typed p () (λ _ _, True).
Proof.
  destruct typed_handlers as (Hvol & Hclass & Hslice).
  intros [request fs|req|creq|lc|slice]; [apply wp_with_files, typed_NodePublishVolume|apply wp_bind..];
    (eapply wp_mono; [|intros; by apply wp_ret]).
  - apply typed_Reconcile.
  - apply Hvol.
  - apply Hclass.
  - apply Hslice.
Qed.
End handlers.

(** ** The system *)

Section system.
Context {W : Type} `{HC : Client W} `{!ApiServer W} `{!ControllerUtil W} `{!ControllerUtilLaws W}.
Context `{!AtomicWrites W} `{!OperatorGo} `{!MapRange} `{!Mounter} `{!MounterLaws} (other : relation W).

(** What is stored is of the schemas: the API server sees to it. *)
Definition schema_cluster (w : W) : Prop := ∀ k key o, stored k w key = Some o → stored_schema k o.

Lemma perform_schema cl w w' a :
  schema_cluster w → schema_cluster w' → perform cl w = (w', a) → answer_schema cl a.
Proof.
  intros Hw Hw' Hp. destruct cl as [k key|k opts|k o|k o|k o m|l]; simpl in Hp.
  - destruct (client_get k key w) as [w1 r] eqn:Hg. injection Hp as <- <-. apply get_spec in Hg as [_ Hr].
    destruct r as [o|e|]; [right; exists o|left; by exists e|done]. split; [done|by eapply Hw].
  - destruct (client_list k opts w) as [w1 r] eqn:Hg. injection Hp as <- <-. apply list_spec in Hg as [_ Hr].
    destruct r as [os|e|]; [right; by exists os|left; by exists e|done].
  - destruct (client_create k o w) as [w1 r] eqn:Hg. injection Hp as <- <-. apply create_spec in Hg.
    destruct r as [o'|e|]; [right; exists o'|left; by exists e|done]. split; [done|].
    destruct Hg as (_ & _ & Hst%wrote_same). by eapply Hw'.
  - destruct (client_update k o w) as [w1 r] eqn:Hg. injection Hp as <- <-. apply update_spec in Hg.
    destruct r as [o'|e|]; [right; exists o'|left; by exists e|done]. split; [done|].
    destruct Hg as (_ & _ & Hst%wrote_same). by eapply Hw'.
  - destruct (client_patch k o m w) as [w1 r] eqn:Hg. injection Hp as <- <-. apply patch_spec in Hg.
    destruct r as [n|e|]; [right; exists n|left; by exists e|done]. split; [done|].
    destruct Hg as (c & _ & _ & Hst%wrote_same). by eapply Hw'.
  - destruct (client_status_update l w) as [w1 r] eqn:Hg. injection Hp as <- <-. apply status_update_spec in Hg.
    destruct r as [n|e|]; [right; exists n|left; by exists e|done]. split; [done|].
    destruct Hg as (c & _ & _ & Hst%wrote_same). by eapply (Hw' KListener).
Qed.

Lemma perform_read cl w w' a : reads cl = true → perform cl w = (w', a) → w' = w.
Proof.
  destruct cl as [k key|k opts| | | |]; simpl; try done; intros _.
  - destruct (client_get k key w) as [w1 r] eqn:Hg. intros [= <- _]. by apply get_spec in Hg as [-> _].
  - destruct (client_list k opts w) as [w1 r] eqn:Hg. intros [= <- _]. by apply list_spec in Hg as [-> _].
Qed.

(** The clusters there have been stay in the history. *)
Definition history (st : cached_system (W:=W)) : list W := present st :: past st.
Lemma history_step es st st' : cached_step other es st st' → history st ⊆ history st'.
Proof. destruct 1; set_solver. Qed.
Lemma history_grows es st st' : cached_execution other es st st' → history st ⊆ history st'.
Proof. induction 1 as [|? ? ? ? ? Hstep%history_step _ IH]; [done|]. by etrans. Qed.

Definition answers_schema (ts : list (M replay () * list answer)) : Prop :=
  Forall (λ '(p, h), consistent alone answer_schema p () h) ts.

Lemma answers_middle ts1 p h ts2 cl a :
  answers_schema (ts1 ++ (p, h) :: ts2) → next p h = inl cl → answer_schema cl a →
  answers_schema (ts1 ++ (p, h ++ [a]) :: ts2).
Proof.
  intros [Hts1 [Hh Hts2]%Forall_cons]%Forall_app Hn Ha.
  apply Forall_app_2; [done|]. apply Forall_cons_2; [by eapply consistent_snoc|done].
Qed.

Lemma step_answers es st st' :
  cached_step other es st st' → Forall schema_cluster (history st) → Forall schema_cluster (history st') →
  answers_schema (threads st) → answers_schema (threads st').
Proof.
  unfold history. destruct 1 as [w hist ts p d Hp|w hist ts1 p h ts2 cl w0 w1 a Hn Hr Hw0 Hperf
    |w hist ts1 p h ts2 cl w' a Hn _ _ Hperf|w hist ts1 p h ts2 cl e Hn _ _|w hist ts w' _];
    cbn [present past threads]; intros Hb Hb' Hans; [|eapply answers_middle; [done..|]..|done].
  - apply Forall_app_2; [done|]. apply Forall_cons_2; [|done]. by intros [] ? ? ? ? ? ?.
  - rewrite (perform_read _ _ _ _ Hr Hperf) in Hperf. rewrite Forall_forall in Hb.
    eapply perform_schema; [| |exact Hperf]; by apply Hb.
  - apply Forall_cons in Hb as [Hw _]. apply Forall_cons in Hb' as [Hw' _]. exact (perform_schema _ _ _ _ Hw Hw' Hperf).
  - left. by exists e.
Qed.

Lemma execution_answers es st st' :
  cached_execution other es st st' → Forall schema_cluster (history st') →
  running (W:=W) (threads st) → answers_schema (threads st) →
  running (W:=W) (threads st') ∧ answers_schema (threads st').
Proof.
  induction 1 as [|es1 es2 st1 st2 st3 Hstep Hex IH]; intros Hb Hrun Hans; [done|].
  assert (Forall schema_cluster (history st2)) as Hb2.
  { apply Forall_forall. intros w Hw. by apply (proj1 (Forall_forall _ _) Hb), (history_grows _ _ _ Hex). }
  assert (Forall schema_cluster (history st1)) as Hb1.
  { apply Forall_forall. intros w Hw. by apply (proj1 (Forall_forall _ _) Hb2), (history_step _ _ _ Hstep). }
  apply IH; [done|by eapply cached_step_safe|by eapply step_answers].
Qed.

(** C6: Every object the handlers send is of the schemas of the CRDs: whatever cached objects of the
    schemas they read, and however they are interleaved, each Listener, status and PodListeners
    entry they write has its required fields, address types and scopes of the enumerations and
    ports of 32 bits, and each Service a type and a traffic policy Kubernetes knows. *)
Theorem schema_preserved es st st' p h cl :
  cached_execution other es st st' → running (W:=W) (threads st) →
  Forall (λ t, t.2 = []) (threads st) → Forall schema_cluster (history st') →
  (p, h) ∈ threads st' → next p h = inl cl → call_schema cl.
Proof.
  intros Hex Hrun Hnew Hb Hin Hn. destruct (execution_answers _ _ _ Hex Hb Hrun) as [Hrun' Hans].
  { eapply Forall_impl; [exact Hnew|]. intros [p0 h0] Hh. simpl in Hh. subst h0. by intros [] ? ? ? ? ? ?. }
  unfold running, answers_schema in *. rewrite Forall_forall in Hrun', Hans.
  destruct (Hrun' _ Hin) as [d Hd]. specialize (Hans _ Hin). simpl in Hd, Hans.
  pose proof (wp_next _ _ _ _ _ (typed_program _ _ Hd) Hans) as Hw. by rewrite Hn in Hw.
Qed.
End system.
