(* ===== verification/StaleCacheExamples.v ===== *)
(** * An execution with a stale cache

    A reconcile that reads the Service from a cache older than a user's edit is refused; the next
    one, whose cache has caught up, updates the Service, and the edit, the cluster IPs and the
    node ports are still there. *)
From S2P Require Import Prelude GoRuntime GoStrings Api GoOs CsiTypes Util FakeClient Fixtures.
From S2P Require Import Service Reconciler CsiController CsiNode CsiNodeExamples.
From S2P Require Import Interleaving Concurrent NoLostUpdate ConcurrentExamples StaleCache CrashFree Schema.
Import ListenerReconciler NodeServer.

(** ** Schedules with a cache *)

(** The next call of a handler, its reads answered from the cluster of the given age; or the
    cluster as another client leaves it. *)
Inductive move := Turn (i age : nat) | Edit (w : cluster).

Definition is_fresh (h : list answer) (cl : call) (w : cluster) : bool :=
  match cl with
  | CUpdate k o =>
      match k return Obj k → bool with
      | KService => λ o, match last h with
          | Some (AObject k c) => match k return Obj k → bool with
              | KService => λ c, bool_decide (stored KService w (key_of (k:=KService) o) = Some c)
              | _ => λ _, true
              end c
          | _ => true
          end
      | _ => λ _, false
      end o
  | CStatusUpdate l =>
      match last h with
      | Some (AObject k c) => match k return Obj k → bool with
          | KListener => λ c, bool_decide (stored KListener w (key_of (k:=KListener) l) = Some c)
          | _ => λ _, true
          end c
      | _ => true
      end
  | _ => true
  end.

Lemma is_fresh_sound h cl w : is_fresh h cl w = true → fresh h cl w.
Proof.
  destruct cl as [| | |k o| |l]; simpl; try done.
  - destruct k; try done. intros Hf c Hlast. rewrite Hlast in Hf. by apply bool_decide_eq_true in Hf.
  - intros Hf c Hlast. rewrite Hlast in Hf. by apply bool_decide_eq_true in Hf.
Qed.

Definition conflict : error := ApiError Conflict.

Definition cached_call (st : cached_system (W:=cluster)) (h : list answer) (cl : call) (age : nat)
  : option (list event * answer * cluster * list cluster) :=
  let w := present st in
  if reads cl
  then w0 ← (w :: past st) !! age; Some ([], (perform cl w0).2, w, past st)
  else if is_fresh h cl w
  then Some ([(cl, w, (perform cl w).1)], (perform cl w).2, (perform cl w).1, w :: past st)
  else if updates cl then Some ([], AError conflict, w, past st) else None.

Fixpoint cached_run (moves : list move) (st : cached_system) : option (list event * cached_system) :=
  match moves with
  | [] => Some ([], st)
  | Edit w :: moves =>
      cached_run moves {| present := w; past := present st :: past st; threads := threads st |}
  | Turn i age :: moves =>
      '(p, h) ← threads st !! i;
      cl ← match next p h with inl cl => Some cl | inr _ => None end;
      '(es, a, w, hist) ← cached_call st h cl age;
      '(es2, st2) ← cached_run moves
        {| present := w; past := hist; threads := <[i := (p, h ++ [a])]> (threads st) |};
      Some (es ++ es2, st2)
  end.

Lemma cached_call_step other st i p h cl age es a w hist :
  threads st !! i = Some (p, h) → next p h = inl cl → cached_call st h cl age = Some (es, a, w, hist) →
  cached_step other es st {| present := w; past := hist; threads := <[i := (p, h ++ [a])]> (threads st) |}.
Proof.
  destruct st as [w0 hist0 ts]. cbn [present past threads]. intros Hi Hn Hc.
  rewrite (insert_take_drop _ _ _ (lookup_lt_Some _ _ _ Hi)).
  rewrite <- (take_drop_middle ts i (p, h) Hi) at 1. unfold cached_call in Hc. cbn [present past] in Hc.
  destruct (reads cl) eqn:Hr.
  - destruct ((w0 :: hist0) !! age) as [w1|] eqn:Hage; [|done]. injection Hc as <- <- <- <-.
    eapply cached_read; [done..|by eapply list_elem_of_lookup_2|apply surjective_pairing].
  - destruct (is_fresh h cl w0) eqn:Hf.
    + injection Hc as <- <- <- <-. eapply cached_write; [done..|by apply is_fresh_sound|apply surjective_pairing].
    + destruct (updates cl) eqn:Hu; [|done]. injection Hc as <- <- <- <-. by eapply cached_conflict.
Qed.

(** The edits are what the other clients do. *)
Definition edits_allowed (other : cluster → cluster → Prop) (moves : list move) : Prop :=
  ∀ w w', Edit w' ∈ moves → other w w'.

Lemma cached_run_execution other moves st es st' :
  edits_allowed other moves →
  cached_run moves st = Some (es, st') → cached_execution other es st st'.
Proof.
  intros Hall. revert st es. induction moves as [|[i age|w] moves IH]; intros st es Hrun.
  - injection Hrun as <- <-. constructor.
  - cbn [cached_run] in Hrun. apply bind_Some in Hrun as ([p h] & Hi & Hrun).
    apply bind_Some in Hrun as (cl & Hn & Hrun). apply bind_Some in Hrun as ([[[es1 a] w] hist] & Hc & Hrun).
    apply bind_Some in Hrun as ([es2 st2] & Hrest & [= <- <-]).
    eapply cached_cons; [|apply IH; [|done]; intros ???; apply Hall; by right]. eapply cached_call_step; [done| |done].
    destruct (next p h); [by injection Hn as ->|done].
  - cbn [cached_run] in Hrun. change es with ([] ++ es). eapply cached_cons; [|apply IH; [|done]; intros ???; apply Hall; by right].
    destruct st. constructor. apply Hall. by left.
Qed.

(** A run keeps the handlers. *)
Lemma cached_run_programs moves st es st' :
  cached_run moves st = Some (es, st') → (threads st').*1 = (threads st).*1.
Proof.
  revert st es. induction moves as [|[i age|w] moves IH]; intros st es Hrun; cbn [cached_run] in Hrun.
  - by injection Hrun as _ <-.
  - apply bind_Some in Hrun as ([p h] & Hi & Hrun).
    apply bind_Some in Hrun as (cl & _ & Hrun). apply bind_Some in Hrun as ([[[es1 a] w] hist] & _ & Hrun).
    apply bind_Some in Hrun as ([es2 st2] & Hrest & [= <- <-]). apply IH in Hrest. cbn [threads] in Hrest.
    rewrite Hrest, list_fmap_insert. apply list_insert_id. by rewrite list_lookup_fmap, Hi.
  - by apply IH in Hrun.
Qed.

(** ** A user edits the Service *)

Definition edited_service : Service :=
  {| svc_meta := {| meta_name := "client"; meta_namespace := "default"; meta_uid := "svc-uid";
                    meta_labels := Some {[ "team" := "edge" ]};
                    meta_annotations := Some {[ "external.example/managed" := "keep" ]};
                    meta_owners := [] |};
     svc_spec := svc_spec test_service; svc_ingress := [] |}.
Definition edited_cluster : cluster := add KService edited_service test_cluster.

Definition two_reconciles : cached_system (W:=cluster) :=
  {| present := test_cluster; past := [];
     threads := [ (ignore_result (Reconcile test_request), []);
                  (ignore_result (Reconcile test_request), []) ] |}.

(** The edit comes first, and the cache has not seen it when the first reconcile reads. *)
Definition stale_moves : list move :=
  Edit edited_cluster :: replicate 4 (Turn 0 1) ++ replicate 4 (Turn 1 0).
Definition stale_run : list event * cached_system :=
  default ([], two_reconciles) (cached_run stale_moves two_reconciles).

Example stale_outcome :
  (λ '(p, h), next p h) <$> threads stale_run.2 = [inr (Fail conflict); inr (Ok ())].
Proof. vm_compute. reflexivity. Qed.

Example stale_event : (λ '(cl, w, w'), updates cl) <$> stale_run.1 = [true].
Proof. vm_compute. reflexivity. Qed.

Definition stale_update : event :=
  default (CGet KService test_request, edited_cluster, edited_cluster) (head stale_run.1).
Lemma stale_update_sent : head stale_run.1 = Some stale_update.
Proof.
  unfold stale_update. assert (is_Some (head stale_run.1)) as [e ->]; [|done].
  apply (bool_decide_unpack _). vm_compute. reflexivity.
Qed.
Example stale_before : stored KService stale_update.1.2 test_request = Some edited_service.
Proof. vm_compute. reflexivity. Qed.

(** The edit and the allocations are there, and so are the new ports. *)
Example stale_service :
  (λ s, (meta_labels (svc_meta s), svc_clusterIPs (svc_spec s),
         (λ p, (sp_name p, sp_nodePort p)) <$> svc_ports (svc_spec s)))
    <$> stored KService stale_update.2 test_request =
  Some (Some {[ "team" := "edge" ]}, ["10.0.0.10"; "fd00::10"],
        [("metrics", 30090%Z); ("client", 30080%Z); ("new", 32546%Z)]).
Proof. vm_compute. reflexivity. Qed.

Lemma stale_running : running (W:=cluster) (threads two_reconciles).
Proof. apply Forall_cons_2; [eexists; apply prog_reconcile|]. apply Forall_singleton. eexists. apply prog_reconcile. Qed.

Lemma stale_execution : cached_execution (λ _ _, True) stale_run.1 two_reconciles stale_run.2.
Proof.
  apply (cached_run_execution _ stale_moves); [done|]. unfold stale_run.
  assert (is_Some (cached_run stale_moves two_reconciles)) as [[es st] ->]; [|done].
  apply (bool_decide_unpack _). vm_compute. reflexivity.
Qed.

Lemma stale_writes_safe_witness : keeps stale_update.1.2 stale_update.2.
Proof.
  apply (stale_writes_safe (λ _ _, True) stale_run.1 two_reconciles stale_run.2 stale_update.1.1).
  - exact stale_execution.
  - exact stale_running.
  - apply head_Some_elem_of. refine (eq_trans stale_update_sent _). by destruct stale_update as [[]].
Defined.

(** ** Two volumes of one pod, read from a cache *)

Lemma bound_computed (w : cluster) :
  bool_decide (map_Forall (λ _ pv, is_Some (pv_claimRef pv)) (w KPersistentVolume)) = true → bound w.
Proof.
  intros Hall%bool_decide_eq_true key pv. simpl. unfold fake_stored.
  destruct (w KPersistentVolume !! key) as [pv0|] eqn:Hpv; [|done]. case_bool_decide; [|done].
  intros [= <-]. by eapply (Hall key).
Qed.

Lemma busy_bound : bound busy_cluster.
Proof. apply bound_computed. vm_compute. reflexivity. Qed.

Definition busy_cached : cached_system (W:=cluster) :=
  {| present := busy_cluster; past := [busy_cluster]; threads := busy.2 |}.
(** The first publication reads from a cache that is one write behind. *)
Definition lagging : list move := mjoin (replicate 6 [Turn 0 1; Turn 1 0]) ++ replicate 3 (Turn 1 0).
Definition lagging_run : list event * cached_system :=
  default ([], busy_cached) (cached_run lagging busy_cached).
Example lagging_progress :
  (λ '(p, h), (length h, match next p h with inl _ => None | inr r => Some r end))
    <$> threads lagging_run.2 = [(6, None); (9, Some (Ok ())); (0, None)].
Proof. vm_compute. reflexivity. Qed.

Lemma lagging_runs : cached_run lagging busy_cached = Some lagging_run.
Proof.
  unfold lagging_run. assert (is_Some (cached_run lagging busy_cached)) as [r ->]; [|done].
  apply (bool_decide_unpack _). vm_compute. reflexivity.
Qed.

Lemma lagging_execution : cached_execution (λ _ w', bound w') lagging_run.1 busy_cached lagging_run.2.
Proof.
  apply (cached_run_execution _ lagging); [|rewrite lagging_runs; by destruct lagging_run].
  assert (Forall (λ m, match m with Edit _ => False | Turn _ _ => True end) lagging) as Hno
    by (repeat constructor).
  rewrite Forall_forall in Hno. intros w w' Hin. by apply Hno in Hin.
Qed.

(** The publication that is in progress at the end. *)
Definition publishing : M replay () := with_files (NodePublishVolume test_publish) node_fs.
Definition publishing_answers : list answer := default [] (snd <$> threads lagging_run.2 !! 0).
Lemma publishing_runs : (publishing, publishing_answers) ∈ threads lagging_run.2.
Proof.
  assert ((threads lagging_run.2).*1 = (threads busy_cached).*1) as Hprog
    by (eapply (cached_run_programs lagging _ lagging_run.1); rewrite lagging_runs; by destruct lagging_run).
  unfold publishing_answers. destruct (threads lagging_run.2) as [|[p h] ts]; [done|].
  injection Hprog as -> _. by left.
Qed.

Lemma concurrent_never_panics_witness : next publishing publishing_answers ≠ inr Panic.
Proof.
  apply (concurrent_never_panics lagging_run.1 busy_cached lagging_run.2).
  - exact lagging_execution.
  - exact busy_running.
  - apply Forall_cons_2; [exact busy_bound|]. apply Forall_singleton. exact busy_bound.
  - repeat constructor.
  - exact publishing_runs.
  - constructor. split_and!; [| |left]; by eexists.
Defined.

(** ** An entry of the schema *)

Definition all_kinds : list Kind :=
  [KPod; KPersistentVolume; KPersistentVolumeClaim; KNode; KService; KEndpointSlice; KListener;
   KListenerClass; KPodListeners].
Definition is_schema_cluster (w : cluster) : bool :=
  forallb (λ k, bool_decide (map_Forall (λ _ o, stored_schema k o) (w k))) all_kinds.

Lemma schema_computed w : is_schema_cluster w = true → schema_cluster w.
Proof.
  unfold is_schema_cluster. rewrite forallb_forall. intros Hall k key o. simpl. unfold fake_stored.
  destruct (w k !! key) as [o'|] eqn:Ho; [|done]. case_bool_decide; [|done]. intros [= <-].
  assert (List.In k all_kinds) as Hk by (destruct k; simpl; tauto).
  specialize (Hall k Hk). apply bool_decide_eq_true in Hall. by eapply (Hall key).
Qed.

(** The second publication is about to patch the PodListeners of the pod. *)
Definition entry_moves : list move := replicate 8 (Turn 1 1).
Definition entry_run : list event * cached_system :=
  default ([], busy_cached) (cached_run entry_moves busy_cached).
Lemma entry_runs : cached_run entry_moves busy_cached = Some entry_run.
Proof.
  unfold entry_run. assert (is_Some (cached_run entry_moves busy_cached)) as [r ->]; [|done].
  apply (bool_decide_unpack _). vm_compute. reflexivity.
Qed.
Lemma entry_schemas : Forall schema_cluster (history entry_run.2).
Proof.
  assert (forallb is_schema_cluster (history entry_run.2) = true) as Hall by (vm_compute; reflexivity).
  rewrite forallb_forall in Hall. apply List.Forall_forall. intros w Hw. by apply schema_computed, Hall.
Qed.

Definition entry_thread : M replay () * list answer := default (publishing, []) (threads entry_run.2 !! 1).
Definition entry_call : call :=
  match next entry_thread.1 entry_thread.2 with inl cl => cl | inr _ => CGet KPod test_request end.
Example entry_call_patches : is_patch entry_call = true.
Proof. vm_compute. reflexivity. Qed.

Lemma entry_next : next entry_thread.1 entry_thread.2 = inl entry_call.
Proof.
  pose proof entry_call_patches as Hp. unfold entry_call in *.
  by destruct (next entry_thread.1 entry_thread.2).
Qed.

Lemma schema_preserved_witness : call_schema entry_call.
Proof.
  apply (schema_preserved (λ _ _, True) entry_run.1 busy_cached entry_run.2 entry_thread.1 entry_thread.2).
  - apply (cached_run_execution _ entry_moves); [done|]. rewrite entry_runs. by destruct entry_run.
  - exact busy_running.
  - repeat constructor.
  - exact entry_schemas.
  - unfold entry_thread. assert (is_Some (threads entry_run.2 !! 1)) as [t Ht]
      by (apply (bool_decide_unpack _); vm_compute; reflexivity).
    rewrite Ht. simpl. rewrite <- surjective_pairing. by eapply list_elem_of_lookup_2.
  - exact entry_next.
Defined.
