(* ===== verification/Liveness.v ===== *)
(** * A Listener becomes ready

    The loop of the operator on one Listener: controller-runtime calls [Reconcile] again while
    its result asks for a requeue.  With an API server that answers and accepts the objects,
    two runs are enough: the first writes the Service, the second publishes the status. *)
From S2P Require Import Prelude GoRuntime GoStrings Api FakeClient Fixtures Util Service Reconciler.
From S2P Require Import NoLostUpdate.
Import Util.Address Util.Constant ServiceReconciler ServiceAddress ListenerReconciler.

(** ** An API server that accepts what it validates *)

(** The kinds the operator and the plugin create and update. *)
Definition written_kind (k : Kind) : Prop := k = KService ∨ k = KListener ∨ k = KPodListeners.

(** [admissible] is the validation of the API server: names, label values, port numbers. *)
Class ReliableWrites (W : Type) `{ApiServer W} := {
  admissible : ∀ k, Obj k → Prop;
  create_accepted : ∀ k (o : Obj k) w, written_kind k →
    stored k w (scoped k (key_of o)) = None → admissible k o →
    ∃ w' o', client_create k o w = (w', Ok o');
  create_exists : ∀ k (o : Obj k) w,
    is_Some (stored k w (scoped k (key_of o))) →
    ∃ e, client_create k o w = (w, Fail e) ∧ IsAlreadyExists e = true;
  update_accepted : ∀ k (o : Obj k) w, written_kind k →
    is_Some (stored k w (scoped k (key_of o))) → admissible k o →
    ∃ w' o', client_update k o w = (w', Ok o');
  (* the patches of labels and of PodListeners entries *)
  patch_accepted : ∀ k (o m : Obj k) w,
    is_Some (stored k w (scoped k (key_of m))) → patch_shape k o m → admissible k m →
    ∃ w' n, client_patch k o m w = (w', Ok n);
  status_accepted : ∀ l w, is_Some (stored KListener w (key_of (k:=KListener) l)) →
    ∃ w' l', client_status_update l w = (w', Ok l');
}.

(** ** Loops that read *)

Lemma collect_res_total {A B} (f : A → res B) l :
  (∀ x, x ∈ l → ∃ y, f x = Ok y) → ∃ ys, collect_res f l = Ok ys.
Proof.
  induction l as [|x l IH]; intros Hf; [by exists []|]. simpl.
  destruct (Hf x) as [y ->]; [apply list_elem_of_here|].
  destruct IH as [ys ->]; [intros; apply Hf; by apply list_elem_of_further|]. by exists (y :: ys).
Qed.

Lemma pick_ingress_Ok preferred ports a :
  preferred = AddressTypeIP ∨ AddressType a = AddressTypeHostname →
  ∃ i, pick_ingress preferred ports a = Ok i.
Proof.
  intros Ha. unfold pick_ingress. destruct (Pick a preferred) as [b|] eqn:Hb; [by eexists|].
  apply Pick_nil in Hb as [? ?]. by destruct Ha.
Qed.

(** ** The classes that need no load balancer *)

(** The address type of a ListenerClass the operator can serve on its own: node ports, or a
    cluster-internal Service that is published under its host name. *)
Definition self_contained (lc : ListenerClass) (type : string) : Prop :=
  lcs_serviceType (lc_spec lc) = Some type ∧ lcs_externalTrafficPolicy (lc_spec lc) ≠ "" ∧
  (type = ServiceTypeNodePort ∨
   type = ServiceTypeClusterIP ∧ effective_type lc ServiceTypeClusterIP ≠ AddressTypeIP).

(** What [getAddresses] of the node plugin asks of a status. *)
Definition is_ready (st : ListenerStatus) : Prop :=
  map_len (lst_nodePorts st) ≠ 0 ∨ lst_ingressAddresses st ≠ [].

Section operator.
Context {W : Type} `{HC : Client W} `{!ApiServer W} `{!ControllerUtil W} `{!ControllerUtilLaws W}.
Context `{!OperatorGo} `{!ReliableReads W} `{!ReliableWrites W}.

(** The work queue on one request: run again while a requeue is asked for. *)
Fixpoint reconcile_loop (runs : nat) (req : Request) : M W Result :=
  match runs with
  | 0 => mret {| Requeue := true |}
  | S runs => result ← Reconcile req;
              if IsZero result then mret result else reconcile_loop runs req
  end.

(** The nodes of the endpoints of the Service [key] have an address of the preferred type. *)
Definition hosts_ready (w : W) (lc : ListenerClass) (key : ObjectKey) : Prop :=
  ∀ svc n, key_of (k:=KService) svc = key → hosts w svc n →
    ∃ a, address_of_node w n a ∧
         (effective_type lc ServiceTypeNodePort = AddressTypeIP ∨ AddressType a = AddressTypeHostname).

(** A Service of that name, if there is one, can be taken over by the Listener. *)
Definition ownable (w : W) (l : Listener) : Prop :=
  ∀ svc, stored KService w (key_of (k:=KListener) l) = Some svc →
    ∃ m, SetControllerReference KListener (listener_meta l) (svc_meta svc) = Ok m.

(** The API server accepts a Service with the ports of the Listener. *)
Definition ports_admissible (l : Listener) : Prop :=
  ∀ svc, key_of (k:=KService) svc = key_of (k:=KListener) l →
    Forall2 port_of (service_ports (ls_ports (listener_spec l))) (svc_ports (svc_spec svc)) →
    admissible KService svc.

Lemma desired_total s lc ports type :
  lcs_serviceType (lc_spec lc) = Some type → ∃ d, desired_service s lc ports = Ok d.
Proof.
  intros Ht. unfold desired_service, getExternalTrafficPolicyFromListenerClass. rewrite Ht. simpl.
  unfold mbind, res_bind. destruct (_ || _); eauto.
Qed.

Lemma desired_meta s lc ports d :
  desired_service s lc ports = Ok d → svc_meta d = new_meta (getName s) (getNamespace s).
Proof.
  unfold desired_service. intros Hd. apply res_bind_Ok in Hd as (? & _ & Hd).
  apply res_bind_Ok in Hd as (? & _ & Hd). by apply res_bind_Ok in Hd as (? & _ & [= <-]).
Qed.

Lemma mutate_total s d b m :
  SetControllerReference KListener (listener_meta (sr_listener s)) (svc_meta b) = Ok m →
  ∃ o, mutate s d b = Ok o.
Proof. intros Hm. unfold mutate. rewrite Hm. unfold mbind, res_bind. eauto. Qed.

Lemma createService_total l lc type w :
  stored KListenerClass w (Key "" (ls_className (listener_spec l))) = Some lc →
  lcs_serviceType (lc_spec lc) = Some type →
  service_ports (ls_ports (listener_spec l)) ≠ [] → ownable w l → ports_admissible l →
  ∃ w' r, createService {| sr_listener := l |} w = (w', Ok r).
Proof.
  intros Hlc Ht Hports Hown Hadm. unfold createService, getListenerClass. simpl.
  rewrite (bind_step _ _ w w lc) by (by apply (get_found KListenerClass)).
  rewrite bool_decide_eq_false_2 by done. set (s := {| sr_listener := l |}).
  destruct (desired_total s lc (service_ports (ls_ports (listener_spec l))) type Ht) as [d Hd].
  rewrite Hd. rewrite (bind_step _ (lift (Ok d)) w w d) by done.
  pose proof (desired_key _ _ _ _ Hd) as Hkey. pose proof (desired_meta _ _ _ _ Hd) as Hmeta.
  change (service_key s) with (key_of (k:=KListener) l) in Hkey.
  apply desired_inv in Hd as (_ & Hdp & _).
  assert (∀ b o, key_of (k:=KService) b = key_of (k:=KListener) l → mutate s d b = Ok o →
            key_of (k:=KService) o = key_of (k:=KListener) l ∧ admissible KService o) as Hmut.
  { intros b o Hb Ho. pose proof (mutate_key _ _ _ _ Ho) as Hk. rewrite Hb in Hk. split; [done|].
    apply Hadm; [done|]. apply mutate_inv in Ho as (_ & _ & _ & Hof). by rewrite Hdp in Hof. }
  assert (∃ w' op, CreateOrUpdate d (mutate s d) w = (w', Ok op)) as (w' & op & Hop).
  { setoid_rewrite CreateOrUpdate_spec. rewrite Hkey.
    destruct (stored KService w (key_of (k:=KListener) l)) as [svc|] eqn:Hsvc.
    - rewrite (bind_step _ _ w w (inl svc))
        by (apply attempt_Ok_inv, (get_found KService); by rewrite scoped_namespaced).
      destruct (Hown _ Hsvc) as [m Hm]. destruct (mutate_total s d svc m Hm) as [o Ho].
      pose proof (stored_key KService _ _ _ Hsvc) as Hks. rewrite scoped_namespaced in Hks by done.
      destruct (Hmut _ _ Hks Ho) as [Hok Hoa]. rewrite Ho.
      rewrite (bind_step _ (lift (Ok o)) w w o) by done. case_bool_decide; [by eexists _, _|].
      destruct (update_accepted KService o w) as (w' & o' & Hup); [by left| |done|].
      { rewrite scoped_namespaced, Hok by done. by rewrite Hsvc. }
      rewrite (bind_step _ _ _ _ _ Hup). by eexists _, _.
    - destruct (get_missing KService (key_of (k:=KListener) l) w) as (e & He & Hnf);
        [by rewrite scoped_namespaced|].
      rewrite (bind_step _ _ w w (inr e)) by (by apply attempt_Ok_inv). rewrite Hnf.
      destruct (SetControllerReference_ok KListener (listener_meta l) (svc_meta d)) as [m Hm];
        [rewrite Hmeta; apply Forall_nil_2|rewrite Hmeta; by right|].
      destruct (mutate_total s d d m Hm) as [o Ho]. destruct (Hmut _ _ Hkey Ho) as [Hok Hoa]. rewrite Ho.
      rewrite (bind_step _ (lift (Ok o)) w w o) by done.
      destruct (create_accepted KService o w) as (w' & o' & Hcr); [by left| |done|].
      { by rewrite scoped_namespaced, Hok by done. }
      rewrite (bind_step _ _ _ _ _ Hcr). by eexists _, _. }
  rewrite (bind_step _ _ _ _ _ Hop). case_bool_decide; by eexists _, _.
Qed.

(** A Listener without other writers around: after a run that changes nothing, or that wrote
    the Service, the Service is as wanted. *)
Lemma createService_settles l lc type w :
  stored KListenerClass w (Key "" (ls_className (listener_spec l))) = Some lc →
  self_contained lc type → service_ports (ls_ports (listener_spec l)) ≠ [] →
  ownable w l → ports_admissible l →
  createService {| sr_listener := l |} w = (w, Ok zero_result) ∨
  ∃ w1 svc, createService {| sr_listener := l |} w = (w1, Ok {| Requeue := true |}) ∧
    wrote stored KService (key_of (k:=KListener) l) svc w w1 ∧
    createService {| sr_listener := l |} w1 = (w1, Ok zero_result).
Proof.
  intros Hlc (Ht & Hpol & _) Hports Hown Hadm.
  destruct (createService_total l lc type w) as (w1 & r & Hrun); [done..|].
  pose proof Hrun as (lc' & d & Hlc' & _ & _ & [Hnone|Hw])%createService_inv.
  - destruct Hnone as (svc & o & _ & _ & _ & -> & ->). by left.
  - destruct Hw as (b & o & o' & _ & _ & Hw & ->). right. exists w1, o'. split_and!; [done..|].
    eapply createService_again; [done..|]. simpl. rewrite Hlc. by intros ? [= <-].
Qed.

(** ** The status *)

Lemma service_status_total l lc type svc w :
  self_contained lc type → svc_type (svc_spec svc) = type →
  hosts_ready w lc (key_of (k:=KService) svc) →
  ∃ st, service_status l svc (effective_type lc type) w = (w, Ok st).
Proof.
  intros (_ & _ & [->|[-> Heff]]) Ht Hh; unfold service_status, getServiceType; simpl; rewrite Ht.
  - simpl. unfold getNodePorts. simpl. rewrite Ht. simpl.
    rewrite (bind_step _ (lift (Ok _)) w w (Some (port_map sp_nodePort (svc_ports (svc_spec svc))))) by done.
    destruct (getNodesAddresses_total svc w) as [addrs Hc].
    { intros n Hn. destruct (Hh svc n eq_refl Hn) as (a & Ha & _). by exists a. }
    setoid_rewrite (bind_step _ _ _ _ _ Hc). apply getNodesAddresses_runs in Hc as (_ & names & Hall & Hnames).
    destruct (collect_res_total (pick_ingress (effective_type lc ServiceTypeNodePort)
      (Some (port_map sp_nodePort (svc_ports (svc_spec svc))))) addrs) as [ings Hi].
    { intros a Ha. apply pick_ingress_Ok. apply list_elem_of_lookup in Ha as [i Hi].
      destruct (Forall2_lookup_r _ _ _ _ _ Hall Hi) as (n & Hni & Hn).
      assert (hosts w svc n) as Hhost by (apply Hnames; by eapply list_elem_of_lookup_2).
      destruct (Hh svc n eq_refl Hhost) as (a' & Ha' & Hp). by rewrite (address_of_node_unique _ _ _ _ Hn Ha'). }
    rewrite Hi. by eexists.
  - simpl. rewrite bool_decide_eq_false_2 by done. by eexists.
Qed.

Lemma write_status_total l st w :
  is_Some (stored KListener w (key_of (k:=KListener) l)) →
  ∃ w', RetryOnConflict (write_status l st) w = (w', Ok ()).
Proof.
  intros [cur Hcur]. pose proof (stored_key KListener _ _ _ Hcur) as Hk. rewrite scoped_namespaced in Hk by done.
  assert (∃ w', write_status l st w = (w', Ok ())) as [w' Hf].
  { unfold write_status.
    rewrite (bind_step _ _ w w cur) by (apply (get_found KListener); by rewrite scoped_namespaced).
    destruct (status_accepted (with_status st cur) w) as (w' & l' & Hu).
    { change (key_of (k:=KListener) (with_status st cur)) with (key_of (k:=KListener) cur).
      rewrite Hk. by eexists. }
    rewrite (bind_step _ _ _ _ _ Hu). by eexists. }
  exists w'. pose proof (RetryOnConflict_spec (write_status l st) w) as Hret.
  inversion Hret as [? ? ? Hf2|? ? ? Hf2|? ? ? ? Hf2]; congruence.
Qed.

(** A run with a Service that is as wanted publishes the status. *)
Lemma Reconcile_total l lc type svc w :
  let req := key_of (k:=KListener) l in
  stored KListener w req = Some l →
  stored KListenerClass w (Key "" (ls_className (listener_spec l))) = Some lc →
  self_contained lc type → hosts_ready w lc req →
  createService {| sr_listener := l |} w = (w, Ok zero_result) →
  stored KService w req = Some svc →
  ∃ w', Reconcile req w = (w', Ok zero_result).
Proof.
  intros req Hl Hlc Hself Hhosts Hcs Hsvc.
  pose proof (createService_conforms _ _ _ _ Hcs eq_refl) as (_ & lc' & svc' & Hlc' & Hsvc' & Hconf).
  simpl in Hlc'. rewrite Hlc in Hlc'. injection Hlc' as <-.
  change (service_key {| sr_listener := l |}) with req in Hsvc'. rewrite Hsvc in Hsvc'. injection Hsvc' as <-.
  pose proof (stored_key KService _ _ _ Hsvc) as Hks. rewrite scoped_namespaced in Hks by done.
  pose proof Hself as (Ht & _). assert (svc_type (svc_spec svc) = type) as Htype.
  { pose proof (cf_type _ _ _ Hconf) as Hc. rewrite Ht in Hc. by injection Hc. }
  unfold Reconcile. setoid_rewrite (bind_step _ _ w w (inl l));
    [|apply attempt_Ok_inv, (get_found KListener); by rewrite scoped_namespaced].
  setoid_rewrite (bind_step _ _ _ _ _ Hcs). simpl.
  assert (∃ w', updateListenerStatus l {| sr_listener := l |} w = (w', Ok ())) as [w' Hup].
  { unfold updateListenerStatus, describe.
    setoid_rewrite (bind_step _ _ w w svc);
      [|apply (get_found KService); by rewrite scoped_namespaced].
    setoid_rewrite (bind_step _ _ w w (effective_type lc type)).
    - destruct (service_status_total l lc type svc w) as [st Hst]; [done..|by rewrite Hks|].
      setoid_rewrite (bind_step _ _ _ _ _ Hst). apply write_status_total. by exists l.
    - unfold preferredAddressType, effective_type.
      rewrite (bind_step _ _ w w lc) by (by apply (get_found KListenerClass)).
      rewrite Ht. case_bool_decide; [|done]. unfold deref.
      rewrite (bind_step _ (lift (Ok type)) w w type) by done. by case_bool_decide. }
  exists w'. setoid_rewrite (bind_step _ _ _ _ _ Hup). done.
Qed.

(** The endpoints and the nodes are not touched. *)
Definition same_hosts (w w' : W) : Prop :=
  ∀ k key, k = KEndpointSlice ∨ k = KNode → stored k w' key = stored k w key.

Lemma hosts_ready_frame w w' lc key : same_hosts w w' → hosts_ready w lc key → hosts_ready w' lc key.
Proof.
  intros Hs Hh svc n Hk (slice & ep & (Hst & Hns & Hlab) & Hep & Hn).
  destruct (Hh svc n Hk) as (a & (node & Hnode & Ha) & Hpick).
  - exists slice, ep. split; [|done]. split; [|done]. rewrite <- Hst. symmetry. apply Hs. by left.
  - exists a. split; [|done]. exists node. split; [|done]. rewrite <- Hnode. apply Hs. by right.
Qed.

Lemma service_ports_named ports p : p ∈ service_ports ports → sp_name p ≠ "".
Proof.
  intros (q & _ & Hq)%list_elem_of_omap. unfold service_port in Hq.
  by case_bool_decide; simplify_eq.
Qed.

Lemma port_map_nonempty value ports :
  ports ≠ [] → Forall (λ p, sp_name p ≠ "") ports → port_map value ports ≠ ∅.
Proof.
  intros Hne Hall. destruct ports as [|p ports _] using rev_ind; [done|].
  apply Forall_app in Hall as [_ Hp]. apply Forall_cons in Hp as [Hp _].
  rewrite port_map_snoc, bool_decide_eq_false_2 by done. apply insert_non_empty.
Qed.

Lemma conforms_port_map l lc svc value :
  conforms l lc svc → service_ports (ls_ports (listener_spec l)) ≠ [] →
  port_map value (svc_ports (svc_spec svc)) ≠ ∅.
Proof.
  intros Hconf Hports. pose proof (cf_ports _ _ _ Hconf) as Hof. apply port_map_nonempty.
  - intros Hnil. rewrite Hnil in Hof. by apply Forall2_nil_inv_r in Hof.
  - apply Forall_forall. intros p [i Hi]%list_elem_of_lookup.
    destruct (Forall2_lookup_r _ _ _ _ _ Hof Hi) as (q & Hq & Hpq). rewrite Hpq. simpl.
    eapply service_ports_named. by eapply list_elem_of_lookup_2.
Qed.

Lemma status_ready w l lc type svc st :
  conforms l lc svc → self_contained lc type → service_ports (ls_ports (listener_spec l)) ≠ [] →
  status_spec w l lc svc st → is_ready st.
Proof.
  intros Hconf (Ht & _ & Hself) Hports Hst. pose proof (cf_type _ _ _ Hconf) as Htype.
  rewrite Ht in Htype. injection Htype as ->.
  destruct Hst as [names addrs ings Hty _ _ _|ings Hty _ _|ings Hty Heff _|Hty Heff].
  - left. simpl. unfold map_len. simpl. intros Hsize%map_size_empty_inv. revert Hsize.
    by eapply conforms_port_map.
  - rewrite Hty in Hself. by destruct Hself as [?|[? _]].
  - rewrite Hty in Hself. by destruct Hself as [?|[_ ?]].
  - by right.
Qed.

(** What the loop leaves: the Service is as wanted, written or not, and then the status. *)
Definition settled_from (l : Listener) (lc : ListenerClass) (w w' : W) : Prop :=
  ∃ w1 svc st,
    (w1 = w ∨ wrote stored KService (key_of (k:=KListener) l) svc w w1) ∧
    stored KService w1 (key_of (k:=KListener) l) = Some svc ∧ conforms l lc svc ∧
    status_spec w1 l lc svc st ∧ is_ready st ∧
    wrote stored KListener (key_of (k:=KListener) l) (with_status st l) w1 w'.

Lemma settled_run l lc type w w' :
  Reconcile (key_of (k:=KListener) l) w = (w', Ok zero_result) →
  stored KListener w (key_of (k:=KListener) l) = Some l →
  stored KListenerClass w (Key "" (ls_className (listener_spec l))) = Some lc →
  self_contained lc type → service_ports (ls_ports (listener_spec l)) ≠ [] →
  ∃ svc st, stored KService w (key_of (k:=KListener) l) = Some svc ∧ conforms l lc svc ∧
    status_spec w l lc svc st ∧ is_ready st ∧
    wrote stored KListener (key_of (k:=KListener) l) (with_status st l) w w'.
Proof.
  intros Hrun Hl Hlc Hself Hports.
  destruct (Reconcile_settles _ _ _ _ _ Hrun eq_refl Hl) as (lc' & svc & st & Hlc' & Hsvc & Hconf & Hst & Hw).
  rewrite Hlc in Hlc'. injection Hlc' as <-. exists svc, st. split_and!; try done.
  by eapply status_ready.
Qed.

Lemma loop_settles l lc type w :
  stored KListener w (key_of (k:=KListener) l) = Some l →
  stored KListenerClass w (Key "" (ls_className (listener_spec l))) = Some lc →
  self_contained lc type → service_ports (ls_ports (listener_spec l)) ≠ [] →
  ownable w l → ports_admissible l → hosts_ready w lc (key_of (k:=KListener) l) →
  ∃ w', reconcile_loop 2 (key_of (k:=KListener) l) w = (w', Ok zero_result) ∧ settled_from l lc w w'.
Proof.
  intros Hl Hlc Hself Hports Hown Hadm Hhosts. cbn [reconcile_loop].
  destruct (createService_settles l lc type w) as [Hcs|(w1 & svc & Hcs & Hw1 & Hcs1)]; [done..| |].
  - pose proof (createService_conforms _ _ _ _ Hcs eq_refl) as (_ & _ & svc & _ & Hsvc & _).
    destruct (Reconcile_total l lc type svc w) as [w' Hrun]; [done..|].
    exists w'. split; [by rewrite (bind_step _ _ _ _ _ Hrun)|].
    destruct (settled_run _ _ _ _ _ Hrun Hl Hlc Hself Hports) as (svc' & st & ? & ? & ? & ? & ?).
    exists w, svc', st. split; [by left|]. done.
  - assert (stored KListener w1 (key_of (k:=KListener) l) = Some l) as Hl1
      by (rewrite (wrote_other _ _ _ _ _ _ _ Hw1); [done|by left]).
    assert (stored KListenerClass w1 (Key "" (ls_className (listener_spec l))) = Some lc) as Hlc1
      by (rewrite (wrote_other _ _ _ _ _ _ _ Hw1); [done|by left]).
    assert (Reconcile (key_of (k:=KListener) l) w = (w1, Ok {| Requeue := true |})) as Hrun1.
    { unfold Reconcile. rewrite (bind_step _ _ w w (inl l));
        [|apply attempt_Ok_inv, (get_found KListener); by rewrite scoped_namespaced].
      by rewrite (bind_step _ _ _ _ _ Hcs). }
    destruct (Reconcile_total l lc type svc w1) as [w' Hrun]; [done..| |done|by eapply wrote_same|].
    { eapply hosts_ready_frame; [|done]. intros k key Hk. apply (wrote_other _ _ _ _ _ _ _ Hw1). left.
      by destruct Hk as [->| ->]. }
    exists w'. split; [rewrite (bind_step _ _ _ _ _ Hrun1); simpl; by rewrite (bind_step _ _ _ _ _ Hrun)|].
    destruct (settled_run _ _ _ _ _ Hrun Hl1 Hlc1 Hself Hports) as (svc' & st & Hs & ? & ? & ? & ?).
    assert (svc' = svc) as -> by (apply wrote_same in Hw1; congruence).
    exists w1, svc, st. split; [by right|]. done.
Qed.

(** C7: A Listener becomes ready in at most two reconciles, with an API server that answers and
    accepts the objects, when its class is self-contained: of type NodePort, or of type ClusterIP
    with another preferred address type than IP, and with a traffic policy; when it has named ports
    that the API server admits; when a Service of its name, if there is one, can be taken over; and
    when every node that hosts the Service has an address that can be published as the class
    prefers.  Then the loop on its request ends, the cluster holds a Service that conforms to the
    Listener and its class, the specified status is published and has an address, and nothing but
    the Service and the status was written.  (A load balancer is not waited for; the cases without
    a publishable address are [Reconcile_lb_panics] and [Reconcile_nodeport_panics].) *)
Theorem Listener_becomes_ready l lc type w :
  stored KListener w (key_of (k:=KListener) l) = Some l →
  stored KListenerClass w (Key "" (ls_className (listener_spec l))) = Some lc →
  self_contained lc type → service_ports (ls_ports (listener_spec l)) ≠ [] →
  ownable w l → ports_admissible l → hosts_ready w lc (key_of (k:=KListener) l) →
  ∃ w', reconcile_loop 2 (key_of (k:=KListener) l) w = (w', Ok zero_result) ∧ settled_from l lc w w'.
Proof. apply loop_settles. Qed.
End operator.

(** ** Witness *)

Definition fake_admissible (k : Kind) : Obj k → Prop :=
  match k return Obj k → Prop with
  | KService => λ s, NoDup (sp_name <$> svc_ports (svc_spec s))
  | KListener | KPodListeners | KPod | KPersistentVolume => λ _, True
  | _ => λ _, False
  end.

Lemma fake_fill_admissible k (o : Obj k) :
  written_kind k → fake_admissible k o → ∃ o', fill k o = Some o'.
Proof.
  intros [->|[->| ->]]; simpl; [|by eexists..]. intros Hnd. rewrite bool_decide_eq_true_2 by done.
  by eexists.
Qed.

#[export] Instance fake_reliable_writes : ReliableWrites cluster.
Proof.
  refine {| admissible := fake_admissible |}; simpl.
  - intros k o w Hk Hnone [o' Ho]%fake_fill_admissible; [|done]. rewrite Hnone, Ho. by eexists _, _.
  - intros k o w [c Hc]. rewrite Hc. by exists (ApiError AlreadyExists).
  - intros k o w Hk [c Hc] [o' Ho]%fake_fill_admissible; [|done]. rewrite Hc, Ho. by eexists _, _.
  - intros k o m w [c Hc] Hshape _. rewrite Hc. destruct k; try done; by eexists _, _.
  - intros l w [c Hc]. rewrite Hc. by eexists _, _.
Defined.

Lemma fresh_ports_admissible : ports_admissible test_listener.
Proof.
  intros svc _ Hof. simpl. unfold port_of in Hof.
  assert (sp_name <$> svc_ports (svc_spec svc) =
          sp_name <$> service_ports (ls_ports (listener_spec test_listener))) as ->.
  { induction Hof as [|d p ds ps Hp _ IH]; [done|]. csimpl. rewrite IH, Hp. done. }
  apply (bool_decide_unpack _). vm_compute. reflexivity.
Qed.

Lemma fresh_hosts_ready lc key : hosts_ready fresh_cluster lc key.
Proof.
  intros svc n _ (slice & ep & (Hst & _) & _). exfalso. revert Hst.
  change (stored KEndpointSlice fresh_cluster (key_of (k:=KEndpointSlice) slice))
    with (fake_stored KEndpointSlice fresh_cluster (key_of (k:=KEndpointSlice) slice)).
  unfold fake_stored. change (fresh_cluster KEndpointSlice) with (∅ : gmap ObjectKey EndpointSlice).
  by rewrite lookup_empty.
Qed.

Lemma Listener_becomes_ready_witness :
  ∃ w', reconcile_loop 2 (key_of (k:=KListener) test_listener) fresh_cluster = (w', Ok zero_result) ∧
    settled_from test_listener (test_class ServiceTypeNodePort AddressTypeHostnameConservative)
      fresh_cluster w'.
Proof.
  apply (Listener_becomes_ready _ _ ServiceTypeNodePort).
  - vm_compute. reflexivity.
  - vm_compute. reflexivity.
  - split; [reflexivity|]. split; [discriminate|by left].
  - discriminate.
  - intros svc Hsvc. exfalso. revert Hsvc. vm_compute. discriminate.
  - exact fresh_ports_admissible.
  - apply fresh_hosts_ready.
Defined.
