(* ===== verification/EndToEnd.v ===== *)
(** * From the claim to the mounted volume

    The two programs together.  A pod mounts a volume of a listener class: the first
    [NodePublishVolume] creates the Listener and fails because it is not ready; the operator
    reconciles it; the kubelet tries again and the volume is published.  The theorem shows that
    this always comes to an end when the API server and the node work. *)
From S2P Require Import Prelude GoRuntime GoStrings Api GoOs CsiTypes Util Service Reconciler.
From S2P Require Import CsiController CsiNode CsiNodeFiles CsiNodePublish NoLostUpdate Liveness.
Import Util.Address Util.Constant ServiceReconciler ServiceAddress ListenerReconciler NodeServer.

(** ** A node that works *)

(** The mounter succeeds on paths it can resolve, when no system call fails. *)
Class ReliableMounter `{Mounter} : Prop := {
  PathExists_total : ∀ s fs q, quiet fs → locate fs true (GoOs.elements s) = inr q →
    ∃ fs' b, PathExists s fs = (fs', Ok b);
  Mount_total : ∀ source s opts fs q, quiet fs → locate fs true (GoOs.elements s) = inr q →
    node_at (fs_nodes fs) q = Some Dir →
    ∃ fs', mounter_Mount source s "tmpfs" opts fs = (fs', Ok ());
}.

Section files.
Context `{!MapRange} `{!Mounter} `{!MounterLaws} `{!ReliableMounter}.

Lemma mount_total fs T d x :
  good_target fs (abs T) T d x → dirs (fs_nodes fs) d → quiet fs → fs_nodes fs !! T = None →
  ∃ fs', mount (abs T) fs = (fs', Ok ()) ∧ quiet fs'.
Proof.
  intros [_ Hsnoc Hplain Hwf Hclear] Hd Hq Hnone. unfold mount.
  destruct (PathExists_total (abs T) fs T) as (fs1 & b & Hpe); [done| |].
  { rewrite elements_abs by done. by apply (locate_dirs T d x). }
  pose proof (PathExists_target T d x Hsnoc Hplain fs fs1 b Hwf Hclear Hpe) as [Hs1 ->].
  rewrite (bind_step _ _ _ _ _ (on_error_step _ _ _ _ _ Hpe)).
  rewrite bool_decide_eq_false_2 by congruence.
  destruct Hs1 as (Hn1 & _ & _ & Hq1). specialize (Hq1 Hq).
  destruct (MkdirAll (abs T) fs1) as [fs2 r2] eqn:Hmk.
  pose proof (MkdirAll_made T fs1 fs2 r2) as Hmade.
  rewrite Hn1 in Hmade. destruct (Hmade Hplain Hclear Hmk) as ((_ & _ & Hq2) & _ & Hr).
  destruct r2 as [[]|e|]; [|by destruct Hr|done]. specialize (Hq2 Hq1).
  rewrite (bind_step _ _ _ _ _ (on_error_step _ _ _ _ _ Hmk)).
  assert (locate fs2 true (GoOs.elements (abs T)) = inr T) as Hloc.
  { rewrite elements_abs by done. by apply (locate_target T d x). }
  destruct (Mount_total "tmpfs" (abs T) ["noexec"; "nosuid"; "nodev"] fs2 T) as [fs3 Hm]; [done..| |].
  { pose proof (T_nonempty T d x Hsnoc) as HTne. destruct T as [|y T']; [done|].
    apply Hr; [done|done]. }
  exists fs3. split; [by apply on_error_step|].
  apply Mount_spec in Hm as (q & _ & _ & (_ & _ & _ & Hq3)). by apply Hq3.
Qed.

Lemma files_total fs T d x data dl :
  good_target fs (abs T) T d x → dirs (fs_nodes fs) d → quiet fs → fs_nodes fs !! T = None →
  Forall nameable data → last data = Some dl →
  ∃ fs', publish_files (abs T) data fs = (fs', Ok ()).
Proof.
  intros Hgt Hd Hq Hnone Hname Hlast.
  destruct (mount_total fs T d x Hgt Hd Hq Hnone) as (fs1 & Hm & Hq1).
  destruct Hgt as [_ Hsnoc Hplain Hwf Hclear]. unfold publish_files.
  rewrite (bind_step _ _ _ _ _ (on_error_step _ _ _ _ _ Hm)).
  eapply (mount_Ok T d x) in Hm as (_ & _ & HdT & Hbelow & _); [|done..].
  destruct (writeData (abs T) (Some data) fs1) as [fs2 r] eqn:Hw. exists fs2.
  assert (r = Ok ()) as ->; [|by apply on_error_step].
  eapply writeData_scripted in Hw as [_ Hr]; [|done|by eapply T_nonempty|done..|by apply fresh_shape].
  destruct r as [[]|e|]; [done|by destruct Hr|done].
Qed.
End files.

(** ** The calls of the API on the way *)

Section node.
Context {W : Type} `{HC : Client W} `{!ApiServer W} `{!ControllerUtil W} `{!ControllerUtilLaws W}.
Context `{!OperatorGo} `{!MapRange} `{!Mounter} `{!ReliableReads W} `{!ReliableWrites W}.

Lemma bind_api_step {A B} g (c : M W A) (f : A → M (W * FS) B) w w1 fs a :
  c w = (w1, Ok a) → (on_error g (api c) ≫= f) (w, fs) = f a (w1, fs).
Proof. intros Hc. unfold mbind, M_bind, on_error, api. simpl. by rewrite Hc. Qed.

Lemma files_step targetPath data (w : W) fs fs' :
  publish_files targetPath data fs = (fs', Ok ()) →
  (on_error internal (os (mount targetPath));;
   on_error internal (os (writeData targetPath (Some data)))) (w, fs) = ((w, fs'), Ok ()).
Proof.
  unfold publish_files, mbind, M_bind, on_error, os. cbn [fst snd].
  destruct (mount targetPath fs) as [fs1 [[]|e|]]; cbn [fst snd]; [|done..].
  destruct (writeData targetPath (Some data) fs1) as [fs2 [[]|e|]]; [|done..]. by intros [= ->].
Qed.

(** The end of [NodePublishVolume], once the Listener is known and the labels are written. *)
Definition publish_rest (request : NodePublishVolumeRequest) (pv : PersistentVolume) (pod : Pod)
    (listener0 : Listener) : M (W * FS) () :=
  fresh ← on_error internal (api (getAddresses listener0 pod));
  on_error internal (api (publishPodListener pod pv fresh.1 fresh.2));;
  on_error internal (os (mount (np_targetPath request)));;
  on_error internal (os (writeData (np_targetPath request) (Some fresh.2))).

Lemma publish_prefix request w fs name ns pv0 pod0 l0 w1 w2 w3 pv pod :
  validateNodePublishVolumeRequest request = Ok () →
  map_get (np_volumeContext request) CSI_STORAGE_POD_NAME = Some name →
  map_get (np_volumeContext request) CSI_STORAGE_POD_NAMESPACE = Some ns →
  stored KPersistentVolume w (Key "" (np_volumeId request)) = Some pv0 →
  stored KPod w (Key ns name) = Some pod0 →
  getListener pod0 pv0 (newVolumeContextFromMap (np_volumeContext request)) w = (w1, Ok l0) →
  patchPVLabelsWithListener pv0 l0 w1 = (w2, Ok pv) →
  patchPodLabelsWithListener pod0 l0 w2 = (w3, Ok pod) →
  NodePublishVolume request (w, fs) = publish_rest request pv pod l0 (w3, fs).
Proof.
  intros Hval Hname Hns Hpv Hpod Hl Hppv Hppod. unfold NodePublishVolume. rewrite Hval.
  assert (np_targetPath request ≠ "") as Ht.
  { unfold validateNodePublishVolumeRequest in Hval. by repeat case_bool_decide. }
  rewrite bool_decide_eq_false_2 by done.
  rewrite (bind_step _ (lift (Ok ())) _ (w, fs) ()) by done.
  rewrite (bind_step _ (mret ()) _ (w, fs) ()) by done. cbv zeta.
  rewrite (bind_step _ (api (getPV (np_volumeId request))) _ (w, fs) pv0).
  2: { unfold api, getPV. cbn [fst snd].
       by rewrite (get_found KPersistentVolume (Key "" (np_volumeId request)) w pv0). }
  cbn [newVolumeContextFromMap vc_Pod vc_PodNamespace]. rewrite Hname, Hns.
  rewrite (bind_step _ (lift (deref (Some name))) _ (w, fs) name) by done.
  rewrite (bind_step _ (lift (deref (Some ns))) _ (w, fs) ns) by done.
  rewrite (bind_api_step _ _ _ w w fs pod0) by (apply (get_found KPod); by rewrite scoped_namespaced).
  rewrite (bind_api_step _ _ _ _ _ fs _ Hl), (bind_api_step _ _ _ _ _ fs _ Hppv),
    (bind_api_step _ _ _ _ _ fs _ Hppod). done.
Qed.

Lemma patchPV_total pv0 l w :
  stored KPersistentVolume w (scoped KPersistentVolume (key_of (k:=KPersistentVolume) pv0)) = Some pv0 →
  (∀ ls, admissible KPersistentVolume (with_pv_labels ls pv0)) →
  ∃ w' pv, patchPVLabelsWithListener pv0 l w = (w', Ok pv).
Proof.
  intros Hst Hadm. unfold patchPVLabelsWithListener.
  destruct (maps_Copy (ensure_map (meta_labels (pv_meta pv0))) (ListenerMetaLabels l)) as [ls|e|] eqn:Hc;
    [|by destruct (meta_labels (pv_meta pv0))..].
  rewrite (bind_step _ (lift (Ok ls)) w w ls) by done.
  apply (patch_accepted KPersistentVolume); [|by exists (ListenerMetaLabels l), ls|done].
  change (key_of (k:=KPersistentVolume) (with_pv_labels ls pv0)) with (key_of (k:=KPersistentVolume) pv0).
  by rewrite Hst.
Qed.

Lemma patchPod_total pod0 l w :
  stored KPod w (key_of (k:=KPod) pod0) = Some pod0 →
  (∀ ls, admissible KPod (with_pod_labels ls pod0)) →
  ∃ w' pod, patchPodLabelsWithListener pod0 l w = (w', Ok pod).
Proof.
  intros Hst Hadm. unfold patchPodLabelsWithListener.
  destruct (maps_Copy (ensure_map (meta_labels (pod_meta pod0))) (ListenerMountPodLabels l)) as [ls|e|] eqn:Hc;
    [|by destruct (meta_labels (pod_meta pod0))..].
  rewrite (bind_step _ (lift (Ok ls)) w w ls) by done.
  apply (patch_accepted KPod); [|by exists (ListenerMountPodLabels l), ls|done].
  change (key_of (k:=KPod) (with_pod_labels ls pod0)) with (key_of (k:=KPod) pod0).
  rewrite scoped_namespaced by done. by rewrite Hst.
Qed.

(** The Listener of a claim is created, or found. *)
Lemma createListener_total ctx pv pod w cn ns lc ref pvc ports :
  vc_ListenerClassName ctx = Some cn → vc_PodNamespace ctx = Some ns →
  stored KListenerClass w (Key "" cn) = Some lc → pv_claimRef pv = Some ref →
  stored KPersistentVolumeClaim w (Key (claim_namespace ref) (claim_name ref)) = Some pvc →
  getPodPorts pod = Ok ports → meta_namespace (pv_meta pv) = "" →
  (∀ l, key_of (k:=KListener) l = Key ns (meta_name (pvc_meta pvc)) → admissible KListener l) →
  ∃ w' l, createListener ctx pv pod w = (w', Ok l).
Proof.
  intros Hcn Hns Hlc Href Hpvc Hports Hpvns Hadm. unfold createListener, getPVC.
  rewrite Hcn, Hns, Href, Hports. unfold deref, on_error_res.
  rewrite (bind_step _ (lift (Ok cn)) w w cn) by done.
  rewrite (bind_step _ (lift (Ok ns)) w w ns) by done.
  rewrite (bind_step _ _ w w lc) by (by apply on_error_step, (get_found KListenerClass)).
  rewrite (bind_step _ (lift (Ok ref)) w w ref) by done.
  rewrite (bind_step _ _ w w pvc)
    by (apply on_error_step, (get_found KPersistentVolumeClaim); by rewrite scoped_namespaced).
  rewrite (bind_step _ (lift (Ok ports)) w w ports) by done. cbv zeta.
  match goal with |- context [SetControllerReference _ _ ?m] =>
    destruct (SetControllerReference_ok KPersistentVolume (pv_meta pv) m) as [m' Hm];
      [apply Forall_nil_2|by left|] end.
  rewrite Hm. rewrite (bind_step _ (lift (Ok m')) w w m') by done.
  apply SetControllerReference_spec in Hm as (Hmeta & _).
  match goal with |- context [client_create KListener ?l0] => set (l := l0) end.
  assert (key_of (k:=KListener) l = Key ns (meta_name (pvc_meta pvc))) as Hkey.
  { unfold key_of, l. simpl. by rewrite Hmeta. }
  destruct (stored KListener w (key_of (k:=KListener) l)) as [l'|] eqn:Hl.
  - destruct (create_exists KListener l w) as (e & He & Hex); [by rewrite scoped_namespaced, Hl by done|].
    rewrite (bind_step _ _ w w (inr e)) by (by apply attempt_Ok_inv). rewrite Hex.
    exists w, l'. apply on_error_step, (get_found KListener). by rewrite scoped_namespaced.
  - destruct (create_accepted KListener l w) as (w' & l' & Hc);
      [by right; left|by rewrite scoped_namespaced|by apply Hadm|].
    rewrite (bind_step _ _ w w' (inl l')) by (by apply attempt_Ok_inv). by exists w', l'.
Qed.

Lemma getAddresses_total l0 l pod w :
  stored KListener w (key_of (k:=KListener) l0) = Some l → is_ready (listener_status l) →
  (∃ a, address_of_node w (pod_nodeName pod) a) →
  ∃ data, getAddresses l0 pod w = (w, Ok (l, data)).
Proof.
  intros Hl Hready (a & node & Hnode & Ha). unfold getAddresses.
  setoid_rewrite (bind_step _ _ w w l);
    [|apply (get_found KListener); by rewrite scoped_namespaced].
  case_bool_decide as Hnp; [|case_bool_decide as Hing].
  - setoid_rewrite (bind_step _ _ w w a); [by eexists|]. unfold getNodeAddressByPod.
    rewrite (bind_step _ _ w w node) by (by apply (get_found KNode)). unfold lift. by rewrite Ha.
  - by eexists.
  - exfalso. destruct Hready as [?|Hne]; [done|]. by apply Hne, nil_length_inv.
Qed.

Definition not_ready : error :=
  internal (New (Lit "could not get listener address from listener status, listener status is not ready")).

Lemma rest_not_ready request pv pod l w fs :
  stored KListener w (key_of (k:=KListener) l) = Some l → listener_status l = no_status →
  publish_rest request pv pod l (w, fs) = ((w, fs), Fail not_ready).
Proof.
  intros Hl Hst. unfold publish_rest. apply bind_fail.
  unfold on_error, api, getAddresses. cbn [fst snd].
  rewrite (bind_step _ _ w w l) by (apply (get_found KListener); by rewrite scoped_namespaced).
  rewrite Hst. by rewrite !bool_decide_eq_false_2 by (by intros []).
Qed.

Lemma publishPodListener_total pod pv l data w ref vol :
  pv_claimRef pv = Some ref →
  List.find (is_volume_of pod (claim_name ref)) (pod_volumes pod) = Some vol →
  (∀ o, key_of (k:=KPodListeners) o = podlisteners_key pod → admissible KPodListeners o) →
  ∃ w', publishPodListener pod pv l data w = (w', Ok ()).
Proof.
  intros Href Hvol Hadm. unfold publishPodListener, findPodVolumeNameForPVC. rewrite Href. unfold deref.
  rewrite (bind_step _ (lift (Ok ref)) w w ref) by done. rewrite Hvol.
  rewrite (bind_step _ (lift (Ok _)) w w (pv_volume_name vol)) by done. cbv zeta.
  destruct (buildPodListenersObject pod l (pv_volume_name vol) (determinePodListenerScope l) data)
    as [obj|e|] eqn:Hb.
  2,3: unfold buildPodListenersObject in Hb; destruct (SetControllerReference _ _ _) eqn:Hs; try done;
       by apply SetControllerReference_spec in Hs.
  rewrite (bind_step _ (lift (Ok obj)) w w obj) by done. apply build_inv in Hb as [Hkey Hls].
  unfold createOrUpdatePodListeners. rewrite Hkey, Hls.
  destruct (stored KPodListeners w (podlisteners_key pod)) as [old|] eqn:Hold.
  - rewrite (bind_step _ _ w w (inl old))
      by (apply attempt_Ok_inv, (get_found KPodListeners); by rewrite scoped_namespaced).
    pose proof (stored_key KPodListeners _ _ _ Hold) as Hk. rewrite scoped_namespaced in Hk by done.
    match goal with |- context [map_set ?m ?v ?pl] => destruct (map_set m v pl) as [ls|e|] eqn:Hset end;
      [|by destruct (pls_listeners old)..].
    rewrite (bind_step _ (lift (Ok ls)) w w ls) by done.
    destruct (patch_accepted KPodListeners old (with_listeners ls old) w) as (w' & n & Hp);
      [by rewrite scoped_namespaced; [|done]; exists old; rewrite <- Hold, <- Hk| |by apply Hadm|].
    { by eexists _, _, _. }
    exists w'. by rewrite (bind_step _ _ _ _ _ (on_error_step _ _ _ _ _ Hp)).
  - destruct (get_missing KPodListeners (podlisteners_key pod) w) as (e & He & Hnf);
      [by rewrite scoped_namespaced|].
    rewrite (bind_step _ _ w w (inr e)) by (by apply attempt_Ok_inv). rewrite Hnf.
    destruct (create_accepted KPodListeners obj w) as (w' & o & Hc);
      [by right; right|by rewrite scoped_namespaced, Hkey|by apply Hadm|].
    exists w'. by rewrite (bind_step _ _ _ _ _ (on_error_step _ _ _ _ _ Hc)).
Qed.
End node.

(** ** Deployments *)

Section end_to_end.
Context {W : Type} `{HC : Client W} `{!ApiServer W} `{!ControllerUtil W} `{!ControllerUtilLaws W}.
Context `{!OperatorGo} `{!MapRange} `{!Mounter} `{!MounterLaws}.
Context `{!ReliableReads W} `{!ReliableWrites W} `{!ReliableMounter}.

(** A pod that mounts, for the first time, a bound volume of a claim with a class annotation:
    neither the Listener nor the Service of the claim's name exists yet. *)
Record deployment (request : NodePublishVolumeRequest) (w : W) (name ns cn : string)
    (pv : PersistentVolume) (ref : ClaimRef) (pvc : PersistentVolumeClaim) (pod : Pod)
    (ports : list PortSpec) (vol : PodVolume) (lc : ListenerClass) (type : string) : Prop := {
  dp_valid : validateNodePublishVolumeRequest request = Ok ();
  dp_name : map_get (np_volumeContext request) CSI_STORAGE_POD_NAME = Some name;
  dp_ns : map_get (np_volumeContext request) CSI_STORAGE_POD_NAMESPACE = Some ns;
  dp_cn : map_get (np_volumeContext request) ListenerClassAnnotation = Some cn;
  dp_no_name : map_get (np_volumeContext request) AnnotationListenerName = None;
  dp_pv : stored KPersistentVolume w (Key "" (np_volumeId request)) = Some pv;
  dp_pv_ns : meta_namespace (pv_meta pv) = "";
  dp_ref : pv_claimRef pv = Some ref;
  dp_pvc : stored KPersistentVolumeClaim w (Key (claim_namespace ref) (claim_name ref)) = Some pvc;
  dp_pod : stored KPod w (Key ns name) = Some pod;
  dp_ports : getPodPorts pod = Ok ports;
  dp_vol : List.find (is_volume_of pod (claim_name ref)) (pod_volumes pod) = Some vol;
  dp_lc : stored KListenerClass w (Key "" cn) = Some lc;
  dp_class : self_contained lc type;
  dp_fresh_listener : stored KListener w (Key ns (meta_name (pvc_meta pvc))) = None;
  dp_fresh_service : stored KService w (Key ns (meta_name (pvc_meta pvc))) = None;
  dp_hosts : hosts_ready w lc (Key ns (meta_name (pvc_meta pvc)));
  dp_node : ∃ a, address_of_node w (pod_nodeName pod) a ∧ plain (Address a);
  (* names Kubernetes accepts are names of files *)
  dp_plain : Forall (λ p, plain (port_name p)) ports;
  dp_fqdn : plain (meta_name (pvc_meta pvc) +:+ "." +:+ ns +:+ ".svc.cluster.local");
}.

(** The API server's validation accepts what is written for the deployment. *)
Record admitted (request : NodePublishVolumeRequest) (name ns : string)
    (pvc : PersistentVolumeClaim) (pod : Pod) (ports : list PortSpec) : Prop := {
  ad_listener : ∀ l, key_of (k:=KListener) l = Key ns (meta_name (pvc_meta pvc)) → admissible KListener l;
  ad_pv : ∀ pv, scoped KPersistentVolume (key_of (k:=KPersistentVolume) pv) = Key "" (np_volumeId request) →
    admissible KPersistentVolume pv;
  ad_pod : ∀ pod, key_of (k:=KPod) pod = Key ns name → admissible KPod pod;
  ad_podlisteners : ∀ o, key_of (k:=KPodListeners) o = podlisteners_key pod → admissible KPodListeners o;
  ad_service : ∀ svc, key_of (k:=KService) svc = Key ns (meta_name (pvc_meta pvc)) →
    Forall2 port_of (service_ports ports) (svc_ports (svc_spec svc)) → admissible KService svc;
}.

Lemma podPorts_named pod ports p : getPodPorts pod = Ok ports → p ∈ ports → port_name p ≠ "".
Proof.
  intros [-> _]%getPodPorts_Ok (c & (cp & _ & Hcp)%list_elem_of_omap & _)%list_elem_of_bind.
  unfold container_port in Hcp. by case_bool_decide; simplify_eq.
Qed.

Lemma podPorts_service pod ports : getPodPorts pod = Ok ports → service_ports ports ≠ [].
Proof.
  intros Hp Hnil. pose proof (getPodPorts_Ok _ _ Hp) as [_ Hne]. destruct ports as [|p ports]; [done|].
  apply service_ports_nil in Hnil. apply Forall_cons in Hnil as [Hn _].
  eapply podPorts_named; [exact Hp|apply list_elem_of_here|done].
Qed.

(** One round of labels: the Listener is known, and the volume and the pod are labelled. *)
Lemma labels_written l w name ns pv pod id :
  stored KPersistentVolume w (Key "" id) = Some pv → stored KPod w (Key ns name) = Some pod →
  (∀ pv, scoped KPersistentVolume (key_of (k:=KPersistentVolume) pv) = Key "" id →
    admissible KPersistentVolume pv) →
  (∀ pod, key_of (k:=KPod) pod = Key ns name → admissible KPod pod) →
  ∃ w1 w2 ls1 ls2,
    patchPVLabelsWithListener pv l w = (w1, Ok (with_pv_labels ls1 pv)) ∧
    patchPodLabelsWithListener pod l w1 = (w2, Ok (with_pod_labels ls2 pod)) ∧
    stored KPersistentVolume w2 (Key "" id) = Some (with_pv_labels ls1 pv) ∧
    stored KPod w2 (Key ns name) = Some (with_pod_labels ls2 pod) ∧
    ∀ k key, k ≠ KPersistentVolume → k ≠ KPod → stored k w2 key = stored k w key.
Proof.
  intros Hpv Hpod Hapv Hapod.
  pose proof (stored_key KPersistentVolume _ _ _ Hpv) as Hkpv.
  pose proof (stored_key KPod _ _ _ Hpod) as Hkpod. rewrite scoped_namespaced in Hkpod by done.
  destruct (patchPV_total pv l w) as (w1 & pv1 & Hp1); [by rewrite Hkpv|intros ls; by apply Hapv|].
  pose proof Hp1 as (Hw1 & Heq1 & _)%patchPV_inv; [|by rewrite Hkpv]. rewrite Hkpv in Hw1.
  assert (stored KPod w1 (Key ns name) = Some pod) as Hpod1
    by (rewrite (wrote_other _ _ _ _ _ _ _ Hw1); [done|by left]).
  destruct (patchPod_total pod l w1) as (w2 & pod2 & Hp2); [by rewrite Hkpod|intros ls; by apply Hapod|].
  pose proof Hp2 as (Hw2 & Heq2 & _)%patchPod_inv; [|by rewrite Hkpod]. rewrite Hkpod in Hw2.
  exists w1, w2, (meta_labels (pv_meta pv1)), (meta_labels (pod_meta pod2)).
  rewrite <- Heq1, <- Heq2. split_and!; [done..| | |].
  - rewrite (wrote_other _ _ _ _ _ _ _ Hw2) by (by left). by eapply wrote_same.
  - by eapply wrote_same.
  - intros k key Hk1 Hk2. rewrite (wrote_other _ _ _ _ _ _ _ Hw2), (wrote_other _ _ _ _ _ _ _ Hw1) by (by left).
    done.
Qed.

Lemma getListener_class ctx pod pv w :
  vc_ListenerName ctx = None → getListener pod pv ctx w = createListener ctx pv pod w.
Proof. unfold getListener. by intros ->. Qed.

(** The first attempt creates the Listener and fails: it is not ready. *)
Lemma first_attempt request w fs name ns cn pv ref pvc pod ports vol lc type :
  deployment request w name ns cn pv ref pvc pod ports vol lc type →
  admitted request name ns pvc pod ports →
  ∃ w1 l ls1 ls2,
    NodePublishVolume request (w, fs) = ((w1, fs), Fail not_ready) ∧
    listener_for pv pvc pod ns lc l ∧
    stored KListener w1 (Key ns (meta_name (pvc_meta pvc))) = Some l ∧
    stored KPersistentVolume w1 (Key "" (np_volumeId request)) = Some (with_pv_labels ls1 pv) ∧
    stored KPod w1 (Key ns name) = Some (with_pod_labels ls2 pod) ∧
    ∀ k key, k ≠ KPersistentVolume → k ≠ KPod → k ≠ KListener → stored k w1 key = stored k w key.
Proof.
  intros [] [].
  set (ctx := newVolumeContextFromMap (np_volumeContext request)).
  destruct (createListener_total ctx pv pod w cn ns lc ref pvc ports) as (w1 & l & Hl); [done..|].
  rewrite <- (getListener_class ctx) in Hl by done.
  pose proof Hl as (ns' & Hns' & _ & Hl1 & Hsrc)%getListener_inv. simpl in Hns'.
  rewrite dp_ns0 in Hns'. injection Hns' as <-.
  destruct Hsrc as [(? & Hx & _)|(_ & cn' & Hcn' & Hmade)]; [simpl in Hx; congruence|].
  destruct Hmade as (lc' & ref' & pvc' & Hlc' & Href' & Hpvc' & Hmade). simpl in Hcn'.
  simplify_eq. destruct Hmade as [(_ & Hfor & Hw1)|(-> & Hk & Hst)]; [|rewrite Hk in Hst; congruence].
  pose proof (lf_key _ _ _ _ _ _ Hfor) as Hkey.
  destruct (labels_written l w1 name ns pv pod (np_volumeId request))
    as (w2 & w3 & ls1 & ls2 & Hp1 & Hp2 & Hpv3 & Hpod3 & Hfr); [..|done|done|].
  { by rewrite (wrote_other _ _ _ _ _ _ _ Hw1) by (by left). }
  { by rewrite (wrote_other _ _ _ _ _ _ _ Hw1) by (by left). }
  assert (stored KListener w3 (key_of (k:=KListener) l) = Some l) as Hl3 by (by rewrite Hfr).
  exists w3, l, ls1, ls2. split_and!; try done.
  - erewrite publish_prefix; [|done..]. apply rest_not_ready; [done|by eapply lf_status].
  - by rewrite <- Hkey.
  - intros k key Hk1 Hk2 Hk3. rewrite Hfr by done. apply (wrote_other _ _ _ _ _ _ _ Hw1). by left.
Qed.

(** The Listener the plugin created is one the operator can make ready. *)
Lemma operator_round request w w1 name ns cn pv ref pvc pod ports vol lc type l :
  deployment request w name ns cn pv ref pvc pod ports vol lc type →
  admitted request name ns pvc pod ports → listener_for pv pvc pod ns lc l →
  stored KListener w1 (Key ns (meta_name (pvc_meta pvc))) = Some l →
  (∀ k key, k ≠ KPersistentVolume → k ≠ KPod → k ≠ KListener → stored k w1 key = stored k w key) →
  ∃ w2, reconcile_loop 2 (Key ns (meta_name (pvc_meta pvc))) w1 = (w2, Ok zero_result) ∧
        settled_from l lc w1 w2.
Proof.
  intros [] [] Hfor Hl Hfr. pose proof (lf_key _ _ _ _ _ _ Hfor) as Hkey. rewrite <- Hkey in *.
  pose proof (getPodPorts_Ok _ _ dp_ports0) as [Hports _].
  assert (ls_ports (listener_spec l) = ports) as Hlp by (rewrite (lf_ports _ _ _ _ _ _ Hfor); done).
  assert (meta_name (lc_meta lc) = cn) as Hcn.
  { pose proof (stored_key KListenerClass _ _ _ dp_lc0) as Hk. unfold scoped, key_of in Hk. simpl in Hk.
    by injection Hk. }
  apply (loop_settles l lc type w1).
  - done.
  - rewrite (lf_class _ _ _ _ _ _ Hfor), Hcn. by rewrite Hfr.
  - done.
  - rewrite Hlp. by eapply podPorts_service.
  - intros svc Hsvc. rewrite Hfr in Hsvc by done. congruence.
  - intros svc Hk. rewrite Hlp. by apply ad_service0.
  - eapply hosts_ready_frame; [|done]. intros k key Hk. apply Hfr; by destruct Hk as [->| ->].
Qed.

(** The addresses of the published status can be written to files. *)
Lemma status_nameable w w1 pod l lc type svc st data ports :
  status_spec w1 l lc svc st → self_contained lc type → conforms l lc svc →
  ls_ports (listener_spec l) = ports → service_ports ports ≠ [] →
  Forall (λ p, plain (port_name p)) ports →
  plain (meta_name (svc_meta svc) +:+ "." +:+ meta_namespace (svc_meta svc) +:+ ".svc.cluster.local") →
  (∀ a, address_of_node w (pod_nodeName pod) a → plain (Address a)) →
  addresses_of w pod (with_status st l) data → Forall nameable data.
Proof.
  intros Hst (Ht & _ & Hself) Hconf Hlp Hsp Hplain Hfqdn Hnode Haddr.
  assert (∀ value n v, port_map value (svc_ports (svc_spec svc)) !! n = Some v → plain n) as Hports.
  { intros value n v (_ & l1 & p & l2 & Hp & <- & _)%port_map_lookup.
    assert (svc_ports (svc_spec svc) !! length l1 = Some p) as Hlook
      by (rewrite Hp; by apply list_lookup_middle).
    destruct (Forall2_lookup_r _ _ _ _ _ (cf_ports _ _ _ Hconf) Hlook) as (q & Hq & Hpq).
    rewrite Hpq. simpl. apply list_elem_of_lookup_2, list_elem_of_omap in Hq as (q0 & Hq0 & Hq).
    rewrite Hlp in Hq0. unfold service_port in Hq. case_bool_decide; simplify_eq. simpl.
    by apply (proj1 (Forall_forall _ _) Hplain). }
  pose proof (cf_type _ _ _ Hconf) as Htype. rewrite Ht in Htype. injection Htype as ->.
  destruct Haddr as [(Hlen & node & a & Hn & Ha & ->)|(Hlen & Hne & ->)]; simpl in *.
  - apply Forall_cons_2; [|apply Forall_nil_2]. split; simpl; [apply Hnode; by exists node|].
    destruct Hst as [names addrs ings Hty _ _ _| | |]; simpl in *; try done.
    intros n v. apply Hports.
  - destruct Hst as [names addrs ings Hty _ _ _|ings Hty _ _|ings Hty Heff _|Hty Heff]; simpl in *.
    + exfalso. revert Hlen. unfold map_len. simpl. intros Hz%map_size_empty_inv. revert Hz.
      eapply conforms_port_map; [done|]. by rewrite Hlp.
    + rewrite Hty in Hself. by destruct Hself as [?|[? _]].
    + rewrite Hty in Hself. by destruct Hself as [?|[_ ?]].
    + apply Forall_cons_2; [|apply Forall_nil_2]. split; simpl; [done|]. intros n v. apply Hports.
Qed.

(** The second attempt, on what the first one and the operator left. *)
Lemma second_attempt request w w2 fs name ns cn pv ref pvc pod ports vol lc type ls1 ls2 l T d x :
  deployment request w name ns cn pv ref pvc pod ports vol lc type →
  admitted request name ns pvc pod ports →
  np_targetPath request = abs T → good_target fs (abs T) T d x → dirs (fs_nodes fs) d → quiet fs →
  fs_nodes fs !! T = None →
  stored KListener w2 (Key ns (meta_name (pvc_meta pvc))) = Some l → is_ready (listener_status l) →
  stored KPersistentVolume w2 (Key "" (np_volumeId request)) = Some (with_pv_labels ls1 pv) →
  stored KPod w2 (Key ns name) = Some (with_pod_labels ls2 pod) →
  (∀ k key, k = KListenerClass ∨ k = KPersistentVolumeClaim ∨ k = KNode →
     stored k w2 key = stored k w key) →
  (∀ w3 data, (∀ key, stored KNode w3 key = stored KNode w key) → addresses_of w3 pod l data →
     Forall nameable data) →
  ∃ w3 fs', NodePublishVolume request (w2, fs) = ((w3, fs'), Ok ()).
Proof.
  intros [] [] Htarget Hgt Hd Hq Hnone Hl Hready Hpv Hpod Hfr Hname.
  set (ctx := newVolumeContextFromMap (np_volumeContext request)).
  destruct (createListener_total ctx (with_pv_labels ls1 pv) (with_pod_labels ls2 pod) w2 cn ns lc ref pvc
    ports) as (w3 & l' & Hl'); [done|done|by rewrite Hfr by auto|done|by rewrite Hfr by auto|done..|].
  rewrite <- (getListener_class ctx) in Hl' by done.
  pose proof Hl' as (ns' & Hns' & _ & _ & Hsrc)%getListener_inv. simpl in Hns'.
  rewrite dp_ns0 in Hns'. injection Hns' as <-.
  destruct Hsrc as [(? & Hx & _)|(_ & cn' & Hcn' & Hmade)]; [simpl in Hx; congruence|].
  destruct Hmade as (lc' & ref' & pvc' & Hlc' & Href' & Hpvc' & Hmade). simpl in Hcn', Href'.
  rewrite Hfr in Hpvc' by auto. simplify_eq.
  assert (w3 = w2 ∧ l' = l) as [-> ->].
  { destruct Hmade as [(Hn & Hfor & _)|(-> & Hk & Hst)].
    - rewrite (lf_key _ _ _ _ _ _ Hfor) in Hn. congruence.
    - rewrite Hk in Hst. by simplify_eq. }
  destruct (labels_written l w2 name ns _ _ (np_volumeId request) Hpv Hpod)
    as (w3 & w4 & ls3 & ls4 & Hp1 & Hp2 & _ & _ & Hfr4); [done..|].
  pose proof (stored_key KListener _ _ _ Hl) as Hkey. rewrite scoped_namespaced in Hkey by done.
  set (pod2 := with_pod_labels ls4 (with_pod_labels ls2 pod)) in *.
  destruct dp_node0 as (a & (node & Hnode & Ha) & _).
  destruct (getAddresses_total l l pod2 w4) as [data Haddr].
  { by rewrite Hkey, Hfr4. }
  { done. }
  { exists a, node. split; [|done]. rewrite Hfr4, Hfr by auto. done. }
  destruct (publishPodListener_total pod2 (with_pv_labels ls3 (with_pv_labels ls1 pv)) l data w4 ref vol)
    as [w5 Hrec]; [done..|].
  pose proof (getAddresses_inv _ _ _ _ _ _ Haddr) as (_ & _ & Haof).
  destruct (addresses_of_nonempty _ _ _ _ Haof) as [dl Hlast].
  destruct (files_total fs T d x data dl) as [fs' Hfiles]; [done..| |done|].
  { apply (Hname w4); [|done]. intros key. by rewrite Hfr4, Hfr by auto. }
  exists w5, fs'. erewrite publish_prefix; [|done..]. unfold publish_rest.
  rewrite (bind_api_step _ _ _ _ _ fs _ Haddr). cbn [fst snd].
  rewrite (bind_api_step _ _ _ _ _ fs _ Hrec). rewrite Htarget.
  by apply files_step.
Qed.

(** C2: A mounted listener volume gets published: let a pod mount for the first time, when neither a
    Listener nor a Service of the claim's name exists, a claim of a
    class that is self-contained (NodePort, or ClusterIP with host names preferred), with named
    container ports the API server admits, on a node with an address, every host of the Service
    being ready ([deployment], [admitted]), and let no system call fail and the target be missing.
    Then the first [NodePublishVolume] creates the Listener and fails with the error that it is
    not ready; at most two reconciles of that Listener by the operator make it ready; and the
    next [NodePublishVolume] of the kubelet succeeds. *)
Theorem volume_gets_published request w fs name ns cn pv ref pvc pod ports vol lc type T d x :
  deployment request w name ns cn pv ref pvc pod ports vol lc type →
  admitted request name ns pvc pod ports →
  np_targetPath request = abs T → good_target fs (abs T) T d x → dirs (fs_nodes fs) d → quiet fs →
  fs_nodes fs !! T = None →
  ∃ w1 w2 w3 fs',
    NodePublishVolume request (w, fs) = ((w1, fs), Fail not_ready) ∧
    reconcile_loop 2 (Key ns (meta_name (pvc_meta pvc))) w1 = (w2, Ok zero_result) ∧
    NodePublishVolume request (w2, fs) = ((w3, fs'), Ok ()).
Proof.
  intros Hdep Had Htarget Hgt Hd Hq Hnone.
  destruct (first_attempt _ _ fs _ _ _ _ _ _ _ _ _ _ _ Hdep Had)
    as (w1 & l & ls1 & ls2 & Hrun1 & Hfor & Hl1 & Hpv1 & Hpod1 & Hfr1).
  destruct (operator_round _ _ _ _ _ _ _ _ _ _ _ _ _ _ _ Hdep Had Hfor Hl1 Hfr1) as (w2 & Hloop & Hset).
  pose proof (lf_key _ _ _ _ _ _ Hfor) as Hkey.
  destruct Hset as (w1' & svc & st & Hsvcw & Hsvc & Hconf & Hst & Hready & Hw2). rewrite Hkey in *.
  assert (∀ k key, k ≠ KListener → k ≠ KService → stored k w2 key = stored k w1 key) as Hfr2.
  { intros k key Hk1 Hk2. rewrite (wrote_other _ _ _ _ _ _ _ Hw2) by (by left).
    destruct Hsvcw as [->|Hsvcw]; [done|]. by rewrite (wrote_other _ _ _ _ _ _ _ Hsvcw) by (by left). }
  assert (∀ k key, k = KListenerClass ∨ k = KPersistentVolumeClaim ∨ k = KNode →
            stored k w2 key = stored k w key) as Hfr.
  { intros k key Hk. rewrite Hfr2, Hfr1 by (by destruct Hk as [->|[->| ->]]). done. }
  destruct (second_attempt request w w2 fs name ns cn pv ref pvc pod ports vol lc type ls1 ls2
    (with_status st l) T d x) as (w3 & fs' & Hrun2); try done.
  - by eapply wrote_same.
  - by rewrite Hfr2.
  - by rewrite Hfr2.
  - intros w3 data Hnodes Haddr.
    pose proof (stored_key KService _ _ _ Hsvc) as Hks. rewrite scoped_namespaced in Hks by done.
    unfold key_of in Hks. injection Hks as Hsns Hsn. destruct Hdep.
    pose proof (getPodPorts_Ok _ _ dp_ports0) as [Hports _].
    apply (status_nameable w3 w1' pod l lc type svc st data ports); try done.
    + by rewrite (lf_ports _ _ _ _ _ _ Hfor).
    + by eapply podPorts_service.
    + simpl in *. by rewrite Hsns, Hsn.
    + intros a (node & Hn & Ha). destruct dp_node0 as (a' & (node' & Hn' & Ha') & Hp).
      rewrite Hnodes in Hn. congruence.
  - by exists w1, w2, w3, fs'.
Qed.
End end_to_end.
