(* ===== verification/EndToEndExamples.v ===== *)
(** * An example of the whole system

    The deployment of [CsiNodeExamples], before its Listener exists, and the witness of the
    theorem of [EndToEnd]. *)
From S2P Require Import Prelude GoRuntime GoStrings Api GoOs CsiTypes Util FakeClient Fixtures.
From S2P Require Import Service Reconciler CsiController CsiNode CsiNodeFiles CsiNodePublish CsiNodeExamples.
From S2P Require Import NoLostUpdate Liveness EndToEnd.
Import Util.Address Util.Constant ServiceReconciler ServiceAddress ListenerReconciler NodeServer.

#[export] Instance fake_reliable_mounter : ReliableMounter.
Proof.
  split; simpl.
  - intros s fs q _ Hloc. rewrite Hloc. by eexists _, _.
  - intros source s opts fs q _ Hloc Hdir. rewrite Hloc, Hdir. by eexists.
Qed.

Definition new_cluster : cluster :=
  add KPod test_pod (add KPersistentVolume test_pv
    (add KNode (test_node "node-1" "192.168.0.1") claim_cluster)).

Definition new_ports : list PortSpec :=
  [ {| port_name := "http"; port_protocol := "TCP"; port_port := 8080 |} ].

(** The three calls, evaluated. *)
Example new_attempts :
  let '(s1, r1) := NodePublishVolume test_publish (new_cluster, node_fs) in
  let '(w2, r2) := reconcile_loop 2 (Key "default" "data-0") s1.1 in
  let '(_, r3) := NodePublishVolume test_publish (w2, node_fs) in
  (r1, r2, r3) = (Fail not_ready, Ok zero_result, Ok ()).
Proof. vm_compute. reflexivity. Qed.

Lemma new_hosts_ready lc key : hosts_ready new_cluster lc key.
Proof.
  intros svc n _ (slice & ep & (Hst & _) & _). exfalso. revert Hst.
  change (stored KEndpointSlice new_cluster (key_of (k:=KEndpointSlice) slice))
    with (fake_stored KEndpointSlice new_cluster (key_of (k:=KEndpointSlice) slice)).
  unfold fake_stored. change (new_cluster KEndpointSlice) with (∅ : gmap ObjectKey EndpointSlice).
  by rewrite lookup_empty.
Qed.

Lemma new_deployment :
  deployment test_publish new_cluster "web-0" "default" "external" test_pv
    {| claim_name := "data-0"; claim_namespace := "default" |} test_claim test_pod new_ports
    {| pv_volume_name := "listener"; pv_claim_name := Some "data-0"; pv_ephemeral := false |}
    (test_class ServiceTypeNodePort AddressTypeHostnameConservative) ServiceTypeNodePort.
Proof.
  split; try (vm_compute; reflexivity).
  - split; [reflexivity|]. split; [discriminate|by left].
  - apply new_hosts_ready.
  - exists {| Address := "192.168.0.1"; AddressType := AddressTypeIP |}. split.
    + exists (test_node "node-1" "192.168.0.1"). split; vm_compute; reflexivity.
    + apply (bool_decide_unpack _). vm_compute. reflexivity.
  - apply (bool_decide_unpack _). vm_compute. reflexivity.
  - apply (bool_decide_unpack _). vm_compute. reflexivity.
Qed.

Lemma new_admitted : admitted test_publish "web-0" "default" test_claim test_pod new_ports.
Proof.
  split; try done. intros svc _ Hof. simpl.
  assert (sp_name <$> svc_ports (svc_spec svc) = ["http"]) as ->; [|apply NoDup_singleton].
  change ["http"] with (sp_name <$> service_ports new_ports).
  induction Hof as [|d p ds ps Hp _ IH]; [done|]. csimpl. rewrite IH, Hp. done.
Qed.

Lemma volume_gets_published_witness : ∃ w1 w2 w3 fs',
  NodePublishVolume test_publish (new_cluster, node_fs) = ((w1, node_fs), Fail not_ready) ∧
  reconcile_loop 2 (Key "default" (meta_name (pvc_meta test_claim))) w1 = (w2, Ok zero_result) ∧
  NodePublishVolume test_publish (w2, node_fs) = ((w3, fs'), Ok ()).
Proof.
  eapply (volume_gets_published _ _ _ _ _ _ _ _ _ _ _ _ _ _ target target_parent "mount").
  - exact new_deployment.
  - exact new_admitted.
  - reflexivity.
  - exact test_good_target.
  - exact node_fs_dirs.
  - reflexivity.
  - vm_compute. reflexivity.
Defined.
