(* ===== verification/Controllers.v ===== *)
(** * Controllers, events and the work queue

    The [SetupWithManager] functions of internal/controller: which objects the three
    controllers are for, what they watch and how a change becomes requests.  The delivery of
    events is controller-runtime's: the handlers of [For] and [Watches] put requests into a
    queue without duplicates, and a worker reconciles each until no requeue is asked for. *)
From S2P Require Import Prelude GoRuntime GoStrings Api FakeClient Fixtures Util Service Reconciler.
From S2P Require Import NoLostUpdate Liveness.
Import Util.Address ServiceReconciler ListenerReconciler.

(** ** Controllers *)

(** [Watches(&T{}, handler.EnqueueRequestsFromMapFunc(f))]. *)
Record Watch (W : Type) := {
  watch_kind : Kind;
  watch_map : Obj watch_kind → M W (list Request);
}.
Arguments watch_kind {W} _.
Arguments watch_map {W} _ _.

(** What [ctrl.NewControllerManagedBy(mgr)] is told before [Complete]. *)
Record Controller (W : Type) := {
  ctl_for : Kind;
  ctl_named : option string;
  ctl_watches : list (Watch W);
  ctl_reconcile : Request → M W Result;
}.
Arguments ctl_for {W} _.
Arguments ctl_named {W} _.
Arguments ctl_watches {W} _.
Arguments ctl_reconcile {W} _ _.

Section setup.
Context {W : Type} `{HC : Client W} `{!ControllerUtil W} `{!OperatorGo}.

Definition ListenerReconciler_SetupWithManager : Controller W := {|
  ctl_for := KListener;
  ctl_named := None;
  ctl_watches :=
    [ {| watch_kind := KEndpointSlice; watch_map := handleEndpointSliceChanges |};
      {| watch_kind := KPersistentVolume; watch_map := λ pv, mret (handlePVChanges pv) |};
      {| watch_kind := KListenerClass; watch_map := handleListenerClassChanges |} ];
  ctl_reconcile := Reconcile |}.

Definition ListenerClassReconciler_SetupWithManager : Controller W := {|
  ctl_for := KListenerClass; ctl_named := None; ctl_watches := [];
  ctl_reconcile := ListenerClassReconcile |}.

Definition PodListenersReconciler_SetupWithManager : Controller W := {|
  ctl_for := KPodListeners; ctl_named := Some "podlisteners"; ctl_watches := [];
  ctl_reconcile := PodListenersReconcile |}.
End setup.

(** ** Events *)

Inductive Event (k : Kind) :=
| Created (o : Obj k)
| Updated (old new : Obj k)
| Deleted (o : Obj k).
Arguments Created {k} o.
Arguments Updated {k} old new.
Arguments Deleted {k} o.

(** The objects of an event that a map function is applied to. *)
Definition event_objects {k} (e : Event k) : list (Obj k) :=
  match e with
  | Created o => [o]
  | Updated old new => [old; new]
  | Deleted o => [o]
  end.

(** [EnqueueRequestForObject]. *)
Definition event_request {k} (e : Event k) : Request :=
  match e with
  | Created o => key_of o
  | Updated _ new => key_of new
  | Deleted o => key_of o
  end.

Section dispatch.
Context {W : Type}.

(** The requests of one watch for an event: those of its own kind are mapped. *)
Definition watch_requests {k} (e : Event k) (wt : Watch W) : M W (list Request) :=
  match decide (k = watch_kind wt) with
  | left H =>
      reqs ← collect (watch_map wt) (event_objects (match H in _ = k' return Event k' with eq_refl => e end));
      mret (mjoin reqs)
  | right _ => mret []
  end.

(** The requests in the queue of a controller after an event. *)
Definition dispatch (c : Controller W) {k} (e : Event k) : M W (list Request) :=
  mapped ← collect (watch_requests e) (ctl_watches c);
  mret (remove_dups ((if bool_decide (ctl_for c = k) then [event_request e] else []) ++ mjoin mapped)).

(** A worker on one request. *)
Fixpoint work (reconcile : Request → M W Result) (runs : nat) (req : Request) : M W Result :=
  match runs with
  | 0 => mret {| Requeue := true |}
  | S runs => result ← reconcile req;
              if IsZero result then mret result else work reconcile runs req
  end.

(** The controller's reaction to an event: every request in the queue is worked off. *)
Definition react (runs : nat) (c : Controller W) {k} (e : Event k) : M W (list Result) :=
  reqs ← dispatch c e; collect (work (ctl_reconcile c) runs) reqs.
End dispatch.

(** ** Reacting to a change of a class *)

Section class_change.
Context {W : Type} `{HC : Client W} `{!ApiServer W} `{!ControllerUtil W} `{!ControllerUtilLaws W}.
Context `{!OperatorGo} `{!ReliableReads W} `{!ReliableWrites W}.

Lemma watch_requests_other {k} (e : Event k) (wt : Watch W) w :
  k ≠ watch_kind wt → watch_requests e wt w = (w, Ok []).
Proof. unfold watch_requests. by destruct (decide (k = watch_kind wt)). Qed.

Lemma watch_requests_own {k} (e : Event k) (f : Obj k → M W (list Request)) w :
  watch_requests e {| watch_kind := k; watch_map := f |} w =
  (reqs ← collect f (event_objects e); mret (mjoin reqs)) w.
Proof.
  unfold watch_requests. simpl. destruct (decide (k = k)) as [Heq|]; [|done].
  by rewrite (proof_irrel Heq eq_refl).
Qed.

(** Every Listener of the class is in the queue after its change, and nothing else. *)
Lemma class_dispatch old lc w :
  meta_name (lc_meta old) = meta_name (lc_meta lc) →
  ∃ reqs, dispatch ListenerReconciler_SetupWithManager (Updated (k:=KListenerClass) old lc) w = (w, Ok reqs) ∧
    NoDup reqs ∧ ∀ key, key ∈ reqs ↔ ∃ l, stored KListener w key = Some l ∧
                          ls_className (listener_spec l) = meta_name (lc_meta lc).
Proof.
  intros Hname. destruct (class_requests old w) as (r1 & Hr1 & H1). destruct (class_requests lc w) as (r2 & Hr2 & H2).
  set (e := Updated (k:=KListenerClass) old lc).
  assert (watch_requests e {| watch_kind := KListenerClass; watch_map := handleListenerClassChanges |} w
          = (w, Ok (r1 ++ r2 ++ []))) as Hw3.
  { rewrite watch_requests_own. rewrite (bind_step _ _ w w [r1; r2]); [done|]. simpl.
    rewrite (bind_step _ _ _ _ _ Hr1), (bind_step _ _ w w [r2]); [done|].
    by rewrite (bind_step _ _ _ _ _ Hr2). }
  exists (remove_dups (r1 ++ r2)). split; [|split; [apply NoDup_remove_dups|]].
  - unfold dispatch. rewrite (bind_step _ _ w w [[]; []; r1 ++ r2 ++ []]).
    + rewrite bool_decide_eq_false_2 by done. simpl. by rewrite !app_nil_r.
    + cbn [collect ctl_watches ListenerReconciler_SetupWithManager].
      rewrite (bind_step _ _ w w []) by (by apply watch_requests_other).
      rewrite (bind_step _ _ w w [[]; r1 ++ r2 ++ []]); [done|].
      rewrite (bind_step _ _ w w []) by (by apply watch_requests_other).
      rewrite (bind_step _ _ w w [r1 ++ r2 ++ []]); [done|]. by rewrite (bind_step _ _ _ _ _ Hw3).
  - intros key. rewrite elem_of_remove_dups, elem_of_app, H1, H2, Hname. tauto.
Qed.

Lemma work_loop runs req w : work Reconcile runs req w = reconcile_loop runs req w.
Proof.
  revert w. induction runs as [|runs IH]; intros w; [done|]. simpl. unfold mbind, M_bind.
  destruct (Reconcile req w) as [w1 [r|e|]]; [|done..]. by destruct (IsZero r).
Qed.

(** ** Serving several Listeners one after the other *)

(** A Listener the operator can serve, as it is in the cluster. *)
Record servable (w : W) (lc : ListenerClass) (key : ObjectKey) (l : Listener) : Prop := {
  sv_stored : stored KListener w key = Some l;
  sv_class : stored KListenerClass w (Key "" (ls_className (listener_spec l))) = Some lc;
  sv_ports : service_ports (ls_ports (listener_spec l)) ≠ [];
  sv_ownable : ownable w l;
  sv_admissible : ports_admissible l;
  sv_hosts : hosts_ready w lc key;
}.

(** A Listener that is served: its Service conforms, its status is the specified one. *)
Definition served (w : W) (lc : ListenerClass) (key : ObjectKey) (l : Listener) : Prop :=
  ∃ svc st, stored KService w key = Some svc ∧ conforms l lc svc ∧ status_spec w l lc svc st ∧
            is_ready st ∧ stored KListener w key = Some (with_status st l).

(** Only the Services and Listeners under the given keys differ. *)
Definition only_at (keys : list ObjectKey) (w w' : W) : Prop :=
  ∀ k key, (k ≠ KService ∧ k ≠ KListener ∨ key ∉ keys) → stored k w' key = stored k w key.

Lemma only_at_hosts keys w w' : only_at keys w w' → same_hosts w w'.
Proof. intros Ho k key Hk. apply Ho. left. by destruct Hk as [->| ->]. Qed.

Lemma hosts_frame w w' svc n : same_hosts w w' → hosts w svc n → hosts w' svc n.
Proof.
  intros Hs (slice & ep & (Hst & ?) & ? & ?). exists slice, ep. split; [|done]. split; [|done].
  rewrite <- Hst. apply Hs. by left.
Qed.

(** The status a Listener should have depends on the Service and the hosts only. *)
Lemma status_spec_frame w w' l lc svc st :
  same_hosts w w' → status_spec w l lc svc st → status_spec w' l lc svc st.
Proof.
  intros Hs Hst. assert (same_hosts w' w) as Hs' by (intros k key Hk; symmetry; by apply Hs).
  destruct Hst as [names addrs ings Ht Hn Ha Hi|ings Ht Hne Hi|ings Ht He Hi|Ht He].
  - apply (status_NodePort _ _ _ _ names addrs); [done| |eapply Forall2_impl; [exact Ha|]|done].
    + intros n. rewrite Hn. split; by apply hosts_frame.
    + intros n a (node & Hnode & Hp). exists node. split; [|done]. rewrite <- Hnode. apply Hs. by right.
  - by apply status_LoadBalancer.
  - by apply status_ClusterIP.
  - by apply status_FQDN.
Qed.

Lemma settled_served l lc w w' :
  settled_from l lc w w' →
  served w' lc (key_of (k:=KListener) l) l ∧ only_at [key_of (k:=KListener) l] w w'.
Proof.
  intros (w1 & svc & st & Hw1 & Hsvc & Hconf & Hst & Hready & Hw').
  assert (only_at [key_of (k:=KListener) l] w w') as Honly.
  { intros k key Hk. rewrite (wrote_other _ _ _ _ _ _ _ Hw') by (set_solver).
    destruct Hw1 as [->|Hw1]; [done|]. apply (wrote_other _ _ _ _ _ _ _ Hw1). set_solver. }
  split; [|done]. exists svc, st. split_and!; [|done| |done|by eapply wrote_same].
  - rewrite <- Hsvc. apply (wrote_other _ _ _ _ _ _ _ Hw'). by left.
  - eapply status_spec_frame; [|done]. intros k key Hk. apply (wrote_other _ _ _ _ _ _ _ Hw').
    left. by destruct Hk as [->| ->].
Qed.

Lemma servable_frame keys w w' lc key l :
  only_at keys w w' → key ∉ keys → servable w lc key l → servable w' lc key l.
Proof.
  intros Ho Hkey [Hl Hc Hp Hown Hadm Hh].
  pose proof (stored_key KListener _ _ _ Hl) as Hk. rewrite scoped_namespaced in Hk by done. split.
  - rewrite <- Hl. apply Ho. by right.
  - rewrite <- Hc. apply Ho. by left.
  - done.
  - intros svc Hsvc. apply Hown. rewrite <- Hsvc. symmetry. apply Ho. right. by rewrite Hk.
  - done.
  - eapply hosts_ready_frame; [by eapply only_at_hosts|done].
Qed.

Lemma served_frame keys w w' lc key l :
  only_at keys w w' → key ∉ keys → served w lc key l → served w' lc key l.
Proof.
  intros Ho Hkey (svc & st & Hsvc & Hconf & Hst & Hr & Hl). exists svc, st. split_and!; try done.
  - rewrite <- Hsvc. apply Ho. by right.
  - eapply status_spec_frame; [by eapply only_at_hosts|done].
  - rewrite <- Hl. apply Ho. by right.
Qed.

(** Working off a queue serves every Listener in it, and one does not disturb another. *)
Lemma queue_served reqs w :
  NoDup reqs → (∀ key, key ∈ reqs → ∃ l lc type, self_contained lc type ∧ servable w lc key l) →
  ∃ w' results, collect (work Reconcile 2) reqs w = (w', Ok results) ∧
    Forall (λ r, r = zero_result) results ∧ only_at reqs w w' ∧
    (∀ key l lc, key ∈ reqs → servable w lc key l → served w' lc key l).
Proof.
  intros Hnd. revert w. induction Hnd as [|key reqs Hkey _ IH]; intros w Hsv.
  { exists w, []. split_and!; [done|constructor|by intros ???|by intros ??? ?%not_elem_of_nil]. }
  destruct (Hsv key) as (l & lc & type & Hself & Hl); [apply list_elem_of_here|]. pose proof Hl as [Hst Hcl Hp Hown Hadm Hh].
  pose proof (stored_key KListener _ _ _ Hst) as Hk. rewrite scoped_namespaced in Hk by done.
  destruct (loop_settles l lc type w) as (w1 & Hrun & [Hserved Hone]%settled_served); [by rewrite ?Hk..|].
  rewrite Hk in Hrun, Hserved, Hone.
  assert (∀ k2, k2 ∈ reqs → k2 ∉ [key]) as Hne by (intros k2 ? ?%list_elem_of_singleton; congruence).
  destruct (IH w1) as (w2 & results & Hrun2 & Hz & Honly & Hall).
  { intros k2 Hk2. destruct (Hsv k2) as (l2 & lc2 & type2 & ? & Hl2); [by apply list_elem_of_further|].
    exists l2, lc2, type2. split; [done|]. eapply servable_frame; eauto. }
  exists w2, (zero_result :: results). split_and!.
  - cbn [collect]. rewrite (bind_step _ _ w w1 zero_result) by (by rewrite work_loop).
    by rewrite (bind_step _ _ _ _ _ Hrun2).
  - by constructor.
  - intros k k2 Hcond. rewrite Honly, Hone by set_solver. done.
  - intros k2 l2 lc2 [->|Hk2]%elem_of_cons Hl2.
    + destruct Hl2 as [Hst2 Hcl2 _ _ _ _]. simplify_eq. by eapply served_frame.
    + apply Hall; [done|]. by eapply servable_frame; eauto.
Qed.

(** C8: A change of a class reaches every Listener of it: when a ListenerClass is updated to one that
    is self-contained (NodePort, or ClusterIP without a preference for IP addresses) and every
    Listener of the class is servable (named ports the API server admits, a Service that can be
    taken over, hosts with an address to publish), the controller reconciles all Listeners of the
    class, each at most twice, and ends with the Service of every one of them conforming to the new
    class and its status published; no other object is written. *)
Theorem class_change_propagates old lc type w :
  meta_name (lc_meta old) = meta_name (lc_meta lc) → self_contained lc type →
  (∀ key l, stored KListener w key = Some l → ls_className (listener_spec l) = meta_name (lc_meta lc) →
     servable w lc key l) →
  ∃ w' results keys,
    react 2 ListenerReconciler_SetupWithManager (Updated (k:=KListenerClass) old lc) w = (w', Ok results) ∧
    Forall (λ r, r = zero_result) results ∧ only_at keys w w' ∧
    ∀ key l, stored KListener w key = Some l →
      (key ∈ keys ↔ ls_className (listener_spec l) = meta_name (lc_meta lc)) ∧
      (ls_className (listener_spec l) = meta_name (lc_meta lc) → served w' lc key l).
Proof.
  intros Hname Hself Hsv. destruct (class_dispatch old lc w Hname) as (reqs & Hd & Hnd & Hreqs).
  destruct (queue_served reqs w) as (w' & results & Hrun & Hz & Honly & Hall); [done| |].
  { intros key (l & Hl & Hc)%Hreqs. exists l, lc, type. split; [done|]. by apply Hsv. }
  exists w', results, reqs. split_and!; [|done..|].
  - unfold react. by rewrite (bind_step _ _ _ _ _ Hd).
  - intros key l Hl. assert (key ∈ reqs ↔ ls_className (listener_spec l) = meta_name (lc_meta lc)) as Hiff.
    { rewrite Hreqs. split; [intros (l' & ? & ?); congruence|by exists l]. }
    split; [done|]. intros Hc. apply Hall; [by apply Hiff|by apply Hsv].
Qed.

(** ** Reacting to a change of the endpoints *)

Lemma collect_requests {A} (f : A → M W (list Request)) (R : A → Request → Prop) xs w :
  (∀ x, ∃ reqs, f x w = (w, Ok reqs) ∧ ∀ key, key ∈ reqs ↔ R x key) →
  ∃ rs, collect f xs w = (w, Ok rs) ∧ ∀ key, key ∈ mjoin rs ↔ ∃ x, x ∈ xs ∧ R x key.
Proof.
  intros Hf. induction xs as [|x xs (rs & Hrs & Hin)].
  { exists []. split; [done|]. intros key. split; [by intros ?%not_elem_of_nil|by intros (? & ?%not_elem_of_nil & _)]. }
  destruct (Hf x) as (r & Hr & Hrin). exists (r :: rs). cbn [collect].
  rewrite (bind_step _ _ _ _ _ Hr), (bind_step _ _ _ _ _ Hrs). split; [done|].
  intros key. simpl. rewrite elem_of_app, Hrin, Hin. setoid_rewrite elem_of_cons. naive_solver.
Qed.

(** The Listeners in the queue after an event of an EndpointSlice. *)
Lemma slice_dispatch (e : Event KEndpointSlice) w :
  ∃ reqs, dispatch ListenerReconciler_SetupWithManager e w = (w, Ok reqs) ∧ NoDup reqs ∧
    ∀ key, key ∈ reqs ↔ ∃ slice, slice ∈ event_objects e ∧
                          ∃ l, stored KListener w key = Some l ∧ concerns slice l.
Proof.
  destruct (collect_requests handleEndpointSliceChanges
    (λ slice key, ∃ l, stored KListener w key = Some l ∧ concerns slice l) (event_objects e) w)
    as (rs & Hrs & Hin); [intros slice; apply slice_requests|].
  exists (remove_dups (mjoin rs)). split; [|split; [apply NoDup_remove_dups|]].
  - unfold dispatch. rewrite (bind_step _ _ w w [mjoin rs; []; []]).
    + rewrite bool_decide_eq_false_2 by done. simpl. by rewrite !app_nil_r.
    + cbn [collect ctl_watches ListenerReconciler_SetupWithManager].
      rewrite (bind_step _ _ w w (mjoin rs)) by (rewrite watch_requests_own; by rewrite (bind_step _ _ _ _ _ Hrs)).
      rewrite (bind_step _ _ w w [[]; []]); [done|].
      rewrite (bind_step _ _ w w []) by (by apply watch_requests_other).
      rewrite (bind_step _ _ w w [[]]); [done|].
      by rewrite (bind_step _ _ w w []) by (by apply watch_requests_other).
  - intros key. by rewrite elem_of_remove_dups.
Qed.

(** C9: A change of the endpoints reaches the published addresses: when an EndpointSlice is
    created, updated or deleted, and the Listeners whose published Service it belongs to (before or
    after the change) are servable and of self-contained classes (NodePort, or ClusterIP without a
    preference for IP addresses), the controller reconciles exactly these Listeners, each at most
    twice, and ends with the status of each being the specified one for the nodes that host the
    Service now; no other object is written. *)
Theorem endpoint_change_propagates (e : Event KEndpointSlice) w :
  (∀ key l slice, stored KListener w key = Some l → slice ∈ event_objects e → concerns slice l →
     ∃ lc type, self_contained lc type ∧ servable w lc key l) →
  ∃ w' results keys,
    react 2 ListenerReconciler_SetupWithManager e w = (w', Ok results) ∧
    Forall (λ r, r = zero_result) results ∧ only_at keys w w' ∧
    ∀ key l, stored KListener w key = Some l →
      (key ∈ keys ↔ ∃ slice, slice ∈ event_objects e ∧ concerns slice l) ∧
      (key ∈ keys → ∃ lc, servable w lc key l ∧ served w' lc key l).
Proof.
  intros Hsv. destruct (slice_dispatch e w) as (reqs & Hd & Hnd & Hreqs).
  assert (∀ key l, stored KListener w key = Some l →
    key ∈ reqs ↔ ∃ slice, slice ∈ event_objects e ∧ concerns slice l) as Hiff.
  { intros key l Hl. rewrite Hreqs. split; [intros (slice & ? & l' & ? & ?)|intros (slice & ? & ?)]; exists slice;
      naive_solver congruence. }
  destruct (queue_served reqs w) as (w' & results & Hrun & Hz & Honly & Hall); [done| |].
  { intros key (slice & Hs & l & Hl & Hc)%Hreqs. exists l. by eapply Hsv. }
  exists w', results, reqs. split_and!; [|done..|].
  - unfold react. by rewrite (bind_step _ _ _ _ _ Hd).
  - intros key l Hl. split; [by apply Hiff|]. intros Hkey.
    pose proof (proj1 (Hiff key l Hl) Hkey) as (slice & Hs & Hc).
    destruct (Hsv key l slice Hl Hs Hc) as (lc & type & _ & Hserv). exists lc. split; [done|]. by apply Hall.
Qed.
End class_change.

(** ** Witness *)

(** Two Listeners of one class, whose type was changed to NodePort. *)
Definition second_listener : Listener :=
  {| listener_meta := test_meta "server" "data" "second-uid";
     listener_spec := {|
       ls_className := "external";
       ls_ports := [ {| port_name := "http"; port_protocol := "TCP"; port_port := 80 |} ];
       ls_publishNotReady := Some true; ls_extraPodSelectorLabels := None |};
     listener_status := no_status |}.

Definition old_class : ListenerClass := test_class ServiceTypeLoadBalancer AddressTypeIP.
Definition new_class : ListenerClass := test_class ServiceTypeNodePort AddressTypeHostnameConservative.
Definition two_listeners : cluster := add KListener second_listener fresh_cluster.

Lemma two_stored key l :
  stored KListener two_listeners key = Some l → l = test_listener ∨ l = second_listener.
Proof.
  change (stored KListener two_listeners key) with (fake_stored KListener two_listeners key).
  unfold fake_stored. change (two_listeners KListener) with
    (<[Key "data" "server" := second_listener]> (<[Key "default" "client" := test_listener]> ∅)
       : gmap ObjectKey Listener).
  rewrite lookup_insert, lookup_insert, lookup_empty. repeat case_decide; [|case_bool_decide..|done]; naive_solver.
Qed.

Lemma unique_names_admissible l :
  NoDup (sp_name <$> service_ports (ls_ports (listener_spec l))) → ports_admissible (W:=cluster) l.
Proof.
  intros Hnd svc _ Hof. simpl. unfold port_of in Hof.
  assert (sp_name <$> svc_ports (svc_spec svc) =
          sp_name <$> service_ports (ls_ports (listener_spec l))) as ->; [|done].
  clear Hnd. induction Hof as [|d p ds ps Hp _ IH]; [done|]. csimpl. rewrite IH, Hp. done.
Qed.

Lemma two_servable key l : stored KListener two_listeners key = Some l → servable two_listeners new_class key l.
Proof.
  intros Hst. pose proof (stored_key KListener _ _ _ Hst) as Hk. rewrite scoped_namespaced in Hk by done.
  assert (hosts_ready two_listeners new_class key) as Hh.
  { intros svc n _ (slice & ep & (Hsl & _) & _). exfalso. revert Hsl.
    change (stored KEndpointSlice two_listeners (key_of (k:=KEndpointSlice) slice))
      with (fake_stored KEndpointSlice two_listeners (key_of (k:=KEndpointSlice) slice)).
    unfold fake_stored. change (two_listeners KEndpointSlice) with (∅ : gmap ObjectKey EndpointSlice).
    by rewrite lookup_empty. }
  apply two_stored in Hst as Hl. subst key. destruct Hl as [->| ->]; split; [exact Hst|reflexivity|done| | |done|
    exact Hst|reflexivity|done| | |done].
  1,3: intros svc Hsvc; exfalso; revert Hsvc; vm_compute; discriminate.
  all: apply unique_names_admissible, (bool_decide_unpack _); vm_compute; reflexivity.
Qed.

Lemma class_change_propagates_witness :
  ∃ w' results keys,
    react 2 ListenerReconciler_SetupWithManager (Updated (k:=KListenerClass) old_class new_class)
      two_listeners = (w', Ok results) ∧
    Forall (λ r, r = zero_result) results ∧ only_at keys two_listeners w' ∧
    ∀ key l, stored KListener two_listeners key = Some l →
      (key ∈ keys ↔ ls_className (listener_spec l) = "external") ∧
      (ls_className (listener_spec l) = "external" → served w' new_class key l).
Proof.
  apply (class_change_propagates old_class new_class ServiceTypeNodePort two_listeners).
  - reflexivity.
  - split; [reflexivity|]. split; [discriminate|by left].
  - intros key l Hl _. by apply two_servable.
Defined.

(** The pods of a published Listener have moved from two nodes to one. *)
Definition moved_listener : Listener :=
  with_status {| lst_serviceName := "client"; lst_ingressAddresses := []; lst_nodePorts := None |} test_listener.
Definition moved_slice : EndpointSlice :=
  {| es_meta := es_meta test_slice; es_endpoints := [ {| endpoint_nodeName := Some "node-2" |} ] |}.
Definition moved_cluster : cluster :=
  add KListenerClass new_class (add KListener moved_listener (add KEndpointSlice moved_slice
    (add KNode (test_node "node-2" "192.168.0.2") empty_cluster))).

Lemma moved_stored key l : stored KListener moved_cluster key = Some l → l = moved_listener.
Proof.
  change (stored KListener moved_cluster key) with (fake_stored KListener moved_cluster key).
  unfold fake_stored. change (moved_cluster KListener) with
    (<[Key "default" "client" := moved_listener]> ∅ : gmap ObjectKey Listener).
  rewrite lookup_insert, lookup_empty. case_decide; [case_bool_decide|]; naive_solver.
Qed.

Lemma moved_hosts key : hosts_ready moved_cluster new_class key.
Proof.
  intros svc n _ (slice & ep & (Hst & _) & Hep & Hn). revert Hst.
  change (stored KEndpointSlice moved_cluster (key_of (k:=KEndpointSlice) slice))
    with (fake_stored KEndpointSlice moved_cluster (key_of (k:=KEndpointSlice) slice)).
  unfold fake_stored. change (moved_cluster KEndpointSlice) with
    (<[Key "default" "client-abc" := moved_slice]> ∅ : gmap ObjectKey EndpointSlice).
  rewrite lookup_insert, lookup_empty. case_decide; [|done]. case_bool_decide; [|done]. intros [= <-].
  apply list_elem_of_singleton in Hep as ->. injection Hn as <-.
  exists {| Address := "192.168.0.2"; AddressType := AddressTypeIP |}. split; [|left; vm_compute; reflexivity].
  exists (test_node "node-2" "192.168.0.2"). split; vm_compute; reflexivity.
Qed.

Lemma moved_servable : servable moved_cluster new_class (Key "default" "client") moved_listener.
Proof.
  split; [vm_compute; reflexivity|vm_compute; reflexivity|done| | |apply moved_hosts].
  - intros svc Hsvc. exfalso. revert Hsvc. vm_compute. discriminate.
  - apply unique_names_admissible, (bool_decide_unpack _). vm_compute. reflexivity.
Qed.

Lemma endpoint_change_propagates_witness :
  ∃ w' results keys,
    react 2 ListenerReconciler_SetupWithManager (Updated (k:=KEndpointSlice) test_slice moved_slice)
      moved_cluster = (w', Ok results) ∧
    Forall (λ r, r = zero_result) results ∧ only_at keys moved_cluster w' ∧
    ∀ key l, stored KListener moved_cluster key = Some l →
      (key ∈ keys ↔ ∃ slice, slice ∈ [test_slice; moved_slice] ∧ concerns slice l) ∧
      (key ∈ keys → ∃ lc, servable moved_cluster lc key l ∧ served w' lc key l).
Proof.
  apply (endpoint_change_propagates (Updated (k:=KEndpointSlice) test_slice moved_slice) moved_cluster).
  intros key l slice Hl _ _. pose proof (stored_key KListener _ _ _ Hl) as Hk. rewrite scoped_namespaced in Hk by done.
  apply moved_stored in Hl as ->. subst key. exists new_class, ServiceTypeNodePort.
  split; [|exact moved_servable]. split; [reflexivity|]. split; [discriminate|by left].
Defined.

(** The status names the node the pods are on now. *)
Example moved_addresses :
  (λ l, ias_address <$> lst_ingressAddresses (listener_status l)) <$>
    stored KListener (react 2 ListenerReconciler_SetupWithManager
      (Updated (k:=KEndpointSlice) test_slice moved_slice) moved_cluster).1 (Key "default" "client") =
  Some ["192.168.0.2"].
Proof. vm_compute. reflexivity. Qed.
