(* ===== verification/Rbac.v ===== *)
(** * Access rights

    The service accounts of the operator and of the plugin may do what their roles allow.  The
    code asks for rights in its [+kubebuilder:rbac] markers; config/rbac holds the role that is
    generated from them, the Helm chart its own copies.  Here the markers and the roles are data,
    with Kubernetes' meaning of a rule; the theorems relate them to each other and to the calls
    the handlers can make ([Interleaving], [Concurrent]). *)
From stdpp Require Import relations.
From S2P Require Import Prelude GoRuntime GoStrings Api GoOs CsiTypes Util Service Reconciler.
From S2P Require Import CsiController CsiNode Interleaving Concurrent Liveness Controllers.
From S2P Require Import FakeClient Fixtures CsiNodeExamples.
Import Util.Address Util.Constant ServiceReconciler ServiceAddress ListenerReconciler.
Import ControllerServer NodeServer.

(** ** Rules *)

(** What is asked of the authorizer: a verb on a resource, or on a subresource, of a group. *)
Record permission := Permission { verb : string; group : string; resource : string }.
#[export] Instance permission_eq_dec : EqDecision permission.
Proof. solve_decision. Defined.

(** [rbacv1.PolicyRule], and what it allows: a star stands for everything. *)
Record PolicyRule := Rule { apiGroups : list string; resources : list string; verbs : list string }.
Notation role := (list PolicyRule).

Definition listed (x : string) (xs : list string) : Prop := x ∈ xs ∨ "*" ∈ xs.
Definition rule_allows (p : permission) (r : PolicyRule) : Prop :=
  listed (verb p) (verbs r) ∧ listed (group p) (apiGroups r) ∧ listed (resource p) (resources r).

(** Rules only add rights. *)
Definition allows (rs : role) (p : permission) : Prop := Exists (rule_allows p) rs.
#[export] Instance allows_dec rs p : Decision (allows rs p).
Proof. unfold allows, rule_allows, listed. apply _. Defined.

(** Roles are compared by what they allow. *)
#[export] Instance role_equiv : Equiv role := λ rs1 rs2, ∀ p, allows rs1 p ↔ allows rs2 p.
#[export] Instance role_equivalence : Equivalence (≡@{role}).
Proof.
  split; [by intros rs p|by intros rs1 rs2 Heq p; symmetry|]. intros rs1 rs2 rs3 H12 H23 p.
  etrans; [apply H12|apply H23].
Qed.
#[export] Instance allows_proper : Proper ((≡@{role}) ==> (=) ==> iff) allows.
Proof. intros rs1 rs2 Heq p _ <-. apply Heq. Qed.
Lemma allows_app rs1 rs2 p : allows (rs1 ++ rs2) p ↔ allows rs1 p ∨ allows rs2 p.
Proof. apply Exists_app. Qed.
#[export] Instance app_role_proper : Proper ((≡@{role}) ==> (≡@{role}) ==> (≡@{role})) (++).
Proof. intros rs1 rs2 Heq rs3 rs4 Heq' p. by rewrite !allows_app, Heq, Heq'. Qed.

(** Without stars the rights of a role can be listed. *)
Definition rule_rights (r : PolicyRule) : list permission :=
  v ← verbs r; g ← apiGroups r; x ← resources r; [Permission v g x].
Definition rights (rs : role) : list permission := rs ≫= rule_rights.
Definition plain (rs : role) : Prop :=
  Forall (λ r, "*" ∉ verbs r ∧ "*" ∉ apiGroups r ∧ "*" ∉ resources r) rs.
#[export] Instance plain_dec rs : Decision (plain rs).
Proof. unfold plain. apply _. Defined.

Lemma elem_of_rule_rights p r :
  p ∈ rule_rights r ↔ verb p ∈ verbs r ∧ group p ∈ apiGroups r ∧ resource p ∈ resources r.
Proof.
  unfold rule_rights. rewrite list_elem_of_bind. setoid_rewrite list_elem_of_bind.
  setoid_rewrite list_elem_of_bind. setoid_rewrite list_elem_of_singleton. split.
  - intros (v & (g & (x & -> & Hx) & Hg) & Hv). done.
  - intros (Hv & Hg & Hx). exists (verb p). split; [|done]. exists (group p). split; [|done].
    exists (resource p). split; [by destruct p|done].
Qed.

Lemma allows_rights rs p : plain rs → allows rs p ↔ p ∈ rights rs.
Proof.
  intros Hplain. unfold allows, rights. rewrite Exists_exists, list_elem_of_bind.
  split; intros (r & H1 & H2).
  - exists r. split; [|done]. apply elem_of_rule_rights. destruct H2 as (Hv & Hg & Hx).
    apply (proj1 (Forall_forall _ _) Hplain) in H1 as (Nv & Ng & Nx). unfold listed in *. naive_solver.
  - exists r. split; [done|]. apply elem_of_rule_rights in H1 as (Hv & Hg & Hx). by split_and!; left.
Qed.

(** Plain roles can be compared by computation. *)
Lemma role_equiv_computed rs1 rs2 :
  bool_decide (plain rs1 ∧ plain rs2 ∧ Forall (allows rs2) (rights rs1) ∧ Forall (allows rs1) (rights rs2)) = true →
  rs1 ≡ rs2.
Proof.
  intros (H1 & H2 & H12 & H21)%bool_decide_eq_true p. rewrite Forall_forall in H12, H21.
  split; intros Hp; [apply H12|apply H21]; by apply allows_rights.
Qed.

(** ** The markers *)

(** controller-gen writes the group of the core API as core. *)
Definition marker (groups resources verbs : list string) : PolicyRule :=
  Rule ((λ g, if bool_decide (g = "core") then "" else g) <$> groups) resources verbs.

Definition kubedoop : list string := ["listeners.kubedoop.dev"].
Definition read_verbs : list string := ["get"; "list"; "watch"].
Definition all_verbs : list string := ["get"; "list"; "watch"; "create"; "update"; "patch"; "delete"].

(** internal/controller/listener/controller.go. *)
Definition listener_markers : role := [
  marker kubedoop ["listeners"] all_verbs;
  marker kubedoop ["listeners/status"] ["get"; "update"; "patch"];
  marker kubedoop ["listeners/finalizers"] ["update"];
  marker kubedoop ["listenerclasses"] read_verbs;
  marker ["core"] ["services"] all_verbs;
  marker ["discovery.k8s.io"] ["endpointslices"] read_verbs;
  marker ["core"] ["persistentvolumes"] read_verbs;
  marker kubedoop ["listenerclasses"] read_verbs;
  marker ["core"] ["nodes"] read_verbs ].

(** internal/controller/listenerclass_controller.go and podlisteners_controller.go. *)
Definition listenerclass_markers : role := [
  marker kubedoop ["listenerclasses"] all_verbs;
  marker kubedoop ["listenerclasses/status"] ["get"; "update"; "patch"];
  marker kubedoop ["listenerclasses/finalizers"] ["update"] ].
Definition podlisteners_markers : role := [
  marker kubedoop ["podlisteners"] all_verbs;
  marker kubedoop ["podlisteners/status"] ["get"; "update"; "patch"];
  marker kubedoop ["podlisteners/finalizers"] ["update"] ].

(** internal/csi/driver.go. *)
Definition driver_markers : role := [
  marker ["storage.k8s.io"] ["csidrivers"] read_verbs;
  marker ["storage.k8s.io"] ["storageclasses"] read_verbs;
  marker kubedoop ["listeners"] ["get"; "list"; "watch"; "create"];
  marker kubedoop ["podlisteners"] ["get"; "list"; "watch"; "create"; "update"; "patch"];
  marker kubedoop ["listenerclasses"] read_verbs;
  marker ["core"] ["persistentvolumeclaims"] read_verbs;
  marker ["core"] ["persistentvolumes"] all_verbs;
  marker ["core"] ["nodes"] read_verbs;
  marker ["core"] ["pods"] ["get"; "list"; "watch"; "update"; "patch"];
  marker ["core"] ["events"] ["get"; "list"; "watch"; "create"; "update"; "patch"] ].

(** ** The roles *)

(** config/rbac/role.yaml. *)
Definition manager_role : role := [
  Rule [""] ["events"] ["create"; "get"; "list"; "patch"; "update"; "watch"];
  Rule [""] ["nodes"; "persistentvolumeclaims"] ["get"; "list"; "watch"];
  Rule [""] ["persistentvolumes"; "services"]
    ["create"; "delete"; "get"; "list"; "patch"; "update"; "watch"];
  Rule [""] ["pods"] ["get"; "list"; "patch"; "update"; "watch"];
  Rule ["discovery.k8s.io"] ["endpointslices"] ["get"; "list"; "watch"];
  Rule ["listeners.kubedoop.dev"] ["listenerclasses"; "listeners"; "podlisteners"]
    ["create"; "delete"; "get"; "list"; "patch"; "update"; "watch"];
  Rule ["listeners.kubedoop.dev"] ["listenerclasses/finalizers"; "listeners/finalizers"; "podlisteners/finalizers"]
    ["update"];
  Rule ["listeners.kubedoop.dev"] ["listenerclasses/status"; "listeners/status"; "podlisteners/status"]
    ["get"; "patch"; "update"];
  Rule ["storage.k8s.io"] ["csidrivers"; "storageclasses"] ["get"; "list"; "watch"] ].

(** config/rbac/metrics_auth_role.yaml: what the filter of the metrics server needs. *)
Definition metrics_auth_role : role := [
  Rule ["authentication.k8s.io"] ["tokenreviews"] ["create"];
  Rule ["authorization.k8s.io"] ["subjectaccessreviews"] ["create"] ].

(** The two cluster roles of the chart, templates/clusterrole.yaml. *)
Definition chart_csi_role : role := [
  Rule [""] ["events"] ["create"; "get"; "list"; "patch"; "update"; "watch"];
  Rule [""] ["nodes"; "persistentvolumeclaims"] ["get"; "list"; "watch"];
  Rule [""] ["persistentvolumes"; "services"]
    ["create"; "delete"; "get"; "list"; "patch"; "update"; "watch"];
  Rule [""] ["pods"] ["get"; "list"; "patch"; "update"; "watch"];
  Rule ["discovery.k8s.io"] ["endpointslices"] ["get"; "list"; "watch"];
  Rule ["listeners.kubedoop.dev"] ["listenerclasses"; "listeners"; "podlisteners"]
    ["create"; "delete"; "get"; "list"; "patch"; "update"; "watch"];
  Rule ["listeners.kubedoop.dev"] ["listenerclasses/finalizers"; "listeners/finalizers"; "podlisteners/finalizers"]
    ["update"];
  Rule ["listeners.kubedoop.dev"] ["listenerclasses/status"; "listeners/status"; "podlisteners/status"]
    ["get"; "patch"; "update"];
  Rule ["storage.k8s.io"] ["csidrivers"; "storageclasses"] ["get"; "list"; "watch"] ].
Definition chart_role : role := [
  Rule [""] ["events"] ["create"; "get"; "list"; "patch"; "update"; "watch"];
  Rule [""] ["nodes"; "persistentvolumeclaims"] ["get"; "list"; "watch"];
  Rule [""] ["persistentvolumes"; "services"]
    ["create"; "delete"; "get"; "list"; "patch"; "update"; "watch"];
  Rule [""] ["pods"] ["get"; "list"; "patch"; "update"; "watch"];
  Rule ["discovery.k8s.io"] ["endpointslices"] ["get"; "list"; "watch"];
  Rule ["listeners.kubedoop.dev"] ["listenerclasses"; "listeners"; "podlisteners"]
    ["create"; "delete"; "get"; "list"; "patch"; "update"; "watch"];
  Rule ["listeners.kubedoop.dev"] ["listenerclasses/finalizers"; "listeners/finalizers"; "podlisteners/finalizers"]
    ["update"];
  Rule ["listeners.kubedoop.dev"] ["listenerclasses/status"; "listeners/status"; "podlisteners/status"]
    ["get"; "patch"; "update"];
  Rule ["storage.k8s.io"] ["csidrivers"; "storageclasses"] ["get"; "list"; "watch"] ].

(** The two programs and the two ways to install them. *)
Inductive program_name := OperatorProgram | PluginProgram.
Inductive installation := Kustomize | Chart.

(** The cluster roles bound to the account of a program: with kustomize both run as the account
    controller-manager (role_binding.yaml and metrics_auth_role_binding.yaml of config/rbac), the
    chart has an account and a role for each (templates/clusterrolebinding.yaml, unless
    serviceAccount.create is false: then the accounts are the user's).  The roles for leader election,
    which are not cluster roles, come on top. *)
Definition bound_roles (i : installation) (p : program_name) : role :=
  match i, p with
  | Kustomize, _ => manager_role ++ metrics_auth_role
  | Chart, OperatorProgram => chart_role
  | Chart, PluginProgram => chart_csi_role
  end.

(** The markers in the code of a program. *)
Definition markers (p : program_name) : role :=
  match p with
  | OperatorProgram => listener_markers ++ listenerclass_markers ++ podlisteners_markers
  | PluginProgram => driver_markers
  end.

(** ** What the programs ask for *)

(** The REST resource of a kind. *)
Definition resource_of (k : Kind) : string * string :=
  match k with
  | KPod => ("", "pods")
  | KPersistentVolume => ("", "persistentvolumes")
  | KPersistentVolumeClaim => ("", "persistentvolumeclaims")
  | KNode => ("", "nodes")
  | KService => ("", "services")
  | KEndpointSlice => ("discovery.k8s.io", "endpointslices")
  | KListener => ("listeners.kubedoop.dev", "listeners")
  | KListenerClass => ("listeners.kubedoop.dev", "listenerclasses")
  | KPodListeners => ("listeners.kubedoop.dev", "podlisteners")
  end.
Definition on_kind (v : string) (k : Kind) : permission :=
  Permission v (resource_of k).1 (resource_of k).2.

(** The rights a call needs.  The client of a manager reads through an informer, which lists and
    watches the kind. *)
Definition required (cl : call) : list permission :=
  match cl with
  | CGet k _ => [on_kind "get" k; on_kind "list" k; on_kind "watch" k]
  | CList k _ => [on_kind "list" k; on_kind "watch" k]
  | CCreate k _ => [on_kind "create" k]
  | CUpdate k _ => [on_kind "update" k]
  | CPatch k _ _ => [on_kind "patch" k]
  | CStatusUpdate _ => [Permission "update" "listeners.kubedoop.dev" "listeners/status"]
  end.

(** The rights suffice for a call. *)
Definition authorized (rs : role) (cl : call) : Prop := Forall (allows rs) (required cl).
#[export] Instance authorized_dec rs cl : Decision (authorized rs cl).
Proof. unfold authorized. apply _. Defined.

Section handlers.
Context {W : Type} `{HC : Client W} `{!ApiServer W} `{!ControllerUtil W} `{!ControllerUtilLaws W}.
Context `{!OperatorGo} `{!MapRange} `{!Mounter}.

Notation asks := (λ p, emits alone (λ _, authorized (markers p))).
Notation asks_files := (λ p, emits (@pair replay FS) (λ _, authorized (markers p))).

Lemma asks_call {A} p c (decode : answer → res A) :
  bool_decide (authorized (markers p) c) = true → asks p (ask c decode).
Proof. intros Hc. apply emits_ask. intros _. by apply bool_decide_eq_true in Hc. Qed.

Lemma asks_if {A} p (b : bool) (c1 c2 : M replay A) : asks p c1 → asks p c2 → asks p (if b then c1 else c2).
Proof. by destruct b. Qed.

(** Go through a handler call by call; the rights of each call are computed. *)
Ltac asks_steps :=
  repeat first
    [ progress cbv zeta | solve [eauto with calls] | apply asks_call; by vm_compute
    | apply emits_bind; [|intros ?] | apply emits_on_error | apply emits_attempt
    | apply emits_collect; intros ? | apply emits_retry | apply asks_if
    | apply emits_lift
    | match goal with a : _ + error |- _ => destruct a end ].

Lemma asks_Reconcile req : asks OperatorProgram (Reconcile req).
Proof.
  unfold Reconcile, createService, ServiceReconciler.getListenerClass, updateListenerStatus, describe,
    preferredAddressType, service_status, getNodesAddresses, getNodeNames, node_address, write_status.
  cbn [CreateOrUpdate replay_controller_util RetryOnConflict]. asks_steps.
Qed.
Lemma asks_events :
  (∀ lc, asks OperatorProgram (handleListenerClassChanges lc)) ∧
  (∀ slice, asks OperatorProgram (handleEndpointSliceChanges slice)).
Proof.
  split; intros x; [unfold handleListenerClassChanges|unfold handleEndpointSliceChanges; case_match]; asks_steps.
Qed.

Lemma asks_CreateVolume creq : asks PluginProgram (CreateVolume creq).
Proof.
  unfold CreateVolume, getVolumeContext, ControllerServer.getListenerClass. asks_steps.
  repeat case_match; asks_steps.
Qed.

Lemma asks_getListener pod pv ctx : asks PluginProgram (getListener pod pv ctx).
Proof. unfold getListener, createListener, getPVC. destruct (vc_ListenerName ctx); asks_steps. Qed.
Lemma asks_getAddresses l pod : asks PluginProgram (getAddresses l pod).
Proof. unfold getAddresses, getNodeAddressByPod. asks_steps. Qed.
Lemma asks_publishPodListener pod pv l data : asks PluginProgram (publishPodListener pod pv l data).
Proof. unfold publishPodListener, createOrUpdatePodListeners. asks_steps. Qed.

Lemma asks_NodePublishVolume request : asks_files PluginProgram (NodePublishVolume request).
Proof.
  unfold NodePublishVolume.
  repeat (apply emits_bind; [|intros ?]); try apply emits_on_error;
    first [apply emits_lift | apply emits_os | apply emits_api | case_bool_decide; apply emits_lift].
  - unfold getPV. asks_steps.
  - unfold getPod. asks_steps.
  - apply asks_getListener.
  - unfold patchPVLabelsWithListener. asks_steps.
  - unfold patchPodLabelsWithListener. asks_steps.
  - apply asks_getAddresses.
  - apply asks_publishPodListener.
Qed.

(** Which program runs a handler. *)
Inductive runs : program_name → M replay () → Prop :=
| runs_reconcile req : runs OperatorProgram (ignore_result (Reconcile req))
| runs_class lc : runs OperatorProgram (ignore_result (handleListenerClassChanges lc))
| runs_slice slice : runs OperatorProgram (ignore_result (handleEndpointSliceChanges slice))
| runs_publish request fs : runs PluginProgram (with_files (NodePublishVolume request) fs)
| runs_provision creq : runs PluginProgram (ignore_result (CreateVolume creq)).

Lemma runs_asks p c : runs p c → asks p c.
Proof.
  destruct asks_events as [Hclass Hslice].
  intros [req|lc|slice|request fs|creq];
    [apply emits_bind; [|intros; apply emits_ret]..|apply emits_with_files, asks_NodePublishVolume
    |apply emits_bind; [|intros; apply emits_ret]].
  - apply asks_Reconcile.
  - apply Hclass.
  - apply Hslice.
  - apply asks_CreateVolume.
Qed.

Lemma next_asks p c h cl : runs p c → next c h = inl cl → authorized (markers p) cl.
Proof.
  intros Hc Hn. destruct (runs_asks _ _ Hc [] h ()) as (used & h' & [] & pd & r & -> & Hrun & Hpd).
  unfold alone in Hrun. unfold next in Hn. rewrite Hrun in Hn. destruct pd; [|done].
  injection Hn as <-. by destruct Hpd as (_ & _ & ?).
Qed.

(** The rights a program needs: for the next call of one of its handlers, whatever the handler was
    answered before; and for the kinds its controllers watch. *)
Definition controllers : list (Controller W) :=
  [ListenerClassReconciler_SetupWithManager; ListenerReconciler_SetupWithManager;
   PodListenersReconciler_SetupWithManager].

Inductive needs : program_name → permission → Prop :=
| needs_call p c h cl perm : runs p c → next c h = inl cl → perm ∈ required cl → needs p perm
| needs_watch c k v :
    c ∈ controllers → k ∈ ctl_for c :: (watch_kind <$> ctl_watches c) → v ∈ ["list"; "watch"] →
    needs OperatorProgram (on_kind v k).

Lemma needs_marked p perm : needs p perm → allows (markers p) perm.
Proof.
  intros [p' c h cl perm' Hc Hn Hperm|c k v Hc Hk Hv].
  - pose proof (next_asks _ _ _ _ Hc Hn) as Ha. by apply (proj1 (Forall_forall _ _) Ha).
  - assert (Forall (λ k, Forall (λ v, allows (markers OperatorProgram) (on_kind v k)) ["list"; "watch"])
      (controllers ≫= λ c, ctl_for c :: (watch_kind <$> ctl_watches c))) as Hall.
    { cbn [controllers mbind list_bind app ctl_for ctl_watches watch_kind fmap list_fmap].
      apply (bool_decide_unpack _). by vm_compute. }
    rewrite Forall_forall in Hall. specialize (Hall k). rewrite Forall_forall in Hall.
    apply Hall; [|done]. apply list_elem_of_bind. by exists c.
Qed.

(** The markers of both programs together. *)
Definition all_markers : role := markers OperatorProgram ++ markers PluginProgram.

Lemma manager_role_generated : manager_role ≡ all_markers.
Proof. apply role_equiv_computed. by vm_compute. Qed.
Lemma chart_role_copied : chart_role ≡ all_markers ∧ chart_csi_role ≡ all_markers.
Proof. split; apply role_equiv_computed; by vm_compute. Qed.

Lemma markers_bound i p perm : allows (markers p) perm → allows (bound_roles i p) perm.
Proof.
  intros Hp. assert (allows all_markers perm) as Hall by (apply allows_app; destruct p; auto).
  destruct chart_role_copied as [Hrole Hcsi], i, p; cbn [bound_roles].
  1, 2: apply allows_app; left; by rewrite manager_role_generated.
  - by rewrite Hrole.
  - by rewrite Hcsi.
Qed.

(** C10: The programs never lack a right, however they are installed and whatever the API server
    answers: the markers in the code of each program cover every call its handlers can make, the
    reads by the informers behind the client included, and the kinds its controllers watch; and
    the roles bound to its account grant what the markers ask for. *)
Theorem programs_authorized i p perm :
  needs p perm → allows (markers p) perm ∧ allows (bound_roles i p) perm.
Proof. intros Hn%needs_marked. split; [done|by apply markers_bound]. Qed.
End handlers.

(** The roles are those of the markers: config/rbac/role.yaml and the two roles of the chart allow
    exactly what the markers of the code ask for, no more and no less. *)
Lemma roles_generated :
  manager_role ≡ all_markers ∧ chart_role ≡ all_markers ∧ chart_csi_role ≡ all_markers.
Proof. split; [apply manager_role_generated|apply chart_role_copied]. Qed.

(** The first calls of a reconcile and of a provisioning. *)
Definition one_listener : Request := Key "default" "web".
Lemma programs_authorized_witness :
  allows driver_markers (Permission "get" "" "persistentvolumeclaims") ∧
  allows (bound_roles Chart OperatorProgram) (Permission "list" "listeners.kubedoop.dev" "listeners").
Proof.
  split.
  - apply (programs_authorized (W:=cluster) Kustomize PluginProgram).
    eapply (needs_call _ _ [] (CGet KPersistentVolumeClaim _)); [by apply (runs_provision test_create_request)|reflexivity|].
    apply list_elem_of_here.
  - apply (programs_authorized (W:=cluster) Chart OperatorProgram).
    eapply (needs_call _ _ [] (CGet KListener one_listener)); [by apply (runs_reconcile one_listener)|reflexivity|].
    apply list_elem_of_further, list_elem_of_here.
Defined.
