(* ===== verification/GoJson.v ===== *)
(** * JSON texts of strings

    What the program uses of Go's encoding/json: the encoding of a struct whose fields are
    strings.  [quote_json] writes a string byte by byte as [json.Marshal] does, HTML
    characters, line separators and invalid UTF-8 included.  The reader of the second half is
    a reference: it follows the grammar of JSON, not Go's decoder. *)
From S2P Require Import Prelude GoRuntime GoStrings.
From Stdlib Require Import Ascii NArith.

(** ** UTF-8 *)

Definition code (c : ascii) : N := N_of_ascii c.
Definition between (lo hi : N) (c : ascii) : bool := (lo <=? code c)%N && (code c <=? hi)%N.
Definition continuation : ascii → bool := between 128 191.

(** The first two bytes of the runes of three and of four bytes: no overlong forms, no
    surrogates, nothing above U+10FFFF. *)
Definition lead3 (b c : ascii) : bool :=
  between 224 224 b && between 160 191 c || between 225 236 b && continuation c ||
  between 237 237 b && between 128 159 c || between 238 239 b && continuation c.
Definition lead4 (b c : ascii) : bool :=
  between 240 240 b && between 144 191 c || between 241 243 b && continuation c ||
  between 244 244 b && between 128 143 c.

(** The number of bytes of the rune at the head of a string ([utf8.DecodeRuneInString]),
    0 when the string is empty or does not start with a rune. *)
Definition rune_size (s : string) : nat :=
  match s with
  | "" => 0
  | String b s1 =>
    if (code b <? 128)%N then 1 else
    match s1 with
    | "" => 0
    | String c s2 =>
      if between 194 223 b && continuation c then 2 else
      match s2 with
      | "" => 0
      | String d s3 =>
        if lead3 b c && continuation d then 3 else
        match s3 with
        | "" => 0
        | String e _ => if lead4 b c && continuation d && continuation e then 4 else 0
        end
      end
    end
  end.

(** ** The encoder *)

Definition quote : ascii := "034".
Definition backslash : ascii := "\".

Definition hex (n : N) : ascii := default "0"%char (String.get (N.to_nat n) "0123456789abcdef").

(** The bytes written as they are ([htmlSafeSet]). *)
Definition html_safe (b : ascii) : bool :=
  between 32 127 b &&
  negb (bool_decide (b ∈ [quote; backslash; "&"%char; "<"%char; ">"%char])).

Definition escape_byte (b : ascii) : string :=
  if html_safe b then String b ""
  else if bool_decide (b = backslash ∨ b = quote) then String backslash (String b "")
  else if bool_decide (b = "008"%char) then "\b"
  else if bool_decide (b = "012"%char) then "\f"
  else if bool_decide (b = "010"%char) then "\n"
  else if bool_decide (b = "013"%char) then "\r"
  else if bool_decide (b = "009"%char) then "\t"
  else "\u00" +:+ String (hex (N.shiftr (code b) 4)) (String (hex (N.land (code b) 15)) "").

(** U+2028 and U+2029, which JavaScript reads as line ends, are escaped. *)
Definition separator (b c d : ascii) : option string :=
  if bool_decide (b = "226"%char ∧ c = "128"%char) then
    if bool_decide (d = "168"%char) then Some "\u2028"
    else if bool_decide (d = "169"%char) then Some "\u2029" else None
  else None.

Fixpoint escape (s : string) : string :=
  match s with
  | "" => ""
  | String b s1 =>
    match rune_size s, s1 with
    | 1, _ => escape_byte b +:+ escape s1
    | 2, String c s2 => String b (String c (escape s2))
    | 3, String c (String d s3) =>
      match separator b c d with
      | Some text => text +:+ escape s3
      | None => String b (String c (String d (escape s3)))
      end
    | 4, String c (String d (String e s4)) => String b (String c (String d (String e (escape s4))))
    | _, _ => "\ufffd" +:+ escape s1
    end
  end.

Definition quote_json (s : string) : string := String quote (escape s +:+ String quote "").

(** A member of an object, and an object with the given members. *)
Definition member (m : string * string) : string := quote_json m.1 +:+ ":" +:+ quote_json m.2.

Fixpoint members (ms : list (string * string)) : string :=
  match ms with
  | [] => ""
  | [m] => member m
  | m :: ms => member m +:+ "," +:+ members ms
  end.

(** [json.Marshal] of a struct of strings: the fields in order, under their names. *)
Definition Marshal (fields : list (string * string)) : res string :=
  Ok ("{" +:+ members fields +:+ "}").

(** ** A reader *)

Definition unhex (c : ascii) : option N :=
  if between 48 57 c then Some (code c - 48)%N
  else if between 97 102 c then Some (code c - 87)%N
  else if between 65 70 c then Some (code c - 55)%N
  else None.

(** A code point below U+10000 that is not a surrogate, in UTF-8. *)
Definition utf8 (n : N) : option string :=
  if (n <? 128)%N then Some (String (ascii_of_N n) "")
  else if (n <? 2048)%N then
    Some (String (ascii_of_N (192 + n / 64)) (String (ascii_of_N (128 + n mod 64)) ""))
  else if (55296 <=? n)%N && (n <=? 57343)%N then None
  else Some (String (ascii_of_N (224 + n / 4096)) (String (ascii_of_N (128 + n / 64 mod 64))
              (String (ascii_of_N (128 + n mod 64)) ""))).

Definition unescape (c : ascii) : option ascii :=
  if bool_decide (c ∈ [quote; backslash; slash]) then Some c
  else if bool_decide (c = "b"%char) then Some "008"%char
  else if bool_decide (c = "f"%char) then Some "012"%char
  else if bool_decide (c = "n"%char) then Some "010"%char
  else if bool_decide (c = "r"%char) then Some "013"%char
  else if bool_decide (c = "t"%char) then Some "009"%char
  else None.

Definition code_unit (h1 h2 h3 h4 : ascii) : option string :=
  a ← unhex h1; b ← unhex h2; c ← unhex h3; d ← unhex h4;
  utf8 (a * 4096 + b * 256 + c * 16 + d).

(** A string after its opening quote: its value and what follows the closing quote. *)
Fixpoint unquote (s : string) : option (string * string) :=
  match s with
  | "" => None
  | String c s1 =>
    if bool_decide (c = quote) then Some ("", s1)
    else if bool_decide (c = backslash) then
      match s1 with
      | "" => None
      | String e s2 =>
        if bool_decide (e = "u"%char) then
          match s2 with
          | String h1 (String h2 (String h3 (String h4 s3))) =>
              text ← code_unit h1 h2 h3 h4; '(v, rest) ← unquote s3; Some (text +:+ v, rest)
          | _ => None
          end
        else x ← unescape e; '(v, rest) ← unquote s2; Some (String x v, rest)
      end
    else if (code c <? 32)%N then None
    else '(v, rest) ← unquote s1; Some (String c v, rest)
  end.

Definition read_char (c : ascii) (s : string) : option string :=
  match s with String d s' => if bool_decide (d = c) then Some s' else None | "" => None end.

Definition read_member (s : string) : option (string * string * string) :=
  s1 ← read_char quote s; '(k, s2) ← unquote s1;
  s3 ← read_char ":" s2; s4 ← read_char quote s3; '(v, s5) ← unquote s4;
  Some (k, v, s5).

(** The members up to the closing brace; the fuel bounds their number. *)
Fixpoint read_members (fuel : nat) (s : string) : option (list (string * string) * string) :=
  match fuel with
  | 0 => None
  | S fuel =>
    '(k, v, s1) ← read_member s;
    match s1 with
    | String c s2 =>
      if bool_decide (c = "}"%char) then Some ([(k, v)], s2)
      else if bool_decide (c = ","%char) then
        '(ms, rest) ← read_members fuel s2; Some ((k, v) :: ms, rest)
      else None
    | "" => None
    end
  end.

(** An object with string members and nothing after it. *)
Definition read_object (s : string) : option (list (string * string)) :=
  s1 ← read_char "{" s; '(ms, rest) ← read_members (String.length s) s1;
  if bool_decide (rest = "") then Some ms else None.

(** ** What reading an encoded string gives *)

(** The string with U+FFFD in place of every byte that belongs to no rune. *)
Fixpoint sanitize (s : string) : string :=
  match s with
  | "" => ""
  | String b s1 =>
    match rune_size s, s1 with
    | 1, _ => String b (sanitize s1)
    | 2, String c s2 => String b (String c (sanitize s2))
    | 3, String c (String d s3) => String b (String c (String d (sanitize s3)))
    | 4, String c (String d (String e s4)) => String b (String c (String d (String e (sanitize s4))))
    | _, _ => String "239" (String "191" (String "189" (sanitize s1)))
    end
  end.

(** Valid UTF-8. *)
Fixpoint valid_utf8 (s : string) : bool :=
  match s with
  | "" => true
  | String b s1 =>
    match rune_size s, s1 with
    | 1, _ => valid_utf8 s1
    | 2, String _ s2 => valid_utf8 s2
    | 3, String _ (String _ s3) => valid_utf8 s3
    | 4, String _ (String _ (String _ s4)) => valid_utf8 s4
    | _, _ => false
    end
  end.

(** Induction along the runes of a string. *)
Lemma string_runes_ind (P : string → Prop) :
  P "" →
  (∀ b s, rune_size (String b s) = 0 → P s → P (String b s)) →
  (∀ b s, rune_size (String b s) = 1 → P s → P (String b s)) →
  (∀ b c s, rune_size (String b (String c s)) = 2 → P s → P (String b (String c s))) →
  (∀ b c d s, rune_size (String b (String c (String d s))) = 3 → P s →
     P (String b (String c (String d s)))) →
  (∀ b c d e s, rune_size (String b (String c (String d (String e s)))) = 4 → P s →
     P (String b (String c (String d (String e s))))) →
  ∀ s, P s.
Proof.
  intros H0 Hbad H1 H2 H3 H4 s. remember (String.length s) as n eqn:Hn. revert s Hn.
  induction n as [n IH] using lt_wf_ind. intros s ->.
  assert (∀ t, String.length t < String.length s → P t) as Hsub by (intros; by eapply IH).
  destruct s as [|b s1]; [done|]. destruct (rune_size (String b s1)) as [|[|[|[|[|n]]]]] eqn:Hr.
  - apply Hbad; [done|]. apply Hsub. simpl. lia.
  - apply H1; [done|]. apply Hsub. simpl. lia.
  - destruct s1 as [|c s2]; [by simpl in Hr; case_match|]. apply H2; [done|]. apply Hsub. simpl. lia.
  - destruct s1 as [|c [|d s3]]; [by simpl in Hr; repeat case_match..|].
    apply H3; [done|]. apply Hsub. simpl. lia.
  - destruct s1 as [|c [|d [|e s4]]]; [by simpl in Hr; repeat case_match..|].
    apply H4; [done|]. apply Hsub. simpl. lia.
  - exfalso. simpl in Hr. repeat case_match; done.
Qed.

(** ** The round trip *)

Lemma unquote_plain c s :
  c ≠ quote → c ≠ backslash → (32 ≤ code c)%N →
  unquote (String c s) = ('(v, rest) ← unquote s; Some (String c v, rest)).
Proof.
  intros Hq Hb Hc. cbn [unquote]. rewrite !bool_decide_eq_false_2 by done.
  by rewrite (proj2 (N.ltb_ge _ _) Hc).
Qed.

Lemma rune_size_cons b s : rune_size (String b s) ≠ 1 → (128 ≤ code b)%N.
Proof. simpl. destruct (code b <? 128)%N eqn:Hb; [done|]. by intros _; apply N.ltb_ge in Hb. Qed.

Lemma between_high lo hi c : (128 ≤ lo)%N → between lo hi c = true → (128 ≤ code c)%N.
Proof. unfold between. intros ? [H _]%andb_true_iff. apply N.leb_le in H. lia. Qed.

(** The bytes of a rune of several bytes are not ASCII. *)
Lemma rune_bytes_high2 b c s : rune_size (String b (String c s)) = 2 → (128 ≤ code c)%N.
Proof.
  simpl. repeat case_match; try done. intros _.
  match goal with H : _ && _ = true |- _ => apply andb_true_iff in H as [_ H]; by eapply between_high; [|exact H] end.
Qed.

Ltac high_bytes :=
  repeat match goal with
    | H : (_ && _) = true |- _ => apply andb_true_iff in H as [? ?]
    | H : (_ || _) = true |- _ => apply orb_true_iff in H as [?|?]
    end;
  repeat match goal with
    | H : continuation _ = true |- _ => apply between_high in H; [|lia]
    | H : between _ _ _ = true |- _ => apply between_high in H; [|lia]
    end.

Lemma rune_bytes_high3 b c d s :
  rune_size (String b (String c (String d s))) = 3 → (128 ≤ code c)%N ∧ (128 ≤ code d)%N.
Proof.
  simpl. repeat case_match; try done. intros _. unfold lead3 in *. high_bytes; done.
Qed.

Lemma rune_bytes_high4 b c d e s :
  rune_size (String b (String c (String d (String e s)))) = 4 →
  (128 ≤ code c)%N ∧ (128 ≤ code d)%N ∧ (128 ≤ code e)%N.
Proof.
  simpl. repeat case_match; try done. intros _. unfold lead4 in *. high_bytes; done.
Qed.

(** A byte that is not ASCII is read as it is. *)
Lemma unquote_high c s :
  (128 ≤ code c)%N → unquote (String c s) = ('(v, rest) ← unquote s; Some (String c v, rest)).
Proof.
  intros Hc. apply unquote_plain; [intros ->; vm_compute in Hc; done..|lia].
Qed.

(** An ASCII byte, escaped, is read back. *)
Lemma unquote_escape_byte b s :
  (code b < 128)%N →
  unquote (escape_byte b +:+ s) = ('(v, rest) ← unquote s; Some (String b v, rest)).
Proof.
  intros Hb. destruct b as [[] [] [] [] [] [] [] []]; try (vm_compute in Hb; done); clear Hb;
    match goal with |- context [escape_byte ?b] =>
      let e := eval vm_compute in (escape_byte b) in change (escape_byte b) with e end;
    reflexivity.
Qed.

Lemma separator_read b c d text s :
  separator b c d = Some text →
  unquote (text +:+ s) = ('(v, rest) ← unquote s; Some (String b (String c (String d v)), rest)).
Proof.
  unfold separator. intros H. repeat case_bool_decide; try done; destruct_and?; simplify_eq; reflexivity.
Qed.

(** A byte outside every rune is read as U+FFFD. *)
Lemma unquote_replacement s :
  unquote ("\ufffd" +:+ s) =
  ('(v, rest) ← unquote s; Some (String "239" (String "191" (String "189" v)), rest)).
Proof. reflexivity. Qed.

(** What is read after the escaped text of a string is the string. *)
Lemma unquote_escape s rest :
  unquote (escape s +:+ String quote rest) = Some (sanitize s, rest).
Proof.
  induction s as [|b s Hr IH|b s Hr IH|b c s Hr IH|b c d s Hr IH|b c d e s Hr IH] using string_runes_ind;
    cbn [escape sanitize]; rewrite ?Hr; [reflexivity|..].
  - rewrite <- string_app_assoc, unquote_replacement, IH. done.
  - rewrite <- string_app_assoc, unquote_escape_byte, IH; [done|].
    apply N.ltb_lt. simpl in Hr. by repeat case_match.
  - assert (128 ≤ code b)%N by (eapply rune_size_cons; by rewrite Hr).
    pose proof (rune_bytes_high2 _ _ _ Hr).
    rewrite !string_app_cons, !unquote_high, IH by done. done.
  - assert (128 ≤ code b)%N by (eapply rune_size_cons; by rewrite Hr).
    destruct (rune_bytes_high3 _ _ _ _ Hr). destruct (separator b c d) eqn:Hs.
    + by rewrite <- string_app_assoc, (separator_read _ _ _ _ _ Hs), IH.
    + rewrite !string_app_cons, !unquote_high, IH by done. done.
  - assert (128 ≤ code b)%N by (eapply rune_size_cons; by rewrite Hr).
    destruct (rune_bytes_high4 _ _ _ _ _ Hr) as (? & ? & ?).
    rewrite !string_app_cons, !unquote_high, IH by done. done.
Qed.

Lemma sanitize_valid s : valid_utf8 s = true → sanitize s = s.
Proof.
  induction s as [|b s Hr IH|b s Hr IH|b c s Hr IH|b c d s Hr IH|b c d e s Hr IH] using string_runes_ind;
    cbn [valid_utf8 sanitize]; rewrite ?Hr; [done|done|intros; by rewrite IH..].
Qed.

Lemma quote_json_app s t : quote_json s +:+ t = String quote (escape s +:+ String quote t).
Proof. unfold quote_json. by rewrite string_app_cons, <- string_app_assoc. Qed.

Lemma read_member_written m rest :
  read_member (member m +:+ rest) = Some (sanitize m.1, sanitize m.2, rest).
Proof.
  unfold member. rewrite <- !string_app_assoc, !quote_json_app, string_app_cons, string_app_nil_l.
  unfold read_member. cbn [read_char]. rewrite bool_decide_eq_true_2 by done.
  cbn [mbind option_bind]. rewrite unquote_escape. simpl. by rewrite unquote_escape.
Qed.

Definition sanitize_member (m : string * string) : string * string := (sanitize m.1, sanitize m.2).

Lemma read_members_written fuel ms rest :
  ms ≠ [] → length ms ≤ fuel →
  read_members fuel (members ms +:+ String "}" rest) = Some (sanitize_member <$> ms, rest).
Proof.
  revert fuel. induction ms as [|m ms IH]; [done|]. intros [|fuel] _ Hf; [simpl in Hf; lia|].
  cbn [read_members]. destruct ms as [|m2 ms].
  - cbn [members]. by rewrite read_member_written.
  - change (members (m :: m2 :: ms)) with (member m +:+ "," +:+ members (m2 :: ms)).
    rewrite <- !string_app_assoc, read_member_written, string_app_cons, string_app_nil_l.
    cbn -[members]. rewrite IH by (simpl in *; done || lia). done.
Qed.

Lemma members_length ms : length ms ≤ String.length (members ms).
Proof.
  induction ms as [|m ms IH]; [done|]. destruct ms as [|m2 ms]; [simpl; lia|].
  change (members (m :: m2 :: ms)) with (member m +:+ "," +:+ members (m2 :: ms)).
  rewrite !string_length_app. simpl in *. lia.
Qed.

(** Reading a marshalled struct gives its fields, under their names and in their order. *)
Lemma read_Marshal ms text :
  ms ≠ [] → Marshal ms = Ok text → read_object text = Some (sanitize_member <$> ms).
Proof.
  intros Hne [= <-]. unfold read_object. rewrite string_app_cons, string_app_nil_l.
  assert (length ms ≤ String.length (String "{" (members ms +:+ "}"))) as Hfuel.
  { pose proof (members_length ms). simpl. rewrite string_length_app. simpl. lia. }
  revert Hfuel. generalize (String.length (String "{" (members ms +:+ "}"))) as fuel. intros fuel Hfuel.
  cbn [read_char]. rewrite bool_decide_eq_true_2 by done.
  cbn [mbind option_bind]. by rewrite read_members_written.
Qed.

(** ** The text is one line *)

(** No control character. *)
Definition printable (s : string) : Prop := Forall (λ c, (32 ≤ code c)%N) (bytes s).

Lemma bytes_app s t : bytes (s +:+ t) = bytes s ++ bytes t.
Proof. induction s as [|c s IH]; [done|]. rewrite string_app_cons. cbn. by rewrite IH. Qed.

Lemma printable_app s t : printable (s +:+ t) ↔ printable s ∧ printable t.
Proof. unfold printable. by rewrite bytes_app, Forall_app. Qed.

Lemma printable_cons c s : printable (String c s) ↔ (32 ≤ code c)%N ∧ printable s.
Proof. unfold printable. cbn. by rewrite Forall_cons. Qed.

Lemma printable_computed s : forallb (λ c, 32 <=? code c)%N (bytes s) = true → printable s.
Proof. rewrite forallb_forall. intros H. apply Forall_forall. intros c Hc%list_elem_of_In. by apply N.leb_le, H. Qed.

Lemma escape_byte_printable b : (code b < 128)%N → printable (escape_byte b).
Proof.
  intros Hb. apply printable_computed.
  destruct b as [[] [] [] [] [] [] [] []]; try (vm_compute in Hb; done); by vm_compute.
Qed.

Lemma separator_printable b c d text : separator b c d = Some text → printable text.
Proof. unfold separator. intros. repeat case_bool_decide; simplify_eq; by apply printable_computed. Qed.

Lemma escape_printable s : printable (escape s).
Proof.
  induction s as [|b s Hr IH|b s Hr IH|b c s Hr IH|b c d s Hr IH|b c d e s Hr IH] using string_runes_ind;
    cbn [escape]; rewrite ?Hr; [by apply printable_computed|..];
    try (assert (128 ≤ code b)%N by (eapply rune_size_cons; by rewrite Hr)).
  - apply printable_app. split; [by apply printable_computed|done].
  - apply printable_app. split; [|done]. apply escape_byte_printable.
    apply N.ltb_lt. simpl in Hr. by repeat case_match.
  - pose proof (rune_bytes_high2 _ _ _ Hr). rewrite !printable_cons. split_and!; [lia..|done].
  - destruct (rune_bytes_high3 _ _ _ _ Hr). destruct (separator b c d) eqn:Hs.
    + apply printable_app. split; [by eapply separator_printable|done].
    + rewrite !printable_cons. split_and!; [lia..|done].
  - destruct (rune_bytes_high4 _ _ _ _ _ Hr) as (? & ? & ?). rewrite !printable_cons. split_and!; [lia..|done].
Qed.

Lemma quote_json_printable s : printable (quote_json s).
Proof.
  unfold quote_json. rewrite printable_cons, printable_app.
  split_and!; [by vm_compute|apply escape_printable|by apply printable_computed].
Qed.

Lemma members_printable ms : printable (members ms).
Proof.
  assert (∀ m, printable (member m)) as Hm.
  { intros m. unfold member. rewrite !printable_app.
    split_and!; [apply quote_json_printable|by apply printable_computed|apply quote_json_printable]. }
  induction ms as [|m [|m2 ms] IH]; [by apply printable_computed|apply Hm|].
  change (members (m :: m2 :: ms)) with (member m +:+ "," +:+ members (m2 :: ms)).
  rewrite !printable_app. split_and!; [apply Hm|by apply printable_computed|done].
Qed.

Lemma Marshal_printable ms text : Marshal ms = Ok text → printable text.
Proof.
  intros [= <-]. rewrite !printable_app.
  split_and!; [by apply printable_computed|apply members_printable|by apply printable_computed].
Qed.
