(* ===== verification/Version.v ===== *)
(** * Version information

    Models internal/util/version/version.go.  The variables the linker sets and the constants
    of package runtime are the parameters [Build]. *)
From S2P Require Import Prelude GoRuntime GoStrings GoJson.

(** The variables of the package, set at build time, and what package runtime knows of the
    tool chain. *)
Class Build := {
  BuildVersion : string;
  BuildTime : string;
  GitCommit : string;
  runtime_Version : string;
  runtime_Compiler : string;
  runtime_GOOS : string;
  runtime_GOARCH : string;
}.

Record AppInfo := {
  Name : string;
  AppVersion : string;
  ai_BuildTime : string;
  ai_GitCommit : string;
  GoVersion : string;
  Compiler : string;
  Platform : string;
}.

Definition NewAppInfo `{Build} (name : string) : AppInfo :=
  {| Name := name;
     AppVersion := BuildVersion;
     ai_GitCommit := GitCommit;
     ai_BuildTime := BuildTime;
     GoVersion := runtime_Version;
     Compiler := runtime_Compiler;
     Platform := runtime_GOOS +:+ "/" +:+ runtime_GOARCH |}.

(** The fields in the order of the struct, under the names of its tags. *)
Definition fields (a : AppInfo) : list (string * string) :=
  [("AppName", Name a); ("AppVersion", AppVersion a); ("BuildTime", ai_BuildTime a);
   ("GitCommit", ai_GitCommit a); ("GoVersion", GoVersion a); ("Compiler", Compiler a);
   ("Platform", Platform a)].

Definition AppInfo_String (a : AppInfo) : string :=
  match Marshal (fields a) with
  | Ok data => data
  | _ => "Error marshaling AppInfo"
  end.

(** ** Reading it back *)

(** The value of a member of an object. *)
Definition field (name : string) (ms : list (string * string)) : option string :=
  snd <$> List.find (λ m, bool_decide (m.1 = name)) ms.

(** A client that reads the printed version information. *)
Definition read_AppInfo (text : string) : option AppInfo :=
  ms ← read_object text;
  name ← field "AppName" ms; version ← field "AppVersion" ms; time ← field "BuildTime" ms;
  commit ← field "GitCommit" ms; go ← field "GoVersion" ms; compiler ← field "Compiler" ms;
  platform ← field "Platform" ms;
  Some {| Name := name; AppVersion := version; ai_BuildTime := time; ai_GitCommit := commit;
          GoVersion := go; Compiler := compiler; Platform := platform |}.

(** The strings of the build are valid UTF-8. *)
Definition build_valid `{Build} : bool :=
  forallb valid_utf8 [BuildVersion; BuildTime; GitCommit; runtime_Version; runtime_Compiler;
                      runtime_GOOS +:+ "/" +:+ runtime_GOARCH].

Section version.
Context `{Build}.

(** C34: The version information the programs print is one line of JSON that reads back as what
    was built in, member by member: the application's name, the version, the build time and the
    commit the linker set, and the tool chain, the operating system and the architecture; for
    every valid UTF-8 text, whatever characters it contains. *)
Theorem version_roundtrip name :
  valid_utf8 name = true → build_valid = true →
  printable (AppInfo_String (NewAppInfo name)) ∧
  read_AppInfo (AppInfo_String (NewAppInfo name)) =
    Some {| Name := name; AppVersion := BuildVersion; ai_BuildTime := BuildTime; ai_GitCommit := GitCommit;
            GoVersion := runtime_Version; Compiler := runtime_Compiler;
            Platform := runtime_GOOS +:+ "/" +:+ runtime_GOARCH |}.
Proof.
  intros Hname Hbuild. unfold AppInfo_String.
  destruct (Marshal (fields (NewAppInfo name))) as [text| |] eqn:Hm; [|done..].
  split; [by eapply Marshal_printable|]. unfold read_AppInfo.
  rewrite (read_Marshal _ _ (ltac:(done) : fields (NewAppInfo name) ≠ []) Hm).
  unfold build_valid in Hbuild. cbn [forallb] in Hbuild. rewrite !andb_true_iff in Hbuild.
  destruct Hbuild as (Hv & Ht & Hc & Hg & Hco & Hp & _). unfold NewAppInfo, fields. simpl.
  unfold sanitize_member. cbn [fst snd]. repeat (rewrite sanitize_valid; [|done]).
  reflexivity.
Qed.
End version.

(** ** Witness *)

Definition release : Build := {|
  BuildVersion := "0.3.0 <rc&1>"; BuildTime := "2025-01-01T00:00:00Z"; GitCommit := "0254a9f2";
  runtime_Version := "go1.25.8"; runtime_Compiler := "gc";
  runtime_GOOS := "linux"; runtime_GOARCH := "amd64" |}.

Lemma version_roundtrip_witness :
  read_AppInfo (AppInfo_String (@NewAppInfo release "listener-operator")) =
    Some {| Name := "listener-operator"; AppVersion := "0.3.0 <rc&1>"; ai_BuildTime := "2025-01-01T00:00:00Z";
            ai_GitCommit := "0254a9f2"; GoVersion := "go1.25.8"; Compiler := "gc"; Platform := "linux/amd64" |}.
Proof. apply (@version_roundtrip release); vm_compute; reflexivity. Defined.
