(* ===== verification/GoFlag.v ===== *)
(** * Go's package flag

    The command line of a Go program: flags registered with [StringVar] and [BoolVar] on the
    variables of main, and [flag.Parse].  The variables a flag set writes are a type [S]. *)
From S2P Require Import Prelude GoRuntime GoStrings.
From Stdlib Require Import Ascii.

(** [strconv.ParseBool]. *)
Definition ParseBool (s : string) : option bool :=
  if bool_decide (s ∈ ["1"; "t"; "T"; "true"; "TRUE"; "True"]) then Some true
  else if bool_decide (s ∈ ["0"; "f"; "F"; "false"; "FALSE"; "False"]) then Some false
  else None.

Definition FormatBool (b : bool) : string := if b then "true" else "false".

(** A registered flag: its name, whether it can stand without a value ([IsBoolFlag]), the
    methods [Set] (an invalid value is an error) and [String] of its value. *)
Record Flag (S : Type) := {
  flag_name : string;
  flag_bool : bool;
  flag_set : string → S → option S;
  flag_string : S → string;
}.
Arguments flag_name {S} _.
Arguments flag_bool {S} _.
Arguments flag_set {S} _ _ _.
Arguments flag_string {S} _ _.

Definition StringVar {S} (get : S → string) (set : string → S → S) (name : string) : Flag S :=
  {| flag_name := name; flag_bool := false;
     flag_set := λ v s, Some (set v s); flag_string := get |}.

Definition BoolVar {S} (get : S → bool) (set : bool → S → S) (name : string) : Flag S :=
  {| flag_name := name; flag_bool := true;
     flag_set := λ v s, (λ b, set b s) <$> ParseBool v; flag_string := λ s, FormatBool (get s) |}.

(** A flag that writes to a part of the variables. *)
Definition on_fst {S T} (f : Flag S) : Flag (S * T) :=
  {| flag_name := flag_name f; flag_bool := flag_bool f;
     flag_set := λ v '(s, t), (λ s', (s', t)) <$> flag_set f v s;
     flag_string := λ '(s, _), flag_string f s |}.
Definition on_snd {S T} (f : Flag T) : Flag (S * T) :=
  {| flag_name := flag_name f; flag_bool := flag_bool f;
     flag_set := λ v '(s, t), (λ t', (s, t')) <$> flag_set f v t;
     flag_string := λ '(_, t), flag_string f t |}.

Section flags.
Context {S : Type}.
Implicit Types (f : Flag S) (fs : list (Flag S)) (s : S).

Definition Lookup (name : string) fs : option (Flag S) :=
  List.find (λ f, bool_decide (flag_name f = name)) fs.

(** The names [Var] accepts. *)
Definition flag_named (name : string) : bool :=
  negb (HasPrefix name "-") && negb (bool_decide ("="%char ∈ bytes name)).

(** [FlagSet.Var]: a bad name or a name defined before panics. *)
Definition Var f fs : res (list (Flag S)) :=
  if flag_named (flag_name f) && bool_decide (Lookup (flag_name f) fs = None)
  then Ok (fs ++ [f]) else Panic.

Fixpoint register (new : list (Flag S)) fs : res (list (Flag S)) :=
  match new with
  | [] => Ok fs
  | f :: new => fs ← Var f fs; register new fs
  end.

(** An argument of the command line. *)
Inductive token :=
| Positional
| Terminator                                            (* -- *)
| BadSyntax
| Named (name : string) (value : option string).       (* -name or -name=value *)

Definition scan (arg : string) : token :=
  match arg with
  | String c (String d rest) =>
    if bool_decide (c = "-"%char) then
      if bool_decide (d = "-"%char) && bool_decide (rest = "") then Terminator
      else
        let name := if bool_decide (d = "-"%char) then rest else String d rest in
        match name with
        | "" => BadSyntax
        | String e name' =>
          if bool_decide (e = "-"%char) || bool_decide (e = "="%char) then BadSyntax
          else match cut "=" name' with
               | Some (n, v) => Named (String e n) (Some v)
               | None => Named name None
               end
        end
    else Positional
  | _ => Positional
  end.

(** What parsing ends with: the variables and the arguments left, a request for help, or an
    error. *)
Inductive parsed :=
| Parsed (s : S) (rest : list string)
| ErrHelp
| Invalid.

(** [FlagSet.Parse]: [parseOne] until it sees no flag. *)
Fixpoint Parse fs (args : list string) s : parsed :=
  match args with
  | [] => Parsed s []
  | arg :: args' =>
    match scan arg with
    | Positional => Parsed s args
    | Terminator => Parsed s args'
    | BadSyntax => Invalid
    | Named name value =>
      match Lookup name fs with
      | None => if bool_decide (name = "help" ∨ name = "h") then ErrHelp else Invalid
      | Some f =>
        if flag_bool f then
          match flag_set f (default "true" value) s with
          | Some s' => Parse fs args' s'
          | None => Invalid
          end
        else match value, args' with
             | Some v, _ => match flag_set f v s with Some s' => Parse fs args' s' | None => Invalid end
             | None, v :: args'' =>
                 match flag_set f v s with Some s' => Parse fs args'' s' | None => Invalid end
             | None, [] => Invalid
             end
      end
    end
  end.

(** ** Spelling a flag *)

(** The ways to write that a flag has a value. *)
Inductive spelled f : string → list string → Prop :=
| spelled_equals dash v :
    dash ∈ ["-"; "--"] → spelled f v [dash +:+ flag_name f +:+ "=" +:+ v]
| spelled_next dash v :
    dash ∈ ["-"; "--"] → flag_bool f = false → spelled f v [dash +:+ flag_name f; v]
| spelled_bare dash :
    dash ∈ ["-"; "--"] → flag_bool f = true → spelled f "true" [dash +:+ flag_name f].

Lemma flag_named_spec name : flag_named name = true → "="%char ∉ bytes name ∧ ¬ HasPrefix name "-" = true.
Proof. unfold flag_named. intros [Hp He]%andb_true_iff. destruct (HasPrefix name "-"); [done|].
  by apply negb_true_iff, bool_decide_eq_false in He. Qed.

(** A well-formed name after one or two dashes is read whole. *)
Lemma scan_name dash name tail value :
  dash ∈ ["-"; "--"] → flag_named name = true → name ≠ "" →
  (value = None ∧ tail = "" ∨ ∃ v, value = Some v ∧ tail = "=" +:+ v) →
  scan (dash +:+ name +:+ tail) = Named name value.
Proof.
  intros Hdash Hname Hne Htail. apply flag_named_spec in Hname as [Heq Hp].
  destruct name as [|e name]; [done|].
  assert (e ≠ "-"%char ∧ e ≠ "="%char ∧ "="%char ∉ bytes name) as (He1 & He2 & Heq').
  { cbn in Heq. split_and!; [intros ->; by apply Hp; cbn; destruct name|set_solver..]. }
  assert (match cut "=" (name +:+ tail) with
          | Some (n, v) => Named (String e n) (Some v)
          | None => Named (String e (name +:+ tail)) None
          end = Named (String e name) value) as Hcut.
  { destruct Htail as [[-> ->]|(v & -> & ->)].
    - rewrite string_app_nil_r. destruct (cut "=" name) as [[n v]|] eqn:Hc; [|done].
      exfalso. apply Heq'. apply cut_Some in Hc. apply bytes_split. by exists n, v.
    - by rewrite (cut_at_first "="%char "" name v). }
  assert (dash = "-" ∨ dash = "--") as Hd by set_solver. clear Hdash.
  destruct Hd as [->| ->]; rewrite ?string_app_cons, ?string_app_nil_l; cbn [scan].
  all: rewrite ?(bool_decide_eq_true_2 ("-"%char = "-"%char)) by done.
  - rewrite !(bool_decide_eq_false_2 (e = _)) by done. cbn [andb orb]. done.
  - rewrite (bool_decide_eq_false_2 (String e _ = "")) by done. cbn [andb orb].
    rewrite !(bool_decide_eq_false_2 (e = _)) by done. done.
Qed.

Lemma Parse_spelled fs f v args rest s s' :
  Lookup (flag_name f) fs = Some f → flag_named (flag_name f) = true → flag_name f ≠ "" →
  spelled f v args → flag_set f v s = Some s' → Parse fs (args ++ rest) s = Parse fs rest s'.
Proof.
  intros Hl Hn Hne Hs Hset. destruct Hs as [dash v Hd|dash v Hd Hb|dash Hd Hb]; cbn [app Parse].
  - rewrite (scan_name dash _ _ (Some v)), Hl by eauto. by destruct (flag_bool f); cbn; rewrite Hset.
  - rewrite <- (string_app_nil_r (flag_name f)), (scan_name dash _ _ None), Hl by eauto. by rewrite Hb, Hset.
  - rewrite <- (string_app_nil_r (flag_name f)), (scan_name dash _ _ None), Hl by eauto. rewrite Hb. cbn.
    by rewrite Hset.
Qed.

End flags.

(** ** Settings *)

(** A text or a truth value for the flag of a name, and the ways to write it on a command line: with
    one dash or two; a text after an equals sign or as the next argument; a truth value in any form
    [ParseBool] knows, or the bare flag for true. *)
Notation setting := (string * (string + bool))%type.

Inductive spells : setting → list string → Prop :=
| spells_text dash n v : dash ∈ ["-"; "--"] → spells (n, inl v) [dash +:+ n +:+ "=" +:+ v]
| spells_next dash n v : dash ∈ ["-"; "--"] → spells (n, inl v) [dash +:+ n; v]
| spells_true dash n v : dash ∈ ["-"; "--"] → v ∈ ["1"; "t"; "T"; "true"; "TRUE"; "True"] →
    spells (n, inr true) [dash +:+ n +:+ "=" +:+ v]
| spells_false dash n v : dash ∈ ["-"; "--"] → v ∈ ["0"; "f"; "F"; "false"; "FALSE"; "False"] →
    spells (n, inr false) [dash +:+ n +:+ "=" +:+ v]
| spells_bare dash n : dash ∈ ["-"; "--"] → spells (n, inr true) [dash +:+ n].

(** The text a flag is set to. *)
Definition text_of (w : string + bool) (v : string) : Prop :=
  match w with inl v' => v = v' | inr b => ParseBool v = Some b end.
Definition is_truth (w : string + bool) : bool := match w with inl _ => false | inr _ => true end.

Lemma spells_spelled {S} (f : Flag S) w args :
  spells (flag_name f, w) args → flag_bool f = is_truth w → ∃ v, spelled f v args ∧ text_of w v.
Proof.
  intros Hs Hb. remember (flag_name f, w) as m eqn:Hm.
  destruct Hs as [dash n v Hd|dash n v Hd|dash n v Hd Hv|dash n v Hd Hv|dash n Hd]; injection Hm as -> <-; simpl in *.
  - exists v. split; [by apply spelled_equals|done].
  - exists v. split; [by apply spelled_next|done].
  - exists v. split; [by apply spelled_equals|]. unfold ParseBool. by rewrite bool_decide_eq_true_2.
  - exists v. split; [by apply spelled_equals|]. unfold ParseBool.
    rewrite bool_decide_eq_false_2 by set_solver. by rewrite bool_decide_eq_true_2.
  - exists "true". split; [by apply spelled_bare|done].
Qed.

(** The values of a set of flags after a setting: only that of its flag changes. *)
Definition update (m : setting) (ms : list setting) : list setting :=
  (λ x, if bool_decide (x.1 = m.1) then m else x) <$> ms.

Lemma on_fst_spelled {S T} (f : Flag S) v a : spelled f v a → spelled (on_fst (T:=T) f) v a.
Proof.
  intros [dash v' Hd|dash v' Hd Hb|dash Hd Hb];
    [by apply (spelled_equals (on_fst f))|by apply (spelled_next (on_fst f))|by apply (spelled_bare (on_fst f))].
Qed.

(** A registered set has distinct well-formed names, in the order of registration. *)
Lemma register_Ok {S} (new fs : list (Flag S)) :
  Forall (λ f, flag_named (flag_name f) = true) new → NoDup (flag_name <$> fs ++ new) →
  register new fs = Ok (fs ++ new).
Proof.
  intros Hn. revert fs. induction Hn as [|f new Hf _ IH]; intros fs Hnd; [by rewrite app_nil_r|].
  cbn [register]. unfold Var. rewrite Hf.
  assert (Lookup (flag_name f) fs = None) as Hl.
  { apply find_None, Forall_forall. intros g Hg Heq. rewrite fmap_app in Hnd.
    apply NoDup_app in Hnd as (_ & Hd & _). apply (Hd (flag_name f)); [rewrite <- Heq; by apply list_elem_of_fmap_2|].
    csimpl. apply list_elem_of_here. }
  rewrite bool_decide_eq_true_2 by done. cbn. rewrite IH by (by rewrite <- app_assoc).
  by rewrite <- app_assoc.
Qed.

Lemma Lookup_registered {S} (fs : list (Flag S)) f :
  NoDup (flag_name <$> fs) → f ∈ fs → Lookup (flag_name f) fs = Some f.
Proof.
  intros Hnd Hf. apply find_unique; [done..|]. intros g Hg Heq.
  by eapply (NoDup_fmap_eq flag_name).
Qed.
