(* ===== verification/Driver.v ===== *)
(** * The CSI driver and its services

    Models the construction of the gRPC server (the options and registration functions of
    pkg/server/server.go), internal/csi/driver.go and the identity service
    internal/csi/identity.go.  gRPC is a parameter.  The methods of the server that run while
    others do, the registration of the services among them, are sequences of steps of [Server];
    what a run of them can reach is the subject of [ServerRun]. *)
From stdpp Require Import relations.
From S2P Require Import Prelude GoRuntime GoStrings Api GoOs CsiTypes CsiController CsiNode Version Server.
From S2P Require Import ServerRun.
Import NodeServer.

(** ** The identity service (internal/csi/identity.go) *)

Module IdentityServer.

Record IdentityServer := { name : string; version : string }.

Definition GetPluginInfo (i : IdentityServer) : res PluginInfo :=
  if bool_decide (name i = "")
  then Fail (StatusError Unavailable (Lit "driver name not configured"))
  else if bool_decide (version i = "")
  then Fail (StatusError Unavailable (Lit "driver version not configured"))
  else Ok {| pi_name := name i; pi_vendorVersion := version i |}.

Definition GetPluginCapabilities : res (list PluginCapability) := Ok [CONTROLLER_SERVICE].

Definition Probe : res bool := Ok true.

End IdentityServer.

(** ** gRPC *)

(** [google.golang.org/grpc]: the options, among them the interceptor [util.LogGRPC], and a server
    made with them. *)
Class Grpc := {
  grpc_ServerOption : Type;
  UnaryInterceptor_LogGRPC : grpc_ServerOption;
  grpc_Server : Type;
  grpc_NewServer : list grpc_ServerOption → res grpc_Server;
  grpc_options : grpc_Server → list grpc_ServerOption;
}.

(** A new server has the options given; one interceptor can be given. *)
Class GrpcLaws `{Grpc} : Prop := {
  NewServer_Ok : ∀ opts s, grpc_NewServer opts = Ok s → grpc_options s = opts;
  NewServer_default : ∃ s, grpc_NewServer [UnaryInterceptor_LogGRPC] = Ok s;
}.

(** ** The non-blocking server before it is started *)

Section server.
Context `{Grpc}.

(** A logger is the name it was made with. *)
Record server := {
  endpoint : string;
  opts : list grpc_ServerOption;
  srv : option grpc_Server;
  logger : string;
}.

Definition ServerOption : Type := server → server.

Definition WithServerOptions (os : list grpc_ServerOption) : ServerOption := λ s,
  {| endpoint := endpoint s; opts := opts s ++ os; srv := srv s; logger := logger s |}.

Definition WithLogger (l : string) : ServerOption := λ s,
  {| endpoint := endpoint s; opts := opts s; srv := srv s; logger := l |}.

Definition NewNonBlockingServer (ep : string) (options : list ServerOption) : res server :=
  let s := foldl (λ s opt, opt s)
             {| endpoint := ep; opts := [UnaryInterceptor_LogGRPC]; srv := None;
                logger := "csi-server" |} options in
  grpc ← grpc_NewServer (opts s);
  Ok {| endpoint := endpoint s; opts := opts s; srv := Some grpc; logger := logger s |}.

(** The calls of gRPC by [RegisterServiceFunc] and [RegisterService]; a server that is not
    initialized is only logged. *)
Definition RegisterServiceFunc (registerFunc : grpc_Server → list instr) (s : server) : list instr :=
  match srv s with
  | None => []
  | Some grpc => registerFunc grpc
  end.

(** The arguments that are not nil are registered, in this order. *)
Definition RegisterService (nodeServer identityServer controllerServer : bool) (s : server) : list instr :=
  match srv s with
  | None => []
  | Some _ =>
    (if nodeServer then [Register NodeService] else []) ++
    (if identityServer then [Register IdentityService] else []) ++
    (if controllerServer then [Register ControllerService] else [])
  end.
End server.

(** ** The driver *)

Definition DefaultDriverName : string := "listeners.kubedoop.dev".

(** The API client and the mounter of the servers are the instances of [Client] and
    [Mounter]. *)
Definition NewNodeServer (nodeId : string) : NodeServer := {| nodeID := nodeId |}.
Definition NewIdentityServer (n v : string) : IdentityServer.IdentityServer :=
  {| IdentityServer.name := n; IdentityServer.version := v |}.

Section driver.
Context `{Grpc} `{Build}.

Record Driver := {
  drv_name : string;
  drv_nodeID : string;
  drv_endpoint : string;
  drv_server : server;
}.

Definition NewDriver (nodeID endpoint : string) : res Driver :=
  srv ← NewNonBlockingServer endpoint [];
  Ok {| drv_name := DefaultDriverName; drv_nodeID := nodeID; drv_endpoint := endpoint;
        drv_server := srv |}.

(** The servers of a running driver. *)
Record services := {
  run_server : server;
  run_node : NodeServer;
  run_identity : IdentityServer.IdentityServer;
}.

(** [Driver.Run]: the node ID is checked, and the services are made; and the calls it makes:
    the services are registered, then follow Start, the goroutine that stops the server, and
    Wait.  An error of a call is that of the process, in [Plugin]. *)
Definition Run (d : Driver) : res services * list instr :=
  if bool_decide (drv_nodeID d = "") then (Fail (New (Lit "NodeID is not provided")), [])
  else
    let ns := NewNodeServer (drv_nodeID d) in
    let is_ := NewIdentityServer (drv_name d) BuildVersion in
    (Ok {| run_server := drv_server d; run_node := ns; run_identity := is_ |},
     RegisterService true true true (drv_server d) ++ Start ++ GoStop :: Wait).

(** [Driver.Stop]. *)
Definition Driver_Stop : list instr := Stop.
End driver.

(** ** Theorems *)

Section theorems.
Context `{GrpcLaws} `{Build}.

(** A driver is made for every node and endpoint. *)
Lemma NewDriver_Ok nodeID ep :
  ∃ g, grpc_options g = [UnaryInterceptor_LogGRPC] ∧
    NewDriver nodeID ep = Ok {| drv_name := DefaultDriverName; drv_nodeID := nodeID; drv_endpoint := ep;
      drv_server := {| endpoint := ep; opts := [UnaryInterceptor_LogGRPC]; srv := Some g; logger := "csi-server" |} |}.
Proof.
  destruct NewServer_default as [g Hg]. exists g. split; [by eapply NewServer_Ok|].
  unfold NewDriver, NewNonBlockingServer. simpl. by rewrite Hg.
Qed.

(** What [Run] calls, with a node ID and without. *)
Lemma Run_cases nodeID ep :
  ∃ d, NewDriver nodeID ep = Ok d ∧ (Run d).2 = if bool_decide (nodeID = "") then [] else Run_calls.
Proof.
  destruct (NewDriver_Ok nodeID ep) as (g & _ & Hd). eexists. split; [exact Hd|]. unfold Run. simpl.
  by case_bool_decide.
Qed.

(** A run that calls nothing leaves the server as it was made. *)
Lemma run_nothing st : run_reachable [] st → registered st.1 = [] ∧ listener st.1 = None.
Proof.
  set (idle := λ st : state, st.2 = [[]] ∧ registered st.1 = [] ∧ listener st.1 = None ∧ served st.1 = false).
  intros Hr. assert (idle st) as Hst; [|unfold idle in Hst; tauto]. eapply rtc_inv; [|exact Hr|done].
  intros x y Hs (Hts & Hreg & Hl & Hsv). destruct Hs as [x y Hs|s s' ts Hs].
  - destruct Hs as [s s' i k k' new ts1 ts2 He|]; [|done]. simpl in Hts. by destruct ts1 as [|? []].
  - unfold idle. simpl in *. by destruct Hs; try congruence.
Qed.

(** A server that listens can be reached. *)
Lemma run_main calls i k s s' k' :
  run_reachable calls (s, [i :: k]) → exec i k s s' k' [] → run_reachable calls (s', [k']).
Proof. intros Hr He. eapply rtc_r; [exact Hr|]. apply drv_thread. exact (do_step _ _ i k k' [] [] [] He). Qed.

Lemma run_listens : ∃ st, run_reachable Run_calls st ∧ listener st.1 = Some true.
Proof.
  assert (run_reachable Run_calls (set_registered [NodeService] initial.1, [drop 1 Run_calls])) as Hnode.
  { eapply (run_main _ (Register NodeService)); [apply rtc_refl|]. apply ex_register; [set_solver|done]. }
  assert (run_reachable Run_calls (set_registered [NodeService; IdentityService] initial.1, [drop 2 Run_calls])) as Hid.
  { eapply (run_main _ (Register IdentityService)); [exact Hnode|].
    exact (ex_register IdentityService _ (set_registered [NodeService] initial.1) ltac:(simpl; set_solver) eq_refl). }
  eexists. split; [eapply (run_main _ Listen); [|apply ex_listen]|done].
  eapply (run_main _ (Register ControllerService)); [exact Hid|].
  exact (ex_register ControllerService _ (set_registered [NodeService; IdentityService] initial.1)
    ltac:(simpl; set_solver) eq_refl).
Qed.

(** C33: A driver is made for every node and endpoint.  Without a node ID [Run] fails, and whatever
    happens nothing is registered and no listener made.  With one, whatever happens while it
    runs, the server listens and answers calls only when exactly the three CSI services are
    registered, each once, behind the logging interceptor; the node service answers with the node
    ID, the identity service with the driver's name and version; and listening can be reached.
    A second [Run] on the same server ends the process by its first registration. *)
Theorem Driver_Run_serves nodeID ep :
  ∃ d, NewDriver nodeID ep = Ok d ∧
    (nodeID = "" →
       (∃ e, (Run d).1 = Fail e) ∧
       ∀ st, run_reachable (Run d).2 st → registered st.1 = [] ∧ listener st.1 = None) ∧
    (nodeID ≠ "" → ∃ run g,
       (Run d).1 = Ok run ∧ srv (run_server run) = Some g ∧ endpoint (run_server run) = ep ∧
       grpc_options g = [UnaryInterceptor_LogGRPC] ∧
       NodeServer.nodeID (run_node run) = nodeID ∧
       (BuildVersion ≠ "" →
        IdentityServer.GetPluginInfo (run_identity run) =
          Ok {| pi_name := DefaultDriverName; pi_vendorVersion := BuildVersion |}) ∧
       (∀ st, run_reachable (Run d).2 st →
          fatal st.1 = false ∧
          (listener st.1 ≠ None ∨ 0 < rpcs st.1 →
           registered st.1 = [NodeService; IdentityService; ControllerService])) ∧
       (∃ st, run_reachable (Run d).2 st ∧ listener st.1 = Some true) ∧
       (∀ i k s s' k' new, (Run d).2 = i :: k →
          registered s = [NodeService; IdentityService; ControllerService] →
          exec i k s s' k' new → fatal s' = true ∧ k' = [])).
Proof.
  destruct (NewDriver_Ok nodeID ep) as (g & Hopts & Hd). eexists. split; [exact Hd|]. unfold Run. simpl. split.
  { intros ->. rewrite bool_decide_eq_true_2 by done. simpl. split; [by eexists|]. apply run_nothing. }
  intros Hne. rewrite bool_decide_eq_false_2 by done. eexists _, g. split; [reflexivity|].
  change (_, _).2 with Run_calls. split_and!; try done.
  - intros Hv. unfold IdentityServer.GetPluginInfo. simpl. by rewrite bool_decide_eq_false_2.
  - intros st Hr. apply run_reachable_inv in Hr; [|set_solver]. split; [by apply ri_fatal|].
    intros Hl. by apply run_inv_registered.
  - apply run_listens.
  - intros i k s s' k' new [= <- <-] Hreg He. inversion He as [? ? ? Hnew| | | | | | | | | | | | | | | | | |];
      subst; [|done]. exfalso. apply Hnew. rewrite Hreg. set_solver.
Qed.
End theorems.

(** ** An instance of gRPC *)

Definition fake_grpc : Grpc := {|
  grpc_ServerOption := unit;
  UnaryInterceptor_LogGRPC := tt;
  grpc_Server := list unit;
  grpc_NewServer os := if bool_decide (length os ≤ 1) then Ok os else Panic;
  grpc_options := id;
|}.

Lemma fake_grpc_laws : @GrpcLaws fake_grpc.
Proof.
  split; simpl; [|by eexists]. intros os s. case_bool_decide; [|done]. by intros [= <-].
Qed.

Lemma Driver_Run_serves_witness :
  ∃ d, @NewDriver fake_grpc "node-1" "unix://tmp/csi.sock" = Ok d ∧
    ∃ st, run_reachable (@Run fake_grpc release d).2 st ∧ listener st.1 = Some true ∧
      registered st.1 = [NodeService; IdentityService; ControllerService].
Proof.
  destruct (@Driver_Run_serves fake_grpc fake_grpc_laws release "node-1" "unix://tmp/csi.sock")
    as (d & Hd & _ & Hrun).
  exists d. split; [exact Hd|].
  destruct Hrun as (run & g & _ & _ & _ & _ & _ & _ & Hreg & (st & Hst & Hl) & _); [discriminate|].
  exists st. split; [exact Hst|]. split; [exact Hl|]. apply Hreg; [exact Hst|]. left. rewrite Hl. discriminate.
Defined.
