(* ===== verification/Dispatch.v ===== *)
(** * The CSI services behind the gRPC server

    The three services [Driver.Run] registers (internal/csi/identity.go, controller.go and
    node.go) as one table of remote calls, behind the interceptor [util.LogGRPC] of
    pkg/util/log.go: which calls the plugin offers, and with which status codes they fail. *)
From S2P Require Import Prelude GoRuntime GoStrings Api GoOs CsiTypes Util Service Reconciler FakeClient.
From S2P Require Import CsiController CsiNode CsiNodeSafety CsiNodeExamples Version Server Driver.
Import Util.Log NodeServer IdentityServer.

(** ** Calls *)

(** The methods of the services that the servers do not define: they have those of the embedded
    [csi.UnimplementedControllerServer] and [csi.UnimplementedNodeServer]. *)
Inductive EmbeddedMethod :=
| ControllerPublishVolume | ControllerUnpublishVolume | CreateSnapshot | DeleteSnapshot
| ListSnapshots | GetSnapshot | ControllerExpandVolume | ControllerGetVolume
| ControllerModifyVolume | NodeGetVolumeStats | NodeExpandVolume.

(** The remote calls of the specification. *)
Inductive Rpc :=
| GetPluginInfoCall
| GetPluginCapabilitiesCall
| ProbeCall
| CreateVolumeCall (request : CreateVolumeRequest)
| DeleteVolumeCall (volumeId : string)
| ValidateVolumeCapabilitiesCall (volumeId : string) (caps : option (list (option VolumeCapability)))
| ListVolumesCall
| GetCapacityCall
| ControllerGetCapabilitiesCall
| NodePublishVolumeCall (request : NodePublishVolumeRequest)
| NodeUnpublishVolumeCall (volumeId targetPath : string)
| NodeStageVolumeCall (request : NodeStageVolumeRequest)
| NodeUnstageVolumeCall (volumeId stagingTargetPath : string)
| NodeGetCapabilitiesCall
| NodeGetInfoCall
| EmbeddedCall (method : EmbeddedMethod).

Inductive Response :=
| PluginInfoResponse (info : PluginInfo)
| PluginCapabilitiesResponse (capabilities : list PluginCapability)
| ProbeResponse (ready : bool)
| VolumeResponse (volume : Volume)
| ConfirmedResponse (caps : option (list (option VolumeCapability)))
| ControllerCapabilitiesResponse (capabilities : list ControllerRpc)
| NodeCapabilitiesResponse (capabilities : list NodeRpc)
| NodeInfoResponse (nodeId : string)
| EmptyResponse.

(** The generated methods of the embedded servers answer with the code [Unimplemented] and a
    text. *)
Class CsiSpec := { unimplemented_text : EmbeddedMethod → message }.

Definition service_name (s : CsiService) : string :=
  match s with NodeService => "Node" | IdentityService => "Identity" | ControllerService => "Controller" end.

Definition target_of (r : Rpc) : CsiService * string :=
  match r with
  | GetPluginInfoCall => (IdentityService, "GetPluginInfo")
  | GetPluginCapabilitiesCall => (IdentityService, "GetPluginCapabilities")
  | ProbeCall => (IdentityService, "Probe")
  | CreateVolumeCall _ => (ControllerService, "CreateVolume")
  | DeleteVolumeCall _ => (ControllerService, "DeleteVolume")
  | ValidateVolumeCapabilitiesCall _ _ => (ControllerService, "ValidateVolumeCapabilities")
  | ListVolumesCall => (ControllerService, "ListVolumes")
  | GetCapacityCall => (ControllerService, "GetCapacity")
  | ControllerGetCapabilitiesCall => (ControllerService, "ControllerGetCapabilities")
  | NodePublishVolumeCall _ => (NodeService, "NodePublishVolume")
  | NodeUnpublishVolumeCall _ _ => (NodeService, "NodeUnpublishVolume")
  | NodeStageVolumeCall _ => (NodeService, "NodeStageVolume")
  | NodeUnstageVolumeCall _ _ => (NodeService, "NodeUnstageVolume")
  | NodeGetCapabilitiesCall => (NodeService, "NodeGetCapabilities")
  | NodeGetInfoCall => (NodeService, "NodeGetInfo")
  | EmbeddedCall ControllerPublishVolume => (ControllerService, "ControllerPublishVolume")
  | EmbeddedCall ControllerUnpublishVolume => (ControllerService, "ControllerUnpublishVolume")
  | EmbeddedCall CreateSnapshot => (ControllerService, "CreateSnapshot")
  | EmbeddedCall DeleteSnapshot => (ControllerService, "DeleteSnapshot")
  | EmbeddedCall ListSnapshots => (ControllerService, "ListSnapshots")
  | EmbeddedCall GetSnapshot => (ControllerService, "GetSnapshot")
  | EmbeddedCall ControllerExpandVolume => (ControllerService, "ControllerExpandVolume")
  | EmbeddedCall ControllerGetVolume => (ControllerService, "ControllerGetVolume")
  | EmbeddedCall ControllerModifyVolume => (ControllerService, "ControllerModifyVolume")
  | EmbeddedCall NodeGetVolumeStats => (NodeService, "NodeGetVolumeStats")
  | EmbeddedCall NodeExpandVolume => (NodeService, "NodeExpandVolume")
  end.

Definition full_method (r : Rpc) : string :=
  "/csi.v1." +:+ service_name (target_of r).1 +:+ "/" +:+ (target_of r).2.

Section dispatch.
Context {W : Type} `{HC : Client W} `{!ApiServer W} `{!ControllerUtil W} `{!ControllerUtilLaws W}.
Context `{!OperatorGo} `{!MapRange} `{!Mounter} `{!MounterLaws} `{!CsiSpec} `{Grpc}.

Definition respond {A} (f : A → Response) (c : M (W * FS) A) : M (W * FS) Response :=
  a ← c; mret (f a).
Definition empty {A} : A → Response := λ _, EmptyResponse.

(** The handler of a call, on the servers of the driver. *)
Definition handle (run : services) (r : Rpc) : M (W * FS) Response :=
  match r with
  | GetPluginInfoCall => respond PluginInfoResponse (lift (GetPluginInfo (run_identity run)))
  | GetPluginCapabilitiesCall => respond PluginCapabilitiesResponse (lift GetPluginCapabilities)
  | ProbeCall => respond ProbeResponse (lift Probe)
  | CreateVolumeCall request => respond VolumeResponse (api (CreateVolume request))
  | DeleteVolumeCall volumeId => respond empty (api (DeleteVolume volumeId))
  | ValidateVolumeCapabilitiesCall volumeId caps =>
      respond ConfirmedResponse (api (ValidateVolumeCapabilities volumeId caps))
  | ListVolumesCall => respond empty (api ListVolumes)
  | GetCapacityCall => respond empty (api GetCapacity)
  | ControllerGetCapabilitiesCall => respond ControllerCapabilitiesResponse (api ControllerGetCapabilities)
  | NodePublishVolumeCall request => respond empty (NodePublishVolume request)
  | NodeUnpublishVolumeCall volumeId path => respond empty (NodeUnpublishVolume volumeId path)
  | NodeStageVolumeCall request => respond empty (NodeStageVolume request)
  | NodeUnstageVolumeCall volumeId path => respond empty (NodeUnstageVolume volumeId path)
  | NodeGetCapabilitiesCall => respond NodeCapabilitiesResponse NodeGetCapabilities
  | NodeGetInfoCall => respond NodeInfoResponse (NodeGetInfo (run_node run))
  | EmbeddedCall m => fail (StatusError Unimplemented (unimplemented_text m))
  end.

(** A call as the server makes it: through the interceptor. *)
Definition serve_rpc (verbosity : Z) (run : services) (r : Rpc) : M ((W * FS) * list Entry) Response :=
  LogGRPC verbosity (handle run) (full_method r) r.

(** ** What the specification asks for *)

(** Calls every plugin has to offer, and calls that a capability stands for. *)
Inductive Requirement :=
| Always
| WithControllerService                       (* the plugin capability CONTROLLER_SERVICE *)
| WithController (rpc : ControllerRpc)
| WithNode (rpc : NodeRpc).

Definition embedded_requirement (m : EmbeddedMethod) : Requirement :=
  match m with
  | ControllerPublishVolume | ControllerUnpublishVolume => WithController PUBLISH_UNPUBLISH_VOLUME
  | CreateSnapshot | DeleteSnapshot => WithController CREATE_DELETE_SNAPSHOT
  | ListSnapshots => WithController LIST_SNAPSHOTS
  | GetSnapshot => WithController GET_SNAPSHOT
  | ControllerExpandVolume => WithController EXPAND_VOLUME
  | ControllerGetVolume => WithController GET_VOLUME
  | ControllerModifyVolume => WithController MODIFY_VOLUME
  | NodeGetVolumeStats => WithNode GET_VOLUME_STATS
  | NodeExpandVolume => WithNode NODE_EXPAND_VOLUME
  end.

Definition requirement (r : Rpc) : Requirement :=
  match r with
  | GetPluginInfoCall | GetPluginCapabilitiesCall | ProbeCall
  | NodePublishVolumeCall _ | NodeUnpublishVolumeCall _ _
  | NodeGetCapabilitiesCall | NodeGetInfoCall => Always
  | CreateVolumeCall _ | DeleteVolumeCall _ => WithController CREATE_DELETE_VOLUME
  | ValidateVolumeCapabilitiesCall _ _ | ControllerGetCapabilitiesCall => WithControllerService
  | ListVolumesCall => WithController LIST_VOLUMES
  | GetCapacityCall => WithController GET_CAPACITY
  | NodeStageVolumeCall _ | NodeUnstageVolumeCall _ _ => WithNode STAGE_UNSTAGE_VOLUME
  | EmbeddedCall m => embedded_requirement m
  end.

(** What the plugin itself answers about its capabilities in the state [s]. *)
Definition advertises (run : services) (s : W * FS) (q : Requirement) : Prop :=
  match q with
  | Always => True
  | WithControllerService => ∃ caps,
      (handle run GetPluginCapabilitiesCall s).2 = Ok (PluginCapabilitiesResponse caps) ∧
      CONTROLLER_SERVICE ∈ caps
  | WithController rpc => ∃ caps,
      (handle run ControllerGetCapabilitiesCall s).2 = Ok (ControllerCapabilitiesResponse caps) ∧ rpc ∈ caps
  | WithNode rpc => ∃ caps,
      (handle run NodeGetCapabilitiesCall s).2 = Ok (NodeCapabilitiesResponse caps) ∧ rpc ∈ caps
  end.

(** The status code of an error; gRPC reports the others as unknown. *)
Definition code_of (e : error) : option Code :=
  match e with StatusError c _ => Some c | _ => None end.

(** The codes a call can fail with. *)
Definition codes (r : Rpc) : list Code :=
  match r with
  | GetPluginInfoCall => [Unavailable]
  | CreateVolumeCall _ | NodePublishVolumeCall _ | NodeUnpublishVolumeCall _ _ => [InvalidArgument; Internal]
  | DeleteVolumeCall _ | ValidateVolumeCapabilitiesCall _ _
  | NodeStageVolumeCall _ | NodeUnstageVolumeCall _ _ => [InvalidArgument]
  | ListVolumesCall | GetCapacityCall | EmbeddedCall _ => [Unimplemented]
  | _ => []
  end.

(** ** Theorems *)

(** Computations that fail only with one of the codes [cs], or with an error [P] allows. *)
Definition fails_with {S A} (P : error → Prop) (cs : list Code) (c : M S A) : Prop := ∀ s s' e,
  c s = (s', Fail e) → (∃ code, code_of e = Some code ∧ code ∈ cs) ∨ P e.

Section fails_with.
Context {S : Type} (P : error → Prop) (cs : list Code).

Lemma fails_bind {A B} (c : M S A) (f : A → M S B) :
  fails_with P cs c → (∀ a, fails_with P cs (f a)) → fails_with P cs (c ≫= f).
Proof.
  intros Hc Hf s s' e [(a & s1 & _ & Hr)|[(e' & Hr & [= ->])|[_ ?]]]%bind_inv; [by eapply Hf|by eapply Hc|done].
Qed.
Lemma fails_status {A} code text : code ∈ cs → fails_with P cs (fail (StatusError code text) : M S A).
Proof. intros Hc s s' e [= <- <-]. left. by exists code. Qed.
Lemma fails_ret {A} (a : A) : fails_with P cs (mret a : M S A).
Proof. done. Qed.
Lemma fails_attempt {A} (c : M S A) : fails_with P cs (attempt c).
Proof. intros s s' e. unfold attempt. by destruct (c s) as [? []]. Qed.
(** An error that is turned into a status. *)
Lemma fails_on_error {A} code g (c : M S A) :
  code ∈ cs → fails_with P cs (on_error (λ e, StatusError code (g e)) c).
Proof.
  intros Hcode s s' e. unfold on_error. destruct (c s) as [s1 []]; try done.
  intros [= <- <-]. left. by exists code.
Qed.
Lemma fails_lift_on_error {A} code g (r : res A) :
  code ∈ cs → fails_with P cs (lift (on_error_res (λ e, StatusError code (g e)) r) : M S A).
Proof. intros Hcode s s' e. unfold lift. destruct r; try done. intros [= <- <-]. left. by exists code. Qed.
Lemma fails_if {A} (b : bool) (c1 c2 : M S A) :
  fails_with P cs c1 → fails_with P cs c2 → fails_with P cs (if b then c1 else c2).
Proof. by destruct b. Qed.
End fails_with.

Section services.
Context (P : error → Prop).

Lemma fails_lift_ok {S A} cs (r : res A) : (∀ e, r ≠ Fail e) → fails_with P cs (lift r : M S A).
Proof. intros Hr s s' e [= _ He]. by destruct (Hr e). Qed.
Lemma fails_deref {S A} cs (x : option A) : fails_with P cs (lift (deref x) : M S A).
Proof. apply fails_lift_ok. by destruct x. Qed.
Lemma fails_api {A} cs (c : M W A) : fails_with P cs c → fails_with P cs (api c).
Proof.
  intros Hc [w fs] s' e. unfold api. simpl. destruct (c w) as [w1 r] eqn:Hr. intros [= _ ->]. by eapply Hc.
Qed.

Lemma fails_CreateVolume request : fails_with P [InvalidArgument; Internal] (CreateVolume (W:=W) request).
Proof.
  unfold CreateVolume. repeat (apply fails_bind; [|intros ?]); try apply fails_ret;
    first [apply fails_lift_on_error | apply fails_on_error]; set_solver.
Qed.

Lemma fails_validate {S} request :
  fails_with P [InvalidArgument; Internal] (lift (validateNodePublishVolumeRequest request) : M S ()).
Proof.
  intros s s' e [= _ He]. left. unfold validateNodePublishVolumeRequest in He.
  repeat case_match; simplify_eq; (eexists; split; [reflexivity|set_solver]).
Qed.

(** The one error that is passed on as it is: that of the read of the volume. *)
Lemma fails_NodePublishVolume request :
  (∀ w w' e, client_get KPersistentVolume (Key "" (np_volumeId request)) w = (w', Fail e) → P e) →
  fails_with P [InvalidArgument; Internal] (NodePublishVolume (W:=W) request).
Proof.
  intros Hpv. unfold NodePublishVolume. repeat (apply fails_bind; [|intros ?]);
    first [apply fails_validate | apply fails_deref | apply fails_on_error; set_solver | idtac].
  - apply fails_if; [apply fails_status; set_solver|apply fails_ret].
  - apply fails_api. intros w w' e He. right. by eapply Hpv.
Qed.
End services.

(** The errors of the API client are not gRPC statuses. *)
Class ApiErrors : Prop :=
  get_no_status : ∀ k key w w' e, client_get (W:=W) k key w = (w', Fail e) → code_of e = None.

Lemma fails_respond {A} P cs (f : A → Response) (c : M (W * FS) A) :
  fails_with P cs c → fails_with P cs (respond f c).
Proof. intros Hc. apply fails_bind; [done|]. intros a. apply fails_ret. Qed.

(** The error of the read of the volume of a publication. *)
Definition volume_error (r : Rpc) (e : error) : Prop :=
  match r with
  | NodePublishVolumeCall request => ∃ w w' : W,
      client_get KPersistentVolume (Key "" (np_volumeId request)) w = (w', Fail e)
  | _ => False
  end.

Lemma handle_codes run r : fails_with (volume_error r) (codes r) (handle run r).
Proof.
  destruct r; cbn [handle codes volume_error];
    try (apply fails_respond); try (by apply fails_status; left);
    try apply fails_api; try (by apply fails_lift_ok).
  - unfold GetPluginInfo. intros s s' e [= _ He]. left.
    repeat case_bool_decide; simplify_eq; (eexists; split; [reflexivity|set_solver]).
  - apply fails_CreateVolume.
  - unfold DeleteVolume. repeat (apply fails_bind; [|intros ?]); try (apply fails_lift_on_error; set_solver).
    by apply fails_if; apply fails_ret.
  - unfold ValidateVolumeCapabilities. repeat apply fails_if; try apply fails_ret; apply fails_status; set_solver.
  - apply fails_status; set_solver.
  - apply fails_status; set_solver.
  - apply fails_NodePublishVolume. intros w w' e Hg. by exists w, w'.
  - unfold NodeUnpublishVolume. repeat apply fails_if; try (apply fails_status; set_solver).
    apply fails_bind; [apply fails_attempt|intros ?]. apply fails_on_error. set_solver.
  - unfold NodeStageVolume. repeat apply fails_if; try apply fails_ret; apply fails_status; set_solver.
  - unfold NodeUnstageVolume. repeat apply fails_if; try apply fails_ret; apply fails_status; set_solver.
Qed.

Lemma serve_rpc_handle verbosity run r s log :
  ∃ log', serve_rpc verbosity run r (s, log) = (((handle run r s).1, log'), (handle run r s).2).
Proof.
  destruct (LogGRPC_transparent verbosity (handle run) (full_method r) r s log) as [log' Hl].
  exists log'. unfold serve_rpc. rewrite Hl. by destruct (handle run r s).
Qed.

(** C19: Every failure the plugin reports has one of the status codes of its call; the one exception
    is [NodePublishVolume] for a volume that cannot be read, whose API error is passed on without a
    code (gRPC reports it as unknown).  Whatever it is called with, the interceptor changes neither
    the outcome nor the state. *)
Theorem rpc_error_codes verbosity run r s log s' log' e :
  serve_rpc verbosity run r (s, log) = ((s', log'), Fail e) →
  handle run r s = (s', Fail e) ∧
  ((∃ code, code_of e = Some code ∧ code ∈ codes r) ∨ volume_error r e).
Proof.
  destruct (serve_rpc_handle verbosity run r s log) as [log1 ->]. intros [= <- _ He].
  assert (handle run r s = ((handle run r s).1, Fail e)) as Hh by (rewrite <- He; apply surjective_pairing).
  split; [done|]. by eapply handle_codes.
Qed.

Lemma advertises_dec run s q : advertises run s q ↔
  match q with
  | Always | WithControllerService | WithController CREATE_DELETE_VOLUME | WithNode STAGE_UNSTAGE_VOLUME => True
  | _ => False
  end.
Proof.
  destruct s as [w fs], q as [| |rpc|rpc]; try done; simpl.
  - split; [done|]. intros _. eexists. split; [reflexivity|set_solver].
  - split.
    + intros (caps & [= <-] & Hin%list_elem_of_singleton). by subst rpc.
    + intros Hrpc. eexists. split; [reflexivity|]. destruct rpc; try done. set_solver.
  - split.
    + intros (caps & [= <-] & Hin%list_elem_of_singleton). by subst rpc.
    + intros Hrpc. eexists. split; [reflexivity|]. destruct rpc; try done. set_solver.
Qed.

(** C18: The capabilities the plugin advertises are what it does: a call it offers is never answered
    with [Unimplemented], and a call whose capability it does not advertise always is, without any
    effect on the cluster or the node. *)
Theorem capabilities_honest `{!ApiErrors} verbosity run r s log :
  (advertises run s (requirement r) →
   ∀ st e, serve_rpc verbosity run r (s, log) = (st, Fail e) → code_of e ≠ Some Unimplemented) ∧
  (¬ advertises run s (requirement r) →
   ∃ log' e, serve_rpc verbosity run r (s, log) = ((s, log'), Fail e) ∧ code_of e = Some Unimplemented).
Proof.
  destruct (serve_rpc_handle verbosity run r s log) as [log1 ->]. rewrite advertises_dec. split.
  - intros Hoff st e [= _ He].
    assert (handle run r s = ((handle run r s).1, Fail e)) as Hh by (rewrite <- He; apply surjective_pairing).
    apply handle_codes in Hh as [(code & Hcode & Hin)|Hv].
    + rewrite Hcode. intros [= ->]. clear He. destruct r as [| | | | | | | | | | | | | | |[]]; simpl in *; try done; set_solver.
    + destruct r; try done. destruct Hv as (w & w' & Hg%get_no_status). by rewrite Hg.
  - intros Hno. exists log1. destruct s as [w fs].
    destruct r as [| | | | | | | | | | | | | | |[]]; simpl in *; try done; (eexists; split; [reflexivity|done]).
Qed.
End dispatch.

(** ** Examples *)

#[export] Instance fake_csi_spec : CsiSpec := {| unimplemented_text _ := Lit "method not implemented" |}.

#[export] Instance fake_api_errors : ApiErrors (W:=cluster).
Proof. intros k key w w' e [= _ Hg]. case_match; by simplify_eq. Qed.

#[local] Existing Instance fake_grpc.

Definition test_run : services :=
  {| run_server := {| endpoint := "unix://tmp/csi.sock"; opts := [UnaryInterceptor_LogGRPC]; srv := None; logger := "csi-server" |};
     run_node := {| nodeID := "node-1" |};
     run_identity := {| name := DefaultDriverName; version := "0.1.0" |} |}.

(** A volume that does not exist: the API error has no status code. *)
Definition lost_publish : NodePublishVolumeRequest :=
  {| np_volumeId := "pvc-lost"; np_targetPath := np_targetPath test_publish;
     np_volumeCapability := np_volumeCapability test_publish;
     np_volumeContext := np_volumeContext test_publish |}.

Lemma rpc_error_codes_witness :
  handle test_run (NodePublishVolumeCall lost_publish) (node_cluster, node_fs) =
    ((node_cluster, node_fs), Fail (ApiError NotFound)) ∧
  volume_error (W:=cluster) (NodePublishVolumeCall lost_publish) (ApiError NotFound).
Proof.
  destruct (rpc_error_codes 0 test_run (NodePublishVolumeCall lost_publish) (node_cluster, node_fs) []
    (node_cluster, node_fs) [InfoLine 0 "gRPC calling"; ErrorLine "RPC called error" (ApiError NotFound)]
    (ApiError NotFound)) as [Hh [(code & Hc & _)|Hv]].
  - reflexivity.
  - discriminate Hc.
  - split; [exact Hh|exact Hv].
Defined.

Lemma capabilities_honest_witness :
  ∃ log e, serve_rpc 0 test_run (EmbeddedCall NodeGetVolumeStats) ((node_cluster, node_fs), []) =
    (((node_cluster, node_fs), log), Fail e) ∧ code_of e = Some Unimplemented.
Proof.
  apply (capabilities_honest 0 test_run (EmbeddedCall NodeGetVolumeStats) (node_cluster, node_fs) []).
  intros Hadv%advertises_dec. exact Hadv.
Defined.

(** [CreateVolume] pins the volume of a NodePort class to a node, although the plugin does not
    advertise VOLUME_ACCESSIBILITY_CONSTRAINTS, without which a provisioner sends no topology. *)
Lemma topology_unadvertised :
  ∃ v caps,
    (handle test_run (CreateVolumeCall test_create_request) (claim_cluster, node_fs)).2 = Ok (VolumeResponse v) ∧
    vol_accessibleTopology v ≠ [] ∧
    (handle test_run GetPluginCapabilitiesCall (claim_cluster, node_fs)).2 = Ok (PluginCapabilitiesResponse caps) ∧
    VOLUME_ACCESSIBILITY_CONSTRAINTS ∉ caps.
Proof.
  exists test_volume, [CONTROLLER_SERVICE]. split_and!.
  - vm_compute. reflexivity.
  - done.
  - reflexivity.
  - set_solver.
Qed.
