(* ===== verification/Process.v ===== *)
(** * Processes of the entry points

    What cmd/main.go and cmd/csiplugin/main.go share: a process that calls the libraries,
    prints and exits; the flags the libraries register; the options of the manager and of its
    servers.  A process is a function of the calls made so far; what the libraries answer is
    the parameter [Environment]. *)
From S2P Require Import Prelude GoRuntime GoStrings Api Version GoFlag Reconciler Controllers.

(** ** Scheme registration *)

Record schema_GroupVersion := { Group : string; gv_Version : string }.

(** api/v1alpha1/groupversion_info.go. *)
Definition GroupVersion : schema_GroupVersion :=
  {| Group := "listeners.kubedoop.dev"; gv_Version := "v1alpha1" |}.

(** The packages whose [AddToScheme] the programs call: client-go's, operator-go's and the
    repository's own, a builder for one group version. *)
Inductive SchemeBuilder :=
| clientgoscheme
| znclistenerv1alpha1
| listenerv1alpha1 (gv : schema_GroupVersion).

(** ** TLS *)

(** The field of [tls.Config] the programs write. *)
Record TLSConfig := { NextProtos : list string }.

Definition disableHTTP2 (c : TLSConfig) : TLSConfig := {| NextProtos := ["http/1.1"] |}.

(** A server applies its options to its configuration in turn. *)
Definition apply_tls (opts : list (TLSConfig → TLSConfig)) (c : TLSConfig) : TLSConfig :=
  foldl (λ c opt, opt c) c opts.

(** ** Options of the manager *)

Inductive FilterProvider := WithAuthenticationAndAuthorization.

(** [metricsserver.Options] and [webhook.Options]. *)
Record MetricsOptions := {
  BindAddress : string;
  SecureServing : bool;
  ms_TLSOpts : list (TLSConfig → TLSConfig);
  ms_FilterProvider : option FilterProvider;
  ms_CertDir : string;
  ms_CertName : string;
  ms_KeyName : string;
}.
Record WebhookOptions := {
  wh_TLSOpts : list (TLSConfig → TLSConfig);
  wh_CertDir : string;
  wh_CertName : string;
  wh_KeyName : string;
}.

(** [ctrl.Options]. *)
Record ManagerOptions := {
  mo_Scheme : list SchemeBuilder;
  mo_Metrics : MetricsOptions;
  mo_HealthProbeBindAddress : string;
  mo_LeaderElection : bool;
  mo_WebhookServer : option WebhookOptions;
  mo_LeaderElectionID : string;
}.

(** ** Flags of the libraries *)

(** The [kubeconfig] flag controller-runtime registers when the program is loaded, and the
    flags of [zap.Options.BindFlags]; [Lib] holds what they set, [lib_defaults] after
    [zap.Options{Development: true}].  The names are documented. *)
Class LibraryFlags := {
  Lib : Type;
  lib_defaults : Lib;
  kubeconfig_flag : Flag Lib;
  zap_flags : list (Flag Lib);
  kubeconfig_name : flag_name kubeconfig_flag = "kubeconfig";
  zap_names : flag_name <$> zap_flags =
    ["zap-devel"; "zap-encoder"; "zap-log-level"; "zap-stacktrace-level"; "zap-time-encoding"];
}.

Section process.
Context {W : Type} `{!LibraryFlags}.

(** What a process asks of the libraries and the system. *)
Inductive action :=
| AddToScheme (b : SchemeBuilder)
| Println (line : string)
| SetLogger (opts : Lib)
| NewWebhookServer (o : WebhookOptions)
| GetConfig
| NewManager (o : ManagerOptions)
| SetupController (c : Controller W)
| AddHealthzCheck (name : string)
| AddReadyzCheck (name : string)
| SetupSignalHandler
| StartManager.

(** The error, if any, with which a call ends after the calls made before. *)
Class Environment := { answer : list action → action → option error }.
Context `{!Environment}.

(** A process goes on with a value or has exited with a code; the calls are recorded. *)
Definition Proc (A : Type) : Type := list action → list action * (A + Z).
Definition ret {A} (a : A) : Proc A := λ t, (t, inl a).
Definition exit {A} (code : Z) : Proc A := λ t, (t, inr code).
Definition bind {A B} (p : Proc A) (f : A → Proc B) : Proc B := λ t,
  match p t with
  | (t', inl a) => f a t'
  | (t', inr code) => (t', inr code)
  end.

Definition call (a : action) : Proc (option error) := λ t, (t ++ [a], inl (answer t a)).

(** A call whose error is ignored, or that has none. *)
Definition call_ (a : action) : Proc () := bind (call a) (λ _, ret ()).

(** [utilruntime.Must]: an error panics, which ends a Go program with the code 2. *)
Definition Must (a : action) : Proc () :=
  bind (call a) (λ err, match err with Some _ => exit 2 | None => ret () end).

(** [if err := ...; err != nil { setupLog.Error(err, ...); os.Exit(1) }]; so does
    [ctrl.GetConfigOrDie] for the configuration. *)
Definition or_exit (a : action) : Proc () :=
  bind (call a) (λ err, match err with Some _ => exit 1 | None => ret () end).

(** The [init] functions of both programs, and the scheme they fill. *)
Definition init : Proc (list SchemeBuilder) :=
  bind (Must (AddToScheme clientgoscheme)) (λ _,
  bind (Must (AddToScheme znclistenerv1alpha1)) (λ _,
  bind (Must (AddToScheme (listenerv1alpha1 GroupVersion))) (λ _,
  ret [clientgoscheme; znclistenerv1alpha1; listenerv1alpha1 GroupVersion]))).

(** The flags of a program, in the order in which they are registered. *)
Definition all_flags {O} (flags : list (Flag O)) : list (Flag (O * Lib)) :=
  on_snd kubeconfig_flag :: (on_fst <$> flags) ++ (on_snd <$> zap_flags).

(** Registration and [flag.Parse] with [flag.ExitOnError]. *)
Definition parse_flags {O} (flags : list (Flag O)) (defaults : O) (args : list string) : Proc (O * Lib) :=
  match register (all_flags flags) [] with
  | Ok fs =>
    match Parse fs args (defaults, lib_defaults) with
    | Parsed vars _ => ret vars
    | ErrHelp => exit 0
    | Invalid => exit 2
    end
  | _ => exit 2
  end.
End process.
Arguments action W {_}.
Arguments Environment W {_}.
Arguments Proc W {_} A.

Section runs.
Context {W : Type} `{!LibraryFlags} {A B : Type}.

Lemma bind_next (p : Proc W A) (f : A → Proc W B) t t' a :
  p t = (t', inl a) → bind p f t = f a t'.
Proof. unfold bind. by intros ->. Qed.

Lemma bind_exit (p : Proc W A) (f : A → Proc W B) t t' code :
  p t = (t', inr code) → bind p f t = (t', inr code).
Proof. unfold bind. by intros ->. Qed.
End runs.

(** ** Plans *)

(** A plan: calls with the code the process exits with when they fail ([None] when an error
    is ignored). *)
Section plans.
Context {W : Type} `{!LibraryFlags} `{!Environment W}.

Definition plan : Type := list (action W * option Z).

Fixpoint follow (p : plan) : Proc W () :=
  match p with
  | [] => ret ()
  | (a, None) :: p => bind (call_ a) (λ _, follow p)
  | (a, Some code) :: p =>
      bind (call a) (λ err, match err with Some _ => exit code | None => follow p end)
  end.

(** The first call of the plan that ends the process, from the calls made before. *)
Inductive fails_at : plan → list (action W) → plan → action W → Z → Prop :=
| fails_here t a code e p : answer t a = Some e → fails_at ((a, Some code) :: p) t [] a code
| fails_later t a c p done b code :
    (c = None ∨ answer t a = None) → fails_at p (t ++ [a]) done b code →
    fails_at ((a, c) :: p) t ((a, c) :: done) b code.

(** Every call of the plan whose error matters was answered without one. *)
Inductive succeeds : plan → list (action W) → Prop :=
| succeeds_nil t : succeeds [] t
| succeeds_cons t a c p :
    (c = None ∨ answer t a = None) → succeeds p (t ++ [a]) → succeeds ((a, c) :: p) t.

(** Following a plan makes its calls in order, up to the first error that matters. *)
Lemma follow_spec p t :
  (succeeds p t ∧ follow p t = (t ++ p.*1, inl ())) ∨
  (∃ done a code rest, p = done ++ (a, Some code) :: rest ∧ fails_at p t done a code ∧
     follow p t = (t ++ done.*1 ++ [a], inr code)).
Proof.
  revert t. induction p as [|[a c] p IH]; intros t.
  { left. split; [constructor|]. simpl. by rewrite app_nil_r. }
  assert (c = None ∨ answer t a = None →
    (succeeds ((a, c) :: p) t ∧ follow p (t ++ [a]) = (t ++ ((a, c) :: p).*1, inl ())) ∨
    (∃ done b code rest, (a, c) :: p = done ++ (b, Some code) :: rest ∧
       fails_at ((a, c) :: p) t done b code ∧
       follow p (t ++ [a]) = (t ++ done.*1 ++ [b], inr code))) as Hgo.
  { intros Hc. destruct (IH (t ++ [a])) as [[Hs Hf]|(dn & b & code & rest & -> & Hfail & Hf)].
    - left. split; [by constructor|]. rewrite Hf. by rewrite <- app_assoc.
    - right. exists ((a, c) :: dn), b, code, rest. split_and!; [done|by constructor|].
      rewrite Hf. by rewrite <- !app_assoc. }
  destruct c as [code|].
  - simpl. unfold bind, call. destruct (answer t a) as [e|] eqn:Ha; [|by apply Hgo; right].
    right. exists [], a, code, p. split_and!; [done|by eapply fails_here|done].
  - simpl. unfold bind, call_, bind, call. simpl. by apply Hgo; left.
Qed.

Lemma succeeds_app p q t : succeeds p t → succeeds q (t ++ p.*1) → succeeds (p ++ q) t.
Proof.
  induction 1 as [t|t a c p Hc _ IH]; simpl; intros Hq; [by rewrite app_nil_r in Hq|].
  constructor; [done|]. apply IH. by rewrite <- app_assoc.
Qed.

Lemma fails_at_inv p t done a code :
  fails_at p t done a code → succeeds done t ∧ is_Some (answer (t ++ done.*1) a).
Proof.
  induction 1 as [t a code e p He|t a c p dn b code Hc _ [Hs Ha]]; simpl.
  - split; [constructor|]. rewrite app_nil_r, He. by eexists.
  - split; [by constructor|]. by rewrite <- app_assoc in Ha.
Qed.

(** A plan with a last call: the call is made only when everything before went well. *)
Lemma follow_last p (a : action W) code t :
  a ∉ p.*1 →
  (succeeds p t ∧ follow (p ++ [(a, Some code)]) t =
     (t ++ p.*1 ++ [a], match answer (t ++ p.*1) a with Some _ => inr code | None => inl () end)) ∨
  (∃ made code', follow (p ++ [(a, Some code)]) t = (t ++ made, inr code') ∧
     a ∉ made ∧ made ⊆ p.*1 ∧ Some code' ∈ p.*2).
Proof.
  intros Hp. destruct (follow_spec (p ++ [(a, Some code)]) t)
    as [[Hs Hf]|(dn & b & code' & rest & Heq & Hfail & Hf)].
  - left. assert (succeeds p t ∧ answer (t ++ p.*1) a = None) as [Hsp ->].
    { clear Hf Hp. revert t Hs. induction p as [|[a' c'] p IH]; intros t Hs; inversion Hs as [|? ? ? ? Hc Hs']; subst.
      - split; [constructor|]. simpl. rewrite app_nil_r. by destruct Hc.
      - destruct (IH _ Hs') as [? Ha]. split; [by constructor|]. simpl. by rewrite <- app_assoc in Ha. }
    split; [done|]. rewrite Hf, fmap_app. done.
  - destruct rest as [|x rest _] using rev_ind.
    + apply app_inj_tail in Heq as [<- [= <- <-]]. left. apply fails_at_inv in Hfail as [Hs [e He]].
      split; [done|]. rewrite Hf, He. done.
    + right. rewrite app_comm_cons, app_assoc in Heq. apply app_inj_tail in Heq as [-> _].
      exists (dn.*1 ++ [b]), code'. split_and!; [done| | |].
      * rewrite fmap_app in Hp. simpl in Hp. set_solver.
      * rewrite fmap_app. simpl. set_solver.
      * rewrite fmap_app. simpl. set_solver.
Qed.
End plans.
