(* ===== verification/Cmd.v ===== *)
(** * The operator's entry point

    Models cmd/main.go: the flags, the options of the metrics and webhook servers, and main
    from the registration of the scheme to [mgr.Start]. *)
From S2P Require Import Prelude GoRuntime GoStrings Api FakeClient Version GoFlag Reconciler Controllers.
From S2P Require Import Process.

Module Operator.

(** ** Flags *)

(** The variables of main that flags set. *)
Record Flags := MkFlags {
  metricsAddr : string;
  probeAddr : string;
  enableLeaderElection : bool;
  secureMetrics : bool;
  webhookCertPath : string;
  webhookCertName : string;
  webhookCertKey : string;
  metricsCertPath : string;
  metricsCertName : string;
  metricsCertKey : string;
  enableHTTP2 : bool;
  showVersion : bool;
}.

Definition defaults : Flags :=
  MkFlags "0" ":8081" false true "" "tls.crt" "tls.key" "" "tls.crt" "tls.key" false false.

Definition flags : list (Flag Flags) := [
  StringVar metricsAddr
    (λ x '(MkFlags _ b c d e f g h i j k l), MkFlags x b c d e f g h i j k l) "metrics-bind-address";
  StringVar probeAddr
    (λ x '(MkFlags a _ c d e f g h i j k l), MkFlags a x c d e f g h i j k l) "health-probe-bind-address";
  BoolVar enableLeaderElection
    (λ x '(MkFlags a b _ d e f g h i j k l), MkFlags a b x d e f g h i j k l) "leader-elect";
  BoolVar secureMetrics
    (λ x '(MkFlags a b c _ e f g h i j k l), MkFlags a b c x e f g h i j k l) "metrics-secure";
  StringVar webhookCertPath
    (λ x '(MkFlags a b c d _ f g h i j k l), MkFlags a b c d x f g h i j k l) "webhook-cert-path";
  StringVar webhookCertName
    (λ x '(MkFlags a b c d e _ g h i j k l), MkFlags a b c d e x g h i j k l) "webhook-cert-name";
  StringVar webhookCertKey
    (λ x '(MkFlags a b c d e f _ h i j k l), MkFlags a b c d e f x h i j k l) "webhook-cert-key";
  StringVar metricsCertPath
    (λ x '(MkFlags a b c d e f g _ i j k l), MkFlags a b c d e f g x i j k l) "metrics-cert-path";
  StringVar metricsCertName
    (λ x '(MkFlags a b c d e f g h _ j k l), MkFlags a b c d e f g h x j k l) "metrics-cert-name";
  StringVar metricsCertKey
    (λ x '(MkFlags a b c d e f g h i _ k l), MkFlags a b c d e f g h i x k l) "metrics-cert-key";
  BoolVar enableHTTP2
    (λ x '(MkFlags a b c d e f g h i j _ l), MkFlags a b c d e f g h i j x l) "enable-http2";
  BoolVar showVersion
    (λ x '(MkFlags a b c d e f g h i j k _), MkFlags a b c d e f g h i j k x) "version" ].

(** ** Options *)

Definition tlsOpts (o : Flags) : list (TLSConfig → TLSConfig) :=
  if negb (enableHTTP2 o) then [disableHTTP2] else [].

Definition webhookServerOptions (o : Flags) : WebhookOptions :=
  if bool_decide (webhookCertPath o ≠ "") then
    {| wh_TLSOpts := tlsOpts o; wh_CertDir := webhookCertPath o;
       wh_CertName := webhookCertName o; wh_KeyName := webhookCertKey o |}
  else {| wh_TLSOpts := tlsOpts o; wh_CertDir := ""; wh_CertName := ""; wh_KeyName := "" |}.

Definition metricsServerOptions (o : Flags) : MetricsOptions :=
  let filter := if secureMetrics o then Some WithAuthenticationAndAuthorization else None in
  let cert := bool_decide (metricsCertPath o ≠ "") in
  {| BindAddress := metricsAddr o;
     SecureServing := secureMetrics o;
     ms_TLSOpts := tlsOpts o;
     ms_FilterProvider := filter;
     ms_CertDir := if cert then metricsCertPath o else "";
     ms_CertName := if cert then metricsCertName o else "";
     ms_KeyName := if cert then metricsCertKey o else "" |}.

(** ** main *)

Section main.
Context {W : Type} `{HC : Client W} `{!ControllerUtil W} `{!OperatorGo}.
Context `{!LibraryFlags} `{!Environment W} `{Build}.

Definition manager_options (scheme : list SchemeBuilder) (o : Flags) : ManagerOptions :=
  {| mo_Scheme := scheme;
     mo_Metrics := metricsServerOptions o;
     mo_HealthProbeBindAddress := probeAddr o;
     mo_LeaderElection := enableLeaderElection o;
     mo_WebhookServer := Some (webhookServerOptions o);
     mo_LeaderElectionID := "0254a9f2.kubedoop.dev" |}.

(** From [ctrl.SetLogger] to [mgr.Start]; the process ends when main returns. *)
Definition serve (scheme : list SchemeBuilder) (o : Flags) (lib : Lib) : Proc W () :=
  bind (call_ (SetLogger lib)) (λ _,
  bind (call_ (NewWebhookServer (webhookServerOptions o))) (λ _,
  bind (or_exit GetConfig) (λ _,
  bind (or_exit (NewManager (manager_options scheme o))) (λ _,
  bind (or_exit (SetupController ListenerClassReconciler_SetupWithManager)) (λ _,
  bind (or_exit (SetupController ListenerReconciler_SetupWithManager)) (λ _,
  bind (or_exit (SetupController PodListenersReconciler_SetupWithManager)) (λ _,
  bind (or_exit (AddHealthzCheck "healthz")) (λ _,
  bind (or_exit (AddReadyzCheck "readyz")) (λ _,
  bind (call_ SetupSignalHandler) (λ _,
  or_exit StartManager)))))))))).

Definition main (args : list string) : Proc W () :=
  bind init (λ scheme,
  bind (parse_flags flags defaults args) (λ '(o, lib),
  if showVersion o then
    bind (call_ (Println (AppInfo_String (NewAppInfo "listener-operator")))) (λ _, exit 0)
  else serve scheme o lib)).
End main.

(** ** The command line *)

(** The names of the flags are distinct from each other and from those of the libraries. *)
Lemma all_flags_names `{!LibraryFlags} {O} (fs : list (Flag O)) :
  flag_name <$> all_flags fs = "kubeconfig" :: (flag_name <$> fs) ++
    ["zap-devel"; "zap-encoder"; "zap-log-level"; "zap-stacktrace-level"; "zap-time-encoding"].
Proof.
  unfold all_flags. csimpl. rewrite kubeconfig_name, fmap_app, <- !list_fmap_compose, <- zap_names.
  f_equal.
Qed.

Lemma flags_registered `{!LibraryFlags} :
  register (all_flags flags) [] = Ok (all_flags flags) ∧ NoDup (flag_name <$> all_flags flags).
Proof.
  assert (NoDup (flag_name <$> all_flags flags)) as Hnd.
  { rewrite all_flags_names. apply (bool_decide_unpack _). by vm_compute. }
  split; [|done]. rewrite register_Ok; [done| |done].
  apply (Forall_fmap flag_name (λ n, flag_named n = true)). rewrite all_flags_names.
  apply (bool_decide_unpack _). by vm_compute.
Qed.

Ltac each_flag H :=
  repeat (apply elem_of_cons in H as [->|H]); [..|by apply not_elem_of_nil in H].

(** What the flags are documented to set: the value of every flag under its name. *)
Definition values (o : Flags) : list setting := [
  ("metrics-bind-address", inl (metricsAddr o));
  ("health-probe-bind-address", inl (probeAddr o));
  ("leader-elect", inr (enableLeaderElection o));
  ("metrics-secure", inr (secureMetrics o));
  ("webhook-cert-path", inl (webhookCertPath o));
  ("webhook-cert-name", inl (webhookCertName o));
  ("webhook-cert-key", inl (webhookCertKey o));
  ("metrics-cert-path", inl (metricsCertPath o));
  ("metrics-cert-name", inl (metricsCertName o));
  ("metrics-cert-key", inl (metricsCertKey o));
  ("enable-http2", inr (enableHTTP2 o));
  ("version", inr (showVersion o)) ].

(** A setting of one of the flags, of its type. *)
Definition allowed (m : setting) : Prop := (m.1, is_truth m.2) ∈ (λ x, (x.1, is_truth x.2)) <$> values defaults.

(** Setting a flag updates the documented value of its name. *)
Lemma flag_updates f w v o :
  f ∈ flags → flag_bool f = is_truth w → text_of w v →
  ∃ o', flag_set f v o = Some o' ∧ values o' = update (flag_name f, w) (values o).
Proof.
  intros Hf Hb Hv. destruct o. each_flag Hf; destruct w as [v'|b]; try done; simpl in Hv; cbn;
    first [subst v|rewrite Hv]; (eexists; split; [reflexivity|]); vm_compute; reflexivity.
Qed.

Lemma allowed_flag m : allowed m → ∃ f, f ∈ flags ∧ flag_name f = m.1 ∧ flag_bool f = is_truth m.2.
Proof.
  destruct m as [n w]. unfold allowed. cbn. intros Hin.
  assert (∀ x, x ∈ (λ f, (flag_name f, flag_bool f)) <$> flags → ∃ f, f ∈ flags ∧ flag_name f = x.1 ∧ flag_bool f = x.2) as Hflag.
  { intros x (f & -> & Hf)%list_elem_of_fmap. by exists f. }
  by apply (Hflag (n, is_truth w)).
Qed.

Lemma flags_parse `{!LibraryFlags} ms args o lib :
  Forall allowed ms → Forall2 spells ms args →
  ∃ o', Parse (all_flags flags) (mjoin args) (o, lib) = Parsed (o', lib) [] ∧
        values o' = foldl (λ vs m, update m vs) (values o) ms.
Proof.
  intros Hok Hsp. revert o. induction Hsp as [|[n w] a ms args Hm _ IH]; intros o; [by exists o|].
  apply Forall_cons in Hok as [Hal Hok]. destruct (allowed_flag _ Hal) as (f & Hf & Hn & Hb). simpl in Hn, Hb.
  rewrite <- Hn in *. destruct (spells_spelled f w a Hm Hb) as (v & Hv & Ht).
  destruct (flag_updates f w v o Hf Hb Ht) as (o1 & Hset & Hvals).
  destruct (IH Hok o1) as (o' & Hp & Ho'). exists o'. csimpl. split; [|by rewrite Ho', Hvals].
  rewrite (Parse_spelled _ (on_fst f) v _ _ (o, lib) (o1, lib)); [done| | | |by apply on_fst_spelled|by cbn; rewrite Hset].
  - apply Lookup_registered; [apply flags_registered|]. unfold all_flags.
    apply list_elem_of_further, elem_of_app. left. by apply list_elem_of_fmap_2.
  - assert (Forall (λ g, flag_named (flag_name g) = true) flags) as Hall by (apply (bool_decide_unpack _); by vm_compute).
    by apply (proj1 (Forall_forall _ _) Hall).
  - assert (Forall (λ g, flag_name g ≠ "") flags) as Hall by (apply (bool_decide_unpack _); by vm_compute).
    by apply (proj1 (Forall_forall _ _) Hall).
Qed.

(** C31: The command line says what is served: for any settings of the operator's flags, in any
    order, with repetitions and omissions, each written in any form the package flag accepts, the
    variables end up as documented: each flag has the value of its last setting or its default,
    under its own name and in its own variable, and the libraries' options are left alone. *)
Theorem command_line_roundtrip `{!LibraryFlags} {W} ms args (t : list (action W)) :
  Forall allowed ms → Forall2 spells ms args →
  ∃ o, parse_flags flags defaults (mjoin args) t = (t, inl (o, lib_defaults)) ∧
       values o = foldl (λ vs m, update m vs) (values defaults) ms.
Proof.
  intros Hok Hsp. destruct (flags_parse ms args defaults lib_defaults Hok Hsp) as (o & Hp & Ho).
  exists o. split; [|done]. unfold parse_flags. destruct flags_registered as [-> _]. by rewrite Hp.
Qed.

(** ** What main does *)

Section theorems.
Context {W : Type} `{HC : Client W} `{!ControllerUtil W} `{!OperatorGo}.
Context `{!LibraryFlags} `{!Environment W} `{Build}.

Definition scheme : list SchemeBuilder :=
  [clientgoscheme; znclistenerv1alpha1; listenerv1alpha1 GroupVersion].

(** The calls up to the flags, and those up to the start of the manager, with the exit codes
    of their errors. *)
Definition init_plan : plan (W:=W) := (λ b, (AddToScheme b, Some 2%Z)) <$> scheme.
Definition setup_plan (o : Flags) (lib : Lib) : plan (W:=W) :=
  [(SetLogger lib, None); (NewWebhookServer (webhookServerOptions o), None);
   (GetConfig, Some 1%Z); (NewManager (manager_options scheme o), Some 1%Z);
   (SetupController ListenerClassReconciler_SetupWithManager, Some 1%Z);
   (SetupController ListenerReconciler_SetupWithManager, Some 1%Z);
   (SetupController PodListenersReconciler_SetupWithManager, Some 1%Z);
   (AddHealthzCheck "healthz", Some 1%Z); (AddReadyzCheck "readyz", Some 1%Z);
   (SetupSignalHandler, None)].

Lemma init_follows t : init t = bind (follow init_plan) (λ _, ret scheme) t.
Proof.
  unfold init, Must, bind, call, ret. simpl. unfold bind, call, ret.
  repeat (destruct (answer _ _); [done|]). done.
Qed.

Lemma serve_follows o lib t :
  serve scheme o lib t = follow (setup_plan o lib ++ [(StartManager, Some 1%Z)]) t.
Proof.
  unfold serve, call_, or_exit, setup_plan. cbn [app follow]. unfold call_, bind, call, ret.
  repeat (destruct (answer _ _); [done|]). done.
Qed.

(** What the command line asks for. *)
Definition command (args : list string) : parsed :=
  Parse (all_flags flags) args (defaults, lib_defaults).

(** The process, by what the command line asks for. *)
Lemma main_cases args :
  (∃ made, main args [] = (made, inr 2%Z) ∧ ∀ b, b ∈ made → ∃ c, b = AddToScheme c) ∨
  succeeds init_plan [] ∧ main args [] =
    match command args with
    | Parsed (o, lib) _ =>
        if showVersion o then
          (init_plan.*1 ++ [Println (AppInfo_String (NewAppInfo "listener-operator"))], inr 0%Z)
        else follow (setup_plan o lib ++ [(StartManager, Some 1%Z)]) init_plan.*1
    | ErrHelp => (init_plan.*1, inr 0%Z)
    | Invalid => (init_plan.*1, inr 2%Z)
    end.
Proof.
  destruct (follow_spec init_plan []) as [[Hs Hf]|(dn & a & code & rest & Heq & _ & Hf)].
  - right. split; [done|]. assert (init [] = (init_plan.*1, inl scheme)) as Hi
      by (rewrite init_follows; unfold bind; by rewrite Hf).
    unfold main. rewrite (bind_next _ _ _ _ _ Hi). unfold parse_flags, command. rewrite (proj1 flags_registered).
    destruct (Parse _ _ _) as [[o lib] rest| |]; [|done..].
    rewrite (bind_next _ _ _ _ _ eq_refl). destruct (showVersion o); [done|]. apply serve_follows.
  - left. exists (dn.*1 ++ [a]). assert (init [] = (dn.*1 ++ [a], inr code)) as Hi
      by (rewrite init_follows; unfold bind; by rewrite Hf).
    unfold main. rewrite (bind_exit _ _ _ _ _ Hi).
    assert (Forall (λ x, x.2 = Some 2%Z ∧ ∃ c, x.1 = AddToScheme c) init_plan) as Hall.
    { unfold init_plan. apply Forall_fmap, Forall_forall. intros b _. split; [done|by exists b]. }
    rewrite Heq, Forall_app, Forall_cons in Hall. destruct Hall as (Hdn & [Hc Ha] & _). simpl in Hc, Ha.
    injection Hc as ->. split; [done|]. intros b [(x & -> & Hx)%list_elem_of_fmap| ->%list_elem_of_singleton]%elem_of_app; [|done].
    by apply (proj1 (Forall_forall _ _) Hdn) in Hx as [_ ?].
Qed.

(** C21: The operator starts serving only when it is complete: when [mgr.Start] is called, the
    scheme has been filled, the manager made with the options of the command line, the three
    controllers and both health checks registered, in this order, and none of these calls
    failed.  The exit code is 0 only if the manager ended without an error, or if the command
    line asked for help or for the version; otherwise it is 1 or 2. *)
Theorem operator_starts_complete args trace r :
  main args [] = (trace, r) →
  (StartManager ∈ trace → ∃ o lib rest,
     command args = Parsed (o, lib) rest ∧ showVersion o = false ∧
     trace = (init_plan ++ setup_plan o lib).*1 ++ [StartManager] ∧
     succeeds (init_plan ++ setup_plan o lib) [] ∧
     r = match answer ((init_plan ++ setup_plan o lib).*1) StartManager with
         | None => inl ()
         | Some _ => inr 1%Z
         end) ∧
  (StartManager ∉ trace →
     (r = inr 0%Z ∧ (command args = ErrHelp ∨
                     ∃ o lib rest, command args = Parsed (o, lib) rest ∧ showVersion o = true)) ∨
     r = inr 1%Z ∨ r = inr 2%Z).
Proof.
  intros Hrun. destruct (main_cases args) as [(made & Hm & Hadd)|[Hinit Hm]]; rewrite Hm in Hrun.
  { injection Hrun as <- <-. split; [|by auto]. intros (c & Hc)%Hadd. done. }
  assert (StartManager ∉ init_plan.*1) as Hi by (cbn; set_solver).
  destruct (command args) as [[o lib] rest| |]; [|injection Hrun as <- <-; split; [done|by auto]..].
  destruct (showVersion o) eqn:Hv.
  { injection Hrun as <- <-. split; [intros ?; exfalso; set_solver|]. intros _. left. split; [done|].
    right. by eexists _, _, _. }
  assert (StartManager ∉ (setup_plan o lib).*1) as Hs by (cbn; set_solver).
  destruct (follow_last (setup_plan o lib) StartManager 1%Z init_plan.*1 Hs)
    as [[Hok Hf]|(made & code & Hf & Hno & _ & Hcode)]; rewrite Hf in Hrun; injection Hrun as <- <-.
  - split; [intros _|intros Hn; exfalso; apply Hn; set_solver].
    exists o, lib, rest. split_and!; try done. by apply succeeds_app.
  - split; [intros ?; exfalso; set_solver|]. intros _. right. left. cbn in Hcode. f_equal. set_solver.
Qed.

(** The only manager a process makes has the options of its command line. *)
Lemma manager_made args trace r m :
  main args [] = (trace, r) → NewManager m ∈ trace →
  ∃ o lib rest, command args = Parsed (o, lib) rest ∧ m = manager_options scheme o.
Proof.
  intros Hrun Hm. destruct (main_cases args) as [(made & Heq & Hadd)|[_ Heq]]; rewrite Heq in Hrun.
  { injection Hrun as <- <-. by apply Hadd in Hm as [c ?]. }
  assert (NewManager m ∉ init_plan.*1) as Hi by (cbn; set_solver).
  destruct (command args) as [[o lib] rest| |]; [|injection Hrun as <- <-; by apply Hi in Hm..].
  exists o, lib, rest. split; [done|]. destruct (showVersion o); [injection Hrun as <- <-; set_solver|].
  assert (NewManager m ∈ (setup_plan o lib).*1 → m = manager_options scheme o) as Hin by (cbn; set_solver).
  assert (StartManager ∉ (setup_plan o lib).*1) as Hs by (cbn; set_solver).
  destruct (follow_last (setup_plan o lib) StartManager 1%Z init_plan.*1 Hs)
    as [[_ Hf]|(made & code & Hf & _ & Hsub & _)]; rewrite Hf in Hrun.
  - apply Hin. assert (trace = init_plan.*1 ++ (setup_plan o lib).*1 ++ [StartManager]) as -> by congruence.
    apply elem_of_app in Hm as [?%Hi|[?|?%list_elem_of_singleton]%elem_of_app]; done.
  - apply Hin. assert (trace = init_plan.*1 ++ made) as -> by congruence.
    apply elem_of_app in Hm as [?%Hi|?%Hsub]; done.
Qed.

(** C32: The operator's endpoints are protected as the command line says: unless HTTP/2 is asked
    for, the metrics and the webhook server offer HTTP/1.1 only, whatever their own TLS
    configuration; metrics served over HTTPS are always behind authentication and
    authorization; and a certificate is taken from the directory given and nowhere else. *)
Theorem operator_endpoints_protected args trace r m :
  main args [] = (trace, r) → NewManager m ∈ trace →
  ∃ o lib rest wh, command args = Parsed (o, lib) rest ∧ mo_WebhookServer m = Some wh ∧
    (enableHTTP2 o = false → ∀ c,
       NextProtos (apply_tls (ms_TLSOpts (mo_Metrics m)) c) = ["http/1.1"] ∧
       NextProtos (apply_tls (wh_TLSOpts wh) c) = ["http/1.1"]) ∧
    (enableHTTP2 o = true → ∀ c,
       apply_tls (ms_TLSOpts (mo_Metrics m)) c = c ∧ apply_tls (wh_TLSOpts wh) c = c) ∧
    (SecureServing (mo_Metrics m) = true ↔
       ms_FilterProvider (mo_Metrics m) = Some WithAuthenticationAndAuthorization) ∧
    ms_CertDir (mo_Metrics m) = metricsCertPath o ∧ wh_CertDir wh = webhookCertPath o.
Proof.
  intros Hrun Hm. destruct (manager_made _ _ _ _ Hrun Hm) as (o & lib & rest & Hcmd & ->).
  exists o, lib, rest, (webhookServerOptions o). simpl. unfold webhookServerOptions, tlsOpts.
  split_and!; [done|done|intros ->|intros ->| | |]; simpl.
  - intros c. by case_bool_decide.
  - intros c. by case_bool_decide.
  - by destruct (secureMetrics o).
  - case_bool_decide as Hc; [done|]. by destruct (decide (metricsCertPath o = "")).
  - case_bool_decide as Hc; [done|]. by destruct (decide (webhookCertPath o = "")).
Qed.
End theorems.

(** ** Witnesses *)

Definition zap_flag (name : string) (boolean : bool) : Flag (list string) :=
  {| flag_name := name; flag_bool := boolean;
     flag_set := λ v s, Some ((name +:+ "=" +:+ v) :: s); flag_string := λ _, "" |}.

Definition fake_library : LibraryFlags := {|
  Lib := list string;
  lib_defaults := [];
  kubeconfig_flag := zap_flag "kubeconfig" false;
  zap_flags := [zap_flag "zap-devel" true; zap_flag "zap-encoder" false; zap_flag "zap-log-level" false;
                zap_flag "zap-stacktrace-level" false; zap_flag "zap-time-encoding" false];
  kubeconfig_name := eq_refl;
  zap_names := eq_refl;
|}.

(** A command line with flags in several forms, one of them twice. *)
Definition secured : list setting :=
  [("metrics-bind-address", inl ":8443"); ("leader-elect", inr true); ("metrics-cert-path", inl "/metrics");
   ("metrics-cert-key", inl "m.key"); ("webhook-cert-path", inl "/webhook"); ("enable-http2", inr true);
   ("enable-http2", inr false)].
Definition secured_args : list (list string) :=
  [["--metrics-bind-address"; ":8443"]; ["-leader-elect"]; ["--metrics-cert-path=/metrics"];
   ["-metrics-cert-key"; "m.key"]; ["--webhook-cert-path=/webhook"]; ["--enable-http2=T"]; ["-enable-http2=0"]].

Ltac spell :=
  first [ refine (spells_bare "--" _ _) | refine (spells_bare "-" _ _)
        | refine (spells_text "--" _ _ _) | refine (spells_text "-" _ _ _)
        | refine (spells_next "--" _ _ _) | refine (spells_next "-" _ _ _)
        | refine (spells_true "--" _ "T" _ _) | refine (spells_false "-" _ "0" _ _) ];
  set_solver.

Lemma secured_spelled : Forall2 spells secured secured_args.
Proof. repeat (apply Forall2_cons; split; [spell|]). apply Forall2_nil_2. Qed.

Lemma secured_allowed : Forall allowed secured.
Proof. unfold allowed. apply (bool_decide_unpack _). by vm_compute. Qed.

Lemma command_line_roundtrip_witness :
  @parse_flags cluster fake_library _ flags defaults (mjoin secured_args) [] =
    ([], inl (MkFlags ":8443" ":8081" true true "/webhook" "tls.crt" "tls.key" "/metrics" "tls.crt" "m.key" false false, [])).
Proof.
  destruct (@command_line_roundtrip fake_library cluster secured secured_args [] secured_allowed secured_spelled)
    as ([] & Hp & Hv). rewrite Hp. vm_compute in Hv. by injection Hv as <- <- <- <- <- <- <- <- <- <- <- <-.
Defined.

(** A cluster whose API server answers, and a node port of the operator's command line. *)
Definition fake_environment : @Environment cluster fake_library := {| answer := λ _ _, None |}.

Definition fake_main (args : list string) : list (@action cluster fake_library) * (() + Z) :=
  @main cluster _ _ _ fake_library fake_environment release args [].

Lemma operator_starts_complete_witness :
  ∃ o lib rest, @command fake_library ["--leader-elect"] = Parsed (o, lib) rest ∧ showVersion o = false ∧
    (fake_main ["--leader-elect"]).1 =
      (@init_plan cluster fake_library ++ setup_plan o lib).*1 ++ [StartManager].
Proof.
  destruct (@operator_starts_complete cluster _ _ _ fake_library fake_environment release ["--leader-elect"]
    (fake_main ["--leader-elect"]).1 (fake_main ["--leader-elect"]).2) as [Hstart _].
  - apply surjective_pairing.
  - destruct Hstart as (o & lib & rest & Hc & Hv & Ht & _).
    + apply (list_elem_of_lookup_2 _ 13). reflexivity.
    + exists o, lib, rest. split; [exact Hc|]. split; [exact Hv|exact Ht].
Defined.

Definition fake_manager : ManagerOptions := manager_options scheme defaults.

Lemma operator_endpoints_protected_witness :
  ∃ o lib rest wh, @command fake_library [] = Parsed (o, lib) rest ∧
    mo_WebhookServer fake_manager = Some wh ∧
    (enableHTTP2 o = false → ∀ c,
       NextProtos (apply_tls (ms_TLSOpts (mo_Metrics fake_manager)) c) = ["http/1.1"] ∧
       NextProtos (apply_tls (wh_TLSOpts wh) c) = ["http/1.1"]).
Proof.
  destruct (@operator_endpoints_protected cluster _ _ _ fake_library fake_environment release []
    (fake_main []).1 (fake_main []).2 fake_manager) as (o & lib & rest & wh & Hc & Hwh & Hp & _).
  - apply surjective_pairing.
  - apply (list_elem_of_lookup_2 _ 6). reflexivity.
  - exists o, lib, rest, wh. split; [exact Hc|]. split; [exact Hwh|exact Hp].
Defined.
End Operator.
