(* ===== verification/Plugin.v ===== *)
(** * The entry point of the CSI plugin

    Models cmd/csiplugin/main.go: the flags and the setup of the manager, and then the process
    in which the manager runs in a goroutine beside [Driver.Run] and the remote calls.  The process
    ends when main returns, when either of them fails, or when a remote call panics. *)
From stdpp Require Import relations.
From S2P Require Import Prelude GoRuntime GoStrings Api FakeClient Version GoFlag Controllers Process Cmd.
From S2P Require Import Server ServerRun Driver.

Module Plugin.

(** ** Flags and options *)

Record Flags := MkFlags {
  endpoint : string;
  nodeID : string;
  metricsAddr : string;
  probeAddr : string;
  enableLeaderElection : bool;
  secureMetrics : bool;
  enableHTTP2 : bool;
  versionInfo : bool;
}.

Definition defaults : Flags :=
  MkFlags "unix://tmp/csi.sock" "" "0" ":8081" false true false false.

Definition flags : list (Flag Flags) := [
  StringVar endpoint (λ x '(MkFlags _ b c d e f g h), MkFlags x b c d e f g h) "endpoint";
  StringVar nodeID (λ x '(MkFlags a _ c d e f g h), MkFlags a x c d e f g h) "nodeid";
  StringVar metricsAddr (λ x '(MkFlags a b _ d e f g h), MkFlags a b x d e f g h) "metrics-bind-address";
  StringVar probeAddr (λ x '(MkFlags a b c _ e f g h), MkFlags a b c x e f g h) "health-probe-bind-address";
  BoolVar enableLeaderElection (λ x '(MkFlags a b c d _ f g h), MkFlags a b c d x f g h) "leader-elect";
  BoolVar secureMetrics (λ x '(MkFlags a b c d e _ g h), MkFlags a b c d e x g h) "metrics-secure";
  BoolVar enableHTTP2 (λ x '(MkFlags a b c d e f _ h), MkFlags a b c d e f x h) "enable-http2";
  BoolVar versionInfo (λ x '(MkFlags a b c d e f g _), MkFlags a b c d e f g x) "version" ].

Definition tlsOpts (o : Flags) : list (TLSConfig → TLSConfig) :=
  if negb (enableHTTP2 o) then [disableHTTP2] else [].

Definition metricsServerOptions (o : Flags) : MetricsOptions :=
  {| BindAddress := metricsAddr o;
     SecureServing := secureMetrics o;
     ms_TLSOpts := tlsOpts o;
     ms_FilterProvider := if secureMetrics o then Some WithAuthenticationAndAuthorization else None;
     ms_CertDir := ""; ms_CertName := ""; ms_KeyName := "" |}.

Definition manager_options (scheme : list SchemeBuilder) (o : Flags) : ManagerOptions :=
  {| mo_Scheme := scheme;
     mo_Metrics := metricsServerOptions o;
     mo_HealthProbeBindAddress := probeAddr o;
     mo_LeaderElection := enableLeaderElection o;
     mo_WebhookServer := None;
     mo_LeaderElectionID := "6a34b29b.kubedoop.dev" |}.

(** ** main up to the goroutine of the manager *)

Section setup.
Context {W : Type} `{!LibraryFlags} `{!Environment W} `{Build}.

Definition setup (args : list string) : Proc W Flags :=
  bind init (λ scheme,
  bind (parse_flags flags defaults args) (λ '(o, lib),
  if versionInfo o then
    bind (call_ (Println (AppInfo_String (NewAppInfo DefaultDriverName)))) (λ _, exit 0)
  else
    bind (call_ (SetLogger lib)) (λ _,
    bind (or_exit GetConfig) (λ _,
    bind (or_exit (NewManager (manager_options scheme o))) (λ _,
    bind (or_exit (AddHealthzCheck "healthz")) (λ _,
    bind (or_exit (AddReadyzCheck "readyz")) (λ _,
    bind (call_ SetupSignalHandler) (λ _,
    ret o)))))))).
End setup.

(** ** The manager beside the driver *)

(** The process runs, with or without the manager, or has exited with a code.  The first of
    the driver's calls is main's own, [driver.Run]. *)
Inductive process :=
| Running (manager : bool) (st : state)
| Exited (code : Z) (st : state).

(** [Driver.Run] returns an error when there is no node ID, and that of Start: no listener was
    made. *)
Definition Run_code (s : shared) : Z := match listener s with None => 1 | Some _ => 0 end.

(** From the start of the goroutine on; a panic ends a Go program with the code 2. *)
Definition launch `{Grpc} `{Build} (o : Flags) : process :=
  match NewDriver (nodeID o) (endpoint o) with
  | Ok d => Running true (initial.1, [(Run d).2])
  | _ => Exited 2 (initial.1, [])
  end.

(** main: what runs after the setup. *)
Definition main {W} `{!LibraryFlags} `{!Environment W} `{Build} `{Grpc} (args : list string) : Proc W process :=
  bind (setup args) (λ o, ret (launch o)).

(** A step of the process in good order: a call of the driver moves or a remote call returns, the
    manager stops after a signal, main returns. *)
Inductive orderly_step : process → process → Prop :=
| ps_driver m st st' : thread_step st st' → orderly_step (Running m st) (Running m st')
| ps_manager_stops st : cancelled st.1 = true → orderly_step (Running true st) (Running false st)
| ps_return m s ts : orderly_step (Running m (s, [] :: ts)) (Exited (Run_code s) (s, [] :: ts)).

(** A step of the process: in good order; or the manager fails, gRPC ends the process, or a remote
    call panics, which nothing recovers from. *)
Inductive process_step : process → process → Prop :=
| ps_orderly p p' : orderly_step p p' → process_step p p'
| ps_manager_error st : process_step (Running true st) (Exited 1 st)       (* os.Exit(1) *)
| ps_fatal m st : fatal st.1 = true → process_step (Running m st) (Exited 1 st)
| ps_rpc_panics m st : 0 < rpcs st.1 → process_step (Running m st) (Exited 2 st).

(** A step of the process or of its environment: a signal, a broken connection, a remote call. *)
Inductive plugin_step : process → process → Prop :=
| pl_process p p' : process_step p p' → plugin_step p p'
| pl_outside m s s' ts : outside_step s s' → plugin_step (Running m (s, ts)) (Running m (s', ts)).

(** ** The process *)

(** Everything the driver had started is over: nothing serves, the listener is closed, once. *)
Definition clean (st : state) : Prop :=
  registered st.1 = csi_services ∧ listener st.1 = Some false ∧ closes st.1 = 1 ∧ wg st.1 = 0%Z ∧
  ∀ t, t ∈ st.2 → Serve ∉ t ∧ Serving ∉ t ∧ Done ∉ t.

(** What holds of every process a plugin can become. *)
Definition process_inv (p : process) : Prop :=
  match p with
  | Running _ st => run_inv st
  | Exited code st => (code = 0%Z ∧ clean st) ∨ code = 1%Z ∨ (code = 2%Z ∧ 0 < rpcs st.1)
  end.

(** Main returns from a run without an error only after everything is closed. *)
Lemma return_code s ts : run_inv (s, [] :: ts) → (Run_code s = 0%Z ∧ clean (s, [] :: ts)) ∨ Run_code s = 1%Z.
Proof.
  intros [Hi _ _ (t & ts' & Hts & Hm & _)]. simpl in *. injection Hts as <- <-. unfold Run_code.
  remember [] as t eqn:Ht. destruct Hm as [n Hn ? Hl ? ? ?|Hl ?|t Hl Hin|Hl Hw|(Hr & _ & Hl) Ho Hw];
    [right; by rewrite Hl|right; by rewrite Hl| |done|].
  { rewrite Ht in Hin. set_solver. }
  left. rewrite Ho in Hl. destruct Hl as [Hl Hc]. rewrite Hl. split; [done|].
  split_and!; [done..|]. intros t' Ht'. by apply (wg_zero_idle s ([] :: ts)).
Qed.

Lemma process_inv_step p p' : plugin_step p p' → process_inv p → process_inv p'.
Proof.
  intros Hstep. destruct Hstep as [p p' Hp|m s s' ts Hout].
  - destruct Hp as [p p' Ho|st|m st Hf|m st Hn]; [|simpl; auto..].
    destruct Ho as [m st st' Ht|st Hc|m s ts]; simpl; [|done|].
    + intros Hi. by eapply driver_step_inv; [apply drv_thread|].
    + intros Hi. destruct (return_code s ts Hi); auto.
  - simpl. intros Hi. by eapply driver_step_inv; [apply drv_outside|].
Qed.

(** The steps a process has left. *)
Definition process_cost (p : process) : nat :=
  match p with
  | Running m st => cost st + (if m then 1 else 0) + 1
  | Exited _ _ => 0
  end.

Lemma process_step_cost p p' : process_step p p' → process_cost p' < process_cost p.
Proof.
  intros [p1 p2 [m st st' Hs%thread_step_cost|st Hc|m s ts]|st|m st Hf|m st Hn]; simpl; lia.
Qed.

Lemma process_nsteps_cost n p p' : nsteps process_step n p p' → n + process_cost p' ≤ process_cost p.
Proof. induction 1 as [|n x y z Hs%process_step_cost _ IH]; lia. Qed.

(** Once the context is cancelled, and once there is a listener, that stays so. *)
Definition kept (st st' : state) : Prop :=
  (cancelled st.1 = true → cancelled st'.1 = true) ∧ (listener st.1 ≠ None → listener st'.1 ≠ None).
#[export] Instance kept_preorder : PreOrder kept.
Proof. split; [by intros st|]. intros st1 st2 st3 [? ?] [? ?]. split; auto. Qed.

Lemma thread_step_kept st st' : thread_step st st' → kept st st'.
Proof.
  intros [s s' i k k' new ts1 ts2 He|s ts Hn]; [|by split]. split; simpl; inversion He; subst; try done;
    simpl; by destruct (listener s).
Qed.

Definition process_state (p : process) : state := match p with Running _ st | Exited _ st => st end.

Lemma process_steps_kept p p' : rtc process_step p p' → kept (process_state p) (process_state p').
Proof.
  induction 1 as [p|p p1 p2 Hs _ IH]; [done|]. etrans; [|exact IH].
  destruct Hs as [p p1 [m st st' Hs|st Hc|m s ts]|st|m st Hf|m st Hn]; simpl; try done. by apply thread_step_kept.
Qed.

Lemma driver_steps m st st' :
  rtc thread_step st st' → rtc orderly_step (Running m st) (Running m st') ∧ kept st st'.
Proof.
  induction 1 as [|x y z Hs _ [IH Hk]]; [done|]. split; [by eapply rtc_l; [apply ps_driver|]|].
  etrans; [by apply thread_step_kept|done].
Qed.

(** A cancelled process can always go on in good order to its exit: with 0 if it listens. *)
Lemma process_exits m st :
  run_inv st → cancelled st.1 = true →
  ∃ code st', rtc orderly_step (Running m st) (Exited code st') ∧
    (listener st.1 ≠ None → code = 0%Z ∧ clean st').
Proof.
  intros Hi Hc. destruct (run_finishes st Hi Hc) as (st2 & Hsteps & Hfin).
  assert (run_inv st2) as Hi2.
  { eapply rtc_inv; [|exact Hsteps|done]. intros x y Hs. apply driver_step_inv. by apply drv_thread. }
  destruct (driver_steps m _ _ Hsteps) as [Hord [_ Hl]].
  pose proof Hi2 as [_ _ _ (t & ts & Hts & _)]. destruct st2 as [s2 ts2]. simpl in Hts. subst ts2.
  apply Forall_cons in Hfin as [-> _]. eexists _, _. split; [eapply rtc_r; [exact Hord|apply ps_return]|].
  intros Hsome%Hl. destruct (return_code _ _ Hi2) as [?|Hcode]; [done|].
  simpl in Hsome. unfold Run_code in Hcode. by destruct (listener s2).
Qed.

Section theorems.
Context {W : Type} `{!LibraryFlags} `{!Environment W} `{GrpcLaws} `{Build}.

Lemma launch_inv o : process_inv (launch o).
Proof.
  unfold launch. destruct (Run_cases (nodeID o) (endpoint o)) as (d & -> & ->). apply run_initial.
  case_bool_decide; set_solver.
Qed.

(** C20: The plugin's process after its setup, with remote calls that come in and return at any time:
    whatever happens to it, it exits with 0 only when the three services were registered, no
    server goroutine is left and the listener is closed, by exactly one call of [closeListener];
    it exits with 2 only while a remote call is pending, which panicked, and otherwise with 1.
    Once it got a signal, it takes only a bounded number of further steps, pending calls
    returning among them, it is never stuck, and as long as neither the manager fails nor a call
    panics it goes on to its exit, with 0 when it listened. *)
Theorem plugin_process args (trace : list (action W)) p0 p :
  main args [] = (trace, inl p0) → rtc plugin_step p0 p →
  match p with
  | Exited code st => (code = 0%Z ∧ clean st) ∨ code = 1%Z ∨ (code = 2%Z ∧ 0 < rpcs st.1)
  | Running m st =>
      cancelled st.1 = true → ∀ n p', nsteps process_step n (Running m st) p' →
      n ≤ cost st + 2 ∧
      match p' with
      | Exited _ _ => True
      | Running _ _ => ∃ code st', rtc orderly_step p' (Exited code st') ∧
          (listener st.1 ≠ None → code = 0%Z ∧ clean st')
      end
  end.
Proof.
  intros Hmain Hr. assert (process_inv p) as Hp.
  { eapply rtc_inv; [apply process_inv_step|exact Hr|]. unfold main, bind in Hmain.
    destruct (setup args []) as [t [o|code]]; [|done]. injection Hmain as _ <-. apply launch_inv. }
  destruct p as [m st|code st]; [|done]. intros Hc n p' Hn. split.
  { apply process_nsteps_cost in Hn. simpl in Hn. destruct m; lia. }
  assert (rtc process_step (Running m st) p') as Hrt by (apply rtc_nsteps; eauto).
  assert (process_inv p') as Hp'.
  { eapply (rtc_inv plugin_step); [apply process_inv_step| |exact Hp].
    eapply rtc_subrel; [|exact Hrt]. by constructor. }
  destruct (process_steps_kept _ _ Hrt) as [Hc' Hl']. destruct p' as [m' st'|]; [|done].
  destruct (process_exits m' st' Hp' (Hc' Hc)) as (code & st2 & Hsteps & Hcode).
  exists code, st2. split; [done|]. intros Hl. by apply Hcode, Hl'.
Qed.
End theorems.

(** ** Witness *)

Definition node_args : list string := ["--nodeid=node-1"; "--metrics-bind-address"; ":8443"].

Definition node_main : list (@action cluster Operator.fake_library) * (process + Z) :=
  @main cluster Operator.fake_library Operator.fake_environment release fake_grpc node_args [].

Lemma signalled :
  rtc plugin_step (Running true (initial.1, [Run_calls]))
    (Running true (set_cancelled initial.1, [Run_calls])).
Proof. eapply rtc_l; [apply pl_outside, out_cancel|apply rtc_refl]. Qed.

Lemma plugin_process_witness :
  0 ≤ cost (set_cancelled initial.1, [Run_calls]) + 2 ∧
  ∃ code st', rtc orderly_step (Running true (set_cancelled initial.1, [Run_calls])) (Exited code st').
Proof.
  destruct (@plugin_process cluster Operator.fake_library Operator.fake_environment fake_grpc fake_grpc_laws release
    node_args node_main.1 (Running true (initial.1, [Run_calls])) _ (ltac:(reflexivity)) signalled eq_refl
    0 (Running true (set_cancelled initial.1, [Run_calls])) (nsteps_O _ _)) as [Hn (code & st' & Hsteps & _)].
  split; [exact Hn|]. exists code, st'. exact Hsteps.
Defined.
End Plugin.
