(* ===== verification/Deployment.v ===== *)
(** * The programs as they are deployed

    The command lines with which the manifests under config and the Helm chart start the two
    programs, with the parsing of [Operator.main] and [Plugin.main] behind them: what the
    processes do in their containers, for any values of the chart and on any node.  The access
    rights of the containers are in [Rbac]. *)
From S2P Require Import Prelude GoRuntime GoStrings Api GoOs FakeClient Version GoFlag Reconciler Controllers.
From S2P Require Import Util Server ServerRun Driver Rbac Process Cmd Plugin.
Import Util.Net.

(** ** Containers *)

(** An argument of a container: text, and references to variables of its environment. *)
Inductive piece := Text (s : string) | Ref (name : string).
Notation argument := (list piece).

(** Kubernetes replaces the references; one to an unknown variable stays as it is. *)
Definition expand_piece (env : list (string * string)) (p : piece) : string :=
  match p with
  | Text s => s
  | Ref name => default ("$(" +:+ name +:+ ")") (snd <$> List.find (λ x, bool_decide (x.1 = name)) env)
  end.
Definition expand (env : list (string * string)) (a : argument) : string :=
  foldr (λ p s, expand_piece env p +:+ s) "" a.

(** The three containers that run the repository's programs. *)
Inductive container := OperatorContainer | CsiControllerContainer | CsiNodeContainer.

(** Their environment on a node; the sidecars find the plugin under the same address. *)
Definition csi_address : string := "unix:///csi/csi.sock".
Definition environment (c : container) (node : string) : list (string * string) :=
  match c with
  | OperatorContainer => []
  | _ => [("ADDRESS", csi_address); ("NODE_NAME", node)]
  end.

(** *** config *)

(** config/default/manager_metrics_patch.yaml, which kustomization.yaml applies to the Deployments:
    the operator and the CSI controller. *)
Definition metrics_patch (args : list argument) : list argument :=
  [Text "--metrics-bind-address=:8443"] :: args.

(** config/manager/manager.yaml, config/csi/deployment.yaml and config/csi/daemonset.yaml. *)
Definition kustomize_operator : list argument := metrics_patch [
  [Text "--leader-elect"];
  [Text "--health-probe-bind-address=:8081"] ].
Definition kustomize_csi_controller : list argument := metrics_patch [
  [Text "--leader-elect"];
  [Text "--health-probe-bind-address=:8081"];
  [Text "--endpoint="; Ref "ADDRESS"];
  [Text "--nodeid="; Ref "NODE_NAME"];
  [Text "--zap-log-level=2"] ].
Definition kustomize_csi_node : list argument := [
  [Text "--health-probe-bind-address=:8081"];
  [Text "--endpoint="; Ref "ADDRESS"];
  [Text "--nodeid="; Ref "NODE_NAME"];
  [Text "--zap-log-level=2"] ].

Definition kustomize_args (c : container) : list argument :=
  match c with
  | OperatorContainer => kustomize_operator
  | CsiControllerContainer => kustomize_csi_controller
  | CsiNodeContainer => kustomize_csi_node
  end.

(** *** The chart *)

(** The values a container's template reads; Helm takes an unset value for empty, and zero too. *)
Record Values := {
  metrics_enabled : bool;
  metrics_secure : bool;
  metrics_port : nat;                   (* metrics.service.port *)
  healthProbe_bindAddress : string;
  logLevel : nat;
}.
Definition helm_default (d n : nat) : nat := match n with 0 => d | _ => n end.

(** The named templates of templates/_helpers.tpl. *)
Definition metricsScheme (v : Values) : string := if metrics_secure v then "https" else "http".
Definition metricsPort (v : Values) : string :=
  pretty (helm_default (if metrics_secure v then 8443 else 8080) (metrics_port v)).

Definition chart_metrics (v : Values) : list argument :=
  if metrics_enabled v then
    [Text "--metrics-bind-address=:"; Text (metricsPort v)] ::
    (if metrics_secure v then [[Text "--metrics-secure=true"]] else [])
  else [].

Definition chart_level (v : Values) : string := pretty (helm_default 2 (logLevel v)).

(** templates/deployment.yaml, csi-controller.yaml and csi-daemonset.yaml. *)
Definition chart_operator (v : Values) : list argument :=
  [ [Text "--leader-elect"];
    [Text "--health-probe-bind-address="; Text (healthProbe_bindAddress v)] ] ++
  chart_metrics v ++
  [ [Text "--zap-log-level="; Text (chart_level v)] ].
Definition chart_csi_controller (v : Values) : list argument :=
  [ [Text "--leader-elect"];
    [Text "--health-probe-bind-address="; Text (healthProbe_bindAddress v)] ] ++
  chart_metrics v ++
  [ [Text "--endpoint="; Ref "ADDRESS"];
    [Text "--nodeid="; Ref "NODE_NAME"];
    [Text "--zap-log-level="; Text (chart_level v)] ].
Definition chart_csi_node (v : Values) : list argument :=
  [ [Text "--health-probe-bind-address="; Text (healthProbe_bindAddress v)] ] ++
  chart_metrics v ++
  [ [Text "-endpoint="; Ref "ADDRESS"];
    [Text "-nodeid="; Ref "NODE_NAME"];
    [Text "-zap-log-level="; Text (chart_level v)] ].

Definition chart_args (v : Values) (c : container) : list argument :=
  match c with
  | OperatorContainer => chart_operator v
  | CsiControllerContainer => chart_csi_controller v
  | CsiNodeContainer => chart_csi_node v
  end.

(** *** Command lines *)

Inductive manifests := WithKustomize | WithChart (v : Values).

Definition container_args (d : manifests) (c : container) : list argument :=
  match d with WithKustomize => kustomize_args c | WithChart v => chart_args v c end.
Definition command_line (d : manifests) (c : container) (node : string) : list string :=
  expand (environment c node) <$> container_args d c.

(** ** Parsing them *)

(** The level flag of zap takes every positive number. *)
Class ZapLevels `{!LibraryFlags} : Prop := zap_level : ∀ f,
  f ∈ zap_flags → flag_name f = "zap-log-level" → flag_bool f = false ∧
  ∀ n lib, 0 < n → is_Some (flag_set f (pretty n) lib).

Section parsing.
Context `{!LibraryFlags} `{!ZapLevels} {O : Type} (fs : list (Flag O)).
Hypothesis names_distinct : NoDup (flag_name <$> all_flags fs).
Hypothesis names_good : Forall (λ f, flag_named (flag_name f) = true ∧ flag_name f ≠ "") fs.

Lemma all_flags_Lookup f : f ∈ all_flags fs → Lookup (flag_name f) (all_flags fs) = Some f.
Proof. by apply Lookup_registered. Qed.

(** An argument that sets the program's variables from [o] to [o']; a list of them. *)
Definition reads (arg : string) (o o' : O) : Prop := ∀ rest lib, ∃ lib',
  Parse (all_flags fs) (arg :: rest) (o, lib) = Parse (all_flags fs) rest (o', lib').
Inductive reads_all : list string → O → O → Prop :=
| reads_nil o : reads_all [] o o
| reads_cons arg args o1 o2 o3 : reads arg o1 o2 → reads_all args o2 o3 → reads_all (arg :: args) o1 o3.

Lemma reads_all_app args1 args2 o1 o2 o3 :
  reads_all args1 o1 o2 → reads_all args2 o2 o3 → reads_all (args1 ++ args2) o1 o3.
Proof. induction 1; [done|]. simpl. intros. by econstructor; auto. Qed.

Lemma reads_all_Parsed args o o' lib :
  reads_all args o o' → ∃ lib', Parse (all_flags fs) args (o, lib) = Parsed (o', lib') [].
Proof.
  intros Hr. revert lib. induction Hr as [o|arg args o1 o2 o3 Harg _ IH]; intros lib; [by exists lib|].
  destruct (Harg args lib) as [lib1 ->]. apply IH.
Qed.

(** One of the program's own flags, with a value or alone. *)
Lemma reads_own f v arg o o' : f ∈ fs → spelled f v [arg] → flag_set f v o = Some o' → reads arg o o'.
Proof.
  intros Hf Hs Hset rest lib. exists lib.
  apply (proj1 (Forall_forall _ _) names_good) in Hf as Hn. destruct Hn as [Hn Hne].
  apply (Parse_spelled (all_flags fs) (on_fst f) v [arg]); [|done|done|by apply on_fst_spelled|].
  - apply all_flags_Lookup. unfold all_flags. apply list_elem_of_further, elem_of_app. left. by apply list_elem_of_fmap_2.
  - cbn. by rewrite Hset.
Qed.

(** The level flag of zap. *)
Lemma reads_level dash n o :
  dash ∈ ["-"; "--"] → 0 < n → reads (dash +:+ "zap-log-level=" +:+ pretty n) o o.
Proof.
  intros Hd Hn rest lib.
  assert ("zap-log-level" ∈ flag_name <$> zap_flags) as (f & Hname & Hf)%list_elem_of_fmap
    by (rewrite zap_names; set_solver).
  symmetry in Hname. destruct (zap_level f Hf Hname) as [_ Hset]. destruct (Hset n lib Hn) as [lib' Hlib].
  exists lib'. apply (Parse_spelled (all_flags fs) (on_snd f) (pretty n) [_]).
  - apply all_flags_Lookup. unfold all_flags. apply list_elem_of_further, elem_of_app. right. by apply list_elem_of_fmap_2.
  - cbn. by rewrite Hname.
  - cbn. by rewrite Hname.
  - replace ("zap-log-level=" +:+ pretty n) with (flag_name (on_snd (S:=O) f) +:+ "=" +:+ pretty n) by (cbn; by rewrite Hname).
    by apply spelled_equals.
  - cbn. by rewrite Hlib.
Qed.
End parsing.

(** ** What the containers run with *)

(** The address of the metrics server. *)
Definition metrics_address (d : manifests) (c : container) : string :=
  match d with
  | WithKustomize => match c with CsiNodeContainer => "0" | _ => ":8443" end
  | WithChart v => if metrics_enabled v then ":" +:+ metricsPort v else "0"
  end.
Definition probe_address (d : manifests) : string :=
  match d with WithKustomize => ":8081" | WithChart v => healthProbe_bindAddress v end.

Definition operator_flags (d : manifests) : Operator.Flags :=
  Operator.MkFlags (metrics_address d OperatorContainer) (probe_address d) true true
    "" "tls.crt" "tls.key" "" "tls.crt" "tls.key" false false.

(** Only the CSI controller elects a leader. *)
Definition plugin_flags (d : manifests) (c : container) (node : string) : Plugin.Flags :=
  Plugin.MkFlags csi_address node (metrics_address d c) (probe_address d)
    (match c with CsiControllerContainer => true | _ => false end) true false false.

Lemma expand_text env s : expand env [Text s] = s.
Proof. apply string_app_nil_r. Qed.
Lemma expand_texts env s t : expand env [Text s; Text t] = s +:+ t.
Proof. unfold expand. simpl. by rewrite string_app_nil_r. Qed.
Lemma expand_address c node s :
  c ≠ OperatorContainer → expand (environment c node) [Text s; Ref "ADDRESS"] = s +:+ csi_address.
Proof. intros Hc. destruct c; [done|..]; unfold expand; simpl; by rewrite string_app_nil_r. Qed.
Lemma expand_node c node s :
  c ≠ OperatorContainer → expand (environment c node) [Text s; Ref "NODE_NAME"] = s +:+ node.
Proof. intros Hc. destruct c; [done|..]; unfold expand; simpl; by rewrite string_app_nil_r. Qed.

Lemma helm_default_pos d n : 0 < d → 0 < helm_default d n.
Proof. destruct n; simpl; lia. Qed.

Section flags.
Context `{!LibraryFlags} `{!ZapLevels}.

Lemma plugin_names : NoDup (flag_name <$> all_flags Plugin.flags).
Proof. rewrite Operator.all_flags_names. apply (bool_decide_unpack _). by vm_compute. Qed.
Lemma operator_good : Forall (λ f, flag_named (flag_name f) = true ∧ flag_name f ≠ "") Operator.flags.
Proof. apply (bool_decide_unpack _). by vm_compute. Qed.
Lemma plugin_good : Forall (λ f, flag_named (flag_name f) = true ∧ flag_name f ≠ "") Plugin.flags.
Proof. apply (bool_decide_unpack _). by vm_compute. Qed.

(** The flag at a position of the list. *)
Lemma operator_reads i f v arg o o' :
  Operator.flags !! i = Some f → spelled f v [arg] → flag_set f v o = Some o' →
  reads Operator.flags arg o o'.
Proof.
  intros Hf. apply (reads_own _ (proj2 Operator.flags_registered) operator_good). by eapply list_elem_of_lookup_2.
Qed.
Lemma plugin_reads i f v arg o o' :
  Plugin.flags !! i = Some f → spelled f v [arg] → flag_set f v o = Some o' → reads Plugin.flags arg o o'.
Proof. intros Hf. apply (reads_own _ plugin_names plugin_good). by eapply list_elem_of_lookup_2. Qed.

(** The next argument is the flag at position [i], with the value [v] after two dashes or one. *)
Ltac dashes := first [apply list_elem_of_here | apply list_elem_of_further, list_elem_of_here].
Ltac set_flag lem i v :=
  eapply reads_cons;
  [ first [ eapply (lem i _ v); [reflexivity|refine (spelled_equals _ "--" v _); dashes|reflexivity]
          | eapply (lem i _ v); [reflexivity|refine (spelled_equals _ "-" v _); dashes|reflexivity]
          | eapply (lem i _ v); [reflexivity|refine (spelled_bare _ "--" _ _); [dashes|reflexivity]|reflexivity] ]|].
Ltac set_level names good dash n :=
  eapply reads_cons; [apply (reads_level _ names good dash n); [dashes|]|].

(** What the chart says about the metrics server sets its address only: security is on already. *)
Lemma operator_metrics v env o :
  o = operator_flags (WithChart v) →
  reads_all Operator.flags (expand env <$> chart_metrics v)
    (Operator.MkFlags "0" (healthProbe_bindAddress v) true true "" "tls.crt" "tls.key" "" "tls.crt" "tls.key" false false) o.
Proof.
  intros ->. unfold operator_flags, metrics_address, chart_metrics.
  destruct (metrics_enabled v); [|apply reads_nil].
  cbn [fmap list_fmap]. rewrite expand_texts. set_flag operator_reads 0 (":" +:+ metricsPort v).
  destruct (metrics_secure v); [|apply reads_nil]. cbn [fmap list_fmap]. rewrite expand_text.
  set_flag operator_reads 3 "true". apply reads_nil.
Qed.
Lemma plugin_metrics v env e n p b :
  reads_all Plugin.flags (expand env <$> chart_metrics v)
    (Plugin.MkFlags e n "0" p b true false false)
    (Plugin.MkFlags e n (if metrics_enabled v then ":" +:+ metricsPort v else "0") p b true false false).
Proof.
  unfold chart_metrics. destruct (metrics_enabled v); [|apply reads_nil].
  cbn [fmap list_fmap]. rewrite expand_texts. set_flag plugin_reads 2 (":" +:+ metricsPort v).
  destruct (metrics_secure v); [|apply reads_nil]. cbn [fmap list_fmap]. rewrite expand_text.
  set_flag plugin_reads 5 "true". apply reads_nil.
Qed.

Lemma operator_line_read d node :
  reads_all Operator.flags (command_line d OperatorContainer node) Operator.defaults (operator_flags d).
Proof.
  unfold command_line, container_args. destruct d as [|v].
  - cbn [kustomize_args kustomize_operator metrics_patch fmap list_fmap]. rewrite !expand_text.
    set_flag operator_reads 0 ":8443". set_flag operator_reads 2 "true". set_flag operator_reads 1 ":8081".
    apply reads_nil.
  - cbn [chart_args]; unfold chart_operator, chart_csi_controller, chart_csi_node. rewrite !fmap_app. apply (reads_all_app _ _ _ _
      (Operator.MkFlags "0" (healthProbe_bindAddress v) true true "" "tls.crt" "tls.key" "" "tls.crt" "tls.key" false false)).
    + cbn [fmap list_fmap]. rewrite expand_text, expand_texts.
      set_flag operator_reads 2 "true". set_flag operator_reads 1 (healthProbe_bindAddress v). apply reads_nil.
    + eapply reads_all_app; [by apply operator_metrics|]. cbn [fmap list_fmap]. rewrite expand_texts.
      set_level (proj2 Operator.flags_registered) operator_good "--" (helm_default 2 (logLevel v));
        [apply helm_default_pos; lia|apply reads_nil].
Qed.

Lemma plugin_line_read d c node :
  c ≠ OperatorContainer → reads_all Plugin.flags (command_line d c node) Plugin.defaults (plugin_flags d c node).
Proof.
  intros Hc. unfold command_line, container_args. destruct d as [|v]; destruct c; [done| | |done| |].
  1, 2: cbn [kustomize_args kustomize_csi_controller kustomize_csi_node metrics_patch fmap list_fmap]; rewrite !expand_text, expand_address, expand_node by done.
  - set_flag plugin_reads 2 ":8443". set_flag plugin_reads 4 "true". set_flag plugin_reads 3 ":8081".
    set_flag plugin_reads 0 csi_address. set_flag plugin_reads 1 node.
    set_level plugin_names plugin_good "--" 2; [lia|apply reads_nil].
  - set_flag plugin_reads 3 ":8081". set_flag plugin_reads 0 csi_address. set_flag plugin_reads 1 node.
    set_level plugin_names plugin_good "--" 2; [lia|apply reads_nil].
  - cbn [chart_args]; unfold chart_operator, chart_csi_controller, chart_csi_node. rewrite !fmap_app. eapply reads_all_app; [|eapply reads_all_app; [apply plugin_metrics|]].
    + cbn [fmap list_fmap]. rewrite expand_text, expand_texts. set_flag plugin_reads 4 "true".
      set_flag plugin_reads 3 (healthProbe_bindAddress v). apply reads_nil.
    + cbn [fmap list_fmap]. rewrite expand_address, expand_node, expand_texts by done.
      set_flag plugin_reads 0 csi_address. set_flag plugin_reads 1 node.
      set_level plugin_names plugin_good "--" (helm_default 2 (logLevel v)); [apply helm_default_pos; lia|apply reads_nil].
  - cbn [chart_args]; unfold chart_operator, chart_csi_controller, chart_csi_node. rewrite !fmap_app. eapply reads_all_app; [|eapply reads_all_app; [apply plugin_metrics|]].
    + cbn [fmap list_fmap]. rewrite expand_texts.
      set_flag plugin_reads 3 (healthProbe_bindAddress v). apply reads_nil.
    + cbn [fmap list_fmap]. rewrite expand_address, expand_node, expand_texts by done.
      set_flag plugin_reads 0 csi_address. set_flag plugin_reads 1 node.
      set_level plugin_names plugin_good "-" (helm_default 2 (logLevel v)); [apply helm_default_pos; lia|apply reads_nil].
Qed.
End flags.

(** ** The processes *)

(** The program of a container, and the calls its process makes. *)
Definition program_of (c : container) : program_name :=
  match c with OperatorContainer => OperatorProgram | _ => PluginProgram end.

(** [filters.WithAuthenticationAndAuthorization] has the API server review tokens and accesses. *)
Definition filter_needs : list permission :=
  [Permission "create" "authentication.k8s.io" "tokenreviews";
   Permission "create" "authorization.k8s.io" "subjectaccessreviews"].

Section processes.
Context {W : Type} `{HC : Client W} `{!ControllerUtil W} `{!OperatorGo}.
Context `{!LibraryFlags} `{!ZapLevels} `{!Environment W} `{GrpcLaws} `{Build}.

Definition process_calls (c : container) (args : list string) : list (action W) :=
  match c with
  | OperatorContainer => (Operator.main args []).1
  | _ => (Plugin.main args []).1
  end.

Lemma operator_parsed d node : ∃ lib,
  Operator.command (command_line d OperatorContainer node) = Parsed (operator_flags d, lib) [].
Proof. apply reads_all_Parsed, operator_line_read. Qed.

Lemma plugin_parsed d c node : c ≠ OperatorContainer → ∃ lib, ∀ t : list (action W),
  parse_flags Plugin.flags Plugin.defaults (command_line d c node) t = (t, inl (plugin_flags d c node, lib)).
Proof.
  intros Hc. unfold parse_flags. rewrite register_Ok, app_nil_l.
  - destruct (reads_all_Parsed _ _ _ _ lib_defaults (plugin_line_read d c node Hc)) as [lib ->]. by exists lib.
  - apply (Forall_fmap flag_name (λ n, flag_named n = true)). rewrite Operator.all_flags_names.
    apply (bool_decide_unpack _). by vm_compute.
  - apply plugin_names.
Qed.

(** The manager of a plugin has the options of its command line. *)
Lemma plugin_manager d c node m :
  c ≠ OperatorContainer → NewManager m ∈ (Plugin.main (command_line d c node) []).1 →
  m = Plugin.manager_options Operator.scheme (plugin_flags d c node).
Proof.
  intros Hc. unfold Plugin.main, Plugin.setup, init, Must, or_exit, call_, bind, call, ret, exit.
  repeat (destruct (answer _ _); [cbn; set_solver|]).
  destruct (plugin_parsed d c node Hc) as [lib Hp]. rewrite Hp. cbn [Plugin.versionInfo plugin_flags].
  unfold bind, call, ret, exit. cbn. repeat (destruct (answer _ _); [cbn; set_solver|]). cbn. set_solver.
Qed.

Lemma plugin_runs d c node :
  (∀ t a, answer t a = None) → c ≠ OperatorContainer →
  ∃ trace, Plugin.main (command_line d c node) [] = (trace, inl (Plugin.launch (plugin_flags d c node))) ∧
    NewManager (Plugin.manager_options Operator.scheme (plugin_flags d c node)) ∈ trace.
Proof.
  intros Hok Hc. unfold Plugin.main, Plugin.setup, init, Must, or_exit, call_, bind, call, ret, exit.
  rewrite !Hok. cbn. destruct (plugin_parsed d c node Hc) as [lib Hp].
  rewrite Hp. cbn [Plugin.versionInfo plugin_flags]. unfold bind, call, ret. rewrite !Hok. cbn.
  eexists. split; [done|set_solver].
Qed.

Lemma operator_runs d node :
  (∀ t a, answer t a = None) → ∃ lib,
  Operator.main (command_line d OperatorContainer node) [] =
    ((Operator.init_plan ++ Operator.setup_plan (operator_flags d) lib).*1 ++ [StartManager (W:=W)], inl ()).
Proof.
  intros Hok. destruct (operator_parsed d node) as [lib Hp]. exists lib. unfold Operator.command in Hp.
  unfold Operator.main, Operator.serve, init, Must, or_exit, call_, bind, call, ret, exit. rewrite !Hok.
  unfold parse_flags. rewrite (proj1 Operator.flags_registered), Hp. cbn [Operator.showVersion operator_flags].
  unfold ret. repeat (cbn; rewrite Hok). done.
Qed.

(** A driver with a node ID serves on the endpoint it was given. *)
Lemma driver_serving node ep : node ≠ "" → ∃ drv run,
  NewDriver node ep = Ok drv ∧ Run drv = (Ok run, Run_calls) ∧
  run_node run = NewNodeServer node ∧ endpoint (run_server run) = ep.
Proof.
  intros Hn. destruct (NewDriver_Ok node ep) as (g & _ & Hd). eexists _, _. split; [exact Hd|].
  unfold Run. simpl. by rewrite bool_decide_eq_false_2.
Qed.

(** C22: Every container starts serving, for any values of the chart and on any node: its command
    line is accepted whole, and when the libraries report no error, the operator reaches
    [mgr.Start], and the plugin a running manager and a driver, whose node service answers for
    the node and whose server listens on the socket its sidecars connect to. *)
Theorem containers_serve d node :
  (∀ t a, answer t a = None) → node ≠ "" →
  (∃ lib, Operator.main (command_line d OperatorContainer node) [] =
     ((Operator.init_plan ++ Operator.setup_plan (operator_flags d) lib).*1 ++ [StartManager (W:=W)], inl ())) ∧
  ∀ c, c ≠ OperatorContainer →
    (∃ trace : list (action W), Plugin.main (command_line d c node) [] =
       (trace, inl (Plugin.Running true (initial.1, [Run_calls]))) ∧
       NewManager (Plugin.manager_options Operator.scheme (plugin_flags d c node)) ∈ trace) ∧
    (∃ drv run, NewDriver (Plugin.nodeID (plugin_flags d c node)) (Plugin.endpoint (plugin_flags d c node)) = Ok drv ∧
       Run drv = (Ok run, Run_calls) ∧ run_node run = NewNodeServer node ∧
       ParseEndpoint (endpoint (run_server run)) = Ok ("unix", "/csi/csi.sock")).
Proof.
  intros Hok Hn. split; [by apply operator_runs|]. intros c Hc.
  destruct (driver_serving node csi_address Hn) as (drv & run & Hdrv & Hrun & Hnode & Hep). split.
  - destruct (plugin_runs d c node Hok Hc) as (trace & Hmain & Hmgr). exists trace. split; [|done].
    rewrite Hmain. unfold Plugin.launch. cbn [Plugin.nodeID Plugin.endpoint plugin_flags]. by rewrite Hdrv, Hrun.
  - exists drv, run. split_and!; [done..|]. by rewrite Hep.
Qed.

(** C39: The chart's switch between HTTPS and HTTP has no effect, and its metrics cannot be read: in
    each of the three containers, whatever [metrics.secure] says and whatever scheme the chart
    gives the port of that name, metrics are served over HTTPS and behind authentication, since
    the flag for HTTP is never passed; and none of the chart's roles has the rights the
    authentication needs, which those of config have. *)
Theorem chart_metrics_unusable v c node m :
  metrics_enabled v = true → NewManager m ∈ process_calls c (command_line (WithChart v) c node) →
  BindAddress (mo_Metrics m) = ":" +:+ metricsPort v ∧ SecureServing (mo_Metrics m) = true ∧
  ms_FilterProvider (mo_Metrics m) = Some WithAuthenticationAndAuthorization ∧
  (metrics_secure v = false → metricsScheme v = "http") ∧
  Forall (λ p, ¬ allows (bound_roles Chart (program_of c)) p ∧ allows (bound_roles Kustomize (program_of c)) p)
    filter_needs.
Proof.
  intros Hv Hm. assert (∃ b, mo_Metrics m = {| BindAddress := metrics_address (WithChart v) c; SecureServing := true;
    ms_TLSOpts := b; ms_FilterProvider := Some WithAuthenticationAndAuthorization;
    ms_CertDir := ""; ms_CertName := ""; ms_KeyName := "" |}) as [b ->].
  { destruct c; simpl in Hm.
    2, 3: apply plugin_manager in Hm as ->; [by eexists|done].
    destruct (Operator.main (command_line (WithChart v) OperatorContainer node) []) as [trace r] eqn:Hrun.
    destruct (Operator.manager_made _ _ _ _ Hrun Hm) as (o & lib & rest & Hcmd & ->).
    destruct (operator_parsed (WithChart v) node) as [lib' Hp]. rewrite Hp in Hcmd. injection Hcmd as <- _ _.
    by eexists. }
  simpl. rewrite Hv. split_and!; [done..| |].
  - unfold metricsScheme. by intros ->.
  - destruct c; apply (bool_decide_unpack _); by vm_compute.
Qed.
End processes.

(** ** Witnesses *)

#[export] Instance fake_levels : @ZapLevels Operator.fake_library.
Proof.
  intros f Hf Hname. cbn in Hf.
  repeat (apply elem_of_cons in Hf as [->|Hf]; [cbn in Hname; split; [done|]; intros; by eexists|]).
  by apply not_elem_of_nil in Hf.
Qed.

(** The values of values.yaml. *)
Definition chart_values : Values :=
  {| metrics_enabled := true; metrics_secure := false; metrics_port := 0;
     healthProbe_bindAddress := ":8081"; logLevel := 2 |}.

Lemma containers_serve_witness :
  ∃ trace : list (@action cluster Operator.fake_library),
    @Plugin.main cluster Operator.fake_library Operator.fake_environment release fake_grpc
      (command_line (WithChart chart_values) CsiNodeContainer "node-1") [] =
    (trace, inl (Plugin.Running true (initial.1, [Run_calls]))).
Proof.
  destruct (@containers_serve cluster _ _ _ Operator.fake_library fake_levels Operator.fake_environment
    fake_grpc fake_grpc_laws release (WithChart chart_values) "node-1") as [_ Hplugin]; [done..|].
  destruct (Hplugin CsiNodeContainer) as [(trace & Hmain & _) _]; [done|]. exists trace. exact Hmain.
Defined.

Definition node_manager : ManagerOptions :=
  Plugin.manager_options Operator.scheme (plugin_flags (WithChart chart_values) CsiNodeContainer "node-1").

Lemma chart_metrics_unusable_witness :
  BindAddress (mo_Metrics node_manager) = ":8080" ∧ SecureServing (mo_Metrics node_manager) = true ∧
  metricsScheme chart_values = "http".
Proof.
  destruct (@chart_metrics_unusable cluster _ _ _ Operator.fake_library fake_levels Operator.fake_environment
    fake_grpc fake_grpc_laws release chart_values CsiNodeContainer "node-1" node_manager)
    as (Hb & Hs & _ & Hscheme & _).
  - reflexivity.
  - apply (list_elem_of_lookup_2 _ 5). reflexivity.
  - split; [exact Hb|]. split; [exact Hs|]. apply Hscheme. reflexivity.
Defined.
